(* ===== verification/_CoqProject ===== *)
-Q . S2P
Prelude.v
GoNet.v
GoJson.v
GoTime.v
CniTypes.v
World.v
Services.v
Sim.v
Nl.v
Lock.v
AwsClient.v
Cache.v
Limits.v
Subnets.v
Registry.v
Vpc.v
Allocate.v
Eni.v
CniConf.v
Ipam.v
Ipvlan.v
Ptp.v
Tool.v
