(* ===== verification/Prelude.v ===== *)
(** * cni-ipvlan-vpc-k8s: a verification development

    The program gives Kubernetes Pods addresses of an AWS VPC.  Three CNI plugins
    run one after the other for each Pod: [plugin/ipam] finds or allocates an
    address of one of the instance's network interfaces (ENIs), [plugin/ipvlan]
    makes an ipvlan link with it in the Pod's namespace, and
    [plugin/unnumbered-ptp] adds a veth pair, routes and rules to the host.  A
    command-line tool inspects and maintains the same state.  The plugins are
    separate processes: what lasts between two calls is the registry of free
    addresses, the file caches and the state of EC2 and of the kernel, and the
    registry is guarded by a machine-wide file lock.

    ** How the program is modelled

    A Go function is a state transformer [M X A := World X -> outcome A * World X]
    with the name the source gives it (prefixed where two packages use one
    name: [ipam_cmdAdd], [ipvlan_cmdAdd], [ptp_cmdAdd], [nl_RemoveInterface]).
    [World] holds the files, the directories, the clock, the AWS client singleton,
    the output and the state [X] of everything outside.  A Go error is a value
    ([result], [option error]); [outcome] tells a return from a panic and from
    exhausted fuel.  Code that is not of this repository (the AWS SDK, netlink,
    Docker, iptables, the CNI library, the lock file, Go's run-time choices such
    as the order of maps, random numbers and latencies) is a class of operations
    on [X], without laws except documented ones such as "[sort.Slice] permutes
    and sorts".  [Sim] instantiates all of them with a host that computes; every
    theorem with a hypothesis is applied there to a concrete input.

    ** The files, bottom up

    - [Prelude]: errors, results, machine integers, list and option lemmas,
      the tactics all files share.
    - [GoNet], [GoJson], [GoTime]: the parts of [net], [encoding/json] and [time]
      that are used; [GoTime] also holds lib/jsontime.go.
    - [CniTypes]: the structs the components exchange.
    - [World]: the state, the monad with its notations, loops, files, clock,
      and the program logic: [wp] (total correctness), [frame] (relations every
      step respects), [ensures], [terminates], [total], with the hint databases that
      discharge them by following the code.
    - [Services]: the interfaces of the code outside; [Sim]: the concrete host.
    - [Nl]: nl/up.go, down.go, mtu.go, docker.go, desc.go.
    - [Lock]: lib/lock.go, [LockfileRun].
    - [AwsClient]: aws/client.go, metadata.go, bugs.go.
    - [Cache]: aws/cache/cacheable.go, against the class [JsonCodec], of which
      [Limits] (aws/limits.go), [Subnets] (aws/subnets.go, util.go) and [Vpc]
      (aws/vpc.go) give instances.
    - [Registry]: aws/registry.go and aws/freeip.go, one file because loading
      a missing registry scans the free addresses and the scan updates the
      registry.
    - [Allocate]: aws/allocate.go; [Eni]: aws/interface.go.
    - [CniConf]: what the plugins' configurations share; [Ipam], [Ipvlan],
      [Ptp]: the three plugins, plugin/<name>/*.go.
    - [Tool]: cmd/cni-ipvlan-vpc-k8s-tool.

    ** What the theorems show

    - The registry.  [registry_refines]: any sequence of operations on the file
      behaves as a map from addresses to release times.  Loading a missing or
      an unreadable file ([load_missing_prefills], [unreadable_registry_resets]);
      the scan for free addresses, exact without updates ([FindFreeIPs_exact])
      and leaving the registry in step with the host with them
      ([FindFreeIPs_syncs]); [Jitter_forward].
    - Addresses.  What is allocated is new, distinct and recorded
      ([AllocateIPsOn_sound], [AllocateIPsOn_recorded], [request_count_bounds]),
      on the interface in the subnet with the most free addresses
      ([AllocateIPs_best_interface]); what is released is exactly what was asked
      ([DeallocateIP_exact]); on a host without a registry the first allocation
      fails ([AllocateIPsOn_without_registry]).
    - Interfaces.  Where a new one goes ([NewInterface_placement]), that a refused
      attachment is rolled back ([attach_failure_rolls_back]), that its addresses
      are in the registry when it is returned ([NewInterface_tracks_ips]), and
      that, however a removal ends, every deletion it asked for came after the
      detachment was seen ([RemoveInterface_waits], which follows the requests
      with the class [DeletionLog]), with the panic on an interface that is not
      attached ([RemoveInterface_unattached_panics]).
    - The lock: mutual exclusion and release, panics included
      ([LockfileRun_exclusive]), and giving up ([LockfileRun_busy]).
    - The plugins.  What ADD prints, once and only on success
      ([ipam_cmdAdd_prints], [ipvlan_cmdAdd_prints], [ptp_cmdAdd_prints]); how each
      is chained to the one before ([chained_after_ipam], [chained_after_ipvlan]);
      an address is reused only when free for long enough ([reuse_waits]); the
      gateway and the DNS server printed lie in their networks, when these are
      IPv4 networks of at most 30 bits ([ipam_gateway_in_network]); what DEL has done
      ([ipam_cmdDel_tracks], [ptp_cmdDel_done]); tables, rules and node ports
      ([findFreeTable_least], [addPolicyRules_done], [setupNodePortRule_done]); the
      silent failure of [ipam_main] ([ipam_main_silent]); and that all of them
      end, whatever the services answer ([plugins_terminate],
      [eni_operations_terminate]).
    - The tool: [registry_gc_reaps], [filterBuild_exact], [maxpods_answers]; every
      command ends ([tool_terminates]).
    - What is read of AWS and of the host: the interfaces are well formed and
      sorted ([GetInterfaces_typed]), the subnets are those EC2 describes
      ([fetchSubnets_described]), the peers' networks exactly the valid blocks
      of the peers ([fetchVPCPeerCIDRs_exact]), the limits are asked for once a
      day ([ENILimits_cached]), the bound addresses those of the host and of
      every named namespace and running container that can be read
      ([GetIPs_parts]); a failed identity
      document is never asked for again ([iddoc_failure_sticks]).
    - The formats: [cache_roundtrip], [JSONTime_roundtrip].

    ** Fuel and bounds

    A loop over a list is structural.  The others have fuel, and a theorem or
    lemma says it is never exhausted: [UpInterfacePoll] 202 rounds (20 s in steps
    of 100 ms), the settling of an interface 32 (30 s in steps of 1 s), the lock
    1000 tries, [first_free] one more than the table numbers in use, [try_tables],
    [await_ips] and [wait_detached] their own counters.  These rest on the clock:
    [time_Sleep] advances it by what was asked at least, and it never goes back.
    Integers wrap at 64 bits where the code computes with them ([wrap64]).  A
    registry entry or a cache entry is written for instants up to [max_clock], the
    end of the year 9999, beyond which [MarshalJSON] of Go's time fails.

    ** What is not modelled

    - The wiring of [skel.PluginMain] and of the cli library (flags reach the
      actions as a [Context]), what is written to stderr, the goroutine pinning
      of [init], the log.
    - The text of JSON: a file or a configuration is the syntax tree; numbers
      are integers, so a fraction in a previous result is not represented.
    - Crashes and other processes.  A file just created is empty ([FInvalid])
      until its document is written, so a write that fails is modelled; a
      process killed in between is not a step.  Processes interleave only
      between whole runs, which is what the lock gives those that take it.
    - The rest of the AWS SDK, netlink, Docker and iptables: they answer what they
      like, subject to the hypotheses a theorem names.
    - doc.go and nl/doc.go: comments only. *)

From stdpp Require Export base list strings gmap sorting pretty.
From Stdlib Require Export ZArith Lia.

#[export] Set Warnings "-clear-no-such-hyp".
Open Scope Z_scope.

(** ** Go values of type [error]

    An error is kept as the code builds it: a value made by code outside
    the repository ([ExtErr], identified by a code), a [fmt.Errorf] with its
    format and arguments left unexpanded, or an [errors.Wrap]. *)
#[local] Unset Elimination Schemes.
Inductive error :=
  | ExtErr (code : string)
  | Errorf (format : string) (args : list earg)
  | Wrapped (cause : error) (msg : string)
with earg :=
  | AStr (s : string)
  | AInt (z : Z)
  | ABytes (b : list Z)
  | ABool (b : bool)
  | AList (l : list earg)
  | AErr (e : option error).
#[local] Set Elimination Schemes.

(** A Go [(T, error)] result of a function that returns the zero value of
    [T] whenever it returns an error. *)
Inductive result (A : Type) :=
  | Ok (a : A)
  | Err (e : error).
Arguments Ok {A} a.
Arguments Err {A} e.

Definition is_ok {A} (r : result A) : bool :=
  match r with Ok _ => true | Err _ => false end.

(** The value part of a result, as Go's [v, _ := f()] reads it. *)
Definition result_value {A} (zero : A) (r : result A) : A :=
  match r with Ok a => a | Err _ => zero end.

Lemma Sorted_impl {A} (R S : A -> A -> Prop) l : (forall a b, R a b -> S a b) -> Sorted R l -> Sorted S l.
Proof. intros H. induction 1 as [|a l _ IH Hd]; constructor; [done|]. destruct Hd; constructor. by apply H. Qed.

(** Linear arithmetic with divisions by constants. *)
Ltac zdiv_lia := Z.to_euclidean_division_equations; lia.

(** ** 64-bit integers

    Go's [int] and [int64] on the supported platforms. *)
Definition wrap64 (z : Z) : Z := (z + 2^63) mod 2^64 - 2^63.
Definition int64_min : Z := - 2^63.
Definition int64_max : Z := 2^63 - 1.

Lemma wrap64_id z : int64_min <= z <= int64_max -> wrap64 z = z.
Proof. unfold wrap64, int64_min, int64_max. intros H. rewrite Z.mod_small; lia. Qed.

Lemma wrap64_range z : int64_min <= wrap64 z <= int64_max.
Proof.
  unfold wrap64, int64_min, int64_max.
  pose proof (Z.mod_pos_bound (z + 2^63) (2^64) ltac:(lia)). lia.
Qed.

Lemma wrap64_idem z : wrap64 (wrap64 z) = wrap64 z.
Proof. apply wrap64_id, wrap64_range. Qed.

(** ** Strings as lists of characters *)
Definition chars (s : string) : list Ascii.ascii := String.list_ascii_of_string s.
Definition str (l : list Ascii.ascii) : string := String.string_of_list_ascii l.

Lemma chars_str l : chars (str l) = l.
Proof. apply String.list_ascii_of_string_of_list_ascii. Qed.

Lemma str_chars s : str (chars s) = s.
Proof. apply String.string_of_list_ascii_of_string. Qed.

Lemma chars_inj s1 s2 : chars s1 = chars s2 -> s1 = s2.
Proof. intros H. rewrite <- (str_chars s1), <- (str_chars s2). by rewrite H. Qed.

Lemma chars_app s1 s2 : chars (s1 +:+ s2) = chars s1 ++ chars s2.
Proof. unfold chars. induction s1 as [|c s IH]; [done|]. 
  change (c :: String.list_ascii_of_string (s +:+ s2) =
    c :: (String.list_ascii_of_string s ++ String.list_ascii_of_string s2)).
  by rewrite IH.
Qed.

(** Decimal digits. *)
Definition char_code (c : Ascii.ascii) : Z := Z.of_N (Ascii.N_of_ascii c).
Definition is_digit (c : Ascii.ascii) : bool :=
  (48 <=? char_code c) && (char_code c <=? 57).
Definition digit_val (c : Ascii.ascii) : Z := char_code c - 48.
Definition digit_char (n : Z) : Ascii.ascii := Ascii.ascii_of_N (Z.to_N (n + 48)).

Lemma char_code_of_N n : 0 <= n < 256 -> char_code (Ascii.ascii_of_N (Z.to_N n)) = n.
Proof. intros H. unfold char_code. rewrite Ascii.N_ascii_embedding; lia. Qed.

Lemma digit_char_code n : 0 <= n < 10 -> char_code (digit_char n) = n + 48.
Proof. intros H. unfold digit_char. apply char_code_of_N. lia. Qed.

Lemma is_digit_char n : 0 <= n < 10 -> is_digit (digit_char n) = true.
Proof. intros H. unfold is_digit. rewrite digit_char_code by done. lia. Qed.

Lemma digit_val_char n : 0 <= n < 10 -> digit_val (digit_char n) = n.
Proof. intros H. unfold digit_val. rewrite digit_char_code by done. lia. Qed.

(** [strings.Split(s, sep)] for a separator of one character. *)
Fixpoint split_on (sep : Ascii.ascii) (l : list Ascii.ascii) : list (list Ascii.ascii) :=
  match l with
  | [] => [[]]
  | c :: t =>
      if bool_decide (c = sep) then [] :: split_on sep t
      else match split_on sep t with
           | [] => [[c]]
           | w :: ws => (c :: w) :: ws
           end
  end.
Definition strings_Split (s : string) (sep : Ascii.ascii) : list string :=
  str <$> split_on sep (chars s).

Fixpoint join_with (sep : list Ascii.ascii) (ws : list (list Ascii.ascii)) : list Ascii.ascii :=
  match ws with
  | [] => []
  | [w] => w
  | w :: rest => w ++ sep ++ join_with sep rest
  end.

Lemma split_on_ne sep l : split_on sep l <> [].
Proof. destruct l as [|c t]; [done|]. cbn. case_bool_decide; [done|]. by destruct (split_on sep t). Qed.

Lemma split_on_nosep sep w : sep ∉ w -> split_on sep w = [w].
Proof.
  induction w as [|c t IH]; intros H; [done|]. cbn.
  rewrite bool_decide_false by set_solver. by rewrite IH by set_solver.
Qed.

Lemma split_on_app sep w rest :
  sep ∉ w -> split_on sep (w ++ sep :: rest) = w :: split_on sep rest.
Proof.
  induction w as [|c t IH]; intros H; cbn.
  - by rewrite bool_decide_true.
  - rewrite bool_decide_false by set_solver. by rewrite IH by set_solver.
Qed.

(** Splitting what was joined gives the pieces back. *)
Lemma split_on_join sep ws :
  ws <> [] -> Forall (fun w => sep ∉ w) ws -> split_on sep (join_with [sep] ws) = ws.
Proof.
  intros Hne Hws. induction Hws as [|w rest Hw Hrest IH]; [done|].
  destruct rest as [|w' rest].
  - by apply split_on_nosep.
  - change (join_with [sep] (w :: w' :: rest)) with (w ++ sep :: join_with [sep] (w' :: rest)).
    by rewrite split_on_app, IH.
Qed.

(** Joining what was split gives the text back: [strings.Split] loses nothing. *)
Lemma join_split_on sep l : join_with [sep] (split_on sep l) = l.
Proof.
  induction l as [|c t IH]; [done|]. cbn. pose proof (split_on_ne sep t).
  case_bool_decide; subst; destruct (split_on sep t) as [|w [|w' ws]]; try done;
    cbn in *; by rewrite IH.
Qed.

Lemma split_on_nosep_all sep l : Forall (fun w => sep ∉ w) (split_on sep l).
Proof.
  induction l as [|c t IH]; cbn; [constructor; [apply not_elem_of_nil|done]|].
  case_bool_decide; [constructor; [apply not_elem_of_nil|done]|].
  destruct (split_on sep t) as [|w ws]; [by repeat constructor; rewrite list_elem_of_singleton|].
  apply Forall_cons in IH as [Hw Hws].
  constructor; [by intros [->|?]%elem_of_cons|done].
Qed.

(** ** Package [path] *)
Definition path_slash : Ascii.ascii := Ascii.ascii_of_N 47.

(** The elements of a cleaned path, innermost first: empty and ["."]
    elements go away and [".."] removes the element before it. *)
Definition clean_step (rooted : bool) (acc : list (list Ascii.ascii)) (e : list Ascii.ascii) :=
  if bool_decide (e = [] \/ e = chars ".") then acc
  else if bool_decide (e = chars "..") then
    match acc with
    | top :: rest => if bool_decide (top = chars "..") then e :: acc else rest
    | [] => if rooted then [] else [e]
    end
  else e :: acc.
Definition path_Clean (s : string) : string :=
  let l := chars s in
  let rooted := bool_decide (head l = Some path_slash) in
  let body := join_with [path_slash] (rev (foldl (clean_step rooted) [] (split_on path_slash l))) in
  if rooted then str (path_slash :: body)
  else if bool_decide (body = []) then "."%string else str body.

(** [path.Join] (and [filepath.Join]). *)
Definition path_Join (elems : list string) : string :=
  match List.filter (fun e => negb (bool_decide (e = EmptyString))) elems with
  | [] => EmptyString
  | es => path_Clean (str (join_with [path_slash] (chars <$> es)))
  end.

Example join_plain : path_Join ["/run"; "cni-ipvlan-vpc-k8s"; "registry.json"]
  = "/run/cni-ipvlan-vpc-k8s/registry.json"%string.
Proof. vm_compute. reflexivity. Qed.
Example join_dots : path_Join ["/run/x"; "../y/./z"] = "/run/y/z"%string.
Proof. vm_compute. reflexivity. Qed.

(** ** [strconv.Atoi] *)
Fixpoint digits_val (l : list Ascii.ascii) (n : Z) : option Z :=
  match l with
  | [] => Some n
  | c :: t => if is_digit c then digits_val t (n * 10 + digit_val c) else None
  end.
Definition strconv_Atoi (s : string) : result Z :=
  let fail := Err (Errorf "strconv.Atoi: parsing %q" [AStr s]) in
  let '(sign, l) :=
    match chars s with
    | c :: t => if Ascii.eqb c (Ascii.ascii_of_N 45) then (-1, t)
                else if Ascii.eqb c (Ascii.ascii_of_N 43) then (1, t) else (1, c :: t)
    | [] => (1, [])
    end in
  match l with
  | [] => fail
  | _ => match digits_val l 0 with
         | Some n => let v := sign * n in
                     if (int64_min <=? v) && (v <=? int64_max) then Ok v else fail
         | None => fail
         end
  end.

Example atoi_neg : strconv_Atoi "-12" = Ok (-12).
Proof. vm_compute. reflexivity. Qed.

(** *** Distinct names give distinct paths *)
Lemma split_on_app_sep sep l1 l2 : split_on sep (l1 ++ sep :: l2) = split_on sep l1 ++ split_on sep l2.
Proof.
  induction l1 as [|c t IH]; cbn.
  - by rewrite bool_decide_true.
  - case_bool_decide; [by rewrite IH|]. rewrite IH.
    pose proof (split_on_ne sep t). by destruct (split_on sep t).
Qed.

Lemma join_with_snoc sep (ws : list (list Ascii.ascii)) w :
  ws <> [] -> join_with sep (ws ++ [w]) = join_with sep ws ++ sep ++ w.
Proof.
  intros Hne. induction ws as [|v ws IH]; [done|]. destruct ws as [|u ws]; [done|].
  change ((v :: u :: ws) ++ [w]) with (v :: (u :: ws) ++ [w]).
  change (join_with sep (v :: u :: ws)) with (v ++ sep ++ join_with sep (u :: ws)).
  rewrite <- !app_assoc, <- IH by done. by destruct ws.
Qed.

(** A name that is one path element: not empty, no slash, not a dot name. *)
Definition simple_name (k : string) : Prop :=
  k <> EmptyString /\ (path_slash ∉ chars k) /\ k <> "."%string /\ k <> ".."%string.

Lemma simple_name_step rooted acc k : simple_name k -> clean_step rooted acc (chars k) = chars k :: acc.
Proof.
  intros (H1 & H2 & H3 & H4). unfold clean_step.
  rewrite bool_decide_false; [rewrite bool_decide_false; [done|]|].
  - intros E. by apply H4, chars_inj.
  - intros [E|E]; [apply H1|apply H3]; apply chars_inj; done.
Qed.

Lemma path_Join_name d k :
  d <> EmptyString -> simple_name k ->
  path_Join [d; k] = path_Clean (str (chars d ++ path_slash :: chars k)).
Proof.
  intros Hd (Hk & _). unfold path_Join. cbn [List.filter].
  by rewrite !bool_decide_false by done.
Qed.

(** The text of [path.Join(d, k)] ends in the name [k], after text that
    depends on [d] alone. *)
Lemma path_Join_prefix d :
  d <> EmptyString -> exists pre, forall k, simple_name k -> chars (path_Join [d; k]) = pre ++ chars k.
Proof.
  intros Hd. set (rooted := bool_decide (head (chars d) = Some path_slash)).
  set (acc := foldl (clean_step rooted) [] (split_on path_slash (chars d))).
  set (body k := join_with [path_slash] (rev acc ++ [chars k])).
  exists ((if rooted then [path_slash] else []) ++
          match rev acc with [] => [] | _ => join_with [path_slash] (rev acc) ++ [path_slash] end).
  intros k Hk. rewrite path_Join_name by done. unfold path_Clean. rewrite chars_str.
  assert (head (chars d ++ path_slash :: chars k) = head (chars d)) as ->.
  { destruct (chars d) eqn:E; [|done]. exfalso. apply Hd, chars_inj. done. }
  fold rooted. rewrite split_on_app_sep, foldl_app. fold acc.
  rewrite (split_on_nosep _ (chars k)) by apply Hk. cbn [foldl]. rewrite simple_name_step by done.
  cbn [rev]. assert (join_with [path_slash] (rev acc ++ [chars k]) =
    (match rev acc with [] => [] | _ => join_with [path_slash] (rev acc) ++ [path_slash] end) ++ chars k) as ->.
  { destruct (rev acc) as [|v ws] eqn:E; [done|]. rewrite join_with_snoc by done. by rewrite <- app_assoc. }
  rewrite <- app_assoc. destruct rooted; [by rewrite chars_str|].
  rewrite bool_decide_false; [by rewrite chars_str|].
  intros E. apply app_eq_nil in E as [_ E]. destruct Hk as (Hk & _). by apply Hk, chars_inj.
Qed.

Lemma path_Join_inj d k1 k2 :
  d <> EmptyString -> simple_name k1 -> simple_name k2 ->
  path_Join [d; k1] = path_Join [d; k2] -> k1 = k2.
Proof.
  intros Hd H1 H2 E. destruct (path_Join_prefix d Hd) as (pre & Hpre).
  apply (f_equal chars) in E. rewrite !Hpre in E by done. by apply app_inv_head, chars_inj in E.
Qed.

Lemma path_Clean_ne s : path_Clean s <> EmptyString.
Proof.
  unfold path_Clean. destruct (bool_decide _); [done|]. case_bool_decide as E; [done|].
  intros H. apply E. rewrite <- (chars_str (join_with _ _)), H. done.
Qed.
