(* ===== verification/GoNet.v ===== *)
(** * GoNet: the part of Go's package [net] the program uses

    Addresses are byte slices as in Go ([net.IP] of length 4 or 16, the nil
    address is the empty slice), with [ParseIP], [String], [Equal], [To4],
    [Mask], [CIDRMask] and [ParseCIDR] of Go 1.17 (the version the build
    uses), and the round trip between [String] and [ParseIP] that the
    registry, which keys its entries by text, depends on. *)

From S2P Require Export Prelude.

Abbreviation IP := (list Z) (only parsing).

Record IPNet := mkIPNet { net_IP : IP; net_Mask : list Z }.

#[export] Instance IPNet_eq_dec : EqDecision IPNet.
Proof. solve_decision. Defined.

Definition v4InV6Prefix : list Z := [0;0;0;0;0;0;0;0;0;0;255;255].

(** [net.IPv4(a, b, c, d)]: the 16-byte form. *)
Definition IPv4 (q : list Z) : IP := v4InV6Prefix ++ q.

(** [IP.To4]: the 4-byte form, nil when the address is not an IPv4 one. *)
Definition To4 (ip : IP) : option IP :=
  if bool_decide (length ip = 4%nat) then Some ip
  else if bool_decide (length ip = 16%nat /\ take 12 ip = v4InV6Prefix)
       then Some (drop 12 ip) else None.

(** [IP.Equal]: an IPv4 address equals its IPv6-mapped form. *)
Definition ip_Equal (ip x : IP) : bool :=
  if bool_decide (length ip = length x) then bool_decide (ip = x)
  else if bool_decide (length ip = 4%nat /\ length x = 16%nat)
       then bool_decide (take 12 x = v4InV6Prefix /\ ip = drop 12 x)
  else if bool_decide (length ip = 16%nat /\ length x = 4%nat)
       then bool_decide (take 12 ip = v4InV6Prefix /\ drop 12 ip = x)
  else false.

(** ** Parsing *)

Definition net_big : Z := 16777215. (* 0xFFFFFF *)

(** Decimal to integer: the value, the number of characters consumed, the rest. *)
Fixpoint dtoi_go (l : list Ascii.ascii) (n : Z) (i : nat) : option (Z * nat * list Ascii.ascii) :=
  match l with
  | c :: t =>
      if is_digit c then
        let n' := n * 10 + digit_val c in
        if net_big <=? n' then None else dtoi_go t n' (S i)
      else Some (n, i, l)
  | [] => Some (n, i, [])
  end.
Definition dtoi (l : list Ascii.ascii) : option (Z * nat * list Ascii.ascii) :=
  match dtoi_go l 0 0 with
  | Some (_, O, _) => None
  | r => r
  end.

Definition hex_val (c : Ascii.ascii) : option Z :=
  let k := char_code c in
  if (48 <=? k) && (k <=? 57) then Some (k - 48)
  else if (97 <=? k) && (k <=? 102) then Some (k - 97 + 10)
  else if (65 <=? k) && (k <=? 70) then Some (k - 65 + 10)
  else None.

Fixpoint xtoi_go (l : list Ascii.ascii) (n : Z) (i : nat) : option (Z * nat * list Ascii.ascii) :=
  match l with
  | c :: t =>
      match hex_val c with
      | Some d => let n' := n * 16 + d in
                  if net_big <=? n' then None else xtoi_go t n' (S i)
      | None => Some (n, i, l)
      end
  | [] => Some (n, i, [])
  end.
Definition xtoi (l : list Ascii.ascii) : option (Z * nat * list Ascii.ascii) :=
  match xtoi_go l 0 0 with
  | Some (_, O, _) => None
  | r => r
  end.

Definition dot : Ascii.ascii := Ascii.ascii_of_N 46.
Definition colon : Ascii.ascii := Ascii.ascii_of_N 58.
Definition slash : Ascii.ascii := Ascii.ascii_of_N 47.
Definition newline : Ascii.ascii := Ascii.ascii_of_N 10.

(** One iteration of the loop of [parseIPv4]: one octet, which has no leading
    zero and fits a byte. *)
Definition parse_octet (l : list Ascii.ascii) : option (Z * list Ascii.ascii) :=
  match dtoi l with
  | Some (n, c, rest) =>
      if 255 <? n then None
      else if (1 <? c)%nat && bool_decide (head l = Some (digit_char 0)) then None
      else Some (n, rest)
  | None => None
  end.

Fixpoint parseIPv4_loop (k : nat) (first : bool) (l : list Ascii.ascii) (acc : list Z)
    : option (list Z * list Ascii.ascii) :=
  match k with
  | O => Some (acc, l)
  | S k' =>
      match l with
      | [] => None
      | c :: t =>
          if negb first && negb (bool_decide (c = dot)) then None
          else match parse_octet (if first then l else t) with
               | Some (n, rest) => parseIPv4_loop k' false rest (acc ++ [n])
               | None => None
               end
      end
  end.

Definition parseIPv4 (l : list Ascii.ascii) : option IP :=
  match parseIPv4_loop 4 true l [] with
  | Some (q, []) => Some (IPv4 q)
  | _ => None
  end.

(** The loop of [parseIPv6] over the bytes parsed so far; an IPv6 address has
    at most eight groups, so nine rounds always reach one of its exits. *)
Fixpoint parseIPv6_loop (fuel : nat) (ip : list Z) (ellipsis : option nat) (l : list Ascii.ascii)
    : option (list Z * option nat * list Ascii.ascii) :=
  match fuel with
  | O => Some (ip, ellipsis, l)
  | S f =>
    if (16 <=? length ip)%nat then Some (ip, ellipsis, l) else
    match xtoi l with
    | None => None
    | Some (n, _, rest) =>
      if 65535 <? n then None else
      if bool_decide (head rest = Some dot) then
        if bool_decide (ellipsis = None) && negb (bool_decide (length ip = 12%nat)) then None
        else if (16 <? length ip + 4)%nat then None
        else match parseIPv4 l with
             | Some q => Some (ip ++ drop 12 q, ellipsis, [])
             | None => None
             end
      else
        let ip' := ip ++ [Z.shiftr n 8; Z.land n 255] in
        match rest with
        | [] => Some (ip', ellipsis, [])
        | c :: rest' =>
          if negb (bool_decide (c = colon)) then None else
          match rest' with
          | [] => None
          | c' :: rest'' =>
            if bool_decide (c' = colon) then
              match ellipsis with
              | Some _ => None
              | None => match rest'' with
                        | [] => Some (ip', Some (length ip'), [])
                        | _ => parseIPv6_loop f ip' (Some (length ip')) rest''
                        end
              end
            else parseIPv6_loop f ip' ellipsis rest'
          end
        end
    end
  end.

Definition parseIPv6 (l : list Ascii.ascii) : option IP :=
  let start :=
    match l with
    | c :: c' :: rest =>
        if bool_decide (c = colon /\ c' = colon) then (Some 0%nat, rest) else (None, l)
    | _ => (None, l)
    end in
  let '(ellipsis, l') := start in
  if bool_decide (ellipsis = Some 0%nat /\ l' = []) then Some (replicate 16 0) else
  match parseIPv6_loop 9 [] ellipsis l' with
  | Some (ip, ell, []) =>
      if (length ip <? 16)%nat then
        match ell with
        | None => None
        | Some e => Some (take e ip ++ replicate (16 - length ip) 0 ++ drop e ip)
        end
      else match ell with None => Some ip | Some _ => None end
  | _ => None
  end.

(** [net.ParseIP]: the first '.' or ':' of the text decides the family; [None]
    is the nil address. *)
Definition ParseIP (s : string) : option IP :=
  let l := chars s in
  match List.find (fun c => bool_decide (c = dot) || bool_decide (c = colon)) l with
  | Some c => if bool_decide (c = dot) then parseIPv4 l else parseIPv6 l
  | None => None
  end.

(** ** Printing *)

(** One byte in decimal, as [ubtoa] writes it. *)
Definition byte_digits (n : Z) : list Ascii.ascii :=
  if n <? 10 then [digit_char n]
  else if n <? 100 then [digit_char (n / 10); digit_char (n mod 10)]
  else [digit_char (n / 100); digit_char (n / 10 mod 10); digit_char (n mod 10)].

Definition hex_char (n : Z) : Ascii.ascii :=
  if n <? 10 then digit_char n else Ascii.ascii_of_N (Z.to_N (n - 10 + 97)).

(** [appendHex] for a 16-bit group: no leading zeros. *)
Definition group_hex (n : Z) : list Ascii.ascii :=
  let d k := hex_char (n / 16 ^ k mod 16) in
  if n <? 16 then [d 0] else if n <? 256 then [d 1; d 0]
  else if n <? 4096 then [d 2; d 1; d 0] else [d 3; d 2; d 1; d 0].

Fixpoint ip_groups (ip : list Z) : list Z :=
  match ip with
  | a :: b :: t => (Z.shiftl a 8 + b) :: ip_groups t
  | _ => []
  end.

Fixpoint zero_run (g : list Z) : nat :=
  match g with
  | 0 :: t => S (zero_run t)
  | _ => O
  end.

(** The search for the longest run of zero groups, [(e0, e1)] in groups. *)
Fixpoint longest_run (fuel i : nat) (g : list Z) (best : nat * nat) : nat * nat :=
  match fuel with
  | O => best
  | S f =>
      let n := zero_run (drop i g) in
      if (0 <? n)%nat && (best.2 - best.1 <? n)%nat
      then longest_run f (S (i + n)) g (i, (i + n)%nat)
      else longest_run f (S i) g best
  end.

Fixpoint print_groups (fuel i : nat) (g : list Z) (e0 e1 : nat) : list Ascii.ascii :=
  match fuel with
  | O => []
  | S f =>
      if (8 <=? i)%nat then [] else
      let emit j := group_hex (nth j g 0) ++ print_groups f (S j) g e0 e1 in
      if (e0 <? e1)%nat && (i =? e0)%nat then
        colon :: colon :: (if (8 <=? e1)%nat then [] else emit e1)
      else (if (0 <? i)%nat then [colon] else []) ++ emit i
  end.

Definition ipv6_String (ip : IP) : list Ascii.ascii :=
  let g := ip_groups ip in
  let '(e0, e1) := longest_run 8 0 g (0%nat, 0%nat) in
  if (e1 - e0 <=? 1)%nat then print_groups 9 0 g 0 0 else print_groups 9 0 g e0 e1.

Definition hex_bytes (ip : IP) : list Ascii.ascii :=
  concat ((fun b => [hex_char (b / 16); hex_char (b mod 16)]) <$> ip).

(** [IP.String]. *)
Definition ip_String (ip : IP) : string :=
  match To4 ip with
  | Some q => str (join_with [dot] (byte_digits <$> q))
  | None =>
      if bool_decide (length ip = 0%nat) then "<nil>"%string
      else if bool_decide (length ip = 16%nat) then str (ipv6_String ip)
      else ("?" +:+ str (hex_bytes ip))%string
  end.

(** ** Masks and networks *)

(** [CIDRMask(ones, bits)] with [bits] 32 or 128, for [ones] in range. *)
Definition CIDRMask (ones bits : Z) : list Z :=
  (fun k => 256 - 2 ^ (8 - Z.max 0 (Z.min 8 (ones - 8 * Z.of_nat k)))) <$> seq 0 (Z.to_nat (bits / 8)).

(** [IP.Mask]; the nil result is the empty slice. *)
Definition ip_Mask (ip : IP) (mask : list Z) : IP :=
  let mask' := if bool_decide (length mask = 16%nat /\ length ip = 4%nat /\
                               take 12 mask = replicate 12 255)
               then drop 12 mask else mask in
  let ip' := if bool_decide (length mask' = 4%nat /\ length ip = 16%nat /\
                             take 12 ip = v4InV6Prefix)
             then drop 12 ip else ip in
  if bool_decide (length ip' = length mask') then zip_with Z.land ip' mask' else [].

(** [net.ParseCIDR]: the address and its network. *)
Definition ParseCIDR (s : string) : result (IP * IPNet) :=
  let fail := Err (Errorf "invalid CIDR address: %s" [AStr s]) in
  match split_on slash (chars s) with
  | addr :: m1 :: ms =>
      let mask := join_with [slash] (m1 :: ms) in
      let v4 := parseIPv4 addr in
      let iplen := match v4 with Some _ => 4 | None => 16 end in
      match (match v4 with Some ip => Some ip | None => parseIPv6 addr end) with
      | None => fail
      | Some ip =>
          match dtoi mask with
          | Some (n, i, rest) =>
              if negb (bool_decide (i = length mask)) || (n <? 0) || (8 * iplen <? n) then fail
              else let m := CIDRMask n (8 * iplen) in
                   Ok (ip, mkIPNet (ip_Mask ip m) m)
          | None => fail
          end
      end
  | _ => fail
  end.

(** [simpleMaskLength]: the prefix length, -1 when the mask is not a prefix. *)
Fixpoint simple_mask_bits (l : list bool) (ones : Z) : Z :=
  match l with
  | true :: t => simple_mask_bits t (ones + 1)
  | _ => if forallb negb l then ones else -1
  end.
Definition byte_bits (b : Z) : list bool := (fun k => Z.testbit b (7 - Z.of_nat k)) <$> seq 0 8.
Definition simpleMaskLength (m : list Z) : Z := simple_mask_bits (concat (byte_bits <$> m)) 0.

(** [IPNet.String]. *)
Definition ipnet_String (n : IPNet) : string :=
  let ip := match To4 (net_IP n) with Some q => q | None => net_IP n end in
  let mask :=
    if bool_decide (length (net_Mask n) = 16%nat /\ length ip = 4%nat)
    then drop 12 (net_Mask n) else net_Mask n in
  if bool_decide (length ip = length mask /\ length ip <> 0%nat) then
    let l := simpleMaskLength mask in
    if l =? -1 then (ip_String ip +:+ "/" +:+ str (hex_bytes mask))%string
    else (ip_String ip +:+ "/" +:+ pretty l)%string
  else "<nil>"%string.

Example parse_dotted : ParseIP "10.0.12.255" = Some (IPv4 [10;0;12;255]).
Proof. vm_compute. reflexivity. Qed.
Example parse_octal_refused : ParseIP "10.0.012.1" = None.
Proof. vm_compute. reflexivity. Qed.
Example parse_v6 : ParseIP "fe80::1:0:0:2" = Some [254;128;0;0;0;0;0;0;0;1;0;0;0;0;0;2].
Proof. vm_compute. reflexivity. Qed.
Example print_v6 : ip_String [254;128;0;0;0;0;0;0;0;1;0;0;0;0;0;2] = "fe80::1:0:0:2"%string.
Proof. vm_compute. reflexivity. Qed.
Example print_v6_all_zero : ip_String (replicate 16 0) = "::"%string.
Proof. vm_compute. reflexivity. Qed.
Example print_v6_tail : ip_String [32;1;13;184;0;0;0;0;0;0;0;0;0;0;0;1] = "2001:db8::1"%string.
Proof. vm_compute. reflexivity. Qed.
Example parse_cidr_v4 :
  ParseCIDR "10.1.2.3/20" = Ok (IPv4 [10;1;2;3], mkIPNet [10;1;0;0] [255;255;240;0]).
Proof. vm_compute. reflexivity. Qed.
Example print_cidr_v4 : ipnet_String (mkIPNet [10;1;0;0] [255;255;240;0]) = "10.1.0.0/20"%string.
Proof. vm_compute. reflexivity. Qed.

(** ** Lemmas *)

Definition is_byte (b : Z) : Prop := 0 <= b < 256.

(** The two representations of an IPv4 address Go uses. *)
Definition is_ipv4 (ip : IP) : Prop :=
  exists q, To4 ip = Some q /\ length q = 4%nat /\ Forall is_byte q.

(** Text that can follow an octet. *)
Definition no_digit_head (l : list Ascii.ascii) : Prop :=
  match l with [] => True | c :: _ => is_digit c = false end.

Lemma dtoi_go_digit d t n i :
  0 <= d < 10 -> n * 10 + d < net_big ->
  dtoi_go (digit_char d :: t) n i = dtoi_go t (n * 10 + d) (S i).
Proof.
  intros Hd Hn. cbn [dtoi_go]. rewrite is_digit_char, digit_val_char by done.
  by rewrite (proj2 (Z.leb_gt _ _)).
Qed.

Lemma dtoi_go_stop t n i : no_digit_head t -> dtoi_go t n i = Some (n, i, t).
Proof. destruct t as [|c t]; [done|]. cbn. by intros ->. Qed.

Lemma digit_char_inj0 d : 0 <= d < 10 -> digit_char d = digit_char 0 -> d = 0.
Proof.
  intros Hd H. apply (f_equal digit_val) in H. by rewrite !digit_val_char in H by lia.
Qed.

Ltac octet_step := rewrite dtoi_go_digit by (unfold net_big; lia).

Lemma parse_octet_digits n rest :
  is_byte n -> no_digit_head rest -> parse_octet (byte_digits n ++ rest) = Some (n, rest).
Proof.
  intros [Hn0 Hn] Hr. unfold byte_digits, parse_octet, dtoi.
  pose proof (Z.mod_pos_bound n 10 ltac:(lia)).
  pose proof (Z.mod_pos_bound (n / 10) 10 ltac:(lia)).
  pose proof (Z.div_mod n 10 ltac:(lia)).
  pose proof (Z.div_mod (n / 10) 10 ltac:(lia)) as Hd10.
  rewrite Z.div_div in Hd10 by lia. change (10 * 10) with 100 in Hd10.
  destruct (Z.ltb_spec n 10); [|destruct (Z.ltb_spec n 100)]; cbn [app].
  - octet_step. rewrite dtoi_go_stop by done. cbn -[digit_char].
    rewrite (proj2 (Z.ltb_ge _ _)) by lia. done.
  - do 2 octet_step. rewrite dtoi_go_stop by done. cbn -[digit_char Z.div Z.modulo].
    rewrite bool_decide_false.
    2: { intros [= E]. apply digit_char_inj0 in E; lia. }
    replace ((0 * 10 + n / 10) * 10 + n mod 10) with n by lia.
    rewrite (proj2 (Z.ltb_ge _ _)) by lia. done.
  - do 3 octet_step. rewrite dtoi_go_stop by done. cbn -[digit_char Z.div Z.modulo].
    rewrite bool_decide_false.
    2: { intros [= E]. apply digit_char_inj0 in E; lia. }
    replace (((0 * 10 + n / 100) * 10 + (n / 10) mod 10) * 10 + n mod 10) with n by lia.
    rewrite (proj2 (Z.ltb_ge _ _)) by lia. done.
Qed.

Lemma byte_digits_head n : is_byte n -> exists d t, byte_digits n = digit_char d :: t /\ 0 <= d < 10.
Proof.
  intros [Hn0 Hn]. unfold byte_digits.
  destruct (Z.ltb_spec n 10); [|destruct (Z.ltb_spec n 100)]; do 2 eexists; (split; [done|]); zdiv_lia.
Qed.

Lemma parseIPv4_loop_digits q acc rest :
  Forall is_byte q -> no_digit_head rest ->
  parseIPv4_loop (length q) false
    (concat ((fun n => dot :: byte_digits n) <$> q) ++ rest) acc = Some (acc ++ q, rest).
Proof.
  intros Hq Hr. revert acc. induction Hq as [|n q Hn Hq IH]; intros acc; cbn -[byte_digits].
  - by rewrite app_nil_r.
  - rewrite <- app_assoc, parse_octet_digits; [|done|destruct q; [exact Hr|reflexivity]].
    by rewrite IH, <- app_assoc.
Qed.

Lemma concat_dot_join (q : list Z) n :
  join_with [dot] (byte_digits <$> n :: q) =
  byte_digits n ++ concat ((fun n => dot :: byte_digits n) <$> q).
Proof.
  revert n. induction q as [|m q IH]; intros n; cbn -[byte_digits]; [by rewrite app_nil_r|].
  f_equal. f_equal. exact (IH m).
Qed.

Lemma byte_digits_no_sep c n : is_byte n -> is_digit c = false -> c ∉ byte_digits n.
Proof.
  intros [Hn0 Hn] Hc Hin.
  assert (exists d, c = digit_char d /\ 0 <= d < 10) as (d & -> & Hd).
  { unfold byte_digits in Hin.
    destruct (Z.ltb_spec n 10); [|destruct (Z.ltb_spec n 100)];
      repeat (apply elem_of_cons in Hin as [->|Hin]; [eexists; split; [done|]; zdiv_lia|]);
      by apply elem_of_nil in Hin. }
  by rewrite is_digit_char in Hc.
Qed.

Lemma To4_IPv4 q : length q = 4%nat -> To4 (IPv4 q) = Some q.
Proof.
  intros H. unfold To4, IPv4. rewrite bool_decide_false, bool_decide_true; [done|..].
  - by rewrite length_app, H.
  - rewrite length_app, H. done.
Qed.

Lemma To4_length ip q : To4 ip = Some q -> length q = 4%nat.
Proof.
  unfold To4. repeat case_bool_decide; intros [= <-]; [done|].
  rewrite length_drop. lia.
Qed.

Lemma To4_shape ip q : To4 ip = Some q -> ip = q \/ ip = IPv4 q.
Proof.
  unfold To4. repeat case_bool_decide; intros [= <-]; [by left|].
  right. unfold IPv4. destruct_and!. rewrite <- (take_drop 12 ip) at 1. congruence.
Qed.

Lemma ip_Equal_refl ip : ip_Equal ip ip = true.
Proof. unfold ip_Equal. by rewrite !bool_decide_true. Qed.

(** On IPv4 addresses, [Equal] is equality of the four bytes. *)
Lemma ip_Equal_v4 a b qa qb :
  To4 a = Some qa -> To4 b = Some qb -> ip_Equal a b = bool_decide (qa = qb).
Proof.
  intros Ha Hb. pose proof (To4_length _ _ Ha) as La. pose proof (To4_length _ _ Hb) as Lb.
  apply To4_shape in Ha as [->| ->]; apply To4_shape in Hb as [->| ->]; unfold ip_Equal, IPv4;
    rewrite ?length_app, ?La, ?Lb; cbn -[take drop].
  - by rewrite bool_decide_true by congruence.
  - rewrite (bool_decide_false (4 = 16)%nat) by lia. rewrite bool_decide_true by done.
    apply bool_decide_ext. cbn. rewrite take_0, drop_0. intuition congruence.
  - rewrite (bool_decide_false (16 = 4)%nat) by lia.
    rewrite bool_decide_false by (intros [? _]; lia). rewrite bool_decide_true by done.
    apply bool_decide_ext. cbn. intuition congruence.
  - rewrite (bool_decide_true (16 = 16)%nat) by done. apply bool_decide_ext. split; [|congruence].
    intros [=]. done.
Qed.

(** The form of an IPv4 address does not matter to [Equal]. *)
Lemma ip_Equal_form y q : length q = 4%nat -> ip_Equal y (IPv4 q) = ip_Equal y q.
Proof.
  intros Hq. unfold ip_Equal. assert (length (IPv4 q) = 16%nat) as Hl by (unfold IPv4; rewrite length_app, Hq; done).
  assert (take 12 (IPv4 q) = v4InV6Prefix /\ drop 12 (IPv4 q) = q) as [E1 E2] by done.
  rewrite Hl, Hq. destruct (decide (length y = 4%nat)) as [Hy|Hy]; [|destruct (decide (length y = 16%nat)) as [Hz|Hz]].
  - rewrite Hy, (bool_decide_false (4 = 16)%nat), (bool_decide_true (4 = 4 /\ 16 = 16)%nat), (bool_decide_true (4 = 4)%nat) by lia.
    apply bool_decide_ext. rewrite E1, E2. naive_solver.
  - rewrite Hz, (bool_decide_true (16 = 16)%nat), (bool_decide_false (16 = 4)%nat),
      (bool_decide_false (16 = 4 /\ 4 = 16)%nat), (bool_decide_true (16 = 16 /\ 4 = 4)%nat) by lia.
    apply bool_decide_ext. unfold IPv4. split; [intros ->; done|]. intros [<- <-]. symmetry. apply take_drop.
  - rewrite !bool_decide_false by lia. done.
Qed.
Lemma ip_Equal_To4 y a b q : To4 a = Some q -> To4 b = Some q -> ip_Equal y a = ip_Equal y b.
Proof.
  intros Ha Hb. pose proof (To4_length _ _ Ha) as Hl.
  apply To4_shape in Ha as [->| ->]; apply To4_shape in Hb as [->| ->]; rewrite ?ip_Equal_form by done; done.
Qed.

Lemma parse_dotted_quad q :
  length q = 4%nat -> Forall is_byte q ->
  parseIPv4 (join_with [dot] (byte_digits <$> q)) = Some (IPv4 q).
Proof.
  intros Hl Hq. destruct q as [|n q]; [done|]. apply Forall_cons in Hq as [Hn Hq].
  unfold parseIPv4. rewrite concat_dot_join.
  destruct (byte_digits_head n Hn) as (d & t & E & Hd).
  assert (parseIPv4_loop 4 true (byte_digits n ++ concat ((fun n => dot :: byte_digits n) <$> q)) []
          = parseIPv4_loop 3 false (concat ((fun n => dot :: byte_digits n) <$> q)) [n]) as ->.
  { cbn [parseIPv4_loop]. rewrite E at 1. cbn [app negb andb].
    rewrite parse_octet_digits; [done|done|by destruct q]. }
  pose proof (parseIPv4_loop_digits q [n] [] Hq I) as H. rewrite app_nil_r in H.
  injection Hl as Hl. rewrite Hl in H. by rewrite H.
Qed.

(** The registry's keys: printing an IPv4 address and parsing the text back
    gives the same address (in the 16-byte form [ParseIP] returns). *)
Lemma ParseIP_String_v4 ip q :
  To4 ip = Some q -> Forall is_byte q -> ParseIP (ip_String ip) = Some (IPv4 q).
Proof.
  intros H4 Hq. pose proof (To4_length _ _ H4) as Hl.
  unfold ip_String. rewrite H4. unfold ParseIP. rewrite chars_str.
  assert (List.find (fun c => bool_decide (c = dot) || bool_decide (c = colon))
            (join_with [dot] (byte_digits <$> q)) = Some dot) as ->.
  { destruct q as [|n [|m q]]; [done|done|]. apply Forall_cons in Hq as [Hn _].
    rewrite concat_dot_join. generalize (concat ((fun n => dot :: byte_digits n) <$> q)). intros l.
    cbn [fmap list_fmap concat].
    assert ((dot ∉ byte_digits n) /\ (colon ∉ byte_digits n)) as [H1 H2]
      by (split; apply byte_digits_no_sep; done).
    induction (byte_digits n) as [|c t IH]; [done|]. cbn.
    rewrite !bool_decide_false by set_solver. cbn. apply IH; set_solver. }
  rewrite bool_decide_true by done. by apply parse_dotted_quad.
Qed.

(** IPv4 addresses with the same text are equal: the registry never confuses
    two addresses. *)
Lemma ip_String_inj a b :
  is_ipv4 a -> is_ipv4 b -> ip_String a = ip_String b -> ip_Equal a b = true.
Proof.
  intros (qa & Ha & La & Ba) (qb & Hb & Lb & Bb) E.
  pose proof (ParseIP_String_v4 a qa Ha Ba) as Pa. pose proof (ParseIP_String_v4 b qb Hb Bb) as Pb.
  rewrite E, Pb in Pa. injection Pa as E'.
  rewrite (ip_Equal_v4 a b qa qb Ha Hb). apply bool_decide_true.
  done.
Qed.

Lemma ip_String_Equal a b : is_ipv4 a -> is_ipv4 b -> ip_Equal a b = true -> ip_String a = ip_String b.
Proof.
  intros (qa & Ha & _) (qb & Hb & _). rewrite (ip_Equal_v4 a b qa qb Ha Hb).
  rewrite bool_decide_eq_true. intros ->. unfold ip_String. by rewrite Ha, Hb.
Qed.

Lemma is_ipv4_IPv4 q : length q = 4%nat -> Forall is_byte q -> is_ipv4 (IPv4 q).
Proof. intros Hl Hq. exists q. split_and!; [by apply To4_IPv4|done|done]. Qed.

(** ** IPv4 networks *)
Lemma dtoi_go_nonneg l n i r : 0 <= n -> dtoi_go l n i = Some r -> 0 <= r.1.1.
Proof.
  revert n i. induction l as [|c t IH]; intros n i Hn; cbn [dtoi_go]; [by intros [= <-]|].
  destruct (is_digit c) eqn:E; [|by intros [= <-]]. destruct (_ <=? _); [done|]. apply IH.
  unfold is_digit, digit_val in *. lia.
Qed.
Lemma dtoi_nonneg l n c rest : dtoi l = Some (n, c, rest) -> 0 <= n.
Proof.
  unfold dtoi. destruct (dtoi_go l 0 0) as [[[m k] r]|] eqn:E; [|done].
  apply dtoi_go_nonneg in E; [|done]. destruct k; [done|]. by intros [= <- <- <-].
Qed.
Lemma parse_octet_byte l n rest : parse_octet l = Some (n, rest) -> is_byte n.
Proof.
  unfold parse_octet. destruct (dtoi l) as [[[m c] r]|] eqn:E; [|done]. apply dtoi_nonneg in E.
  destruct (Z.ltb_spec 255 m); [done|]. destruct (_ && _); [done|]. intros [= <- <-]. unfold is_byte. lia.
Qed.
Lemma parseIPv4_loop_bytes k first l acc q rest :
  Forall is_byte acc -> parseIPv4_loop k first l acc = Some (q, rest) ->
  Forall is_byte q /\ length q = (length acc + k)%nat.
Proof.
  revert first l acc. induction k as [|k IH]; intros first l acc Ha; cbn [parseIPv4_loop].
  - intros [= <- <-]. split; [done|lia].
  - destruct l as [|c t]; [done|]. destruct (negb first && _); [done|].
    destruct (parse_octet _) as [[n r]|] eqn:E; [|done]. apply parse_octet_byte in E. intros H.
    apply IH in H as [H1 H2]; [|apply Forall_app; split; [done|by apply Forall_singleton]].
    split; [done|]. rewrite H2, length_app. cbn. lia.
Qed.
Lemma parseIPv4_shape l ip : parseIPv4 l = Some ip -> exists q, ip = IPv4 q /\ length q = 4%nat /\ Forall is_byte q.
Proof.
  unfold parseIPv4. destruct (parseIPv4_loop 4 true l []) as [[q [|? ?]]|] eqn:E; [|done..].
  intros [= <-]. apply parseIPv4_loop_bytes in E as [? ?]; [|done]. by exists q.
Qed.

(** What [ParseCIDR] returns for an IPv4 network: the address masked to a
    prefix. *)
Lemma ParseCIDR_v4 s ip n :
  ParseCIDR s = Ok (ip, n) -> length (net_Mask n) = 4%nat ->
  exists q ones, length q = 4%nat /\ Forall is_byte q /\ 0 <= ones <= 32 /\
    n = mkIPNet (zip_with Z.land q (CIDRMask ones 32)) (CIDRMask ones 32).
Proof.
  unfold ParseCIDR. destruct (split_on slash (chars s)) as [|addr [|m1 ms]]; [done..|].
  destruct (parseIPv4 addr) as [ip4|] eqn:E4.
  - apply parseIPv4_shape in E4 as (q & -> & Hq & Hb).
    destruct (dtoi _) as [[[ones i] rest]|]; [|done].
    destruct (negb (bool_decide _)); [done|]. destruct (Z.ltb_spec ones 0); [done|].
    destruct (Z.ltb_spec (8 * 4) ones); [done|]. cbn [orb]. intros [= <- <-] _.
    exists q, ones. split_and!; [done..|lia|lia|]. f_equal.
    destruct q as [|a [|b [|c [|d [|? ?]]]]]; done.
  - destruct (parseIPv6 addr) as [ip6|]; [|done]. destruct (dtoi _) as [[[ones i] rest]|]; [|done].
    destruct (_ || _); [done|]. intros [= <- <-]. cbn [net_Mask]. unfold CIDRMask. by rewrite length_fmap, length_seq.
Qed.

(** ** What parsing returns is well formed *)
Lemma xtoi_go_nonneg l n i r : 0 <= n -> xtoi_go l n i = Some r -> 0 <= r.1.1.
Proof.
  revert n i. induction l as [|c t IH]; intros n i Hn; cbn [xtoi_go]; [by intros [= <-]|].
  destruct (hex_val c) as [d|] eqn:E; [|by intros [= <-]]. destruct (_ <=? _); [done|]. apply IH.
  unfold hex_val in E. do 3 (destruct (_ && _) eqn:? in E; [injection E as <-; lia|]). done.
Qed.
Lemma xtoi_nonneg l n c rest : xtoi l = Some (n, c, rest) -> 0 <= n.
Proof.
  unfold xtoi. destruct (xtoi_go l 0 0) as [[[m k] r]|] eqn:E; [|done].
  apply xtoi_go_nonneg in E; [|done]. destruct k; [done|]. by intros [= <- <- <-].
Qed.
Lemma group_bytes n : 0 <= n <= 65535 -> Forall is_byte [Z.shiftr n 8; Z.land n 255].
Proof.
  intros Hn. change 255 with (Z.ones 8). rewrite Z.land_ones by lia. rewrite Z.shiftr_div_pow2 by lia.
  repeat constructor; unfold is_byte; change (2 ^ 8) with 256; zdiv_lia.
Qed.

(** Bytes, an even number of them, at most 16. *)
Definition ipv6_partial (ip : list Z) : Prop :=
  Forall is_byte ip /\ (length ip <= 16)%nat /\ exists k, length ip = (2 * k)%nat.
Lemma ipv6_partial_group ip n :
  ipv6_partial ip -> (length ip < 16)%nat -> 0 <= n <= 65535 -> ipv6_partial (ip ++ [Z.shiftr n 8; Z.land n 255]).
Proof.
  intros (Hb & _ & k & Hk) Hl Hn. unfold ipv6_partial. rewrite length_app. cbn [length]. split_and!.
  - apply Forall_app. split; [done|by apply group_bytes].
  - lia.
  - exists (S k). lia.
Qed.
Lemma parseIPv6_loop_partial fuel ip ell l ip' ell' rest :
  ipv6_partial ip -> parseIPv6_loop fuel ip ell l = Some (ip', ell', rest) -> ipv6_partial ip'.
Proof.
  revert ip ell l. induction fuel as [|fuel IH]; intros ip ell l Hip; cbn [parseIPv6_loop]; [by intros [= <- _ _]|].
  destruct (Nat.leb_spec 16 (length ip)); [by intros [= <- _ _]|].
  destruct (xtoi l) as [[[n c] r]|] eqn:Ex; [|done]. apply xtoi_nonneg in Ex.
  destruct (Z.ltb_spec 65535 n); [done|].
  pose proof (ipv6_partial_group ip n Hip ltac:(lia) ltac:(lia)) as Hip'.
  case_bool_decide.
  - destruct (_ && _); [done|]. destruct (Nat.ltb_spec 16 (length ip + 4)); [done|].
    destruct (parseIPv4 l) as [q|] eqn:E4; [|done]. intros [= <- _ _].
    apply parseIPv4_shape in E4 as (q4 & -> & Hq & Hb). destruct Hip as (Hb0 & _ & k & Hk).
    change (drop 12 (IPv4 q4)) with q4. unfold ipv6_partial. rewrite length_app. split_and!; [by apply Forall_app|lia|].
    exists (S (S k)). lia.
  - destruct r as [|c' [|c'' r]]; [by intros [= <- _ _]|by destruct (negb _)|].
    destruct (negb _); [done|]. case_bool_decide; [|apply IH, Hip'].
    destruct ell; [done|]. destruct r; [by intros [= <- _ _]|apply IH, Hip'].
Qed.

(** The 16-byte form of any address. *)
Definition is_ip16 (ip : IP) : Prop := length ip = 16%nat /\ Forall is_byte ip.

Lemma parseIPv6_shape l ip : parseIPv6 l = Some ip -> is_ip16 ip.
Proof.
  unfold parseIPv6. destruct (match l with [] => _ | _ => _ end) as [ell l'].
  case_bool_decide; [intros [= <-]; split; [done|by repeat (constructor; [done|])]|].
  destruct (parseIPv6_loop 9 [] ell l') as [[[ip' ell'] [|? ?]]|] eqn:E; [|done..].
  apply parseIPv6_loop_partial in E as (Hb & Hl & _); [|split_and!; [done|cbn; lia|by exists 0%nat]].
  destruct (Nat.ltb_spec (length ip') 16); destruct ell' as [e|]; try done.
  - intros [= <-]. split; [rewrite !length_app, length_take, length_drop, length_replicate; lia|].
    rewrite !Forall_app. split_and!; [by apply Forall_take|by apply Forall_replicate|by apply Forall_drop].
  - intros [= <-]. split; [lia|done].
Qed.
Lemma IPv4_ip16 q : length q = 4%nat -> Forall is_byte q -> is_ip16 (IPv4 q).
Proof.
  intros Hl Hq. split; [unfold IPv4; by rewrite length_app, Hl|]. apply Forall_app. split; [|done].
  by repeat (constructor; [done|]).
Qed.
Lemma ParseIP_shape s ip : ParseIP s = Some ip -> is_ip16 ip.
Proof.
  unfold ParseIP. destruct (List.find _ _) as [c|]; [|done]. case_bool_decide; [|apply parseIPv6_shape].
  intros (q & -> & Hq & Hb)%parseIPv4_shape. by apply IPv4_ip16.
Qed.

(** A network as the program holds it: a prefix mask of the family of its
    address, whose host bits are zero. *)
Definition wf_net (n : IPNet) : Prop :=
  exists ones len, len ∈ [4; 16]%nat /\ 0 <= ones <= 8 * Z.of_nat len /\ net_Mask n = CIDRMask ones (8 * Z.of_nat len) /\
    length (net_IP n) = len /\ Forall is_byte (net_IP n) /\ ip_Mask (net_IP n) (net_Mask n) = net_IP n.

Lemma land_byte b m : is_byte b -> is_byte (Z.land b m).
Proof.
  intros Hb. assert (Z.land b m = Z.land b m mod 256) as ->; [|unfold is_byte; zdiv_lia].
  change 256 with (2 ^ 8). rewrite <- Z.land_ones by lia. rewrite <- Z.land_assoc, (Z.land_comm m), Z.land_assoc.
  rewrite (Z.land_ones b) by lia. rewrite (Z.mod_small b) by exact Hb. done.
Qed.
Lemma zip_land_bytes (a m : list Z) : Forall is_byte a -> Forall is_byte (zip_with Z.land a m).
Proof.
  intros H. revert m. induction H as [|b a Hb _ IH]; intros [|y m]; constructor; [by apply land_byte|apply IH].
Qed.
Lemma zip_land_idem (a m : list Z) : zip_with Z.land (zip_with Z.land a m) m = zip_with Z.land a m.
Proof.
  revert m. induction a as [|x a IH]; intros [|y m]; [done..|]. cbn. by rewrite IH, <- Z.land_assoc, Z.land_diag.
Qed.
Lemma length_CIDRMask ones len : length (CIDRMask ones (8 * Z.of_nat len)) = len.
Proof. unfold CIDRMask. rewrite length_fmap, length_seq, Z.mul_comm, Z.div_mul by done. lia. Qed.

Lemma ParseCIDR_wf s ip n : ParseCIDR s = Ok (ip, n) -> wf_net n.
Proof.
  intros E. unfold ParseCIDR in E. destruct (split_on slash (chars s)) as [|addr [|m1 ms]]; [done..|].
  destruct (parseIPv4 addr) as [ip4|] eqn:E4.
  - apply parseIPv4_shape in E4 as (q & -> & Hq & Hb).
    destruct (dtoi _) as [[[ones i] rest]|]; [|done].
    destruct (negb (bool_decide _)); [done|]. destruct (Z.ltb_spec ones 0); [done|].
    destruct (Z.ltb_spec (8 * 4) ones); [done|]. cbn [orb] in E. injection E as <- <-.
    exists ones, 4%nat. split; [by left|]. split; [lia|]. split; [done|].
    destruct q as [|a [|b [|c [|d [|? ?]]]]]; try done. split; [done|]. split; [exact (zip_land_bytes _ _ Hb)|].
    assert (forall ip, length ip = 4%nat -> ip_Mask ip (CIDRMask ones 32) = zip_with Z.land ip (CIDRMask ones 32)) as Hm.
    { intros [|? [|? [|? [|? [|? ?]]]]]; done. }
    change (ip_Mask (IPv4 [a; b; c; d]) (CIDRMask ones (8 * 4))) with (zip_with Z.land [a; b; c; d] (CIDRMask ones 32)).
    cbn [net_IP net_Mask]. change (8 * 4) with 32. rewrite Hm by done. apply zip_land_idem.
  - destruct (parseIPv6 addr) as [ip6|] eqn:E6; [|done]. apply parseIPv6_shape in E6 as [L6 B6].
    destruct (dtoi _) as [[[ones i] rest]|]; [|done].
    destruct (negb (bool_decide _)); [done|]. destruct (Z.ltb_spec ones 0); [done|].
    destruct (Z.ltb_spec (8 * 16) ones); [done|]. cbn [orb] in E. injection E as <- <-.
    exists ones, 16%nat. split; [right; by left|]. split; [lia|]. split; [done|]. cbn [net_IP net_Mask].
    pose proof (length_CIDRMask ones 16) as LM. change (8 * Z.of_nat 16) with (8 * 16) in LM.
    assert (forall ip, length ip = 16%nat -> ip_Mask ip (CIDRMask ones (8 * 16)) = zip_with Z.land ip (CIDRMask ones (8 * 16))) as Hm.
    { intros jp Lj. unfold ip_Mask. rewrite (bool_decide_false (length (CIDRMask ones (8 * 16)) = 16%nat /\ _)) by lia.
      rewrite (bool_decide_false (length (CIDRMask ones (8 * 16)) = 4%nat /\ _)) by lia.
      by rewrite bool_decide_true by lia. }
    rewrite (Hm ip6) by done. rewrite length_zip_with, L6, LM. split; [done|].
    split; [by apply zip_land_bytes|].
    rewrite Hm by (rewrite length_zip_with; lia). apply zip_land_idem.
Qed.
