(* ===== verification/GoJson.v ===== *)
(** * GoJson: the part of [encoding/json] the program uses

    A JSON document is kept as its syntax tree; turning text into the tree and
    back is left to Go.  Decoding follows [json.Unmarshal]: a member is stored
    in the field whose tag matches it up to the case of letters, unknown
    members are skipped, missing ones leave the field as it was, [null] leaves
    a plain value as it was and makes a slice, map or pointer nil, and a value
    of the wrong kind is an error ([None]). *)

From S2P Require Export Prelude.

#[local] Unset Elimination Schemes.
Inductive json :=
  | JNull
  | JBool (b : bool)
  | JInt (z : Z)
  | JReal (literal : string)
  | JStr (s : string)
  | JArr (l : list json)
  | JObj (members : list (string * json)).
#[local] Set Elimination Schemes.

(** A decoder reads a document over the current value of its target. *)
Abbreviation decoder A := (json -> A -> option A) (only parsing).

Definition lower_char (c : Ascii.ascii) : Ascii.ascii :=
  let k := char_code c in
  if (65 <=? k) && (k <=? 90) then Ascii.ascii_of_N (Z.to_N (k + 32)) else c.
Definition eq_fold (a b : string) : bool :=
  bool_decide (lower_char <$> chars a = lower_char <$> chars b).

Definition dec_string : decoder string := fun j cur =>
  match j with JNull => Some cur | JStr s => Some s | _ => None end.
Definition dec_bool : decoder bool := fun j cur =>
  match j with JNull => Some cur | JBool b => Some b | _ => None end.
(** [int] and [int64]: a literal out of range is an error. *)
Definition dec_int : decoder Z := fun j cur =>
  match j with
  | JNull => Some cur
  | JInt z => if (int64_min <=? z) && (z <=? int64_max) then Some z else None
  | _ => None
  end.

Definition dec_elems {A} (d : decoder A) (zero : A) : list json -> option (list A) :=
  fix go l := match l with
              | [] => Some []
              | j :: t => a ← d j zero; r ← go t; Some (a :: r)
              end.
(** Slices: [None] is the nil slice. *)
Definition dec_slice {A} (d : decoder A) (zero : A) : decoder (option (list A)) := fun j cur =>
  match j with
  | JNull => Some None
  | JArr l => r ← dec_elems d zero l; Some (Some r)
  | _ => None
  end.

Definition dec_members {A} (d : decoder A) (zero : A)
    : list (string * json) -> gmap string A -> option (gmap string A) :=
  fix go l m := match l with
                | [] => Some m
                | (k, j) :: t => a ← d j zero; go t (<[k := a]> m)
                end.
(** Maps with string keys: [None] is the nil map; members are added to the
    existing map. *)
Definition dec_map {A} (d : decoder A) (zero : A) : decoder (option (gmap string A)) := fun j cur =>
  match j with
  | JNull => Some None
  | JObj l => m ← dec_members d zero l (default ∅ cur); Some (Some m)
  | _ => None
  end.

(** Pointers to a struct: [null] is nil, anything else fills a new one. *)
Definition dec_pointer {A} (d : decoder A) (zero : A) : decoder (option A) := fun j cur =>
  match j with
  | JNull => Some None
  | _ => a ← d j (default zero cur); Some (Some a)
  end.

(** Structs: the tags with the decoders of their fields. *)
Fixpoint find_field {A} (fields : list (string * decoder A)) (name : string) : option (decoder A) :=
  match fields with
  | [] => None
  | (tag, d) :: t => if eq_fold tag name then Some d else find_field t name
  end.
Definition dec_fields {A} (fields : list (string * decoder A)) : list (string * json) -> A -> option A :=
  fix go l a := match l with
                | [] => Some a
                | (k, j) :: t =>
                    match find_field fields k with
                    | Some d => a' ← d j a; go t a'
                    | None => go t a
                    end
                end.
Definition dec_struct {A} (fields : list (string * decoder A)) : decoder A := fun j cur =>
  match j with
  | JNull => Some cur
  | JObj l => dec_fields fields l cur
  | _ => None
  end.

(** ** Encoding *)

Definition enc_slice {A} (e : A -> json) (l : option (list A)) : json :=
  match l with None => JNull | Some l => JArr (e <$> l) end.

(** Maps are written with their keys in order. *)
Definition key_le {A} (p q : string * A) : Prop := String.leb p.1 q.1 = true.
#[export] Instance key_le_dec {A} (p q : string * A) : Decision (key_le p q).
Proof. unfold key_le. apply _. Defined.
Definition sorted_members {A} (m : gmap string A) : list (string * A) :=
  merge_sort key_le (map_to_list m).
Definition enc_map {A} (e : A -> json) (m : option (gmap string A)) : json :=
  match m with
  | None => JNull
  | Some m => JObj (prod_map id e <$> sorted_members m)
  end.

(** ** [[]byte] as a base64 string *)
Definition b64_alphabet : list Ascii.ascii :=
  chars "ABCDEFGHIJKLMNOPQRSTUVWXYZabcdefghijklmnopqrstuvwxyz0123456789+/".
Definition b64_pad : Ascii.ascii := Ascii.ascii_of_N 61.
Definition b64_char (n : Z) : Ascii.ascii := nth (Z.to_nat n) b64_alphabet b64_pad.
Fixpoint index_of (c : Ascii.ascii) (l : list Ascii.ascii) : option Z :=
  match l with
  | [] => None
  | x :: t => if Ascii.eqb x c then Some 0 else Z.succ <$> index_of c t
  end.
Definition b64_val (c : Ascii.ascii) : option Z := index_of c b64_alphabet.

Fixpoint b64_encode (l : list Z) : list Ascii.ascii :=
  match l with
  | a :: b :: c :: t =>
      b64_char (a / 4) :: b64_char (a mod 4 * 16 + b / 16) ::
      b64_char (b mod 16 * 4 + c / 64) :: b64_char (c mod 64) :: b64_encode t
  | [a; b] => [b64_char (a / 4); b64_char (a mod 4 * 16 + b / 16); b64_char (b mod 16 * 4); b64_pad]
  | [a] => [b64_char (a / 4); b64_char (a mod 4 * 16); b64_pad; b64_pad]
  | [] => []
  end.
Fixpoint b64_decode (l : list Ascii.ascii) : option (list Z) :=
  match l with
  | [] => Some []
  | c1 :: c2 :: c3 :: c4 :: t =>
      x1 ← b64_val c1; x2 ← b64_val c2;
      let a := x1 * 4 + x2 / 16 in
      match b64_val c3, b64_val c4 with
      | Some x3, Some x4 =>
          r ← b64_decode t;
          Some (a :: x2 mod 16 * 16 + x3 / 4 :: x3 mod 4 * 64 + x4 :: r)
      | Some x3, None =>
          if Ascii.eqb c4 b64_pad && bool_decide (t = [])
          then Some [a; x2 mod 16 * 16 + x3 / 4] else None
      | None, _ =>
          if Ascii.eqb c3 b64_pad && Ascii.eqb c4 b64_pad && bool_decide (t = [])
          then Some [a] else None
      end
  | _ => None
  end.
Definition dec_bytes : decoder (list Z) := fun j cur =>
  match j with JNull => Some [] | JStr s => b64_decode (chars s) | _ => None end.
Definition enc_bytes (b : list Z) : json := JStr (str (b64_encode b)).

(** ** Round trips *)

Lemma b64_val_char n : 0 <= n < 64 -> b64_val (b64_char n) = Some n.
Proof.
  intros H. assert (Forall (fun n => b64_val (b64_char n) = Some n) (seqZ 0 64)) as Hall
    by (vm_compute; repeat constructor).
  rewrite Forall_forall in Hall. apply Hall, elem_of_seqZ. lia.
Qed.

Lemma b64_decode_encode l : Forall (fun b => 0 <= b < 256) l -> b64_decode (b64_encode l) = Some l.
Proof.
  assert (b64_val b64_pad = None) as Hpad by done.
  assert (forall n l, (length l <= n)%nat -> Forall (fun b => 0 <= b < 256) l ->
    b64_decode (b64_encode l) = Some l) as H; [|by apply (H (length l))].
  clear l. induction n as [|n IH]; intros l Hn Hl.
  - by destruct l; [|cbn in *; lia].
  - destruct l as [|a [|b [|c t]]]; [done|..]; decompose_Forall_hyps;
      cbn -[b64_val b64_char b64_pad Z.div Z.modulo Z.mul];
      rewrite !b64_val_char by zdiv_lia; cbn -[b64_val b64_char Z.div Z.modulo Z.mul].
    + do 3 f_equal. zdiv_lia.
    + do 3 f_equal; [zdiv_lia|]. f_equal. zdiv_lia.
    + rewrite IH; [|cbn in *; lia|done]. cbn. f_equal. f_equal; [zdiv_lia|].
      f_equal; [zdiv_lia|]. f_equal. zdiv_lia.
Qed.

Lemma dec_bytes_enc l cur : Forall (fun b => 0 <= b < 256) l -> dec_bytes (enc_bytes l) cur = Some l.
Proof. intros H. unfold dec_bytes, enc_bytes. rewrite chars_str. by apply b64_decode_encode. Qed.

Lemma dec_elems_enc {A} (d : decoder A) (e : A -> json) zero l :
  Forall (fun a => d (e a) zero = Some a) l -> dec_elems d zero (e <$> l) = Some l.
Proof. induction 1 as [|a l Ha _ IH]; [done|]. cbn. rewrite Ha. cbn. by rewrite IH. Qed.

Lemma dec_slice_enc {A} (d : decoder A) (e : A -> json) zero (l : list A) cur :
  Forall (fun a => d (e a) zero = Some a) l ->
  dec_slice d zero (enc_slice e (Some l)) cur = Some (Some l).
Proof. intros H. cbn. by rewrite dec_elems_enc. Qed.

(** What a member decodes to, for an encoder that loses something. *)
Lemma dec_members_enc {A} (d : decoder A) (e : A -> json) zero (f : A -> A)
    (l : list (string * A)) (m0 : gmap string A) :
  Forall (fun p => d (e p.2) zero = Some (f p.2)) l -> NoDup l.*1 ->
  dec_members d zero (prod_map id e <$> l) m0
  = Some (list_to_map (prod_map id f <$> l) ∪ m0).
Proof.
  intros Hl. revert m0. induction Hl as [|[k a] l Ha _ IH]; intros m0 Hnd.
  - cbn. by rewrite (left_id_L ∅ (∪)).
  - cbn in *. apply NoDup_cons in Hnd as [Hk Hnd]. rewrite Ha. cbn. rewrite IH by done. f_equal.
    cbn. rewrite <- insert_union_l. symmetry. apply insert_union_r.
    apply not_elem_of_list_to_map. intros Hin. apply Hk.
    rewrite <- list_fmap_compose in Hin. exact Hin.
Qed.

Lemma sorted_members_perm {A} (m : gmap string A) : sorted_members m ≡ₚ map_to_list m.
Proof. apply merge_sort_Permutation. Qed.

Lemma NoDup_sorted_members {A} (m : gmap string A) : NoDup (sorted_members m).*1.
Proof. rewrite sorted_members_perm. apply NoDup_fst_map_to_list. Qed.

(** Encoding a map and decoding it over an empty one gives the map back, its
    values as the element codec leaves them. *)
Lemma dec_map_enc {A} (d : decoder A) (e : A -> json) zero (f : A -> A) (m : gmap string A) :
  map_Forall (fun _ a => d (e a) zero = Some (f a)) m ->
  dec_map d zero (enc_map e (Some m)) (Some ∅) = Some (Some (f <$> m)).
Proof.
  intros H. cbn. rewrite (dec_members_enc d e zero f).
  - cbn. rewrite (right_id_L ∅ (∪)). do 2 f_equal.
    rewrite (list_to_map_proper _ (prod_map id f <$> map_to_list m)).
    + by rewrite list_to_map_fmap, list_to_map_to_list.
    + rewrite <- list_fmap_compose. change (fst ∘ prod_map id f) with (@fst string A).
      apply NoDup_sorted_members.
    + by rewrite sorted_members_perm.
  - rewrite sorted_members_perm. apply Forall_forall. intros [k a] Hin.
    apply elem_of_map_to_list in Hin. by apply (H k a).
  - apply NoDup_sorted_members.
Qed.

Definition int64_ok (z : Z) : Prop := int64_min <= z <= int64_max.

Lemma dec_int_enc z cur : int64_ok z -> dec_int (JInt z) cur = Some z.
Proof.
  intros [H1 H2]. unfold dec_int.
  destruct (Z.leb_spec int64_min z), (Z.leb_spec z int64_max); [done|lia..].
Qed.

(** ** Struct fields, member by member *)
Lemma dec_fields_nil {A} (fields : list (string * decoder A)) a : dec_fields fields [] a = Some a.
Proof. done. Qed.
Lemma dec_fields_cons {A} (fields : list (string * decoder A)) k j t a :
  dec_fields fields ((k, j) :: t) a =
  match find_field fields k with
  | Some d => match d j a with Some a' => dec_fields fields t a' | None => None end
  | None => dec_fields fields t a
  end.
Proof. done. Qed.
Lemma find_field_hit {A} tag (d : decoder A) t name :
  eq_fold tag name = true -> find_field ((tag, d) :: t) name = Some d.
Proof. intros H. cbn [find_field]. by rewrite H. Qed.
Lemma find_field_skip {A} tag (d : decoder A) t name :
  eq_fold tag name = false -> find_field ((tag, d) :: t) name = find_field t name.
Proof. intros H. cbn [find_field]. by rewrite H. Qed.

(** Reads the next member of a literal object into its field. *)
Ltac dec_member :=
  rewrite dec_fields_cons;
  repeat rewrite find_field_skip by (vm_compute; reflexivity);
  rewrite find_field_hit by (vm_compute; reflexivity).
