(* ===== verification/GoTime.v ===== *)
(** * GoTime: [time.Time], RFC 3339 text, and lib/jsontime.go

    An instant is a number of nanoseconds since Go's zero time
    (0001-01-01T00:00:00Z) with the UTC offset, in minutes, of its location.
    [Format] and [Parse] are those of Go 1.17 for the layout [time.RFC3339];
    the calendar arithmetic is that of package [time]. [MarshalJSON] and
    [UnmarshalJSON] are the two methods of lib/jsontime.go. *)

From S2P Require Export GoJson.

Create HintDb gotime.

Record Time := mkTime { t_ns : Z; t_off : Z }.

#[export] Instance Time_eq_dec : EqDecision Time.
Proof. solve_decision. Defined.

(** Durations, in nanoseconds. *)
Definition Nanosecond : Z := 1.
Definition Millisecond : Z := 1000000.
Definition Second : Z := 1000000000.
Definition Minute : Z := 60 * Second.
Definition Hour : Z := 60 * Minute.

(** [time.Time{}] *)
Definition zeroTime : Time := mkTime 0 0.
Definition Before (t u : Time) : bool := t_ns t <? t_ns u.
Definition time_Add (t : Time) (d : Z) : Time := mkTime (t_ns t + d) (t_off t).

(** The whole second an instant falls in. *)
Definition trunc_second (t : Time) : Time := mkTime (t_ns t / Second * Second) (t_off t).

(** ** The calendar *)

Definition is_leap (y : Z) : bool := (y mod 4 =? 0) && (negb (y mod 100 =? 0) || (y mod 400 =? 0)).

(** Days from 0001-01-01 to the first day of year [y]. *)
Definition days_before_year (y : Z) : Z :=
  let p := y - 1 in 365 * p + p / 4 - p / 100 + p / 400.

(** Days in a common year before month [m] (1..12), and in a leap year. *)
Definition days_before (m : Z) : Z :=
  nth (Z.to_nat (m - 1)) [0;31;59;90;120;151;181;212;243;273;304;334] 365.
Definition days_before_month (leap : bool) (m : Z) : Z :=
  days_before m + (if leap && (2 <? m) then 1 else 0).

Definition daysIn (m y : Z) : Z :=
  if (m =? 2) && is_leap y then 29 else days_before (m + 1) - days_before m.

(** A civil date to days since 0001-01-01. *)
Definition days_of_civil (y m d : Z) : Z :=
  days_before_year y + days_before_month (is_leap y) m + (d - 1).

(** The month of a day of the year, by search. *)
Fixpoint find_month (k : nat) (leap : bool) (yday : Z) : Z :=
  match k with
  | O => 1
  | S k' => let m := Z.of_nat k' + 1 in
            if days_before_month leap m <=? yday then m else find_month k' leap yday
  end.

(** Days since 0001-01-01 to a civil date, by 400, 100, 4 and 1 year cycles. *)
Definition civil_of_days (days : Z) : Z * Z * Z :=
  let n400 := days / 146097 in
  let d1 := days - 146097 * n400 in
  let n100 := Z.min 3 (d1 / 36524) in
  let d2 := d1 - 36524 * n100 in
  let n4 := d2 / 1461 in
  let d3 := d2 - 1461 * n4 in
  let n1 := Z.min 3 (d3 / 365) in
  let yday := d3 - 365 * n1 in
  let y := 400 * n400 + 100 * n100 + 4 * n4 + n1 + 1 in
  let m := find_month 12 (is_leap y) yday in
  (y, m, yday - days_before_month (is_leap y) m + 1).

(** ** Formatting *)

Definition dig (n : Z) : Ascii.ascii := digit_char n.
Definition pad2 (n : Z) : list Ascii.ascii := [dig (n / 10); dig (n mod 10)].
Definition pad4 (n : Z) : list Ascii.ascii :=
  [dig (n / 1000); dig (n / 100 mod 10); dig (n / 10 mod 10); dig (n mod 10)].

Definition chr (n : N) : Ascii.ascii := Ascii.ascii_of_N n.
Definition dash := chr 45.
Definition plus := chr 43.
Definition colon_ := chr 58.
Definition letterT := chr 84.
Definition letterZ := chr 90.
Definition period := chr 46.
Definition comma := chr 44.

(** The zone of layout [Z07:00]. *)
Definition format_zone (off : Z) : list Ascii.ascii :=
  if off =? 0 then [letterZ]
  else (if off <? 0 then dash else plus)
         :: pad2 (Z.abs off / 60) ++ colon_ :: pad2 (Z.abs off mod 60).

(** [t.Format(time.RFC3339)], for years 0 to 9999. *)
Definition format_chars (t : Time) : list Ascii.ascii :=
  let secs := t_ns t / Second + 60 * t_off t in
  let '(y, m, d) := civil_of_days (secs / 86400) in
  let sod := secs mod 86400 in
  pad4 y ++ dash :: pad2 m ++ dash :: pad2 d ++ letterT ::
  pad2 (sod / 3600) ++ colon_ :: pad2 (sod / 60 mod 60) ++ colon_ :: pad2 (sod mod 60) ++
  format_zone (t_off t).
Definition Format (t : Time) : string := str (format_chars t).

(** ** Parsing *)

Definition expect (c : Ascii.ascii) (l : list Ascii.ascii) : option (list Ascii.ascii) :=
  match l with
  | x :: t => if Ascii.eqb x c then Some t else None
  | [] => None
  end.

(** [getnum] with [fixed]: exactly two digits. *)
Definition get2 (l : list Ascii.ascii) : option (Z * list Ascii.ascii) :=
  match l with
  | a :: b :: t => if is_digit a && is_digit b
                   then Some (digit_val a * 10 + digit_val b, t) else None
  | _ => None
  end.

(** [getnum] without [fixed], used for the hour: one or two digits. *)
Definition get12 (l : list Ascii.ascii) : option (Z * list Ascii.ascii) :=
  match l with
  | a :: rest =>
      if is_digit a then
        match rest with
        | b :: t => if is_digit b then Some (digit_val a * 10 + digit_val b, t)
                    else Some (digit_val a, rest)
        | [] => Some (digit_val a, rest)
        end
      else None
  | [] => None
  end.

Definition get4 (l : list Ascii.ascii) : option (Z * list Ascii.ascii) :=
  match l with
  | a :: b :: c :: d :: t =>
      if is_digit a && is_digit b && is_digit c && is_digit d
      then Some (((digit_val a * 10 + digit_val b) * 10 + digit_val c) * 10 + digit_val d, t)
      else None
  | _ => None
  end.

Fixpoint span_digits (l : list Ascii.ascii) (n : Z) (k : nat) : Z * nat * list Ascii.ascii :=
  match l with
  | c :: t => if is_digit c then span_digits t (n * 10 + digit_val c) (S k) else (n, k, l)
  | [] => (n, k, [])
  end.

(** A fraction after the seconds is accepted although the layout has none. *)
Definition get_fraction (l : list Ascii.ascii) : option (Z * list Ascii.ascii) :=
  match l with
  | p :: c :: _ =>
      if (Ascii.eqb p period || Ascii.eqb p comma) && is_digit c then
        let '(n, k, rest) := span_digits (tail l) 0 0 in
        if 1000000000 <=? n then None
        else Some (n * 10 ^ Z.of_nat (9 - k), rest)
      else Some (0, l)
  | _ => Some (0, l)
  end.

Definition get_zone (l : list Ascii.ascii) : option (Z * list Ascii.ascii) :=
  match l with
  | c :: t =>
      if Ascii.eqb c letterZ then Some (0, t)
      else
        let sign := if Ascii.eqb c plus then Some 1
                    else if Ascii.eqb c dash then Some (-1) else None in
        h ← get2 t; r ← expect colon_ h.2; m ← get2 r; s ← sign;
        Some (s * (h.1 * 60 + m.1), m.2)
  | [] => None
  end.

Definition guard_range (lo n hi : Z) : option unit :=
  if (lo <=? n) && (n <=? hi) then Some tt else None.

(** [time.Parse(time.RFC3339, s)]. *)
Definition parse_chars (l : list Ascii.ascii) : option Time :=
  y ← get4 l; r ← expect dash y.2;
  mo ← get2 r; _ ← guard_range 1 mo.1 12; r ← expect dash mo.2;
  d ← get2 r; r ← expect letterT d.2;
  h ← get12 r; _ ← guard_range 0 h.1 23; r ← expect colon_ h.2;
  mi ← get2 r; _ ← guard_range 0 mi.1 59; r ← expect colon_ mi.2;
  s ← get2 r; _ ← guard_range 0 s.1 59;
  f ← get_fraction s.2;
  z ← get_zone f.2;
  match z.2 with
  | [] =>
      _ ← guard_range 1 d.1 (daysIn mo.1 y.1);
      Some (mkTime ((days_of_civil y.1 mo.1 d.1 * 86400 + h.1 * 3600 + mi.1 * 60 + s.1
                     - 60 * z.1) * Second + f.1) z.1)
  | _ => None
  end.
Definition Parse (s : string) : option Time := parse_chars (chars s).

(** ** lib/jsontime.go *)

(** [JSONTime.MarshalJSON]: the JSON string of the RFC 3339 text. *)
Definition MarshalJSON (j : Time) : json := JStr (Format j).

(** [JSONTime.UnmarshalJSON]: [json.Unmarshal] leaves [rawString] empty on [null]. *)
Definition UnmarshalJSON (js : json) : result Time :=
  match dec_string js EmptyString with
  | None => Err (Errorf "json: cannot unmarshal into Go value of type string" [])
  | Some rawString =>
      match Parse rawString with
      | None => Err (Errorf "parsing time %q" [AStr rawString])
      | Some t => Ok t
      end
  end.

(** The decoder of a [JSONTime] field. *)
Definition dec_time : decoder Time := fun js _ =>
  match UnmarshalJSON js with Ok t => Some t | Err _ => None end.

Example format_test : Format (mkTime ((days_of_civil 2017 1 1 * 86400 + 3660) * Second) 0) = "2017-01-01T01:01:00Z"%string.
Proof. vm_compute. reflexivity. Qed.
Example format_zero : Format zeroTime = "0001-01-01T00:00:00Z"%string.
Proof. vm_compute. reflexivity. Qed.
Example parse_test : Parse "2020-02-29T7:04:05.25+02:00"
  = Some (mkTime ((days_of_civil 2020 2 29 * 86400 + 5 * 3600 + 4 * 60 + 5) * Second + 250000000) 120).
Proof. vm_compute. reflexivity. Qed.
Example parse_bad_day : Parse "2021-02-29T07:04:05Z" = None.
Proof. vm_compute. reflexivity. Qed.

(** ** The calendar is exact *)

(** The four cycle counts of a day number and the day of its year. *)
Record cycles (days a b c e yd : Z) : Prop := {
  cyc_days : days = 146097 * a + 36524 * b + 1461 * c + 365 * e + yd;
  cyc_b : 0 <= b <= 3;
  cyc_c : 0 <= c <= 24;
  cyc_e : 0 <= e <= 3;
  cyc_yd : 0 <= yd <= 365;
  cyc_leap : yd = 365 -> e = 3 /\ (c < 24 \/ b = 3) }.

Definition cycle_year (a b c e : Z) : Z := 400 * a + 100 * b + 4 * c + e + 1.

Lemma cycles_of_days days :
  let n400 := days / 146097 in
  let d1 := days - 146097 * n400 in
  let n100 := Z.min 3 (d1 / 36524) in
  let d2 := d1 - 36524 * n100 in
  let n4 := d2 / 1461 in
  let d3 := d2 - 1461 * n4 in
  let n1 := Z.min 3 (d3 / 365) in
  cycles days n400 n100 n4 n1 (d3 - 365 * n1).
Proof.
  intros n400 d1 n100 d2 n4 d3 n1.
  assert (0 <= d1 < 146097) as H1 by (unfold d1, n400; zdiv_lia).
  assert (0 <= n100 <= 3 /\ 0 <= d2 /\ (n100 < 3 -> d2 < 36524) /\ d2 <= 36524) as (Hb & H2 & H2' & H2'')
    by (unfold d2, n100; clearbody d1; zdiv_lia).
  assert (0 <= n4 <= 24 /\ 0 <= d3 < 1461 /\ (n4 = 24 -> n100 < 3 -> d3 < 1460)) as (Hc & H3 & H3')
    by (unfold d3, n4; clearbody d2 n100; zdiv_lia).
  assert (0 <= n1 <= 3 /\ 0 <= d3 - 365 * n1 <= 365 /\ (d3 - 365 * n1 = 365 -> n1 = 3)) as (He & H4 & H4')
    by (unfold n1; clearbody d3; zdiv_lia).
  clearbody n1 n4 n100 n400. split; try lia.
Qed.

Lemma cycle_year_before a b c e :
  0 <= b <= 3 -> 0 <= c <= 24 -> 0 <= e <= 3 ->
  days_before_year (cycle_year a b c e) = 146097 * a + 36524 * b + 1461 * c + 365 * e.
Proof. intros. unfold days_before_year, cycle_year. zdiv_lia. Qed.

Lemma cycle_year_leap a b c e :
  0 <= b <= 3 -> 0 <= c <= 24 -> 0 <= e <= 3 ->
  is_leap (cycle_year a b c e) = true <-> e = 3 /\ (c < 24 \/ b = 3).
Proof.
  intros. unfold is_leap, cycle_year.
  rewrite andb_true_iff, orb_true_iff, negb_true_iff, !Z.eqb_eq, Z.eqb_neq. zdiv_lia.
Qed.

Lemma days_before_year_succ y :
  days_before_year (y + 1) = days_before_year y + (if is_leap y then 366 else 365).
Proof.
  unfold days_before_year, is_leap. replace (y + 1 - 1) with y by lia.
  destruct (Z.eqb_spec (y mod 4) 0), (Z.eqb_spec (y mod 100) 0), (Z.eqb_spec (y mod 400) 0);
    cbn [andb orb negb]; zdiv_lia.
Qed.

Lemma days_before_month_succ leap m :
  days_before_month leap (m + 1) =
  days_before_month leap m + (days_before (m + 1) - days_before m)
  + (if (m =? 2) && leap then 1 else 0).
Proof.
  unfold days_before_month.
  destruct leap, (Z.ltb_spec 2 m), (Z.ltb_spec 2 (m + 1)), (Z.eqb_spec m 2); cbn; lia.
Qed.

Lemma find_month_bounds k leap yd :
  0 <= yd ->
  let m := find_month k leap yd in
  1 <= m <= Z.max 1 (Z.of_nat k) /\ days_before_month leap m <= yd /\
  (m < Z.of_nat k -> yd < days_before_month leap (m + 1)).
Proof.
  intros Hyd. cbv zeta. induction k as [|k IH]; cbn -[Z.of_nat].
  - split; [lia|]. split; [|lia]. unfold days_before_month. by destruct leap.
  - destruct (Z.leb_spec (days_before_month leap (Z.of_nat k + 1)) yd); [lia|].
    destruct IH as (H1 & H2 & H3). split; [lia|]. split; [lia|]. intros Hlt.
    destruct (decide (find_month k leap yd = Z.of_nat k)) as [->|]; [lia|].
    destruct k; [cbn in *; lia|]. apply H3. lia.
Qed.

(** The month found is the one whose days contain the day of the year. *)
Lemma find_month_spec leap yd :
  0 <= yd <= (if leap : bool then 365 else 364) ->
  let m := find_month 12 leap yd in
  1 <= m <= 12 /\ days_before_month leap m <= yd < days_before_month leap (m + 1).
Proof.
  intros H. pose proof (find_month_bounds 12 leap yd ltac:(lia)) as (H1 & H2 & H3).
  cbv zeta in *. split; [lia|]. split; [lia|].
  destruct (decide (find_month 12 leap yd = 12)) as [E|]; [|apply H3; lia].
  rewrite E. clear - H. destruct leap; [change (yd < 366)|change (yd < 365)]; lia.
Qed.

(** A day number is the day number of its civil date, which is a valid one. *)
Lemma civil_of_days_spec days :
  let '(y, m, d) := civil_of_days days in
  1 <= m <= 12 /\ 1 <= d <= daysIn m y /\ days_of_civil y m d = days /\
  days_before_year y <= days < days_before_year (y + 1).
Proof.
  pose proof (cycles_of_days days) as [Hd Hb Hc He Hyd Hl]. cbv zeta in *.
  unfold civil_of_days. cbv zeta.
  set (a := days / 146097) in *. set (d1 := days - 146097 * a) in *.
  set (b := Z.min 3 (d1 / 36524)) in *. set (d2 := d1 - 36524 * b) in *.
  set (c := d2 / 1461) in *. set (d3 := d2 - 1461 * c) in *.
  set (e := Z.min 3 (d3 / 365)) in *. set (yd := d3 - 365 * e) in *.
  clearbody yd. clearbody e. clearbody d3. clearbody c. clearbody d2. clearbody b d1 a.
  change (400 * a + 100 * b + 4 * c + e + 1) with (cycle_year a b c e).
  pose proof (cycle_year_leap a b c e Hb Hc He) as Hleap.
  assert (0 <= yd <= (if is_leap (cycle_year a b c e) then 365 else 364)) as Hyd'.
  { destruct (is_leap _); [lia|]. destruct (decide (yd = 365)) as [->|]; [|lia].
    exfalso. assert (false = true) by (apply Hleap, Hl; done). done. }
  pose proof (find_month_spec _ _ Hyd') as (Hm & Hlo & Hhi).
  rewrite days_before_month_succ in Hhi.
  pose proof (cycle_year_before a b c e Hb Hc He) as Hby.
  pose proof (days_before_year_succ (cycle_year a b c e)) as Hsucc.
  unfold daysIn, days_of_civil. clear Hleap Hl.
  set (lp := is_leap (cycle_year a b c e)) in *. clearbody lp.
  set (m := find_month 12 lp yd) in *. clearbody m.
  split; [done|]. split; [|split; [lia|destruct lp; lia]].
  destruct (m =? 2) eqn:E; cbn [andb] in *; [|lia].
  apply Z.eqb_eq in E; subst m. change (days_before (2 + 1) - days_before 2) with 28 in *.
  destruct lp; lia.
Qed.

(** ** The round trip *)

(** Instants RFC 3339 can print: a local year of four digits and an offset of
    less than a hundred hours. *)
Definition rfc3339_ok (t : Time) : Prop :=
  days_before_year 0 <= (t_ns t / Second + 60 * t_off t) / 86400 < days_before_year 10000 /\
  Z.abs (t_off t) < 6000.

Lemma get2_pad2 n l : 0 <= n < 100 -> get2 (pad2 n ++ l) = Some (n, l).
Proof.
  intros H. unfold pad2, dig. cbn [app get2].
  rewrite !is_digit_char, !digit_val_char by zdiv_lia. cbn [andb]. do 2 f_equal. zdiv_lia.
Qed.

Lemma get12_pad2 n l : 0 <= n < 100 -> get12 (pad2 n ++ l) = Some (n, l).
Proof.
  intros H. unfold pad2, dig. cbn [app get12].
  rewrite !is_digit_char, !digit_val_char by zdiv_lia. cbn [andb]. do 2 f_equal. zdiv_lia.
Qed.

Lemma get4_pad4 n l : 0 <= n < 10000 -> get4 (pad4 n ++ l) = Some (n, l).
Proof.
  intros H. unfold pad4, dig. cbn [app get4].
  rewrite !is_digit_char, !digit_val_char by zdiv_lia. cbn [andb]. do 2 f_equal. zdiv_lia.
Qed.

Lemma get_zone_format off : Z.abs off < 6000 -> get_zone (format_zone off) = Some (off, []).
Proof.
  intros H. unfold format_zone. destruct (Z.eqb_spec off 0) as [->|Hz]; [done|].
  destruct (Z.ltb_spec off 0); cbn -[pad2 get2];
    rewrite get2_pad2 by zdiv_lia; cbn -[pad2 get2];
    rewrite <- (app_nil_r (pad2 (_ mod _))), get2_pad2 by zdiv_lia; cbn -[Z.mul Z.div Z.modulo];
    do 2 f_equal; zdiv_lia.
Qed.

Lemma get_fraction_zone off : get_fraction (format_zone off) = Some (0, format_zone off).
Proof. unfold format_zone. destruct (off =? 0); [done|]. by destruct (off <? 0). Qed.

Lemma guard_range_ok lo n hi : lo <= n <= hi -> guard_range lo n hi = Some tt.
Proof.
  intros H. unfold guard_range. destruct (Z.leb_spec lo n), (Z.leb_spec n hi); [done|lia..].
Qed.

Lemma daysIn_bounds m y : 1 <= m <= 12 -> daysIn m y <= 31.
Proof.
  intros H. unfold daysIn. destruct ((m =? 2) && is_leap y); [lia|].
  unfold days_before. replace (Z.to_nat (m + 1 - 1)) with (S (Z.to_nat (m - 1))) by lia.
  assert (Z.to_nat (m - 1) < 12)%nat as Hk by lia. generalize dependent (Z.to_nat (m - 1)). intros k Hk.
  do 12 (destruct k as [|k]; [cbn; lia|]). lia.
Qed.

Lemma days_before_year_mono y z : y <= z -> days_before_year y <= days_before_year z.
Proof.
  intros H. replace z with (y + Z.of_nat (Z.to_nat (z - y))) by lia.
  induction (Z.to_nat (z - y)) as [|n IH]; [by rewrite Z.add_0_r|].
  replace (y + Z.of_nat (S n)) with (y + Z.of_nat n + 1) by lia.
  rewrite days_before_year_succ. destruct (is_leap _); lia.
Qed.

Ltac parse_cbn :=
  cbn -[pad2 get2 get12 get_fraction get_zone format_zone daysIn days_of_civil Z.mul Z.div Z.modulo];
  try (rewrite guard_range_ok by zdiv_lia;
       cbn -[pad2 get2 get12 get_fraction get_zone format_zone daysIn days_of_civil Z.mul Z.div Z.modulo]).
Ltac parse_field := rewrite get2_pad2 by zdiv_lia; parse_cbn.

(** What is parsed back is the instant, to the second. *)
Lemma Parse_Format t : rfc3339_ok t -> Parse (Format t) = Some (trunc_second t).
Proof.
  intros [Hdays Hoff]. unfold Parse, Format. rewrite chars_str. unfold format_chars.
  set (secs := t_ns t / Second + 60 * t_off t) in *.
  pose proof (civil_of_days_spec (secs / 86400)) as H.
  destruct (civil_of_days (secs / 86400)) as [[y m] d]. destruct H as (Hm & Hd & Hciv & Hy1 & Hy2).
  pose proof (daysIn_bounds m y Hm) as H31.
  assert (0 <= y <= 9999) as Hy.
  { split; apply Z.nlt_ge; intros Hlt.
    - pose proof (days_before_year_mono (y + 1) 0 ltac:(lia)). lia.
    - pose proof (days_before_year_mono 10000 y ltac:(lia)). lia. }
  pose proof (Z.mod_pos_bound secs 86400 ltac:(lia)) as Hsod.
  set (sod := secs mod 86400) in *. unfold parse_chars.
  rewrite get4_pad4 by lia. parse_cbn. parse_field. parse_field.
  rewrite get12_pad2 by zdiv_lia. parse_cbn. parse_field. parse_field.
  rewrite get_fraction_zone. parse_cbn. rewrite get_zone_format by done. parse_cbn.
  f_equal. unfold trunc_second. f_equal.
  rewrite Hciv.
  assert (secs / 86400 * 86400 + sod / 3600 * 3600 + (sod / 60) mod 60 * 60 + sod mod 60 = secs) as ->.
  { unfold sod. clearbody secs. zdiv_lia. }
  unfold secs. ring.
Qed.

(** The text keeps nothing finer than the second, and keeps that exactly. *)
Lemma trunc_second_idem t : trunc_second (trunc_second t) = trunc_second t.
Proof. unfold trunc_second, Second. cbn. f_equal. zdiv_lia. Qed.

Lemma trunc_second_le t : t_ns (trunc_second t) <= t_ns t < t_ns (trunc_second t) + Second.
Proof. unfold trunc_second, Second. cbn. zdiv_lia. Qed.

Lemma trunc_second_mono t u : t_ns t <= t_ns u -> t_ns (trunc_second t) <= t_ns (trunc_second u).
Proof. unfold trunc_second, Second. cbn. intros. zdiv_lia. Qed.

Lemma rfc3339_ok_trunc t : rfc3339_ok t -> rfc3339_ok (trunc_second t).
Proof.
  unfold rfc3339_ok, trunc_second. cbn [t_ns t_off].
  by rewrite Z.div_mul by (unfold Second; lia).
Qed.

Lemma rfc3339_ok_zero : rfc3339_ok zeroTime.
Proof. split; [vm_compute; split; [discriminate|done]|done]. Qed.

(** Every clock reading of the years 1 to 9998 in a real time zone is
    printable. *)
Lemma rfc3339_ok_clock ns off :
  0 <= ns < (days_before_year 9999) * 86400 * Second -> Z.abs off < 1440 ->
  rfc3339_ok (mkTime ns off).
Proof.
  unfold rfc3339_ok. cbn [t_ns t_off].
  change (days_before_year 9999) with 3651694. change (days_before_year 0) with (-366).
  change (days_before_year 10000) with 3652059. unfold Second. intros. zdiv_lia.
Qed.

Lemma dec_time_enc t cur : rfc3339_ok t -> dec_time (MarshalJSON t) cur = Some (trunc_second t).
Proof. intros H. unfold dec_time, UnmarshalJSON, MarshalJSON, dec_string. by rewrite Parse_Format. Qed.

#[export] Hint Resolve rfc3339_ok_zero rfc3339_ok_trunc : gotime.

(** ** Property *)

(** C30: an instant written as JSON and read back is the same instant and zone, less
    the fraction of its second; no instant a clock of the years 1 to 9998 shows
    is refused. *)
Theorem JSONTime_roundtrip t :
  rfc3339_ok t ->
  UnmarshalJSON (MarshalJSON t) = Ok (trunc_second t) /\
  t_off (trunc_second t) = t_off t /\ t_ns (trunc_second t) <= t_ns t < t_ns (trunc_second t) + Second.
Proof.
  intros H. split; [|split; [done|apply trunc_second_le]].
  unfold UnmarshalJSON, MarshalJSON, dec_string. by rewrite Parse_Format.
Qed.

Lemma JSONTime_roundtrip_witness :
  UnmarshalJSON (MarshalJSON (mkTime (days_before_year 2020 * 86400 * Second + 500 * Millisecond) (-480)))
    = Ok (mkTime (days_before_year 2020 * 86400 * Second) (-480)).
Proof.
  apply (JSONTime_roundtrip (mkTime (days_before_year 2020 * 86400 * Second + 500 * Millisecond) (-480))).
  apply rfc3339_ok_clock; [vm_compute; split; [discriminate|reflexivity]|reflexivity].
Defined.
