(* ===== verification/CniTypes.v ===== *)
(** * CniTypes: the data the components exchange

    The structs of the CNI library (package [types/current]) the plugins fill
    in and print, the EC2 instance identity document, and the state of the
    process-wide AWS client of aws/client.go. *)

From S2P Require Export GoNet GoTime.

(** [current.Interface] *)
Record CniInterface := mkCniInterface { if_Name : string; if_Mac : string; if_Sandbox : string }.
(** [current.IPConfig]; [ipc_Interface] is the [*int] index. *)
Record IPConfig := mkIPConfig {
  ipc_Version : string; ipc_Interface : option Z; ipc_Address : IPNet; ipc_Gateway : IP }.
(** [types.Route] *)
Record Route := mkRoute { rt_Dst : IPNet; rt_GW : IP }.
(** [types.DNS] *)
Record DNS := mkDNS {
  dns_Nameservers : list string; dns_Domain : string;
  dns_Search : list string; dns_Options : list string }.
(** [current.Result] *)
Record Result := mkResult {
  res_Interfaces : list CniInterface; res_IPs : list IPConfig;
  res_Routes : list Route; res_DNS : DNS }.
Definition emptyDNS : DNS := mkDNS [] EmptyString [] [].
Definition emptyResult : Result := mkResult [] [] [] emptyDNS.

(** [ec2metadata.EC2InstanceIdentityDocument] *)
Record IDDoc := mkIDDoc {
  id_Region : string; id_AvailabilityZone : string;
  id_InstanceType : string; id_InstanceID : string }.

(** [awsclient]: the cached identity document with its [sync.Once], and the
    EC2 client (the region it is bound to, [None] for the nil interface) with
    its own. *)
Record awsclient := mkAwsclient {
  idDoc : option IDDoc; onceIDDoc : bool;
  ec2Client : option string; onceEc2 : bool }.
Definition new_awsclient : awsclient := mkAwsclient None false None false.

(** What the process writes to its standard output: a CNI result with the
    version it was converted to, or a formatted line. *)
Inductive output :=
  | OutResult (r : Result) (cniVersion : string)
  | OutLine (format : string) (args : list earg).

#[export] Instance IDDoc_eq_dec : EqDecision IDDoc.
Proof. solve_decision. Defined.
#[export] Instance awsclient_eq_dec : EqDecision awsclient.
Proof. solve_decision. Defined.
