(* ===== verification/World.v ===== *)
(** * World: the state the program runs in, and the monad of its code

    A Go function is a state transformer over [World X]: the files and
    directories the process keeps its registry and caches in, the clock, the
    AWS client singleton, what was printed, and the state [X] of everything
    outside (the AWS services, the kernel, the container runtime).  [X] is
    abstract: code outside the repository is a parameter, reached with [ext].
    Every outside call takes some time, [latency].

    A call returns ([Done]), panics ([Panicked]) or exhausts the fuel of a
    loop ([OutOfFuel]); Go errors are ordinary results. *)

From S2P Require Export CniTypes.

Inductive fcontent :=
  | FJson (j : json)        (* a file holding one JSON document *)
  | FInvalid.               (* anything else, the empty file included *)

Record World (X : Type) := mkWorld {
  w_files : gmap string fcontent;
  w_dirs : gset string;
  w_clock : Z;
  w_client : awsclient;
  w_out : list output;
  w_ext : X }.
Arguments mkWorld {X}.
Arguments w_files {X}. Arguments w_dirs {X}. Arguments w_clock {X}.
Arguments w_client {X}. Arguments w_out {X}. Arguments w_ext {X}.

Inductive outcome (A : Type) :=
  | Done (a : A)
  | Panicked (msg : string)
  | OutOfFuel.
Arguments Done {A} a. Arguments Panicked {A} msg. Arguments OutOfFuel {A}.

Definition M (X A : Type) : Type := World X -> outcome A * World X.

#[export] Instance M_ret X : MRet (M X) := fun A a w => (Done a, w).
#[export] Instance M_bind X : MBind (M X) := fun A B k m w =>
  match m w with
  | (Done a, w') => k a w'
  | (Panicked s, w') => (Panicked s, w')
  | (OutOfFuel, w') => (OutOfFuel, w')
  end.

Definition panic {X A} (msg : string) : M X A := fun w => (Panicked msg, w).
Definition out_of_fuel {X A} : M X A := fun w => (OutOfFuel, w).

(** [x, err := m; if err != nil { return nil, err }] *)
Declare Scope go_scope.
Delimit Scope go_scope with go.
Notation "x ←? m ; k" :=
  (mbind (fun r => match r with Ok x => k | Err e => mret (Err e) end) m)
  (at level 20, m at level 100, k at level 200, only parsing) : go_scope.
(** [if err := m; err != nil { return nil, err }] for a function that returns
    only an error. *)
Notation "'?←' m ; k" :=
  (mbind (fun r => match r with None => k | Some e => mret (Err e) end) m)
  (at level 20, m at level 100, k at level 200, only parsing) : go_scope.
(** The same in a function that itself returns only an error. *)
Notation "'!←' m ; k" :=
  (mbind (fun r => match r with None => k | Some e => mret (Some e) end) m)
  (at level 20, m at level 100, k at level 200, only parsing) : go_scope.
Notation "x ←! m ; k" :=
  (mbind (fun r => match r with Ok x => k | Err e => mret (Some e) end) m)
  (at level 20, m at level 100, k at level 200, only parsing) : go_scope.
Open Scope go_scope.

(** ** Loops *)

(** [for _, a := range l], with loop state [S]; the body goes on ([inl]) or
    leaves the loop with a value ([inr]). *)
Fixpoint range_loop {X A S R} (l : list A) (s : S) (body : A -> S -> M X (S + R)) : M X (S + R) :=
  match l with
  | [] => mret (inl s)
  | a :: t =>
      r ← body a s;
      match r with
      | inl s' => range_loop t s' body
      | inr v => mret (inr v)
      end
  end.

(** A [range] loop that always runs to the end. *)
Fixpoint range_fold {X A S} (l : list A) (s : S) (body : A -> S -> M X S) : M X S :=
  match l with
  | [] => mret s
  | a :: t => s' ← body a s; range_fold t s' body
  end.

(** [for cond { ... }] with fuel. *)
Fixpoint fuel_loop {X S R} (fuel : nat) (s : S) (body : S -> M X (S + R)) : M X R :=
  match fuel with
  | O => out_of_fuel
  | S f =>
      r ← body s;
      match r with
      | inl s' => fuel_loop f s' body
      | inr v => mret v
      end
  end.

(** ** The Go runtime and operating system *)

Inductive os_op := OpStat | OpMkdirAll | OpOpen | OpRead | OpCreate | OpWrite | OpRemove
  | OpReadDir | OpStderr.
#[export] Instance os_op_eq_dec : EqDecision os_op.
Proof. solve_decision. Defined.

(** A [Less] of [sort.Interface] sorts when "not less" is a total preorder. *)
Class StrictWeak {A} (less : A -> A -> bool) : Prop := {
  sw_asym a b : less a b = true -> less b a = false;
  sw_trans a b c : less b a = false -> less c b = false -> less c a = false }.

(** What the runtime and the operating system decide: how long an outside
    call takes, whether a file operation fails, the order of a map iteration,
    the algorithm of package [sort] (not a stable one), the random numbers,
    the user id and the local time zone. *)
Class GoRuntime (X : Type) := {
  latency : X -> N;
  os_fault : os_op -> string -> X -> X * option error;
  getuid : Z;
  local_zone : Z;
  local_zone_range : Z.abs local_zone < 1440;    (* minutes: less than a day *)
  range_map {A} : gmap string A -> X -> X * list (string * A);
  range_map_perm A (m : gmap string A) x : (range_map m x).2 ≡ₚ map_to_list m;
  sort_slice {A} : (A -> A -> bool) -> list A -> list A;
  sort_slice_perm A (less : A -> A -> bool) l : sort_slice less l ≡ₚ l;
  sort_slice_sorted A (less : A -> A -> bool) l :
    StrictWeak less -> Sorted (fun a b => less b a = false) (sort_slice less l);
  rand_intn : Z -> X -> X * Z;
  rand_intn_range n x : 0 < n -> 0 <= (rand_intn n x).2 < n }.

Definition ENOENT : error := ExtErr "ENOENT".
Definition ENOTDIR : error := ExtErr "ENOTDIR".

Section primitives.
Context {X : Type} `{!GoRuntime X}.

Definition set_files (f : gmap string fcontent -> gmap string fcontent) (w : World X) : World X :=
  mkWorld (f (w_files w)) (w_dirs w) (w_clock w) (w_client w) (w_out w) (w_ext w).
Definition set_dirs (f : gset string -> gset string) (w : World X) : World X :=
  mkWorld (w_files w) (f (w_dirs w)) (w_clock w) (w_client w) (w_out w) (w_ext w).
Definition set_clock (t : Z) (w : World X) : World X :=
  mkWorld (w_files w) (w_dirs w) t (w_client w) (w_out w) (w_ext w).
Definition set_client (c : awsclient) (w : World X) : World X :=
  mkWorld (w_files w) (w_dirs w) (w_clock w) c (w_out w) (w_ext w).
Definition set_ext (x : X) (w : World X) : World X :=
  mkWorld (w_files w) (w_dirs w) (w_clock w) (w_client w) (w_out w) x.
Definition add_out (o : output) (w : World X) : World X :=
  mkWorld (w_files w) (w_dirs w) (w_clock w) (w_client w) (w_out w ++ [o]) (w_ext w).

(** A call to code outside the repository. *)
Definition ext {A} (op : X -> X * A) : M X A := fun w =>
  let r := op (w_ext w) in
  (Done r.2, set_ext r.1 (set_clock (w_clock w + Z.of_N (latency (w_ext w))) w)).

Definition modify (f : World X -> World X) : M X () := fun w => (Done tt, f w).
Definition gets {A} (f : World X -> A) : M X A := fun w => (Done (f w), w).

Definition time_Now : M X Time := gets (fun w => mkTime (w_clock w) local_zone).
Definition time_Sleep (d : Z) : M X () :=
  _ ← modify (fun w => set_clock (w_clock w + Z.max 0 d) w); ext (fun x => (x, tt)).

Definition Printf (format : string) (args : list earg) : M X () :=
  modify (add_out (OutLine format args)).

(** *** Package [os] *)
Definition fault (op : os_op) (path : string) : M X (option error) := ext (os_fault op path).

(** [info, err := os.Stat(p)]: whether [p] is there and is a directory. *)
Definition os_StatIsDir (path : string) : M X bool :=
  e ← fault OpStat path;
  match e with
  | Some _ => mret false
  | None => gets (fun w => bool_decide (path ∈ w_dirs w))
  end.

Definition os_MkdirAll (path : string) : M X (option error) :=
  !← fault OpMkdirAll path;
  present ← gets (fun w => bool_decide (is_Some (w_files w !! path)));
  if present : bool then mret (Some ENOTDIR)
  else _ ← modify (set_dirs (fun d => {[path]} ∪ d)); mret None.

(** [os.Open]: the content a reader of the file will see. *)
Definition os_Open (path : string) : M X (result fcontent) :=
  ?← fault OpOpen path;
  c ← gets (fun w => w_files w !! path);
  mret (match c with Some c => Ok c | None => Err ENOENT end).

Definition os_IsNotExist (e : error) : bool :=
  match e with ExtErr c => bool_decide (c = "ENOENT"%string) | _ => false end.

(** [json.NewDecoder(file).Decode(&v)] of an opened file: the new value. *)
Definition json_Decode {A} (path : string) (c : fcontent) (d : decoder A) (cur : A) : M X (result A) :=
  ?← fault OpRead path;
  mret (match c with
        | FJson j => match d j cur with
                     | Some a => Ok a
                     | None => Err (ExtErr "json: cannot unmarshal")
                     end
        | FInvalid => Err (ExtErr "json: syntax error")
        end).

(** [os.OpenFile(p, O_RDWR|O_CREATE|O_TRUNC, 0600)] inside directory [dir]:
    the file exists and is empty afterwards. *)
Definition os_Create (dir path : string) : M X (option error) :=
  !← fault OpCreate path;
  ok ← gets (fun w => bool_decide (dir ∈ w_dirs w));
  if ok : bool then _ ← modify (set_files (<[path := FInvalid]>)); mret None
  else mret (Some ENOENT).

(** [json.NewEncoder(file).Encode(v)]. *)
Definition json_Encode (path : string) (j : json) : M X (option error) :=
  !← fault OpWrite path;
  _ ← modify (set_files (<[path := FJson j]>)); mret None.

Definition os_Remove (path : string) : M X (option error) :=
  !← fault OpRemove path;
  present ← gets (fun w => bool_decide (is_Some (w_files w !! path)));
  if present : bool then _ ← modify (set_files (delete path)); mret None
  else mret (Some ENOENT).
End primitives.

(** ** Reasoning about code *)
Section reasoning.
Context {X : Type} `{!GoRuntime X}.
Implicit Types w : World X.

(** [m] returns, with a result and a final state that satisfy [Q]. *)
Definition wp {A} (m : M X A) (Q : A -> World X -> Prop) (w : World X) : Prop :=
  exists a w', m w = (Done a, w') /\ Q a w'.

(** Every call of [m] relates its initial and final states by [R], however
    it ends. *)
Definition frame {A} (R : relation (World X)) (m : M X A) : Prop := forall w, R w (m w).2.

Lemma bind_eq {A B} (m : M X A) (k : A -> M X B) w :
  (m ≫= k) w = match m w with
               | (Done a, w') => k a w'
               | (Panicked s, w') => (Panicked s, w')
               | (OutOfFuel, w') => (OutOfFuel, w')
               end.
Proof. done. Qed.

Lemma bind_ret {A B} (a : A) (k : A -> M X B) w : (mret a ≫= k) w = k a w.
Proof. done. Qed.
Lemma bind_gets {A B} (f : World X -> A) (k : A -> M X B) w : (gets f ≫= k) w = k (f w) w.
Proof. done. Qed.
Lemma bind_modify {B} f (k : () -> M X B) w : (modify f ≫= k) w = k tt (f w).
Proof. done. Qed.
Lemma bind_now {B} (k : Time -> M X B) w :
  (time_Now ≫= k) w = k (mkTime (w_clock w) local_zone) w.
Proof. done. Qed.
Lemma bind_assoc {A B C} (m : M X A) (k : A -> M X B) (h : B -> M X C) w :
  ((m ≫= k) ≫= h) w = (m ≫= (fun a => k a ≫= h)) w.
Proof. rewrite !bind_eq. by destruct (m w) as [[a|s|] w']. Qed.

Lemma bind_done {A B} (m : M X A) (k : A -> M X B) w a w' :
  m w = (Done a, w') -> (m ≫= k) w = k a w'.
Proof. intros H. by rewrite bind_eq, H. Qed.

Lemma bind_done_inv {A B} (m : M X A) (k : A -> M X B) w b w'' :
  (m ≫= k) w = (Done b, w'') ->
  exists a w', m w = (Done a, w') /\ k a w' = (Done b, w'').
Proof. rewrite bind_eq. destruct (m w) as [[a|s|] w']; [eauto|done|done]. Qed.

(** However a call ends: its first part returns, or the whole does not. *)
Lemma bind_inv {A B} (m : M X A) (k : A -> M X B) w o w'' :
  (m ≫= k) w = (o, w'') ->
  (exists a w', m w = (Done a, w') /\ k a w' = (o, w'')) \/ ((m w).2 = w'' /\ forall b, o <> Done b).
Proof.
  rewrite bind_eq. destruct (m w) as [[a|s|] w'] eqn:E; [intros H; left; by exists a, w'|intros [= <- <-]; right; done..].
Qed.

Lemma wp_ret {A} (a : A) Q w : Q a w -> wp (mret a) Q w.
Proof. intros H. by exists a, w. Qed.

Lemma wp_bind {A B} (m : M X A) (k : A -> M X B) Q w :
  wp m (fun a w' => wp (k a) Q w') w -> wp (m ≫= k) Q w.
Proof. intros (a & w' & Hm & b & w'' & Hk & HQ). exists b, w''. by rewrite (bind_done _ _ _ _ _ Hm). Qed.

Lemma wp_mono {A} (m : M X A) (Q Q' : A -> World X -> Prop) w :
  wp m Q w -> (forall a w', Q a w' -> Q' a w') -> wp m Q' w.
Proof. intros (a & w' & Hm & HQ) H. exists a, w'. auto. Qed.

Lemma wp_done {A} (m : M X A) Q w a w' : wp m Q w -> m w = (Done a, w') -> Q a w'.
Proof. intros (b & w'' & Hm & HQ) E. rewrite Hm in E. by simplify_eq. Qed.

Lemma wp_ext {A} (op : X -> X * A) Q w :
  (forall r x t, op (w_ext w) = (x, r) -> w_clock w <= t -> Q r (set_ext x (set_clock t w))) ->
  wp (ext op) Q w.
Proof.
  intros H. unfold wp, ext. do 2 eexists. split; [done|]. apply H; [by destruct (op _)|lia].
Qed.

Lemma wp_gets {A} (f : World X -> A) Q w : Q (f w) w -> wp (gets f) Q w.
Proof. intros H. by do 2 eexists. Qed.

Lemma wp_modify f (Q : () -> World X -> Prop) w : Q tt (f w) -> wp (modify f) Q w.
Proof. intros H. by do 2 eexists. Qed.

Lemma wp_range_loop_from {A S R} (pre l : list A) (body : A -> S -> M X (S + R)) (s : S)
    (I : list A -> S -> World X -> Prop) (Q : (S + R) -> World X -> Prop) w :
  I pre s w ->
  (forall don a rest s w, pre ++ l = don ++ a :: rest -> I don s w ->
     wp (body a s) (fun r w' => match r with
                                | inl s' => I (don ++ [a]) s' w'
                                | inr v => Q (inr v) w' end) w) ->
  (forall s w, I (pre ++ l) s w -> Q (inl s) w) ->
  wp (range_loop l s body) Q w.
Proof.
  revert pre s w. induction l as [|a l IH]; intros pre s w HI Hb HQ; cbn.
  - apply wp_ret, HQ. by rewrite app_nil_r.
  - apply wp_bind. eapply wp_mono; [by apply (Hb pre a l)|]. intros [s'|v] w' H'; [|by apply wp_ret].
    eapply (IH (pre ++ [a])); [done| |]; rewrite <- app_assoc; done.
Qed.

(** A loop with an invariant [I] on the elements already visited. *)
Lemma wp_range_loop {A S R} (l : list A) (body : A -> S -> M X (S + R)) (s : S)
    (I : list A -> S -> World X -> Prop) (Q : (S + R) -> World X -> Prop) w :
  I [] s w ->
  (forall don a rest s w, l = don ++ a :: rest -> I don s w ->
     wp (body a s) (fun r w' => match r with
                                | inl s' => I (don ++ [a]) s' w'
                                | inr v => Q (inr v) w' end) w) ->
  (forall s w, I l s w -> Q (inl s) w) ->
  wp (range_loop l s body) Q w.
Proof. apply (wp_range_loop_from []). Qed.

Lemma wp_range_fold {A S} (l : list A) (body : A -> S -> M X S) (s : S)
    (I : list A -> S -> World X -> Prop) (Q : S -> World X -> Prop) w :
  I [] s w ->
  (forall don a rest s w, l = don ++ a :: rest -> I don s w ->
     wp (body a s) (I (don ++ [a])) w) ->
  (forall s w, I l s w -> Q s w) ->
  wp (range_fold l s body) Q w.
Proof.
  enough (forall pre s w, I pre s w ->
    (forall don a rest s w, pre ++ l = don ++ a :: rest -> I don s w -> wp (body a s) (I (don ++ [a])) w) ->
    (forall s w, I (pre ++ l) s w -> Q s w) -> wp (range_fold l s body) Q w) as H by apply (H []).
  clear s w. induction l as [|a l IH]; intros pre s w HI Hb HQ; cbn.
  - apply wp_ret, HQ. by rewrite app_nil_r.
  - apply wp_bind. eapply wp_mono; [by apply (Hb pre a l)|]. intros s' w' H'.
    eapply (IH (pre ++ [a])); [done| |]; rewrite <- app_assoc; done.
Qed.

(** *** Frames *)
Section frames.
Context (R : relation (World X)) `{!PreOrder R}.

Lemma frame_ret {A} (a : A) : frame R (mret a).
Proof. intros w. cbn. reflexivity. Qed.
Lemma frame_panic {A} s : frame R (@panic X A s).
Proof. intros w. cbn. reflexivity. Qed.
Lemma frame_fuel {A} : frame R (@out_of_fuel X A).
Proof. intros w. cbn. reflexivity. Qed.
Lemma frame_gets {A} (f : World X -> A) : frame R (gets f).
Proof. intros w. cbn. reflexivity. Qed.
Lemma frame_bind {A B} (m : M X A) (k : A -> M X B) :
  frame R m -> (forall a, frame R (k a)) -> frame R (m ≫= k).
Proof.
  intros Hm Hk w. rewrite bind_eq. pose proof (Hm w) as H.
  destruct (m w) as [[a|s|] w']; cbn in *; [|done|done]. etransitivity; [exact H|apply Hk].
Qed.
(** The same, with what is known of the result of [m]. *)
Lemma frame_bind_val {A B} (P : A -> Prop) (m : M X A) (k : A -> M X B) :
  frame R m -> (forall w a w', m w = (Done a, w') -> P a) -> (forall a, P a -> frame R (k a)) ->
  frame R (m ≫= k).
Proof.
  intros Hm HP Hk w. rewrite bind_eq. pose proof (Hm w) as H.
  destruct (m w) as [[a|s|] w'] eqn:E; cbn in *; [|done|done].
  etransitivity; [exact H|]. eapply Hk, HP, E.
Qed.
Lemma frame_modify f : (forall w, R w (f w)) -> frame R (modify f).
Proof. intros H w. apply H. Qed.
Lemma frame_range_loop {A S B} (l : list A) (body : A -> S -> M X (S + B)) s :
  (forall a s, frame R (body a s)) -> frame R (range_loop l s body).
Proof.
  intros Hb. revert s. induction l as [|a l IH]; intros s; cbn; [apply frame_ret|].
  apply frame_bind; [done|]. intros [s'|v]; [apply IH|apply frame_ret].
Qed.
Lemma frame_range_fold {A S} (l : list A) (body : A -> S -> M X S) s :
  (forall a s, frame R (body a s)) -> frame R (range_fold l s body).
Proof.
  intros Hb. revert s. induction l as [|a l IH]; intros s; cbn; [apply frame_ret|].
  apply frame_bind; [done|]. apply IH.
Qed.
Lemma frame_fuel_loop {S B} n (body : S -> M X (S + B)) s :
  (forall s, frame R (body s)) -> frame R (fuel_loop n s body).
Proof.
  intros Hb. revert s. induction n as [|n IH]; intros s; cbn; [apply frame_fuel|].
  apply frame_bind; [done|]. intros [s'|v]; [apply IH|apply frame_ret].
Qed.

(** Relations that outside calls and the passing of time respect. *)
Class ExtClosed : Prop :=
  ext_closed w x t : w_clock w <= t -> R w (set_ext x (set_clock t w)).
Context `{!ExtClosed}.
Lemma frame_ext {A} (op : X -> X * A) : frame R (ext op).
Proof. intros w. apply ext_closed. lia. Qed.
Lemma frame_Sleep d : frame R (time_Sleep d).
Proof.
  apply frame_bind; [|intros ?; apply frame_ext]. apply frame_modify. intros w.
  assert (forall t, set_ext (w_ext w) (set_clock t w) = set_clock t w) as <- by (by destruct w).
  apply ext_closed. lia.
Qed.
End frames.

(** Relations that say nothing of the AWS client singleton. *)
Class ClientClosed (R : relation (World X)) : Prop :=
  client_closed w c : R w (set_client c w).

(** Relations that say nothing of the files and directories. *)
Class DiskClosed (R : relation (World X)) : Prop := {
  files_closed w f : R w (set_files f w);
  dirs_closed w f : R w (set_dirs f w) }.

(** The relations the components use: what a call leaves alone. *)
Definition clock_le w w' : Prop := w_clock w <= w_clock w'.
Definition same_file (p : string) w w' : Prop := w_files w' !! p = w_files w !! p.
Definition same_disk w w' : Prop := w_files w' = w_files w /\ w_dirs w' = w_dirs w.
Definition same_client w w' : Prop := w_client w' = w_client w.
Definition same_out w w' : Prop := w_out w' = w_out w.

#[export] Instance clock_le_preorder : PreOrder clock_le.
Proof. split; [intros w; unfold clock_le; lia|intros a b c; unfold clock_le; lia]. Qed.
#[export] Instance same_file_preorder p : PreOrder (same_file p).
Proof. split; [done|intros a b c; unfold same_file; congruence]. Qed.
#[export] Instance same_disk_preorder : PreOrder same_disk.
Proof. split; [done|intros a b c [] []; split; congruence]. Qed.
#[export] Instance same_client_preorder : PreOrder same_client.
Proof. split; [done|intros a b c; unfold same_client; congruence]. Qed.
#[export] Instance same_out_preorder : PreOrder same_out.
Proof. split; [done|intros a b c; unfold same_out; congruence]. Qed.
#[export] Instance clock_le_client : ClientClosed clock_le.
Proof. intros w c. unfold clock_le. cbn. lia. Qed.
#[export] Instance same_file_client p : ClientClosed (same_file p).
Proof. done. Qed.
#[export] Instance same_disk_client : ClientClosed same_disk.
Proof. done. Qed.
#[export] Instance same_out_client : ClientClosed same_out.
Proof. done. Qed.
#[export] Instance clock_le_disk : DiskClosed clock_le.
Proof. split; intros w f; unfold clock_le; cbn; lia. Qed.
#[export] Instance same_out_disk : DiskClosed same_out.
Proof. done. Qed.
#[export] Instance clock_le_ext : ExtClosed clock_le.
Proof. intros w x t H. exact H. Qed.
#[export] Instance same_file_ext p : ExtClosed (same_file p).
Proof. done. Qed.
#[export] Instance same_disk_ext : ExtClosed same_disk.
Proof. done. Qed.
#[export] Instance same_client_ext : ExtClosed same_client.
Proof. done. Qed.
#[export] Instance same_out_ext : ExtClosed same_out.
Proof. done. Qed.
End reasoning.

(** ** Termination

    [terminates m]: no loop of [m] runs out of fuel, from any state. *)
Section termination.
Context {X : Type} `{!GoRuntime X}.

Definition terminates {A} (m : M X A) : Prop := forall w, (m w).1 <> OutOfFuel.

Lemma terminates_ret {A} (a : A) : terminates (mret a).
Proof. done. Qed.
Lemma terminates_panic {A} s : terminates (@panic X A s).
Proof. done. Qed.
Lemma terminates_gets {A} (f : World X -> A) : terminates (gets f).
Proof. done. Qed.
Lemma terminates_modify (f : World X -> World X) : terminates (modify f).
Proof. done. Qed.
Lemma terminates_ext {A} (op : X -> X * A) : terminates (ext op).
Proof. done. Qed.
Lemma terminates_bind {A B} (m : M X A) (k : A -> M X B) :
  terminates m -> (forall a, terminates (k a)) -> terminates (m ≫= k).
Proof.
  intros Hm Hk w. rewrite bind_eq. pose proof (Hm w) as H.
  destruct (m w) as [[a|s|] w']; [apply Hk|done|done].
Qed.
Lemma terminates_Sleep d : terminates (time_Sleep d).
Proof. apply terminates_bind; done. Qed.
Lemma terminates_range_loop {A S R} (l : list A) (s : S) (body : A -> S -> M X (S + R)) :
  (forall a s, terminates (body a s)) -> terminates (range_loop l s body).
Proof.
  intros Hb. revert s. induction l as [|a l IH]; intros s; [done|].
  apply terminates_bind; [apply Hb|]. intros [s'|v]; [apply IH|done].
Qed.
Lemma terminates_range_fold {A S} (l : list A) (s : S) (body : A -> S -> M X S) :
  (forall a s, terminates (body a s)) -> terminates (range_fold l s body).
Proof.
  intros Hb. revert s. induction l as [|a l IH]; intros s; [done|].
  apply terminates_bind; [apply Hb|]. intros s'. apply IH.
Qed.

(** A polling loop that gives up once [deadline] has passed since [start]
    and waits at least [wait] between its rounds stops within
    [deadline / wait + 2] of them. *)
Lemma terminates_poll {S R} (body : S -> M X (S + R)) (start deadline wait : Z) n s w :
  0 < wait ->
  (forall s, terminates (body s)) ->
  (forall s w s' w', body s w = (Done (inl s'), w') ->
     w_clock w - start <= deadline /\ w_clock w + wait <= w_clock w') ->
  (1 <= n)%nat ->
  deadline - (w_clock w - start) < wait * (Z.of_nat n - 1) ->
  (fuel_loop n s body w).1 <> OutOfFuel.
Proof.
  intros Hw Hb Hstep. revert s w. induction n as [|n IH]; intros s w Hn Hd; [lia|].
  cbn. rewrite bind_eq. pose proof (Hb s w) as Hnf.
  destruct (body s w) as [[[s'|v]|m|] w'] eqn:E; cbn in *; [|done..].
  apply Hstep in E as [H1 H2]. apply IH; nia.
Qed.
End termination.

Create Rewrite HintDb world.
#[export] Hint Rewrite @bind_ret @bind_gets @bind_modify @bind_now : world.

Create HintDb terminates.
#[export] Hint Resolve terminates_ret terminates_panic terminates_gets terminates_modify
  terminates_ext terminates_Sleep : terminates.
Ltac terminates_step :=
  match goal with
  | |- terminates (_ ≫= _) => apply terminates_bind; [|intros ?]
  | |- terminates (range_loop _ _ _) => apply terminates_range_loop; intros ? ?
  | |- terminates (range_fold _ _ _) => apply terminates_range_fold; intros ? ?
  | |- terminates (match ?x with _ => _ end) => destruct x
  | |- terminates (let _ := _ in _) => cbv zeta
  | |- _ => solve [eauto with terminates]
  end.
Ltac solve_terminates := repeat terminates_step.

(** ** Code that always returns: no panic, no loop without end *)
Section totality.
Context {X : Type}.
Definition total {A} (m : M X A) : Prop := forall w, exists a w', m w = (Done a, w').
Lemma total_ret {A} (a : A) : total (mret a).
Proof. intros w. by do 2 eexists. Qed.
Lemma total_gets {A} (f : World X -> A) : total (gets f).
Proof. intros w. by do 2 eexists. Qed.
Lemma total_modify (f : World X -> World X) : total (modify f).
Proof. intros w. by do 2 eexists. Qed.
Lemma total_ext `{!GoRuntime X} {A} (op : X -> X * A) : total (ext op).
Proof. intros w. by do 2 eexists. Qed.
Lemma total_bind {A B} (m : M X A) (k : A -> M X B) : total m -> (forall a, total (k a)) -> total (m ≫= k).
Proof. intros Hm Hk w. destruct (Hm w) as (a & w' & E). rewrite bind_eq, E. apply Hk. Qed.
Lemma total_range_loop {A S R} (l : list A) (s : S) (body : A -> S -> M X (S + R)) :
  (forall a s, total (body a s)) -> total (range_loop l s body).
Proof.
  intros Hb. revert s. induction l as [|a l IH]; intros s; [apply total_ret|].
  apply total_bind; [apply Hb|]. intros [s'|v]; [apply IH|apply total_ret].
Qed.
Lemma total_range_fold {A S} (l : list A) (s : S) (body : A -> S -> M X S) :
  (forall a s, total (body a s)) -> total (range_fold l s body).
Proof.
  intros Hb. revert s. induction l as [|a l IH]; intros s; [apply total_ret|].
  apply total_bind; [apply Hb|]. intros s'. apply IH.
Qed.
Lemma total_wp {A} (m : M X A) w : total m -> wp m (fun a w' => m w = (Done a, w')) w.
Proof. intros H. destruct (H w) as (a & w' & E). by exists a, w'. Qed.
Lemma total_terminates {A} (m : M X A) : total m -> terminates m.
Proof. intros H w. destruct (H w) as (a & w' & ->). done. Qed.
End totality.
Create HintDb total.
#[export] Hint Resolve total_ret total_gets total_modify total_ext : total.
Ltac total_step :=
  match goal with
  | |- total (_ ≫= _) => apply total_bind; [|intros ?]
  | |- total (range_loop _ _ _) => apply total_range_loop; intros ? ?
  | |- total (range_fold _ _ _) => apply total_range_fold; intros ? ?
  | |- total (match ?x with _ => _ end) => destruct x
  | |- total (let _ := _ in _) => cbv zeta
  | |- _ => solve [eauto with total]
  end.
Ltac solve_total := repeat total_step.

(** ** What a call returns, whenever it returns *)
Section ensures.
Context {X : Type}.
Definition ensures {A} (m : M X A) (P : A -> Prop) : Prop := forall w a w', m w = (Done a, w') -> P a.
Lemma ensures_ret {A} (a : A) (P : A -> Prop) : P a -> ensures (mret a) P.
Proof. by intros H w b w' [= <- <-]. Qed.
Lemma ensures_bind {A B} (m : M X A) (k : A -> M X B) P Q :
  ensures m P -> (forall a, P a -> ensures (k a) Q) -> ensures (m ≫= k) Q.
Proof. intros Hm Hk w b w' E. apply bind_done_inv in E as (a & w1 & E1 & E2). eapply Hk, E2. by eapply Hm. Qed.
Lemma ensures_any {A} (m : M X A) : ensures m (fun _ => True).
Proof. done. Qed.
Lemma ensures_bind_any {A B} (m : M X A) (k : A -> M X B) Q :
  (forall a, ensures (k a) Q) -> ensures (m ≫= k) Q.
Proof. intros Hk. eapply ensures_bind; [apply ensures_any|]. by intros a _. Qed.
Lemma ensures_mono {A} (m : M X A) (P Q : A -> Prop) : ensures m P -> (forall a, P a -> Q a) -> ensures m Q.
Proof. intros H HQ w a w' E. by eapply HQ, H. Qed.
Lemma ensures_range_loop {A S R} (l : list A) (body : A -> S -> M X (S + R)) (s : S) (I : S -> Prop) (Q : R -> Prop) :
  I s -> (forall a s, a ∈ l -> I s -> ensures (body a s) (fun r => match r with inl s' => I s' | inr v => Q v end)) ->
  ensures (range_loop l s body) (fun r => match r with inl s' => I s' | inr v => Q v end).
Proof.
  revert s. induction l as [|a l IH]; intros s HI Hb; cbn; [by apply ensures_ret|].
  eapply ensures_bind; [apply Hb; [by left|done]|]. intros [s'|v] H; [|by apply ensures_ret].
  apply IH; [done|]. intros b t Hin. apply Hb. by right.
Qed.
Lemma ensures_fuel_loop {S R} n (s : S) (body : S -> M X (S + R)) (I : S -> Prop) (Q : R -> Prop) :
  I s -> (forall s, I s -> ensures (body s) (fun r => match r with inl s' => I s' | inr v => Q v end)) ->
  ensures (fuel_loop n s body) Q.
Proof.
  intros HI Hb. revert s HI. induction n as [|n IH]; intros s HI; [by intros w a w'|]. cbn.
  eapply ensures_bind; [by apply Hb|]. intros [s'|v] H; [by apply IH|by apply ensures_ret].
Qed.
(** The same with an invariant that speaks of the elements already seen. *)
Lemma ensures_loop_from {A S R} (pre l : list A) (body : A -> S -> M X (S + R)) (s : S)
    (I : list A -> S -> Prop) (Q : R -> Prop) :
  I pre s ->
  (forall don a rest s, pre ++ l = don ++ a :: rest -> I don s ->
     ensures (body a s) (fun r => match r with inl s' => I (don ++ [a]) s' | inr v => Q v end)) ->
  ensures (range_loop l s body) (fun r => match r with inl s' => I (pre ++ l) s' | inr v => Q v end).
Proof.
  revert pre s. induction l as [|a l IH]; intros pre s HI Hb; cbn; [apply ensures_ret; by rewrite app_nil_r|].
  eapply ensures_bind; [by eapply Hb|]. intros [s'|v] H; [|by apply ensures_ret].
  rewrite cons_middle, app_assoc. apply IH; [done|]. intros don b rest t Hl. apply (Hb don b rest).
  by rewrite cons_middle, app_assoc.
Qed.
Lemma ensures_loop {A S R} (l : list A) (body : A -> S -> M X (S + R)) (s : S) (I : list A -> S -> Prop) (Q : R -> Prop) :
  I [] s ->
  (forall don a rest s, l = don ++ a :: rest -> I don s ->
     ensures (body a s) (fun r => match r with inl s' => I (don ++ [a]) s' | inr v => Q v end)) ->
  ensures (range_loop l s body) (fun r => match r with inl s' => I l s' | inr v => Q v end).
Proof. apply (ensures_loop_from []). Qed.
Lemma ensures_fold_from {A S} (pre l : list A) (body : A -> S -> M X S) (s : S) (I : list A -> S -> Prop) :
  I pre s ->
  (forall don a rest s, pre ++ l = don ++ a :: rest -> I don s -> ensures (body a s) (I (don ++ [a]))) ->
  ensures (range_fold l s body) (I (pre ++ l)).
Proof.
  revert pre s. induction l as [|a l IH]; intros pre s HI Hb; cbn; [apply ensures_ret; by rewrite app_nil_r|].
  eapply ensures_bind; [by eapply Hb|]. intros s' H.
  rewrite cons_middle, app_assoc. apply IH; [done|]. intros don b rest t Hl. apply (Hb don b rest).
  by rewrite cons_middle, app_assoc.
Qed.
Lemma ensures_fold {A S} (l : list A) (body : A -> S -> M X S) (s : S) (I : list A -> S -> Prop) :
  I [] s -> (forall don a rest s, l = don ++ a :: rest -> I don s -> ensures (body a s) (I (don ++ [a]))) ->
  ensures (range_fold l s body) (I l).
Proof. apply (ensures_fold_from []). Qed.
End ensures.

Create HintDb frame.
#[export] Hint Resolve frame_ret frame_panic frame_fuel frame_gets frame_ext frame_Sleep : frame.
#[export] Hint Extern 1 (clock_le _ _) => (unfold clock_le; cbn; lia) : frame.
#[export] Hint Extern 1 (same_disk _ _) => (split; reflexivity) : frame.
#[export] Hint Extern 1 (same_file _ _ _) => reflexivity : frame.
#[export] Hint Extern 1 (same_client _ _) => reflexivity : frame.
#[export] Hint Extern 1 (same_out _ _) => reflexivity : frame.

(** Proves that a piece of code respects a relation, from what is known of
    its calls ([frame] hints). *)
Ltac frame_step :=
  match goal with
  | |- frame _ (_ ≫= _) => apply frame_bind; [apply _| |intros ?]
  | |- frame _ (range_loop _ _ _) => apply frame_range_loop; [apply _|intros ? ?]
  | |- frame _ (range_fold _ _ _) => apply frame_range_fold; [apply _|intros ? ?]
  | |- frame _ (fuel_loop _ _ _) => apply frame_fuel_loop; [apply _|intros ?]
  | |- frame _ (modify _) => apply frame_modify; intros ?
  | |- _ _ (set_client _ _) => apply client_closed
  | |- frame _ (match ?x with _ => _ end) => destruct x
  | |- frame _ (let _ := _ in _) => cbv zeta
  | |- _ => solve [eauto with frame typeclass_instances]
  end.
Ltac solve_frame := repeat frame_step.

(** ** Executions that end before the year 9999

    Instants are kept as RFC 3339 text, which has years of four digits.
    [wp_until m Q]: if [m] ends before that year is over, it returns, with a
    result and a state that satisfy [Q]. *)
Definition max_clock : Z := days_before_year 9999 * 86400 * Second - 1.

Section until.
Context {X : Type} `{!GoRuntime X}.
Implicit Types w : World X.

Lemma clock_rfc3339 t : 0 <= t <= max_clock -> rfc3339_ok (mkTime t (local_zone (X := X))).
Proof. unfold max_clock. intros H. apply rfc3339_ok_clock; [lia|apply local_zone_range]. Qed.

Definition wp_until {A} (m : M X A) (Q : A -> World X -> Prop) w : Prop :=
  w_clock (m w).2 <= max_clock -> wp m Q w.

Lemma wpu_intro {A} (m : M X A) (Q : A -> World X -> Prop) w :
  wp m (fun a w' => w_clock w' <= max_clock -> Q a w') w -> wp_until m Q w.
Proof. intros (a & w' & E & HQ) Hc. rewrite E in Hc. exists a, w'. auto. Qed.
Lemma wpu_ret {A} (a : A) Q w : Q a w -> wp_until (mret a) Q w.
Proof. intros H _. by apply wp_ret. Qed.
Lemma wpu_mono {A} (m : M X A) (Q Q' : A -> World X -> Prop) w :
  wp_until m Q w -> (forall a w', w_clock w' <= max_clock -> Q a w' -> Q' a w') -> wp_until m Q' w.
Proof.
  intros H HQ Hc. destruct (H Hc) as (a & w' & E & Ha). rewrite E in Hc. exists a, w'. auto.
Qed.
Lemma wpu_bind {A B} (m : M X A) (k : A -> M X B) Q w :
  (forall a, frame clock_le (k a)) ->
  wp_until m (fun a w' => wp_until (k a) Q w') w -> wp_until (m ≫= k) Q w.
Proof.
  intros Hk H Hc. rewrite bind_eq in Hc.
  assert (w_clock (m w).2 <= max_clock) as Hm.
  { destruct (m w) as [[a|s|] w'] eqn:E; cbn in *; [|done..].
    pose proof (Hk a w') as Hf. unfold clock_le in Hf. lia. }
  destruct (H Hm) as (a & w' & E & Hw'). rewrite E in Hc. apply wp_bind. exists a, w'. split; [done|].
  by apply Hw'.
Qed.

Lemma wpu_range_loop {A S R} (l : list A) (body : A -> S -> M X (S + R)) (s : S)
    (I : list A -> S -> World X -> Prop) (Q : (S + R) -> World X -> Prop) w :
  (forall a s, frame clock_le (body a s)) ->
  I [] s w ->
  (forall don a rest s w, l = don ++ a :: rest -> I don s w ->
     wp_until (body a s) (fun r w' => match r with
                                      | inl s' => I (don ++ [a]) s' w'
                                      | inr v => Q (inr v) w' end) w) ->
  (forall s w, I l s w -> Q (inl s) w) ->
  wp_until (range_loop l s body) Q w.
Proof.
  intros Hf. enough (forall pre s w, I pre s w ->
    (forall don a rest s w, pre ++ l = don ++ a :: rest -> I don s w ->
       wp_until (body a s) (fun r w' => match r with
                                        | inl s' => I (don ++ [a]) s' w'
                                        | inr v => Q (inr v) w' end) w) ->
    (forall s w, I (pre ++ l) s w -> Q (inl s) w) -> wp_until (range_loop l s body) Q w) as H
    by apply (H []).
  clear s w. induction l as [|a l IH]; intros pre s w HI Hb HQ; cbn.
  - apply wpu_ret, HQ. by rewrite app_nil_r.
  - apply wpu_bind.
    { intros [s'|v]; [apply frame_range_loop; [apply _|done]|apply frame_ret; apply _]. }
    eapply wpu_mono; [by apply (Hb pre a l)|]. intros [s'|v] w' _ H'; [|by apply wpu_ret].
    eapply (IH (pre ++ [a])); [done| |]; rewrite <- app_assoc; done.
Qed.
End until.

Lemma range_loop_ext {X A S R} (l : list A) (s : S) (f g : A -> S -> M X (S + R)) w :
  (forall a s w, f a s w = g a s w) -> range_loop l s f w = range_loop l s g w.
Proof.
  intros H. revert s w. induction l as [|a l IH]; intros s w; [done|]. cbn.
  rewrite !bind_eq, H. destruct (g a s w) as [[[s'|v]|m|] w']; [apply IH|done..].
Qed.

(** A loop over the elements of lists is a loop over their concatenation. *)
Lemma range_loop_app {X A S R} (l1 l2 : list A) (s : S) (body : A -> S -> M X (S + R)) w :
  range_loop (l1 ++ l2) s body w
  = (range_loop l1 s body ≫= (fun r => match r with
                                       | inl s' => range_loop l2 s' body
                                       | inr v => mret (inr v) end)) w.
Proof.
  revert s w. induction l1 as [|a l1 IH]; intros s w; [done|]. cbn.
  rewrite !bind_eq. destruct (body a s w) as [[[s'|v]|m|] w']; [|done..]. by rewrite IH.
Qed.
Lemma range_loop_fmap {X A B S R} (f : A -> B) (l : list A) (s : S) (body : B -> S -> M X (S + R)) w :
  range_loop (f <$> l) s body w = range_loop l s (fun a => body (f a)) w.
Proof.
  revert s w. induction l as [|a l IH]; intros s w; [done|]. cbn.
  rewrite !bind_eq. destruct (body (f a) s w) as [[[s'|v]|m|] w']; [apply IH|done..].
Qed.
Lemma range_loop_concat {X A B S R} (l : list A) (f : A -> list B) (s : S)
    (body : A -> S -> M X (S + R)) (body' : B -> S -> M X (S + R)) w :
  (forall a s w, body a s w = range_loop (f a) s body' w) ->
  range_loop l s body w = range_loop (concat (f <$> l)) s body' w.
Proof.
  intros H. revert s w. induction l as [|a l IH]; intros s w; [done|]. cbn.
  rewrite range_loop_app, !bind_eq, H. destruct (range_loop (f a) s body' w) as [[[s'|v]|m|] w']; [apply IH|done..].
Qed.

(** ** What file operations do on an operating system that does not fail *)
Class ReliableOS (X : Type) `{!GoRuntime X} : Prop :=
  os_reliable op p (x : X) : (os_fault op p x).2 = None.

Section files.
Context {X : Type} `{!GoRuntime X}.
Implicit Types w : World X.

(** [w'] is [w] with the files and directories changed so; time may have
    passed, and the outside may have moved on. *)
Record touches (ff : gmap string fcontent -> gmap string fcontent)
    (fd : gset string -> gset string) w w' : Prop := {
  t_files : w_files w' = ff (w_files w);
  t_dirs : w_dirs w' = fd (w_dirs w);
  t_client : w_client w' = w_client w;
  t_out : w_out w' = w_out w;
  t_clock : w_clock w <= w_clock w' }.
Definition quiet : relation (World X) := touches id id.

Lemma touches_trans ff fd ff' fd' w1 w2 w3 :
  touches ff fd w1 w2 -> touches ff' fd' w2 w3 -> touches (ff' ∘ ff) (fd' ∘ fd) w1 w3.
Proof. intros [] []. split; cbn; congruence || lia. Qed.
Lemma touches_ext ff fd ff' fd' w w' :
  touches ff fd w w' -> ff (w_files w) = ff' (w_files w) -> fd (w_dirs w) = fd' (w_dirs w) ->
  touches ff' fd' w w'.
Proof. intros [] ? ?. split; congruence. Qed.
Lemma quiet_touches ff fd w1 w2 w3 : quiet w1 w2 -> touches ff fd w2 w3 -> touches ff fd w1 w3.
Proof. intros H1 H2. exact (touches_trans _ _ _ _ _ _ _ H1 H2). Qed.
Lemma touches_quiet ff fd w1 w2 w3 : touches ff fd w1 w2 -> quiet w2 w3 -> touches ff fd w1 w3.
Proof. intros H1 H2. exact (touches_trans _ _ _ _ _ _ _ H1 H2). Qed.
Lemma quiet_files w w' : quiet w w' -> w_files w' = w_files w.
Proof. apply t_files. Qed.
Lemma quiet_dirs w w' : quiet w w' -> w_dirs w' = w_dirs w.
Proof. apply t_dirs. Qed.
#[export] Instance quiet_preorder : PreOrder quiet.
Proof.
  split; [intros w; split; done || lia|]. intros a b c. apply quiet_touches.
Qed.
#[export] Instance quiet_ext : ExtClosed quiet.
Proof. intros w x t H. by split. Qed.

Lemma frame_done {A} (R : relation (World X)) (m : M X A) w r w' :
  frame R m -> m w = (r, w') -> R w w'.
Proof. intros H E. specialize (H w). by rewrite E in H. Qed.

(** A call that respects [R] and returns. *)
Lemma frame_wp {A} (R : relation (World X)) (m : M X A) (Q : A -> World X -> Prop) w a w' :
  m w = (Done a, w') -> (R w w' -> Q a w') -> frame R m -> wp m Q w.
Proof. intros E H F. exists a, w'. split; [done|]. apply H. by eapply frame_done. Qed.

(** A directory that is there, or that nothing prevents from being made. *)
Definition dir_usable (d : string) w : Prop := d ∈ w_dirs w \/ w_files w !! d = None.

Lemma dir_usable_union d ff fd w w' :
  touches ff fd w w' -> d ∈ fd (w_dirs w) -> dir_usable d w'.
Proof. intros H Hd. left. by rewrite (t_dirs _ _ _ _ H). Qed.

Context `{!ReliableOS X}.

Lemma wp_fault op p Q w :
  (forall w', quiet w w' -> Q None w') -> wp (fault op p) Q w.
Proof.
  intros H. apply wp_ext. intros r x t E Ht.
  pose proof (os_reliable op p (w_ext w)) as Hr. rewrite E in Hr. cbn in Hr. subst r.
  apply H. by apply quiet_ext.
Qed.

Lemma wp_StatIsDir p Q w :
  (forall w', quiet w w' -> Q (bool_decide (p ∈ w_dirs w)) w') -> wp (os_StatIsDir p) Q w.
Proof.
  intros H. apply wp_bind, wp_fault. intros w' Hq. apply wp_gets.
  rewrite (quiet_dirs _ _ Hq). by apply H.
Qed.

Lemma wp_MkdirAll p Q w :
  w_files w !! p = None ->
  (forall w', touches id (union {[p]}) w w' -> Q None w') -> wp (os_MkdirAll p) Q w.
Proof.
  intros Hp H. apply wp_bind, wp_fault. intros w1 Hq. apply wp_bind, wp_gets.
  rewrite (quiet_files _ _ Hq), bool_decide_false by (by rewrite Hp; intros [? [=]]).
  apply wp_bind, wp_modify, wp_ret, H. eapply quiet_touches; [exact Hq|]. split; done || lia.
Qed.

Lemma wp_Open p Q w :
  (forall w', quiet w w' ->
     Q (match w_files w !! p with Some c => Ok c | None => Err ENOENT end) w') ->
  wp (os_Open p) Q w.
Proof.
  intros H. apply wp_bind, wp_fault. intros w' Hq. apply wp_bind, wp_gets, wp_ret.
  rewrite (quiet_files _ _ Hq). by apply H.
Qed.

Lemma wp_Decode {A} p c (d : decoder A) cur Q w :
  (forall w', quiet w w' ->
     Q (match c with
        | FJson j => match d j cur with Some a => Ok a | None => Err (ExtErr "json: cannot unmarshal") end
        | FInvalid => Err (ExtErr "json: syntax error")
        end) w') ->
  wp (json_Decode p c d cur) Q w.
Proof. intros H. apply wp_bind, wp_fault. intros w' Hq. by apply wp_ret, H. Qed.

Lemma wp_Create dir p Q w :
  dir ∈ w_dirs w ->
  (forall w', touches (insert p FInvalid) id w w' -> Q None w') -> wp (os_Create dir p) Q w.
Proof.
  intros Hd H. apply wp_bind, wp_fault. intros w1 Hq. apply wp_bind, wp_gets.
  rewrite (quiet_dirs _ _ Hq), bool_decide_true by done.
  apply wp_bind, wp_modify, wp_ret, H. eapply quiet_touches; [exact Hq|]. split; done || lia.
Qed.

Lemma wp_Encode p j Q w :
  (forall w', touches (insert p (FJson j)) id w w' -> Q None w') -> wp (json_Encode p j) Q w.
Proof.
  intros H. apply wp_bind, wp_fault. intros w1 Hq.
  apply wp_bind, wp_modify, wp_ret, H. eapply quiet_touches; [exact Hq|]. split; done || lia.
Qed.

Lemma wp_Remove p Q w :
  (forall w', touches (delete p) id w w' ->
     Q (if bool_decide (is_Some (w_files w !! p)) then None else Some ENOENT) w') ->
  wp (os_Remove p) Q w.
Proof.
  intros H. apply wp_bind, wp_fault. intros w1 Hq. apply wp_bind, wp_gets.
  rewrite (quiet_files _ _ Hq). cbn. case_bool_decide as Hs.
  - apply wp_bind, wp_modify, wp_ret. apply H. eapply quiet_touches; [exact Hq|].
    split; done || lia.
  - apply wp_ret. apply H. apply eq_None_not_Some in Hs. destruct Hq as [Hf]. split; try done.
    rewrite Hf. symmetry. by apply delete_id.
Qed.
End files.

(** Linear arithmetic over the clocks of the states in scope. *)
Ltac clock_lia :=
  repeat match goal with H : quiet ?a ?b |- _ => change (touches id id a b) in H end;
  repeat match goal with H : touches _ _ _ _ |- _ => apply t_clock in H end;
  cbn in *; lia.
