(* ===== verification/Services.v ===== *)
(** * Services: the code outside the repository, as interfaces

    One class per library or service the program calls, each operation a
    function of the outside state [X].  Nothing is said here of what an
    operation does; a theorem that relies on documented behaviour states it
    as a hypothesis.  A pointer field the program dereferences is an
    [option]; dereferencing [None] panics, as in Go. *)

From S2P Require Export World.

Definition deref {X A} (p : option A) : M X A :=
  match p with
  | Some a => mret a
  | None => panic "invalid memory address or nil pointer dereference"
  end.
Lemma deref_done {X A} (p : option A) (w : World X) a w' : deref p w = (Done a, w') -> p = Some a /\ w' = w.
Proof. destruct p as [b|]; [intros [= -> ->]; done|done]. Qed.

(** ** The EC2 metadata service (package [ec2metadata]) *)
Class MetadataService (X : Type) := {
  meta_Available : X -> X * bool;
  meta_GetMetadata : string -> X -> X * result string;
  meta_GetInstanceIdentityDocument : X -> X * result IDDoc }.

(** ** The EC2 API (package [ec2]); the client is bound to a region *)
Record NetworkInterface := mkNetworkInterface {
  ni_NetworkInterfaceId : option string;
  ni_MacAddress : option string;
  ni_PrivateIpAddresses : list (option string);
  ni_Attachment : option (option string);   (* the attachment, with its id *)
  ni_Status : option string }.

Record CreateRequest := mkCreateRequest {
  cr_Description : string; cr_Groups : list string; cr_SubnetId : string;
  cr_SecondaryPrivateIpAddressCount : option Z }.
Record AttachRequest := mkAttachRequest {
  at_DeviceIndex : Z; at_InstanceId : string; at_NetworkInterfaceId : string }.
Record ModifyRequest := mkModifyRequest {
  mo_AttachmentId : string; mo_DeleteOnTermination : bool; mo_NetworkInterfaceId : string }.
Record DetachRequest := mkDetachRequest {
  de_AttachmentId : option string; de_DryRun : bool; de_Force : bool }.

Record NetworkInfo := mkNetworkInfo {
  MaximumNetworkInterfaces : option Z;
  Ipv4AddressesPerInterface : option Z;
  Ipv6AddressesPerInterface : option Z }.

Record Ec2Tag := mkEc2Tag { tag_Key : option string; tag_Value : option string }.
Record Ec2Subnet := mkEc2Subnet {
  es_SubnetId : option string; es_CidrBlock : option string;
  es_DefaultForAz : option bool; es_AvailableIpAddressCount : option Z;
  es_Tags : list Ec2Tag }.
Record Filter := mkFilter { f_Name : string; f_Values : list string }.

(** A CIDR block association of a VPC: its state (itself behind a pointer)
    and its block. *)
Record CidrAssociation := mkCidrAssociation {
  ca_State : option (option string); ca_CidrBlock : option string }.
Record VpcInfo := mkVpcInfo { vi_VpcId : option string; vi_CidrBlockSet : list (option string) }.
Record Peering := mkPeering { pe_Accepter : option VpcInfo; pe_Requester : option VpcInfo }.

Class EC2API (X : Type) := {
  ec2_AssignPrivateIpAddresses : string -> string -> Z -> X -> X * option error;
  ec2_UnassignPrivateIpAddresses : string -> string -> list string -> X -> X * option error;
  ec2_CreateNetworkInterface : string -> CreateRequest -> X -> X * result (option NetworkInterface);
  ec2_AttachNetworkInterface : string -> AttachRequest -> X -> X * result (option string);
  ec2_ModifyNetworkInterfaceAttribute : string -> ModifyRequest -> X -> X * option error;
  ec2_DetachNetworkInterface : string -> DetachRequest -> X -> X * option error;
  ec2_DeleteNetworkInterface : string -> string -> X -> X * option error;
  ec2_DescribeNetworkInterfaces : string -> list string -> X -> X * result (list NetworkInterface);
  ec2_DescribeInstanceTypes : string -> list string -> X -> X * result (list (option NetworkInfo));
  ec2_DescribeSubnets : string -> list Filter -> X -> X * result (list Ec2Subnet);
  ec2_DescribeVpcs : string -> list string -> X -> X * result (list (list CidrAssociation));
  ec2_DescribeVpcPeeringConnections : string -> X -> X * result (list Peering) }.

(** ** netlink, and network namespaces

    An operation runs in a namespace: the host's ([None]) or the one of a path. *)
Abbreviation netns := (option string) (only parsing).

Record Link := mkLink { ln_Index : Z; ln_Name : string; ln_MTU : Z; ln_HardwareAddr : string }.
Record Addr := mkAddr { ad_IPNet : IPNet; ad_Label : string }.
Record HostIface := mkHostIface { hi_Index : Z; hi_Name : string; hi_HardwareAddr : string }.
Inductive family := FAMILY_ALL | FAMILY_V4 | FAMILY_V6.
Inductive scope := SCOPE_UNIVERSE | SCOPE_LINK.

Record NlRoute := mkNlRoute {
  ro_LinkIndex : Z; ro_Scope : scope; ro_Dst : option IPNet; ro_Gw : IP; ro_Table : Z }.
(** [netlink.Rule]; [NewRule] sets the numbers it does not know to -1. *)
Record Rule := mkRule { ru_IifName : string; ru_Table : Z; ru_Priority : Z; ru_Mark : Z }.
Definition NewRule : Rule := mkRule EmptyString 0 (-1) (-1).
Inductive IPVlanMode := IPVLAN_MODE_L2 | IPVLAN_MODE_L3 | IPVLAN_MODE_L3S.

Class Netlink (X : Type) := {
  nl_NewHandle : netns -> X -> X * option error;
  nl_LinkList : netns -> X -> X * result (list Link);
  nl_AddrList : netns -> Link -> family -> X -> X * result (list Addr);
  nl_LinkByName : netns -> string -> X -> X * result Link;
  nl_LinkByIndex : netns -> Z -> X -> X * result Link;
  nl_LinkSetUp : netns -> Link -> X -> X * option error;
  nl_LinkSetDown : netns -> Link -> X -> X * option error;
  nl_LinkDel : netns -> Link -> X -> X * option error;
  nl_LinkSetMTU : netns -> Link -> Z -> X -> X * option error;
  nl_RouteAdd : netns -> NlRoute -> X -> X * option error;
  nl_RuleList : family -> X -> X * result (list Rule);
  nl_RuleAdd : Rule -> X -> X * option error;
  nl_RuleDel : Rule -> X -> X * option error;
  net_Interfaces : X -> X * result (list HostIface);
  net_InterfaceByName : netns -> string -> X -> X * result HostIface;
  ns_Enter : string -> X -> X * option error;
  ns_ListNamed : X -> X * result (list string) }.

(** ** Docker *)
Class Docker (X : Type) := {
  docker_NewEnvClient : X -> X * option error;
  docker_ContainerList : X -> X * result (list string);
  docker_ContainerInspect : string -> X -> X * result Z }.

(** ** The CNI library: results

    [RawResult] is [types.Result].  [version_NewResult] reads the result
    [json.Marshal] wrote from a decoded map, in the given version;
    [ipam_ExecAdd] runs an IPAM plugin; [cni_Convert] is the conversion to the
    version of the caller when a result is printed. *)
Class CniLibrary (X : Type) := {
  RawResult : Type;
  version_NewResult : string -> gmap string json -> result RawResult;
  current_NewResultFromResult : RawResult -> result Result;
  cni_Convert : Result -> string -> X -> X * option error;
  ipam_ExecAdd : string -> option json -> X -> X * result RawResult;
  ipam_ExecDel : string -> option json -> X -> X * option error;
  ipam_ConfigureIface : netns -> string -> Result -> X -> X * option error }.

(** ** Packages [ns], [ip], [utils] and [sysctl] of the CNI plugins, and the
    part of netlink that makes links *)
Record IPVlan := mkIPVlan {
  iv_MTU : Z; iv_Name : string; iv_ParentIndex : Z; iv_Namespace : string; iv_Mode : IPVlanMode }.

Class CniPlugins (X : Type) := {
  ns_GetNS : string -> X -> X * option error;
  ns_Do : string -> X -> X * option error;
  ns_Close : string -> X -> X * option error;
  ip_RandomVethName : X -> X * result string;
  nl_LinkAdd : IPVlan -> X -> X * option error;
  ip_RenameLink : netns -> string -> string -> X -> X * option error;
  ip_DelLinkByName : netns -> string -> X -> X * option error;
  ip_SetupVeth : netns -> string -> Z -> netns -> X -> X * result (HostIface * HostIface);
  ip_GetVethPeerIfindex : netns -> string -> X -> X * result Z;
  ip_EnableIP4Forward : netns -> X -> X * option error;
  ip_EnableIP6Forward : netns -> X -> X * option error;
  ip_SetupIPMasq : IPNet -> string -> string -> X -> X * option error;
  ip_TeardownIPMasq : IPNet -> string -> string -> X -> X * option error;
  utils_FormatChainName : string -> string -> string;
  utils_FormatComment : string -> string -> string;
  sysctl_Sysctl : string -> string -> X -> X * option error }.

(** ** Packages [iptables] (one handle, for IPv4) and [arping] *)
Class Iptables (X : Type) := {
  ipt_New : netns -> X -> X * option error;
  ipt_HasRandomFully : X -> X * bool;
  ipt_AppendUnique : netns -> string -> string -> list string -> X -> X * option error;
  arping_Gratuitous : netns -> IP -> HostIface -> X -> X * option error }.

(** ** The file lock of package [lockfile] *)
Class Lockfile (X : Type) := {
  lock_New : X -> X * option error;
  lock_TryLock : X -> X * option error;
  lock_Unlock : X -> X * option error }.

Class Host (X : Type) := {
  host_runtime :: GoRuntime X;
  host_metadata :: MetadataService X;
  host_ec2 :: EC2API X;
  host_netlink :: Netlink X;
  host_docker :: Docker X;
  host_cni :: CniLibrary X;
  host_plugins :: CniPlugins X;
  host_iptables :: Iptables X;
  host_lockfile :: Lockfile X }.

Section helpers.
Context {X : Type} `{!Host X}.

(** A method of the EC2 client: calling it on the nil client panics. *)
Definition ec2_call {A} (client : option string) (op : string -> X -> X * A) : M X A :=
  region ← deref client; ext (op region).

(** [ns.WithNetNSPath(path, body)]; [s] holds the variables the closure
    captures and assigns. *)
Definition WithNetNSPath {S} (path : string) (s : S) (body : netns -> S -> M X (S * option error))
    : M X (S * option error) :=
  e ← ext (ns_Enter path);
  match e with
  | Some e => mret (s, Some e)
  | None => body (Some path) s
  end.

(** [netns.Do(body)] for the namespace opened from [path]. *)
Definition netns_Do {S} (path : string) (s : S) (body : netns -> S -> M X (S * option error))
    : M X (S * option error) :=
  e ← ext (ns_Do path);
  match e with
  | Some e => mret (s, Some e)
  | None => body (Some path) s
  end.

(** [types.PrintResult(result, version)]. *)
Definition PrintResult (r : Result) (version : string) : M X (option error) :=
  !← ext (cni_Convert r version);
  _ ← modify (add_out (OutResult r version)); mret None.
End helpers.

Section frames.
Context {X : Type} `{!Host X} (R : relation (World X)) `{!PreOrder R} `{!ExtClosed R}.

Lemma frame_deref {A} (p : option A) : frame R (deref p).
Proof. destruct p; [by apply frame_ret|by apply frame_panic]. Qed.
Lemma frame_ec2_call {A} c (op : string -> X -> X * A) : frame R (ec2_call c op).
Proof. apply frame_bind; [done|apply frame_deref|intros ?; by apply frame_ext]. Qed.
Lemma frame_WithNetNSPath {S} path (s : S) body :
  (forall ns s, frame R (body ns s)) -> frame R (WithNetNSPath path s body).
Proof.
  intros H. apply frame_bind; [done|by apply frame_ext|].
  intros [e|]; [by apply frame_ret|done].
Qed.
Lemma frame_netns_Do {S} path (s : S) body :
  (forall ns s, frame R (body ns s)) -> frame R (netns_Do path s body).
Proof.
  intros H. apply frame_bind; [done|by apply frame_ext|].
  intros [e|]; [by apply frame_ret|done].
Qed.
Lemma frame_PrintResult r v :
  (forall w, R w (add_out (OutResult r v) w)) -> frame R (PrintResult r v).
Proof.
  intros H. apply frame_bind; [done|by apply frame_ext|]. intros [e|]; [by apply frame_ret|].
  apply frame_bind; [done|by apply frame_modify|]. intros ?. by apply frame_ret.
Qed.
End frames.
#[export] Hint Resolve frame_deref frame_ec2_call frame_PrintResult : frame.
#[export] Hint Extern 2 (frame _ (WithNetNSPath _ _ _)) =>
  (apply frame_WithNetNSPath; [apply _..|intros ? ?; solve_frame]) : frame.
#[export] Hint Extern 2 (frame _ (netns_Do _ _ _)) =>
  (apply frame_netns_Do; [apply _..|intros ? ?; solve_frame]) : frame.

Section termination.
Context {X : Type} `{!Host X}.
Lemma terminates_deref {A} (p : option A) : terminates (X := X) (deref p).
Proof. by destruct p. Qed.
Lemma terminates_ec2_call {A} c (op : string -> X -> X * A) : terminates (ec2_call c op).
Proof. apply terminates_bind; [apply terminates_deref|]. intros ?. apply terminates_ext. Qed.
Lemma terminates_WithNetNSPath {S} path (s : S) body :
  (forall ns s, terminates (body ns s)) -> terminates (WithNetNSPath path s body).
Proof. intros H. apply terminates_bind; [apply terminates_ext|]. by intros [e|]. Qed.
Lemma terminates_netns_Do {S} path (s : S) body :
  (forall ns s, terminates (body ns s)) -> terminates (netns_Do path s body).
Proof. intros H. apply terminates_bind; [apply terminates_ext|]. by intros [e|]. Qed.
Lemma terminates_PrintResult r v : terminates (PrintResult r v).
Proof. unfold PrintResult. solve_terminates. Qed.
End termination.
#[export] Hint Resolve terminates_deref terminates_ec2_call terminates_PrintResult : terminates.
#[export] Hint Extern 2 (terminates (WithNetNSPath _ _ _)) =>
  (apply terminates_WithNetNSPath; intros ? ?; solve_terminates) : terminates.
#[export] Hint Extern 2 (terminates (netns_Do _ _ _)) =>
  (apply terminates_netns_Do; intros ? ?; solve_terminates) : terminates.
