(* ===== verification/Sim.v ===== *)
(** * Sim: a concrete host

    An executable instance of every interface of [Services], small enough to
    compute with: it is what the witnesses run the definitions on, and it
    shows that the hypotheses the theorems make about the outside world can
    hold.  The list [faults] of file operations that fail is a parameter. *)

From S2P Require Export Services.

Record Sim := mkSim {
  sim_meta : gmap string string;          (* the metadata tree *)
  sim_iddoc : list (result IDDoc);        (* answers for the identity document *)
  sim_ifs : list HostIface;
  sim_links : list (Link * list Addr);    (* of the host namespace *)
  sim_macs : list (string * string);      (* ENI id, MAC *)
  sim_pool : list string;                 (* addresses AWS hands out next *)
  sim_types : list (string * NetworkInfo);
  sim_subnets : list Ec2Subnet;
  sim_vpcs : list (list CidrAssociation);
  sim_peerings : list Peering;
  sim_enis : list NetworkInterface;
  sim_rules : list Rule;
  sim_log : list string }.

Definition assoc {V} (k : string) (l : list (string * V)) : option V :=
  snd <$> List.find (fun p => bool_decide (p.1 = k)) l.

Definition ipv4s_key (mac : string) : string :=
  ("network/interfaces/macs/" +:+ mac +:+ "//local-ipv4s")%string.
Definition join_lines (ls : list string) : string := str (join_with [newline] (chars <$> ls)).

Definition with_meta (m : gmap string string) (pool : list string) (entry : string) (s : Sim) : Sim :=
  mkSim m (sim_iddoc s) (sim_ifs s) (sim_links s) (sim_macs s) pool (sim_types s) (sim_subnets s)
    (sim_vpcs s) (sim_peerings s) (sim_enis s) (sim_rules s) (sim_log s ++ [entry]).
Definition with_iddoc (l : list (result IDDoc)) (s : Sim) : Sim :=
  mkSim (sim_meta s) l (sim_ifs s) (sim_links s) (sim_macs s) (sim_pool s) (sim_types s) (sim_subnets s)
    (sim_vpcs s) (sim_peerings s) (sim_enis s) (sim_rules s) (sim_log s).
Definition with_log (entry : string) (s : Sim) : Sim :=
  with_meta (sim_meta s) (sim_pool s) entry s.

(** AWS adds [n] addresses of its pool to an ENI; the metadata shows them. *)
Definition sim_assign (eni : string) (n : Z) (s : Sim) : Sim * option error :=
  match assoc eni (sim_macs s) with
  | Some mac =>
      let k := Z.to_nat n in
      if (n <=? 0) || (length (sim_pool s) <? k)%nat
      then (s, Some (ExtErr "PrivateIpAddressLimitExceeded"))
      else
        let cur := default EmptyString (sim_meta s !! ipv4s_key mac) in
        let ips := (if bool_decide (cur = EmptyString) then [] else [cur]) ++ take k (sim_pool s) in
        (with_meta (<[ipv4s_key mac := join_lines ips]> (sim_meta s)) (drop k (sim_pool s)) "assign" s, None)
  | None => (s, Some (ExtErr "InvalidNetworkInterfaceID.NotFound"))
  end.

Definition sim_unassign (eni : string) (ips : list string) (s : Sim) : Sim * option error :=
  match assoc eni (sim_macs s) with
  | Some mac =>
      let cur := strings_Split (default EmptyString (sim_meta s !! ipv4s_key mac)) newline in
      let left := List.filter (fun ip => negb (bool_decide (ip ∈ ips))) cur in
      (with_meta (<[ipv4s_key mac := join_lines left]> (sim_meta s)) (sim_pool s) "unassign" s, None)
  | None => (s, Some (ExtErr "InvalidNetworkInterfaceID.NotFound"))
  end.

Definition not_less {A} (less : A -> A -> bool) (a b : A) : Prop := less b a = false.
#[export] Instance not_less_dec {A} (less : A -> A -> bool) : RelDecision (not_less less).
Proof. intros a b. unfold not_less. apply _. Defined.
#[export] Instance not_less_total {A} (less : A -> A -> bool) : StrictWeak less -> Total (not_less less).
Proof.
  intros H a b. unfold not_less. destruct (less b a) eqn:E; [|by left].
  right. by apply sw_asym.
Qed.

(** The service never reports an instance type with a slash. *)
Definition plain_doc (r : result IDDoc) : result IDDoc :=
  match r with
  | Ok d => if existsb (Ascii.eqb path_slash) (chars (id_InstanceType d)) then Err (ExtErr "malformed document") else Ok d
  | Err e => Err e
  end.

Section instances.
Variables (faults : list os_op) (locked : bool).

#[local] Instance sim_runtime : GoRuntime Sim.
Proof.
  refine {|
    latency := fun _ => 1000000%N;
    os_fault := fun op p s => (s, if bool_decide (op ∈ faults) then Some (ExtErr "EIO") else None);
    getuid := 0;
    local_zone := 0;
    range_map := fun A m s => (s, map_to_list m);
    sort_slice := fun A less l => merge_sort (not_less less) l;
    rand_intn := fun n s => (s, 0) |}.
  - done.
  - done.
  - intros. apply merge_sort_Permutation.
  - intros A less l H. by apply (Sorted_merge_sort (not_less less)).
  - intros. cbn. lia.
Defined.

#[local] Instance sim_metadata : MetadataService Sim := {|
  meta_Available := fun s => (s, true);
  meta_GetMetadata := fun k s =>
    (s, match sim_meta s !! k with Some v => Ok v | None => Err (ExtErr "404") end);
  meta_GetInstanceIdentityDocument := fun s =>
    match sim_iddoc s with
    | [] => (s, Err (ExtErr "EC2MetadataRequestError"))
    | [r] => (s, plain_doc r)
    | r :: rest => (with_iddoc rest s, plain_doc r)
    end |}.

#[local] Instance sim_ec2 : EC2API Sim := {|
  ec2_AssignPrivateIpAddresses := fun _ eni n s => sim_assign eni n s;
  ec2_UnassignPrivateIpAddresses := fun _ eni ips s => sim_unassign eni ips s;
  ec2_CreateNetworkInterface := fun _ _ s => (with_log "create" s, Ok (head (sim_enis s)));
  ec2_AttachNetworkInterface := fun _ _ s =>
    (with_log "attach" s,
     match sim_meta s !! "refuse/attach"%string with
     | Some code => Err (ExtErr code)
     | None => Ok (Some "eni-attach-1"%string)
     end);
  ec2_ModifyNetworkInterfaceAttribute := fun _ _ s => (with_log "modify" s, None);
  ec2_DetachNetworkInterface := fun _ _ s => (with_log "detach" s, None);
  ec2_DeleteNetworkInterface := fun _ id s => (with_log ("delete " +:+ id) s, None);
  ec2_DescribeNetworkInterfaces := fun _ ids s =>
    (s, Ok (List.filter (fun ni => bool_decide (ni_NetworkInterfaceId ni ∈ Some <$> ids)) (sim_enis s)));
  ec2_DescribeInstanceTypes := fun _ types s =>
    (s, Ok (omap (fun t => Some <$> assoc t (sim_types s)) types));
  ec2_DescribeSubnets := fun _ _ s => (s, Ok (sim_subnets s));
  ec2_DescribeVpcs := fun _ _ s => (s, Ok (sim_vpcs s));
  ec2_DescribeVpcPeeringConnections := fun _ s => (s, Ok (sim_peerings s)) |}.

Definition sim_link (name : string) (s : Sim) : result Link :=
  match List.find (fun p => bool_decide (ln_Name p.1 = name)) (sim_links s) with
  | Some p => Ok p.1
  | None => Err (ExtErr "Link not found")
  end.

#[local] Instance sim_netlink : Netlink Sim := {|
  nl_NewHandle := fun _ s => (s, None);
  nl_LinkList := fun _ s => (s, Ok (fst <$> sim_links s));
  nl_AddrList := fun _ l _ s =>
    (s, match List.find (fun p => bool_decide (ln_Name p.1 = ln_Name l)) (sim_links s) with
        | Some p => Ok p.2
        | None => Ok []
        end);
  nl_LinkByName := fun _ name s => (s, sim_link name s);
  nl_LinkByIndex := fun _ i s =>
    (s, match List.find (fun p => bool_decide (ln_Index p.1 = i)) (sim_links s) with
        | Some p => Ok p.1
        | None => Err (ExtErr "Link not found")
        end);
  nl_LinkSetUp := fun _ _ s => (s, None);
  nl_LinkSetDown := fun _ _ s => (s, None);
  nl_LinkDel := fun _ _ s => (s, None);
  nl_LinkSetMTU := fun _ _ _ s => (s, None);
  nl_RouteAdd := fun _ _ s => (with_log "route" s, None);
  nl_RuleList := fun _ s => (s, Ok (sim_rules s));
  nl_RuleAdd := fun r s =>
    (mkSim (sim_meta s) (sim_iddoc s) (sim_ifs s) (sim_links s) (sim_macs s) (sim_pool s) (sim_types s)
       (sim_subnets s) (sim_vpcs s) (sim_peerings s) (sim_enis s) (sim_rules s ++ [r]) (sim_log s), None);
  nl_RuleDel := fun _ s => (s, None);
  net_Interfaces := fun s => (s, Ok (sim_ifs s));
  net_InterfaceByName := fun _ name s =>
    (s, match List.find (fun i => bool_decide (hi_Name i = name)) (sim_ifs s) with
        | Some i => Ok i
        | None => Err (ExtErr "no such network interface")
        end);
  ns_Enter := fun _ s => (s, None);
  ns_ListNamed := fun s => (s, Ok []) |}.

#[local] Instance sim_docker : Docker Sim := {|
  docker_NewEnvClient := fun s => (s, None);
  docker_ContainerList := fun s => (s, Err (ExtErr "Cannot connect to the Docker daemon"));
  docker_ContainerInspect := fun _ s => (s, Err (ExtErr "Cannot connect to the Docker daemon")) |}.

(** The IPAM plugin of the host hands out one address; a previous result is
    read when the map holds an interface name. *)
Definition sim_result (name : string) : Result :=
  mkResult [mkCniInterface name EmptyString EmptyString]
    [mkIPConfig "4" (Some 0) (mkIPNet [10; 0; 16; 21] [255; 255; 240; 0]) [10; 0; 16; 1]]
    [mkRoute (mkIPNet [100; 64; 0; 0] [255; 255; 0; 0]) [10; 0; 16; 1];
     mkRoute (mkIPNet [10; 0; 0; 0] [255; 255; 0; 0]) [10; 0; 16; 1]]
    (mkDNS ["10.0.0.2"%string] EmptyString [] []).
#[local] Instance sim_cni : CniLibrary Sim := {|
  RawResult := Result;
  version_NewResult := fun _ m =>
    match m !! "master"%string with
    | Some (JStr name) => Ok (sim_result name)
    | _ => Err (ExtErr "no result")
    end;
  current_NewResultFromResult := Ok;
  cni_Convert := fun _ _ s => (s, None);
  ipam_ExecAdd := fun _ _ s => (with_log "ipam add" s, Ok (sim_result "eth1"));
  ipam_ExecDel := fun _ _ s => (with_log "ipam del" s, None);
  ipam_ConfigureIface := fun _ _ _ s => (with_log "configure" s, None) |}.
#[local] Instance sim_plugins : CniPlugins Sim := {|
  ns_GetNS := fun _ s => (s, None);
  ns_Do := fun _ s => (s, None);
  ns_Close := fun _ s => (with_log "close" s, None);
  ip_RandomVethName := fun s => (s, Ok "veth0a1b"%string);
  nl_LinkAdd := fun _ s => (with_log "link add" s, None);
  ip_RenameLink := fun _ _ _ s => (with_log "rename" s, None);
  ip_DelLinkByName := fun _ name s =>
    (s, match sim_link name s with Ok _ => None | Err _ => Some (ExtErr "link not found") end);
  ip_SetupVeth := fun _ name _ _ s =>
    (with_log "veth" s, Ok (mkHostIface 9 "veth0a1b" "0a:01", mkHostIface 3 name "0a:02"));
  ip_GetVethPeerIfindex := fun _ _ s => (s, Ok 9);
  ip_EnableIP4Forward := fun _ s => (with_log "forward 4" s, None);
  ip_EnableIP6Forward := fun _ s => (with_log "forward 6" s, None);
  ip_SetupIPMasq := fun _ _ _ s => (with_log "masq" s, None);
  ip_TeardownIPMasq := fun _ _ _ s => (with_log "unmasq" s, None);
  utils_FormatChainName := fun n i => ("CNI-" +:+ n +:+ i)%string;
  utils_FormatComment := fun n i => ("name: " +:+ n +:+ " id: " +:+ i)%string;
  sysctl_Sysctl := fun _ _ s => (with_log "sysctl" s, None) |}.
#[local] Instance sim_iptables : Iptables Sim := {|
  ipt_New := fun _ s => (s, None);
  ipt_HasRandomFully := fun s => (s, true);
  ipt_AppendUnique := fun _ _ _ _ s => (with_log "iptables" s, None);
  arping_Gratuitous := fun _ _ _ s => (s, None) |}.
#[local] Instance sim_lockfile : Lockfile Sim := {|
  lock_New := fun s => (s, None);
  lock_TryLock := fun s => (s, if locked then Some (ExtErr "Locked by other process") else None);
  lock_Unlock := fun s => (s, None) |}.

Definition sim_host : Host Sim := Build_Host Sim _ _ _ _ _ _ _ _ _.
End instances.

(** The host whose file operations all succeed. *)
Definition good_host : Host Sim := sim_host [] false.
(** The same host while another process holds the file lock. *)
Definition locked_host : Host Sim := sim_host [] true.

#[export] Instance good_host_reliable : @ReliableOS Sim (@host_runtime Sim good_host).
Proof. intros op p x. done. Qed.

(** ** A small instance: one boot ENI and one ENI for Pods *)
Definition lines (ls : list string) : string := join_lines ls.

Definition eni_meta (mac id num subnet : string) (ips : list string) : list (string * string) :=
  let p := ("network/interfaces/macs/" +:+ mac +:+ "//")%string in
  [((p +:+ "interface-id")%string, id); ((p +:+ "device-number")%string, num);
   (ipv4s_key mac, lines ips); ((p +:+ "subnet-id")%string, subnet);
   ((p +:+ "subnet-ipv4-cidr-block")%string, "10.0.16.0/20"%string);
   ((p +:+ "vpc-id")%string, "vpc-1"%string);
   ((p +:+ "vpc-ipv4-cidr-block")%string, "10.0.0.0/16"%string);
   ((p +:+ "vpc-ipv4-cidr-blocks")%string, lines ["10.0.0.0/16"; "100.64.0.0/16"]);
   ((p +:+ "security-group-ids")%string, "sg-1"%string)].

Definition demo_doc : IDDoc := mkIDDoc "us-east-1" "us-east-1a" "r4.xlarge" "i-1".
Definition demo_subnet : Ec2Subnet :=
  mkEc2Subnet (Some "subnet-b"%string) (Some "10.0.16.0/20"%string) (Some false) (Some 40)
    [mkEc2Tag (Some "Name"%string) (Some "pods"%string);
     mkEc2Tag (Some "kubernetes_kubelet"%string) (Some "true"%string)].

Definition ip4 (a b c d : Z) : IP := [a; b; c; d].

(** The addresses in use on the host: those of the boot ENI and one Pod's. *)
Definition demo_links : list (Link * list Addr) :=
  [(mkLink 1 "eth0" 9001 "02:aa", [mkAddr (mkIPNet (ip4 10 0 16 5) [255;255;240;0]) "eth0"]);
   (mkLink 2 "eth1" 1500 "02:bb", [mkAddr (mkIPNet (ip4 10 0 16 20) [255;255;240;0]) "eth1"])].

Definition demo_sim : Sim := mkSim
  (list_to_map (("network/interfaces/macs/"%string, lines ["02:bb/"; "02:aa/"])
     :: eni_meta "02:aa" "eni-a" "0" "subnet-a" ["10.0.16.5"]
     ++ eni_meta "02:bb" "eni-b" "1" "subnet-b" ["10.0.16.20"; "10.0.16.21"]))
  [Ok demo_doc]
  [mkHostIface 1 "eth0" "02:aa"; mkHostIface 2 "eth1" "02:bb"]
  demo_links
  [("eni-a", "02:aa"); ("eni-b", "02:bb")]%string
  ["10.0.16.30"; "10.0.16.31"]%string
  [("r4.xlarge"%string, mkNetworkInfo (Some 4) (Some 15) (Some 15))]
  [demo_subnet] [] [] [] [] [].

(** 2020-01-01T00:00:00Z *)
Definition demo_clock : Z := days_before_year 2020 * 86400 * Second.

Definition demo_world : World Sim :=
  mkWorld ∅ ∅ demo_clock new_awsclient [] demo_sim.
