(* ===== verification/Nl.v ===== *)
(** * Nl: package nl (nl/up.go, down.go, mtu.go, desc.go, docker.go)

    Bringing interfaces up and down, reading and setting MTUs, and the list of
    the IPv4 addresses bound in every network namespace of the host, the named
    ones and those of the running Docker containers.

    [UpInterfacePoll] polls for at most [interfaceSettleDeadline] (20 s) with
    [interfaceSettleWaitTime] (100 ms) between attempts: 201 attempts and one
    last look at the clock, so its loop has fuel 202. *)

From S2P Require Export Sim.

Section nl.
Context {X : Type} `{!Host X}.

Definition host_ns : netns := None.

(** ** up.go *)
Definition interfaceSettleWaitTime : Z := 100 * Millisecond.
Definition interfaceSettleDeadline : Z := 20 * Second.

Definition UpInterface (name : string) : M X (option error) :=
  link ←! ext (nl_LinkByName host_ns name);
  ext (nl_LinkSetUp host_ns link).

Definition UpInterfacePoll_fuel : nat := 202.
Definition UpInterfacePoll_body (name : string) (start : Time) (_ : ()) : M X (() + option error) :=
  now ← time_Now;
  if t_ns now - t_ns start <=? interfaceSettleDeadline then
    err ← UpInterface name;
    match err with
    | None => mret (inr None)
    | Some _ =>
        werr ← fault OpStderr "stderr";
        match werr with
        | Some _ => panic "write to stderr"
        | None => _ ← time_Sleep interfaceSettleWaitTime; mret (inl tt)
        end
    end
  else mret (inr (Some (Errorf "Interface was not found after setting time" []))).
Definition UpInterfacePoll (name : string) : M X (option error) :=
  start ← time_Now;
  fuel_loop UpInterfacePoll_fuel tt (UpInterfacePoll_body name start).

(** ** down.go *)
Definition DownInterface (name : string) : M X (option error) :=
  link ←! ext (nl_LinkByName host_ns name);
  err ← ext (nl_LinkSetDown host_ns link);
  match err with
  | Some e => _ ← Printf "Unable to set interface %v down" [AStr name]; mret (Some e)
  | None => mret None
  end.

Definition nl_RemoveInterface (name : string) : M X (option error) :=
  link ←! ext (nl_LinkByName host_ns name);
  err ← ext (nl_LinkDel host_ns link);
  match err with
  | Some e => _ ← Printf "Unable to remove interface %v" [AStr name]; mret (Some e)
  | None => mret None
  end.

(** ** mtu.go *)
Definition GetMtu (name : string) : M X (result Z) :=
  link ←? ext (nl_LinkByName host_ns name);
  mret (Ok (ln_MTU link)).

Definition SetMtu (name : string) (mtu : Z) : M X (option error) :=
  link ←! ext (nl_LinkByName host_ns name);
  ext (nl_LinkSetMTU host_ns link mtu).

(** ** docker.go *)
Definition runningDockerContainers : M X (result (list string)) :=
  ?← ext docker_NewEnvClient;
  containers ←? ext docker_ContainerList;
  mret (Ok containers).

Definition dockerNetworkNamespace (containerID : string) : M X (result string) :=
  ?← ext docker_NewEnvClient;
  r ← ext (docker_ContainerInspect containerID);
  match r with
  | Err _ => mret (Ok EmptyString)
  | Ok pid =>
      if pid =? 0 then mret (Err (Errorf "Container has exited %v" [AStr containerID]))
      else mret (Ok ("/proc/" +:+ pretty pid +:+ "/ns/net")%string)
  end.

Definition dockerNetworkNamespaces (containerIDs : list string) : M X (list string) :=
  range_fold containerIDs [] (fun containerID namespaces =>
    cid ← dockerNetworkNamespace containerID;
    mret (match cid with
          | Ok cid => if bool_decide (cid = EmptyString) then namespaces
                      else namespaces ++ [cid]
          | Err _ => namespaces
          end)).

(** ** desc.go *)
Record BoundIP := mkBoundIP { bi_IPNet : IPNet; bi_Label : string }.

Definition getIpsOnHandle (ns : netns) : M X (result (list BoundIP)) :=
  links ←? ext (nl_LinkList ns);
  r ← range_loop links [] (fun link foundIps =>
    addrs ← ext (nl_AddrList ns link FAMILY_V4);
    match addrs with
    | Err e => mret (inr e)
    | Ok addrs =>
        mret (inl (foundIps ++ ((fun addr => mkBoundIP (ad_IPNet addr) (ad_Label addr)) <$> addrs)))
    end);
  mret (match r with inl foundIps => Ok foundIps | inr e => Err e end).

(** The addresses found in one more namespace are appended to [foundIps];
    a namespace that cannot be read is reported and skipped. *)
Definition GetIPs_namespace (nsPath : string) (foundIps : list BoundIP) : M X (list BoundIP) :=
  r ← WithNetNSPath nsPath foundIps (fun ns foundIps =>
    e ← ext (nl_NewHandle ns);
    match e with
    | Some e => mret (foundIps, Some e)
    | None =>
        newIps ← getIpsOnHandle ns;
        mret (foundIps ++ result_value [] newIps,
              match newIps with Ok _ => None | Err e => Some e end)
    end);
  mret r.1.

Definition GetIPs : M X (result (list BoundIP)) :=
  files ← ext ns_ListNamed;
  let named := (fun f => path_Join ["/var/run/netns"; f]) <$> result_value [] files in
  containers ← runningDockerContainers;
  dockerNamespaces ← match containers with
                     | Ok containers => dockerNetworkNamespaces containers
                     | Err _ => mret []
                     end;
  let namespaces := named ++ dockerNamespaces in
  ?← ext (nl_NewHandle host_ns);
  foundIps ←? getIpsOnHandle host_ns;
  foundIps ← range_fold namespaces foundIps GetIPs_namespace;
  mret (Ok foundIps).
End nl.

(** ** What these calls leave alone, and that they stop *)
Section nl_frames.
Context {X : Type} `{!Host X} (R : relation (World X)) `{!PreOrder R} `{!ExtClosed R}.

Lemma frame_UpInterface name : frame R (UpInterface name).
Proof. unfold UpInterface. solve_frame. Qed.
Lemma frame_UpInterfacePoll name : frame R (UpInterfacePoll name).
Proof. unfold UpInterfacePoll, UpInterfacePoll_body, UpInterface, time_Now, fault. solve_frame. Qed.
Lemma frame_GetMtu name : frame R (GetMtu name).
Proof. unfold GetMtu. solve_frame. Qed.
Lemma frame_SetMtu name mtu : frame R (SetMtu name mtu).
Proof. unfold SetMtu. solve_frame. Qed.
Lemma frame_getIpsOnHandle ns : frame R (getIpsOnHandle ns).
Proof. unfold getIpsOnHandle. solve_frame. Qed.
Lemma frame_GetIPs : frame R GetIPs.
Proof.
  pose proof frame_getIpsOnHandle.
  unfold GetIPs, GetIPs_namespace, runningDockerContainers, dockerNetworkNamespaces,
    dockerNetworkNamespace. solve_frame.
Qed.
End nl_frames.
#[export] Hint Resolve frame_UpInterface frame_UpInterfacePoll frame_GetMtu frame_SetMtu
  frame_getIpsOnHandle frame_GetIPs : frame.

Section nl_properties.
Context {X : Type} `{!Host X}.

(** Listing the bound addresses always returns. *)
Lemma total_GetIPs : total (X := X) GetIPs.
Proof.
  unfold GetIPs, GetIPs_namespace, runningDockerContainers, dockerNetworkNamespaces,
    dockerNetworkNamespace, getIpsOnHandle, WithNetNSPath. solve_total.
Qed.
Lemma terminates_GetIPs : terminates (X := X) GetIPs.
Proof. apply total_terminates, total_GetIPs. Qed.

Lemma UpInterfacePoll_round name start s w s' w' :
  UpInterfacePoll_body name start s w = (Done (inl s'), w') ->
  w_clock w - t_ns start <= interfaceSettleDeadline /\
  w_clock w + interfaceSettleWaitTime <= w_clock w'.
Proof.
  unfold UpInterfacePoll_body. rewrite bind_now. cbn [t_ns].
  destruct (Z.leb_spec (w_clock w - t_ns start) interfaceSettleDeadline); [|done].
  intros E. split; [done|].
  apply bind_done_inv in E as (err & w1 & E1 & E). destruct err as [e|]; [|done].
  apply bind_done_inv in E as (werr & w2 & E2 & E). destruct werr as [e'|]; [done|].
  apply bind_done_inv in E as (u & w3 & E3 & E). injection E as <- <-.
  pose proof (frame_UpInterface clock_le name w) as F1. rewrite E1 in F1.
  pose proof (frame_ext clock_le (os_fault OpStderr "stderr") w1) as F2. unfold fault in E2. rewrite E2 in F2.
  unfold clock_le in *. cbn in *. injection E3 as _ <-. cbn. lia.
Qed.

Lemma terminates_UpInterfacePoll name : terminates (X := X) (UpInterfacePoll name).
Proof.
  intros w. unfold UpInterfacePoll. rewrite bind_now.
  apply (terminates_poll _ (w_clock w) interfaceSettleDeadline interfaceSettleWaitTime).
  - done.
  - intros s. unfold UpInterfacePoll_body, UpInterface, time_Now, fault. solve_terminates.
  - intros s w1 s' w2 E. by apply UpInterfacePoll_round in E.
  - unfold UpInterfacePoll_fuel. lia.
  - unfold UpInterfacePoll_fuel, interfaceSettleDeadline, interfaceSettleWaitTime, Second, Millisecond. lia.
Qed.
End nl_properties.
#[export] Hint Resolve terminates_GetIPs terminates_UpInterfacePoll : terminates.
#[export] Hint Resolve total_GetIPs : total.

(** ** What listing the bound addresses means

    Each relation says what one part of the listing contributes, run from one
    state to another, and why it may contribute nothing. *)
Section listing.
Context {X : Type} `{!Host X}.

(** Each link's IPv4 addresses with their labels; the first link that cannot be
    read is an error. *)
Inductive addrs_read (ns : netns) : list Link -> World X -> result (list BoundIP) -> World X -> Prop :=
  | ar_nil w : addrs_read ns [] w (Ok []) w
  | ar_fail link links w e w1 :
      ext (nl_AddrList ns link FAMILY_V4) w = (Done (Err e), w1) -> addrs_read ns (link :: links) w (Err e) w1
  | ar_error link links w addrs w1 e w2 :
      ext (nl_AddrList ns link FAMILY_V4) w = (Done (Ok addrs), w1) -> addrs_read ns links w1 (Err e) w2 ->
      addrs_read ns (link :: links) w (Err e) w2
  | ar_cons link links w addrs w1 ips w2 :
      ext (nl_AddrList ns link FAMILY_V4) w = (Done (Ok addrs), w1) -> addrs_read ns links w1 (Ok ips) w2 ->
      addrs_read ns (link :: links) w (Ok (((fun a => mkBoundIP (ad_IPNet a) (ad_Label a)) <$> addrs) ++ ips)) w2.
Inductive bound_in (ns : netns) (w : World X) : result (list BoundIP) -> World X -> Prop :=
  | bi_fail e w1 : ext (nl_LinkList ns) w = (Done (Err e), w1) -> bound_in ns w (Err e) w1
  | bi_links links w1 r w2 :
      ext (nl_LinkList ns) w = (Done (Ok links), w1) -> addrs_read ns links w1 r w2 -> bound_in ns w r w2.

(** A namespace contributes nothing exactly when it cannot be entered, opened
    or read, and otherwise every address bound in it. *)
Inductive visited (path : string) (w : World X) : list BoundIP -> World X -> Prop :=
  | vi_closed e w1 : ext (ns_Enter path) w = (Done (Some e), w1) -> visited path w [] w1
  | vi_handle w1 e w2 :
      ext (ns_Enter path) w = (Done None, w1) -> ext (nl_NewHandle (Some path)) w1 = (Done (Some e), w2) -> visited path w [] w2
  | vi_unread w1 w2 e w3 :
      ext (ns_Enter path) w = (Done None, w1) -> ext (nl_NewHandle (Some path)) w1 = (Done None, w2) ->
      bound_in (Some path) w2 (Err e) w3 -> visited path w [] w3
  | vi_read w1 w2 ips w3 :
      ext (ns_Enter path) w = (Done None, w1) -> ext (nl_NewHandle (Some path)) w1 = (Done None, w2) ->
      bound_in (Some path) w2 (Ok ips) w3 -> visited path w ips w3.

(** The namespace of a container: none when Docker does not answer or the
    container has exited. *)
Inductive container_space (id : string) (w : World X) : list string -> World X -> Prop :=
  | cs_client e w1 : ext docker_NewEnvClient w = (Done (Some e), w1) -> container_space id w [] w1
  | cs_inspect w1 e w2 :
      ext docker_NewEnvClient w = (Done None, w1) -> ext (docker_ContainerInspect id) w1 = (Done (Err e), w2) ->
      container_space id w [] w2
  | cs_exited w1 w2 :
      ext docker_NewEnvClient w = (Done None, w1) -> ext (docker_ContainerInspect id) w1 = (Done (Ok 0), w2) ->
      container_space id w [] w2
  | cs_running w1 pid w2 :
      ext docker_NewEnvClient w = (Done None, w1) -> ext (docker_ContainerInspect id) w1 = (Done (Ok pid), w2) -> pid <> 0 ->
      container_space id w [("/proc/" +:+ pretty pid +:+ "/ns/net")%string] w2.

(** One thing after the other, their contributions in order. *)
Inductive in_turn {A B} (step : A -> World X -> list B -> World X -> Prop) : list A -> World X -> list B -> World X -> Prop :=
  | it_nil w : in_turn step [] w [] w
  | it_cons a rest w l w1 l' w2 :
      step a w l w1 -> in_turn step rest w1 l' w2 -> in_turn step (a :: rest) w (l ++ l') w2.
Inductive docker_spaces (w : World X) : list string -> World X -> Prop :=
  | dk_client e w1 : ext docker_NewEnvClient w = (Done (Some e), w1) -> docker_spaces w [] w1
  | dk_list w1 e w2 :
      ext docker_NewEnvClient w = (Done None, w1) -> ext docker_ContainerList w1 = (Done (Err e), w2) -> docker_spaces w [] w2
  | dk_containers w1 ids w2 paths w3 :
      ext docker_NewEnvClient w = (Done None, w1) -> ext docker_ContainerList w1 = (Done (Ok ids), w2) ->
      in_turn container_space ids w2 paths w3 -> docker_spaces w paths w3.

Lemma ext_done {A} (op : X -> X * A) (w : World X) : exists a w', ext op w = (Done a, w').
Proof. by do 2 eexists. Qed.

Lemma addrs_read_loop ns links found (w : World X) :
  exists r w', addrs_read ns links w r w' /\
    range_loop links found (fun link foundIps =>
      addrs ← ext (nl_AddrList ns link FAMILY_V4);
      match addrs with
      | Err e => mret (inr e)
      | Ok addrs => mret (inl (foundIps ++ ((fun addr => mkBoundIP (ad_IPNet addr) (ad_Label addr)) <$> addrs)))
      end) w = (Done (match r with Ok ips => inl (found ++ ips) | Err e => inr e end), w').
Proof.
  revert found w. induction links as [|link links IH]; intros found w.
  - exists (Ok []), w. split; [constructor|]. cbn. by rewrite app_nil_r.
  - destruct (ext_done (nl_AddrList ns link FAMILY_V4) w) as ([addrs|e] & w1 & E).
    + destruct (IH (found ++ ((fun addr => mkBoundIP (ad_IPNet addr) (ad_Label addr)) <$> addrs)) w1) as ([ips|e] & w' & H & E').
      * eexists (Ok _), w'. split; [by eapply ar_cons|]. cbn [range_loop]. rewrite bind_assoc, (bind_done _ _ _ _ _ E).
        rewrite bind_ret, E'. by rewrite app_assoc.
      * exists (Err e), w'. split; [by eapply ar_error|]. cbn [range_loop]. rewrite bind_assoc, (bind_done _ _ _ _ _ E).
        by rewrite bind_ret, E'.
    + exists (Err e), w1. split; [by apply ar_fail|]. cbn [range_loop]. by rewrite bind_assoc, (bind_done _ _ _ _ _ E).
Qed.
Lemma bound_in_list ns (w : World X) : exists r w', bound_in ns w r w' /\ getIpsOnHandle ns w = (Done r, w').
Proof.
  destruct (ext_done (nl_LinkList ns) w) as ([links|e] & w1 & E); unfold getIpsOnHandle; rewrite (bind_done _ _ _ _ _ E).
  - destruct (addrs_read_loop ns links [] w1) as (r & w2 & H & E'). exists r, w2. split; [by eapply bi_links|].
    rewrite (bind_done _ _ _ _ _ E'). by destruct r.
  - exists (Err e), w1. split; [by apply bi_fail|done].
Qed.
Lemma visited_namespace path found (w : World X) :
  exists l w', visited path w l w' /\ GetIPs_namespace path found w = (Done (found ++ l), w').
Proof.
  unfold GetIPs_namespace, WithNetNSPath.
  destruct (ext_done (ns_Enter path) w) as ([e|] & w1 & E1); rewrite bind_assoc, (bind_done _ _ _ _ _ E1).
  { exists [], w1. split; [by apply (vi_closed path w e)|]. by rewrite app_nil_r. }
  destruct (ext_done (nl_NewHandle (Some path)) w1) as ([e|] & w2 & E2); rewrite bind_assoc, (bind_done _ _ _ _ _ E2).
  { exists [], w2. split; [by apply (vi_handle path w w1 e)|]. by rewrite app_nil_r. }
  destruct (bound_in_list (Some path) w2) as ([ips|e] & w3 & H & E3); rewrite bind_assoc, (bind_done _ _ _ _ _ E3).
  - exists ips, w3. split; [by eapply vi_read|done].
  - exists [], w3. split; [by eapply vi_unread|done].
Qed.
Lemma namespaces_in_turn paths found (w : World X) :
  exists l w', in_turn visited paths w l w' /\ range_fold paths found GetIPs_namespace w = (Done (found ++ l), w').
Proof.
  revert found w. induction paths as [|path paths IH]; intros found w.
  - exists [], w. split; [constructor|]. by rewrite app_nil_r.
  - destruct (visited_namespace path found w) as (l & w1 & H & E). destruct (IH (found ++ l) w1) as (l' & w2 & H' & E').
    exists (l ++ l'), w2. split; [by eapply it_cons|]. cbn [range_fold]. by rewrite (bind_done _ _ _ _ _ E), E', app_assoc.
Qed.

(** The path of a namespace is not empty, so the one found is kept. *)
Lemma container_space_step id spaces (w : World X) :
  exists l w', container_space id w l w' /\
    (cid ← dockerNetworkNamespace id;
     mret (match cid with
           | Ok cid => if bool_decide (cid = EmptyString) then spaces else spaces ++ [cid]
           | Err _ => spaces
           end)) w = (Done (spaces ++ l), w').
Proof.
  unfold dockerNetworkNamespace. destruct (ext_done docker_NewEnvClient w) as ([e|] & w1 & E1);
    rewrite bind_assoc, (bind_done _ _ _ _ _ E1).
  { exists [], w1. split; [by apply (cs_client id w e)|]. by rewrite app_nil_r. }
  destruct (ext_done (docker_ContainerInspect id) w1) as ([pid|e] & w2 & E2); rewrite bind_assoc, (bind_done _ _ _ _ _ E2).
  - destruct (Z.eqb_spec pid 0) as [->|Hp]; [|by eexists [_], w2; split; [by eapply cs_running|]].
    exists [], w2. split; [by eapply cs_exited|]. by rewrite app_nil_r.
  - exists [], w2. split; [by eapply cs_inspect|]. by rewrite app_nil_r.
Qed.
Lemma containers_in_turn ids spaces (w : World X) :
  exists l w', in_turn container_space ids w l w' /\
    range_fold ids spaces (fun containerID namespaces =>
      cid ← dockerNetworkNamespace containerID;
      mret (match cid with
            | Ok cid => if bool_decide (cid = EmptyString) then namespaces else namespaces ++ [cid]
            | Err _ => namespaces
            end)) w = (Done (spaces ++ l), w').
Proof.
  revert spaces w. induction ids as [|id ids IH]; intros spaces w.
  - exists [], w. split; [constructor|]. by rewrite app_nil_r.
  - destruct (container_space_step id spaces w) as (l & w1 & H & E). destruct (IH (spaces ++ l) w1) as (l' & w2 & H' & E').
    exists (l ++ l'), w2. split; [by eapply it_cons|]. cbn [range_fold]. by rewrite (bind_done _ _ _ _ _ E), E', app_assoc.
Qed.
Lemma docker_spaces_listed (w : World X) :
  exists l w', docker_spaces w l w' /\
    (containers ← runningDockerContainers;
     match containers with Ok containers => dockerNetworkNamespaces containers | Err _ => mret [] end) w = (Done l, w').
Proof.
  unfold runningDockerContainers. destruct (ext_done docker_NewEnvClient w) as ([e|] & w1 & E1);
    rewrite bind_assoc, (bind_done _ _ _ _ _ E1); [exists [], w1; by split; [apply (dk_client w e)|]|].
  destruct (ext_done docker_ContainerList w1) as ([ids|e] & w2 & E2); rewrite bind_assoc, (bind_done _ _ _ _ _ E2).
  - destruct (containers_in_turn ids [] w2) as (l & w3 & H & E3). exists l, w3. split; [by eapply dk_containers|]. exact E3.
  - exists [], w2. by split; [eapply dk_list|].
Qed.
End listing.

(** ** Property *)

(** C37: listing the bound addresses always returns.  It fails only when the host's own
    addresses cannot be listed.  Otherwise the list is the addresses of the host
    followed by those of each namespace in turn, the named ones first and then
    those of the running containers: a namespace contributes every address bound
    in it, or nothing if it cannot be entered, opened or read.  Neither Docker nor the
    directory of named namespaces has to be there. *)
Theorem GetIPs_parts {X} `{!Host X} (w : World X) :
  exists r w' files w1 docker w2, GetIPs w = (Done r, w') /\
    ext ns_ListNamed w = (Done files, w1) /\ docker_spaces w1 docker w2 /\
    match r with
    | Err e => ext (nl_NewHandle host_ns) w2 = (Done (Some e), w') \/
        exists w3, ext (nl_NewHandle host_ns) w2 = (Done None, w3) /\ bound_in host_ns w3 (Err e) w'
    | Ok ips => exists w3 hostIps w4 others,
        ext (nl_NewHandle host_ns) w2 = (Done None, w3) /\ bound_in host_ns w3 (Ok hostIps) w4 /\
        in_turn visited (((fun f => path_Join ["/var/run/netns"%string; f]) <$> result_value [] files) ++ docker) w4 others w' /\
        ips = hostIps ++ others
    end.
Proof.
  destruct (ext_done ns_ListNamed w) as (files & w1 & E1). destruct (docker_spaces_listed w1) as (docker & w2 & Hd & E2).
  destruct (ext_done (nl_NewHandle host_ns) w2) as (e & w3 & E3). destruct (bound_in_list host_ns w3) as (host & w4 & Hh & E4).
  assert (GetIPs w = (?←ext (nl_NewHandle host_ns); foundIps ←? getIpsOnHandle host_ns;
    foundIps ← range_fold (((fun f => path_Join ["/var/run/netns"%string; f]) <$> result_value [] files) ++ docker)
      foundIps GetIPs_namespace; mret (Ok foundIps)) w2) as E.
  { unfold GetIPs. rewrite (bind_done _ _ _ _ _ E1). cbv zeta. rewrite <- bind_assoc. by rewrite (bind_done _ _ _ _ _ E2). }
  rewrite (bind_done _ _ _ _ _ E3) in E.
  destruct e as [e|]; [exists (Err e), w3, files, w1, docker, w2; split_and!; [done..|by left]|].
  rewrite (bind_done _ _ _ _ _ E4) in E. destruct host as [hostIps|e].
  - destruct (namespaces_in_turn (((fun f => path_Join ["/var/run/netns"%string; f]) <$> result_value [] files) ++ docker)
      hostIps w4) as (others & w5 & Ho & E5). rewrite (bind_done _ _ _ _ _ E5) in E.
    exists (Ok (hostIps ++ others)), w5, files, w1, docker, w2. split_and!; [done..|]. by exists w3, hostIps, w4, others.
  - exists (Err e), w4, files, w1, docker, w2. split_and!; [done..|]. right. by exists w3.
Qed.

Example demo_bound :
  match (@GetIPs Sim good_host demo_world).1 with
  | Done (Ok l) => (fun b => net_IP (bi_IPNet b)) <$> l
  | _ => []
  end = [ip4 10 0 16 5; ip4 10 0 16 20].
Proof. vm_compute. reflexivity. Qed.
