(* ===== verification/Lock.v ===== *)
(** * Lock: lib/lock.go

    Running a function under the machine-wide file lock.  The loop counts
    [tries] down from 1000 and gives up when it reaches 0, so the lock is tried
    at most 999 times, a tenth of a second apart. *)

From S2P Require Export Sim.

(** [defer d()]: [d] runs when [m] returns and when it panics. *)
Definition with_defer {X A} (m : M X A) (d : M X ()) : M X A := fun w =>
  match m w with
  | (Done a, w') => (_ ← d; mret a) w'
  | (Panicked s, w') => (_ ← d; panic s) w'
  | (OutOfFuel, w') => (OutOfFuel, w')
  end.

(** [err == lockfile.ErrBusy] and the like: the package's error values are
    known by their code. *)
Definition is_ext (code : string) (err : error) : bool :=
  match err with ExtErr c => bool_decide (c = code) | _ => false end.

Section lock.
Context {X : Type} `{!Host X}.

Definition ErrBusy : string := "Locked by other process".
Definition ErrNotExist : string := "Lockfile does not exist".

(** The loop, entered with [tries]. *)
Fixpoint acquire (tries : nat) : M X (option error) :=
  match tries with
  | O | S O => mret (Some (Errorf "Lockfile not acquired, aborting" []))
  | S tries =>
      err ← ext lock_TryLock;
      match err with
      | None => mret None
      | Some err =>
          if is_ext ErrBusy err then _ ← time_Sleep (100 * Millisecond); acquire tries
          else if is_ext ErrNotExist err then _ ← time_Sleep (100 * Millisecond); acquire tries
          else mret (Some err)
      end
  end.

Definition lock_tries : nat := 1000.
Definition LockfileRun (run : M X (option error)) : M X (option error) :=
  !← ext lock_New;
  !← acquire lock_tries;
  with_defer run (_ ← ext lock_Unlock; mret tt).
End lock.

(** ** Termination and frames *)
Section lock_lemmas.
Context {X : Type} `{!Host X}.

Lemma acquire_S n : acquire (X := X) (S (S n)) =
  (err ← ext lock_TryLock;
   match err with
   | None => mret None
   | Some err =>
       if is_ext ErrBusy err then _ ← time_Sleep (100 * Millisecond); acquire (S n)
       else if is_ext ErrNotExist err then _ ← time_Sleep (100 * Millisecond); acquire (S n)
       else mret (Some err)
   end).
Proof. done. Qed.

Lemma terminates_acquire n : terminates (X := X) (acquire n).
Proof.
  induction n as [|[|n] IH]; [by apply terminates_ret..|]. rewrite acquire_S. solve_terminates.
Qed.
Lemma terminates_with_defer {A} (m : M X A) d : terminates m -> terminates d -> terminates (with_defer m d).
Proof.
  intros Hm Hd w. unfold with_defer. pose proof (Hm w) as H. destruct (m w) as [[a|s|] w']; [| |done].
  - apply terminates_bind; [done|intros ?; apply terminates_ret].
  - apply terminates_bind; [done|intros ?; apply terminates_panic].
Qed.
Lemma terminates_LockfileRun run : terminates run -> terminates (X := X) (LockfileRun run).
Proof.
  intros Hr. pose proof terminates_acquire. unfold LockfileRun.
  apply terminates_bind; [apply terminates_ext|]. intros [e|]; [apply terminates_ret|].
  apply terminates_bind; [apply terminates_acquire|]. intros [e|]; [apply terminates_ret|].
  apply terminates_with_defer; [done|]. solve_terminates.
Qed.

(** Trying the lock changes nothing the process keeps. *)
Lemma frame_acquire (R : relation (World X)) `{!PreOrder R} `{!ExtClosed R} n : frame R (acquire n).
Proof. induction n as [|[|n] IH]; [solve_frame..|]. rewrite acquire_S. solve_frame. Qed.

(** Each failed try costs a tenth of a second. *)
Lemma acquire_waits n (w : World X) e w' :
  (forall x, exists e, (lock_TryLock x).2 = Some e /\ (is_ext ErrBusy e || is_ext ErrNotExist e) = true) ->
  acquire n w = (Done e, w') ->
  e = Some (Errorf "Lockfile not acquired, aborting" []) /\
  w_clock w + Z.of_nat (n - 1) * (100 * Millisecond) <= w_clock w'.
Proof.
  intros Hbusy. revert w. induction n as [|[|n] IH]; intros w E.
  - injection E as <- <-. split; [done|]. cbn. lia.
  - injection E as <- <-. split; [done|]. cbn. lia.
  - rewrite acquire_S in E. apply bind_done_inv in E as (r & w1 & E1 & E).
    destruct (Hbusy (w_ext w)) as (err & Hr & He). injection E1 as <- E1. rewrite Hr in E.
    assert (w_clock w <= w_clock w1) as C1 by (subst w1; cbn; lia).
    assert ((_ ← time_Sleep (100 * Millisecond); acquire (S n)) w1 = (Done e, w')) as E2
      by (destruct (is_ext ErrBusy err); [exact E|]; cbn in He; by rewrite He in E).
    apply bind_done_inv in E2 as (u & w2 & E2 & E3). apply IH in E3 as [-> C3]. split; [done|].
    injection E2 as _ <-. unfold Millisecond in *. cbn -[Z.of_nat] in C3 |- *. lia.
Qed.
End lock_lemmas.

(** ** Properties *)

(** C10: the function runs only after [TryLock] has answered without an error,
    at once after it; it runs exactly once, and the lock is given back when it
    returns and when it panics.  When the lock is not obtained, the function
    does not run at all and the error is returned. *)
Theorem LockfileRun_exclusive {X} `{!Host X} run (w w1 w2 : World X) a :
  ext lock_New w = (Done None, w1) -> acquire lock_tries w1 = (Done a, w2) ->
  match a with
  | Some err => LockfileRun run w = (Done (Some err), w2)
  | None =>
      (exists wt, ext lock_TryLock wt = (Done None, w2)) /\
      LockfileRun run w =
        match run w2 with
        | (Done r, w3) => (Done r, (ext lock_Unlock w3).2)
        | (Panicked s, w3) => (Panicked s, (ext lock_Unlock w3).2)
        | (OutOfFuel, w3) => (OutOfFuel, w3)
        end
  end.
Proof.
  intros E1 E2. unfold LockfileRun. rewrite (bind_done _ _ _ _ _ E1), (bind_done _ _ _ _ _ E2).
  destruct a as [err|]; [done|]. split.
  - revert w1 E1 E2. unfold lock_tries. generalize 1000%nat. intros n w1 _. revert w1.
    induction n as [|[|n] IH]; intros w1 E2; [done..|]. rewrite acquire_S in E2.
    apply bind_done_inv in E2 as ([e|] & w3 & E3 & E2); [|injection E2 as <-; by exists w1].
    destruct (is_ext ErrBusy e); [|destruct (is_ext ErrNotExist e); [|done]];
      apply bind_done_inv in E2 as (? & w4 & _ & E2); by eapply IH.
  - unfold with_defer. by destruct (run w2) as [[r|s|] w3].
Qed.

(** C28: while another process holds the lock, [LockfileRun] gives up with an
    error, without running the function, after at least 99.9 seconds. *)
Theorem LockfileRun_busy {X} `{!Host X} run (w w1 : World X) :
  (forall x, exists e, (lock_TryLock x).2 = Some e /\ (is_ext ErrBusy e || is_ext ErrNotExist e) = true) ->
  ext lock_New w = (Done None, w1) ->
  exists w', LockfileRun run w = (Done (Some (Errorf "Lockfile not acquired, aborting" [])), w') /\
    w_clock w + 999 * (100 * Millisecond) <= w_clock w' /\ w_files w' = w_files w.
Proof.
  intros Hbusy E1. assert (total (acquire (X := X) lock_tries)) as Ht.
  { generalize lock_tries. intros n. induction n as [|[|n] IH]; [apply total_ret..|].
    rewrite acquire_S. unfold time_Sleep. solve_total. }
  destruct (Ht w1) as (e & w' & E2). pose proof (acquire_waits _ _ _ _ Hbusy E2) as [-> C].
  exists w'. unfold LockfileRun. rewrite (bind_done _ _ _ _ _ E1), (bind_done _ _ _ _ _ E2).
  pose proof (frame_done clock_le _ _ _ _ (frame_ext clock_le _) E1) as C1. unfold clock_le in C1.
  split; [done|]. split; [unfold lock_tries, Millisecond in *; lia|].
  pose proof (frame_done same_disk _ _ _ _ (frame_ext same_disk _) E1) as [F1 _].
  pose proof (frame_done same_disk _ _ _ _ (frame_acquire same_disk _) E2) as [F2 _]. congruence.
Qed.

(** ** The theorems at concrete inputs *)
#[local] Existing Instance good_host.

Definition demo_run : M Sim (option error) := mret None.
Lemma LockfileRun_exclusive_witness :
  exists w2, (exists wt, ext lock_TryLock wt = (Done None, w2)) /\
    LockfileRun demo_run demo_world = (Done None, (ext lock_Unlock w2).2).
Proof.
  exists (acquire lock_tries (ext lock_New demo_world).2).2.
  exact (@LockfileRun_exclusive Sim good_host demo_run demo_world (ext lock_New demo_world).2
    (acquire lock_tries (ext lock_New demo_world).2).2 None eq_refl eq_refl).
Defined.

Lemma LockfileRun_busy_witness :
  exists w', @LockfileRun Sim locked_host demo_run demo_world
      = (Done (Some (Errorf "Lockfile not acquired, aborting" [])), w') /\
    w_clock demo_world + 999 * (100 * Millisecond) <= w_clock w' /\ w_files w' = w_files demo_world.
Proof.
  apply (@LockfileRun_busy Sim locked_host demo_run demo_world
    (@ext Sim (@host_runtime Sim locked_host) _ (@lock_New Sim (@host_lockfile Sim locked_host)) demo_world).2); [|reflexivity].
  intros x. exists (ExtErr "Locked by other process"). by split.
Defined.
