(* ===== verification/AwsClient.v ===== *)
(** * AwsClient: aws/client.go, aws/metadata.go and aws/bugs.go

    The AWS client singleton (an identity document and an EC2 client, each
    made once under a [sync.Once]) and the view of the instance's network
    interfaces that the metadata service gives. *)

From S2P Require Export Nl.

(** [aws.Interface] *)
Record Interface := mkInterface {
  i_ID : string; i_Mac : string; i_IfName : string; i_Number : Z; i_IPv4s : list IP;
  i_SubnetID : string; i_SubnetCidr : option IPNet;
  i_VpcID : string; i_VpcPrimaryCidr : option IPNet; i_VpcCidrs : list IPNet;
  i_SecurityGroupIds : list string }.
Definition zeroInterface : Interface :=
  mkInterface EmptyString EmptyString EmptyString 0 [] EmptyString None EmptyString None [] [].

#[export] Instance Interface_eq_dec : EqDecision Interface.
Proof. solve_decision. Defined.

Definition LocalName (i : Interface) : string := i_IfName i.

(** [Interfaces.Less] *)
Definition Interfaces_Less (a b : Interface) : bool := i_Number a <? i_Number b.

#[export] Instance Interfaces_Less_weak : StrictWeak Interfaces_Less.
Proof. split; unfold Interfaces_Less; intros *; rewrite ?Z.ltb_lt, ?Z.ltb_ge; lia. Qed.

Section client.
Context {X : Type} `{!Host X}.

(** ** client.go *)

(** [c.getIDDoc()]: the document and the error. The [sync.Once] is spent
    whatever its function does, so only the first call can report an error. *)
Definition getIDDoc : M X (option IDDoc * option error) :=
  c ← gets w_client;
  if onceIDDoc c then mret (idDoc c, None)
  else match idDoc c with
       | Some d =>
           _ ← modify (set_client (mkAwsclient (Some d) true (ec2Client c) (onceEc2 c)));
           mret (Some d, None)
       | None =>
           instance ← ext meta_GetInstanceIdentityDocument;
           match instance with
           | Err err =>
               _ ← modify (set_client (mkAwsclient None true (ec2Client c) (onceEc2 c)));
               mret (None, Some err)
           | Ok d =>
               _ ← modify (set_client (mkAwsclient (Some d) true (ec2Client c) (onceEc2 c)));
               mret (Some d, None)
           end
       end.

(** [c.newEC2()]: the client, the nil interface being [None], and the error. *)
Definition newEC2 : M X (option string * option error) :=
  c ← gets w_client;
  if onceEc2 c then mret (ec2Client c, None)
  else
    r ← getIDDoc;
    c ← gets w_client;
    match r.2 with
    | Some err =>
        _ ← modify (set_client (mkAwsclient (idDoc c) (onceIDDoc c) (ec2Client c) true));
        mret (ec2Client c, Some err)
    | None =>
        match ec2Client c with
        | Some _ =>
            _ ← modify (set_client (mkAwsclient (idDoc c) (onceIDDoc c) (ec2Client c) true));
            mret (ec2Client c, None)
        | None =>
            id ← deref r.1;
            _ ← modify (set_client (mkAwsclient (idDoc c) (onceIDDoc c) (Some (id_Region id)) true));
            mret (Some (id_Region id), None)
        end
    end.

(** ** metadata.go *)

(** The closure [metadataParser] of [getInterface]. *)
Definition metadataParser (mac metadataId : string)
    (modifer : Interface -> string -> Interface * option error) (iface : Interface)
    : M X (Interface * option error) :=
  let prefix := ("network/interfaces/macs/" +:+ mac +:+ "/")%string in
  metadata ← ext (meta_GetMetadata (prefix +:+ "/" +:+ metadataId)%string);
  match metadata with
  | Err err => mret (iface, Some err)
  | Ok metadata =>
      if bool_decide (metadata = EmptyString) then mret (iface, None)
      else mret (modifer iface metadata)
  end.

Definition set_ID v (i : Interface) := mkInterface v (i_Mac i) (i_IfName i) (i_Number i) (i_IPv4s i)
  (i_SubnetID i) (i_SubnetCidr i) (i_VpcID i) (i_VpcPrimaryCidr i) (i_VpcCidrs i) (i_SecurityGroupIds i).
Definition set_Mac v (i : Interface) := mkInterface (i_ID i) v (i_IfName i) (i_Number i) (i_IPv4s i)
  (i_SubnetID i) (i_SubnetCidr i) (i_VpcID i) (i_VpcPrimaryCidr i) (i_VpcCidrs i) (i_SecurityGroupIds i).
Definition set_IfName v (i : Interface) := mkInterface (i_ID i) (i_Mac i) v (i_Number i) (i_IPv4s i)
  (i_SubnetID i) (i_SubnetCidr i) (i_VpcID i) (i_VpcPrimaryCidr i) (i_VpcCidrs i) (i_SecurityGroupIds i).
Definition set_Number v (i : Interface) := mkInterface (i_ID i) (i_Mac i) (i_IfName i) v (i_IPv4s i)
  (i_SubnetID i) (i_SubnetCidr i) (i_VpcID i) (i_VpcPrimaryCidr i) (i_VpcCidrs i) (i_SecurityGroupIds i).
Definition set_IPv4s v (i : Interface) := mkInterface (i_ID i) (i_Mac i) (i_IfName i) (i_Number i) v
  (i_SubnetID i) (i_SubnetCidr i) (i_VpcID i) (i_VpcPrimaryCidr i) (i_VpcCidrs i) (i_SecurityGroupIds i).
Definition set_SubnetID v (i : Interface) := mkInterface (i_ID i) (i_Mac i) (i_IfName i) (i_Number i) (i_IPv4s i)
  v (i_SubnetCidr i) (i_VpcID i) (i_VpcPrimaryCidr i) (i_VpcCidrs i) (i_SecurityGroupIds i).
Definition set_SubnetCidr v (i : Interface) := mkInterface (i_ID i) (i_Mac i) (i_IfName i) (i_Number i) (i_IPv4s i)
  (i_SubnetID i) v (i_VpcID i) (i_VpcPrimaryCidr i) (i_VpcCidrs i) (i_SecurityGroupIds i).
Definition set_VpcID v (i : Interface) := mkInterface (i_ID i) (i_Mac i) (i_IfName i) (i_Number i) (i_IPv4s i)
  (i_SubnetID i) (i_SubnetCidr i) v (i_VpcPrimaryCidr i) (i_VpcCidrs i) (i_SecurityGroupIds i).
Definition set_VpcPrimaryCidr v (i : Interface) := mkInterface (i_ID i) (i_Mac i) (i_IfName i) (i_Number i) (i_IPv4s i)
  (i_SubnetID i) (i_SubnetCidr i) (i_VpcID i) v (i_VpcCidrs i) (i_SecurityGroupIds i).
Definition set_VpcCidrs v (i : Interface) := mkInterface (i_ID i) (i_Mac i) (i_IfName i) (i_Number i) (i_IPv4s i)
  (i_SubnetID i) (i_SubnetCidr i) (i_VpcID i) (i_VpcPrimaryCidr i) v (i_SecurityGroupIds i).
Definition set_SecurityGroupIds v (i : Interface) := mkInterface (i_ID i) (i_Mac i) (i_IfName i) (i_Number i) (i_IPv4s i)
  (i_SubnetID i) (i_SubnetCidr i) (i_VpcID i) (i_VpcPrimaryCidr i) (i_VpcCidrs i) v.

(** The closures that parse the metadata values. *)
Definition parse_device_number (iface : Interface) (value : string) :=
  match strconv_Atoi value with
  | Err err => (iface, Some err)
  | Ok num => (set_Number num iface, None)
  end.
Definition parse_local_ipv4s (iface : Interface) (value : string) : Interface * option error :=
  (set_IPv4s (i_IPv4s iface ++ omap ParseIP (strings_Split value newline)) iface, None).
Definition parse_cidr (set : option IPNet -> Interface -> Interface) (iface : Interface) (value : string) :=
  match ParseCIDR value with
  | Err err => (set None iface, Some err)
  | Ok (_, n) => (set (Some n) iface, None)
  end.
Fixpoint parse_cidr_blocks (iface : Interface) (cidrList : list string) : Interface * option error :=
  match cidrList with
  | [] => (iface, None)
  | vpcCidr :: rest =>
      match ParseCIDR vpcCidr with
      | Err err => (iface, Some err)
      | Ok (_, n) => parse_cidr_blocks (set_VpcCidrs (i_VpcCidrs iface ++ [n]) iface) rest
      end
  end.

Notation "'parse!' iface ← m ; k" :=
  (mbind (fun r => match r.2 with Some err => mret (r.1, Some err) | None => let iface := r.1 in k end) m)
  (at level 20, iface name, m at level 100, k at level 200, only parsing).

Definition getInterface (mac : string) : M X (Interface * option error) :=
  let iface := set_Mac mac zeroInterface in
  let get := metadataParser mac in
  parse! iface ← get "interface-id" (fun i v => (set_ID v i, None)) iface;
  parse! iface ← get "device-number" parse_device_number iface;
  parse! iface ← get "local-ipv4s" parse_local_ipv4s iface;
  parse! iface ← get "subnet-id" (fun i v => (set_SubnetID v i, None)) iface;
  parse! iface ← get "subnet-ipv4-cidr-block" (parse_cidr set_SubnetCidr) iface;
  parse! iface ← get "vpc-id" (fun i v => (set_VpcID v i, None)) iface;
  parse! iface ← get "vpc-ipv4-cidr-block" (parse_cidr set_VpcPrimaryCidr) iface;
  parse! iface ← get "vpc-ipv4-cidr-blocks" (fun i v => parse_cidr_blocks i (strings_Split v newline)) iface;
  parse! iface ← get "security-group-ids" (fun i v => (set_SecurityGroupIds (strings_Split v newline) i, None)) iface;
  ifaces ← ext net_Interfaces;
  mret (match ifaces with
        | Err err => (iface, Some err)
        | Ok ifaces =>
            match List.find (fun i => bool_decide (hi_HardwareAddr i = mac)) ifaces with
            | Some i => (set_IfName (hi_Name i) iface, None)
            | None => (iface, None)
            end
        end).

Definition Available : M X bool := ext meta_Available.

(** [mac[0 : len(mac)-1]] *)
Definition drop_last (s : string) : string := str (take (length (chars s) - 1) (chars s)).

Definition GetInterfaces : M X (result (list Interface)) :=
  available ← Available;
  if negb available then mret (Err (Errorf "EC2 Metadata not available" []))
  else
    macResult ←? ext (meta_GetMetadata "network/interfaces/macs/");
    let macs := strings_Split macResult newline in
    r ← range_loop macs [] (fun mac interfaces =>
      if bool_decide (mac = EmptyString) then mret (inl interfaces)
      else
        iface ← getInterface (drop_last mac);
        mret (match iface.2 with
              | Some err => inr err
              | None => inl (interfaces ++ [iface.1])
              end));
    mret (match r with
          | inr err => Err err
          | inl interfaces => Ok (sort_slice Interfaces_Less interfaces)
          end).

Definition InstanceType : M X string :=
  r ← getIDDoc;
  match r.2 with
  | Some _ => mret "unknown"%string
  | None => id ← deref r.1; mret (id_InstanceType id)
  end.

(** ** bugs.go *)
Definition broken_families : list string :=
  ["c5"; "m5"; "c5d"; "m5d"; "m5a"; "r5"; "r5d"; "r5a"]%string.

Definition HasBugBrokenVPCCidrs : M X bool :=
  itype ← InstanceType;
  let family := hd EmptyString (strings_Split itype dot) in
  mret (bool_decide (family ∈ broken_families)).

Definition ListBugs : list (string * M X bool) := [("broken_cidr"%string, HasBugBrokenVPCCidrs)].
End client.

Section client_frames.
Context {X : Type} `{!Host X} (R : relation (World X)) `{!PreOrder R} `{!ExtClosed R}.

Lemma frame_getInterface mac : frame R (getInterface mac).
Proof. unfold getInterface, metadataParser. solve_frame. Qed.
Lemma frame_GetInterfaces : frame R GetInterfaces.
Proof. pose proof frame_getInterface. unfold GetInterfaces, Available. solve_frame. Qed.

Context `{!ClientClosed R}.
Lemma frame_getIDDoc : frame R getIDDoc.
Proof. unfold getIDDoc. solve_frame. Qed.
Lemma frame_newEC2 : frame R newEC2.
Proof. pose proof frame_getIDDoc. unfold newEC2. solve_frame. Qed.
Lemma frame_InstanceType : frame R InstanceType.
Proof. pose proof frame_getIDDoc. unfold InstanceType. solve_frame. Qed.
Lemma frame_HasBugBrokenVPCCidrs : frame R HasBugBrokenVPCCidrs.
Proof. pose proof frame_InstanceType. unfold HasBugBrokenVPCCidrs. solve_frame. Qed.
End client_frames.
#[export] Hint Resolve frame_getInterface frame_GetInterfaces frame_getIDDoc frame_newEC2
  frame_InstanceType frame_HasBugBrokenVPCCidrs : frame.

Section client_terminates.
Context {X : Type} `{!Host X}.
(** Reading the metadata of interfaces never panics. *)
Lemma total_getInterface mac : total (getInterface mac).
Proof. unfold getInterface, metadataParser. solve_total. Qed.
Lemma total_GetInterfaces : total GetInterfaces.
Proof. pose proof total_getInterface. unfold GetInterfaces, Available. solve_total. Qed.
Lemma terminates_getInterface mac : terminates (getInterface mac).
Proof. apply total_terminates, total_getInterface. Qed.
Lemma terminates_GetInterfaces : terminates GetInterfaces.
Proof. apply total_terminates, total_GetInterfaces. Qed.
Lemma terminates_getIDDoc : terminates getIDDoc.
Proof. unfold getIDDoc. solve_terminates. Qed.
Lemma terminates_newEC2 : terminates newEC2.
Proof. pose proof terminates_getIDDoc. unfold newEC2. solve_terminates. Qed.
Lemma terminates_InstanceType : terminates InstanceType.
Proof. pose proof terminates_getIDDoc. unfold InstanceType. solve_terminates. Qed.
End client_terminates.
#[export] Hint Resolve terminates_getInterface terminates_GetInterfaces terminates_getIDDoc
  terminates_newEC2 terminates_InstanceType : terminates.

#[export] Hint Resolve total_getInterface total_GetInterfaces : total.

(** ** The document, once read, stays *)
Section doc.
Context {X : Type} `{!Host X} (d : IDDoc).
Definition has_doc (w : World X) : Prop := onceIDDoc (w_client w) = true /\ idDoc (w_client w) = Some d.
Definition doc_step (w w' : World X) : Prop := has_doc w -> has_doc w'.
#[export] Instance doc_step_preorder : PreOrder doc_step.
Proof. split; [intros w H; exact H|intros a b c H1 H2 H; by apply H2, H1]. Qed.
#[export] Instance doc_step_ext : ExtClosed doc_step.
Proof. intros w x t Ht H. exact H. Qed.
#[export] Instance doc_step_disk : DiskClosed doc_step.
Proof. split; intros w f H; exact H. Qed.

Lemma getIDDoc_has_doc w w' : getIDDoc w = (Done (Some d, None), w') -> has_doc w'.
Proof.
  unfold getIDDoc. rewrite bind_gets. destruct (onceIDDoc (w_client w)) eqn:Eo; [by intros [= E <-]|].
  destruct (idDoc (w_client w)) as [d'|]; [rewrite bind_modify; by intros [= -> <-]|].
  rewrite bind_eq. destruct (ext _ w) as [[[d'|e]|s|] w1]; [|rewrite bind_modify; by intros [=]|done..].
  rewrite bind_modify. by intros [= -> <-].
Qed.
Lemma getIDDoc_again w : has_doc w -> getIDDoc w = (Done (Some d, None), w).
Proof. intros [Ho Hd]. unfold getIDDoc. by rewrite bind_gets, Ho, Hd. Qed.
Lemma doc_newEC2 : frame doc_step newEC2.
Proof.
  intros w Hw. unfold newEC2. rewrite bind_gets. destruct (onceEc2 (w_client w)); [done|].
  rewrite (bind_done _ _ _ _ _ (getIDDoc_again w Hw)), bind_gets. cbn [fst snd].
  destruct (ec2Client (w_client w)); [by rewrite bind_modify|]. cbn [deref]. rewrite bind_ret. by rewrite bind_modify.
Qed.
End doc.

(** ** The interfaces are well formed *)
Section mac.
Context {X : Type} `{!Host X}.

(** The addresses have 16 bytes, the number fits a Go int, the networks are
    networks. *)
Record wf_interface (i : Interface) : Prop := {
  wf_IPv4s : Forall is_ip16 (i_IPv4s i);
  wf_Number : int64_ok (i_Number i);
  wf_SubnetCidr n : i_SubnetCidr i = Some n -> wf_net n;
  wf_VpcPrimaryCidr n : i_VpcPrimaryCidr i = Some n -> wf_net n;
  wf_VpcCidrs : Forall wf_net (i_VpcCidrs i) }.
(** Read for a MAC address. *)
Definition wf_for (mac : string) (i : Interface) : Prop := i_Mac i = mac /\ wf_interface i.

Lemma strconv_Atoi_int64 v n : strconv_Atoi v = Ok n -> int64_ok n.
Proof.
  unfold strconv_Atoi. destruct (match chars v with [] => _ | _ => _ end) as [sign [|c l]]; [done|].
  destruct (digits_val _ _) as [k|]; [|done]. destruct (_ && _) eqn:E; [|done]. intros [= <-]. unfold int64_ok. lia.
Qed.

Lemma parse_device_number_wf mac i v : wf_for mac i -> wf_for mac (parse_device_number i v).1.
Proof.
  unfold parse_device_number. destruct (strconv_Atoi v) as [n|] eqn:E; [|done]. apply strconv_Atoi_int64 in E.
  intros [Hm []]. by split.
Qed.
Lemma parse_local_ipv4s_wf mac i v : wf_for mac i -> wf_for mac (parse_local_ipv4s i v).1.
Proof.
  intros [Hm []]. split; [done|]. split; [|done..]. cbn. apply Forall_app. split; [done|].
  apply Forall_forall. intros ip (s & _ & E)%list_elem_of_omap. by apply ParseIP_shape in E.
Qed.
Lemma parse_subnet_cidr_wf mac i v : wf_for mac i -> wf_for mac (parse_cidr set_SubnetCidr i v).1.
Proof.
  intros [Hm []]. unfold parse_cidr. destruct (ParseCIDR v) as [[? n]|] eqn:E; (split; [done|]; split; [done..| |done|done]).
  - cbn. intros n' [= <-]. by apply ParseCIDR_wf in E.
  - done.
Qed.
Lemma parse_vpc_cidr_wf mac i v : wf_for mac i -> wf_for mac (parse_cidr set_VpcPrimaryCidr i v).1.
Proof.
  intros [Hm []]. unfold parse_cidr. destruct (ParseCIDR v) as [[? n]|] eqn:E; (split; [done|]; split; [done..| |done]).
  - cbn. intros n' [= <-]. by apply ParseCIDR_wf in E.
  - done.
Qed.
Lemma parse_cidr_blocks_wf mac l i : wf_for mac i -> wf_for mac (parse_cidr_blocks i l).1.
Proof.
  revert i. induction l as [|c l IH]; intros i Hi; [done|]. cbn. destruct (ParseCIDR c) as [[? n]|] eqn:E; [|done].
  apply IH. apply ParseCIDR_wf in E. destruct Hi as [Hm []]. split; [done|]. split; [done..|]. cbn.
  apply Forall_app. split; [done|by apply Forall_singleton].
Qed.
Lemma wf_for_text mac i (f : Interface -> Interface) :
  (forall j, i_Mac (f j) = i_Mac j /\ i_IPv4s (f j) = i_IPv4s j /\ i_Number (f j) = i_Number j /\
     i_SubnetCidr (f j) = i_SubnetCidr j /\ i_VpcPrimaryCidr (f j) = i_VpcPrimaryCidr j /\ i_VpcCidrs (f j) = i_VpcCidrs j) ->
  wf_for mac i -> wf_for mac (f i).
Proof. intros Hf [Hm []]. destruct (Hf i) as (E1 & E2 & E3 & E4 & E5 & E6). split; [congruence|]. by split; rewrite ?E2, ?E3, ?E4, ?E5, ?E6. Qed.

Lemma metadataParser_wf mac id modifer iface :
  wf_for mac iface -> (forall i v, wf_for mac i -> wf_for mac (modifer i v).1) ->
  ensures (X := X) (metadataParser mac id modifer iface) (fun r => wf_for mac r.1).
Proof.
  intros Hi H. unfold metadataParser. cbv zeta. apply ensures_bind_any. intros [v|e]; [|by apply ensures_ret].
  case_bool_decide; apply ensures_ret; [done|by apply H].
Qed.

Lemma getInterface_wf mac : ensures (X := X) (getInterface mac) (fun r => wf_for mac r.1).
Proof.
  unfold getInterface. cbv zeta.
  assert (wf_for mac (set_Mac mac zeroInterface)) as H0.
  { split; [done|]. split; [constructor|split; by vm_compute|done|done|constructor]. }
  revert H0. generalize (set_Mac mac zeroInterface). intros i0 H0.
  do 9 (eapply ensures_bind; [apply metadataParser_wf; [eassumption|];
     intros j v Hj; first [by apply parse_device_number_wf | by apply parse_local_ipv4s_wf | by apply parse_subnet_cidr_wf
       | by apply parse_vpc_cidr_wf | by apply parse_cidr_blocks_wf | by apply (wf_for_text _ _ (set_ID v))
       | by apply (wf_for_text _ _ (set_SubnetID v)) | by apply (wf_for_text _ _ (set_VpcID v))
       | by apply (wf_for_text _ _ (set_SecurityGroupIds _)) ]
    |intros [? [?|]] ?; cbn [fst snd] in *; [by apply ensures_ret|]]).
  apply ensures_bind_any. intros [ifs|e]; [|by apply ensures_ret].
  apply ensures_ret. destruct (List.find _ ifs); [|done]. cbn [fst]. by apply (wf_for_text _ _ (set_IfName _)).
Qed.
Lemma getInterface_Mac mac : ensures (X := X) (getInterface mac) (fun r => i_Mac r.1 = mac).
Proof. eapply ensures_mono; [apply getInterface_wf|]. by intros r [? _]. Qed.
End mac.

Example demo_interfaces :
  match (@GetInterfaces Sim good_host demo_world).1 with
  | Done (Ok l) => (fun i => (i_ID i, i_Number i, i_IfName i, length (i_IPv4s i))) <$> l
  | _ => []
  end = [("eni-a"%string, 0, "eth0"%string, 1%nat); ("eni-b"%string, 1, "eth1"%string, 2%nat)].
Proof. vm_compute. reflexivity. Qed.


(** ** What [GetInterfaces] returns *)
Lemma GetInterfaces_listed {X} `{!Host X} (w : World X) ifs w' :
  GetInterfaces w = (Done (Ok ifs), w') ->
  exists macResult wa wb, ext (meta_GetMetadata "network/interfaces/macs/") wa = (Done (Ok macResult), wb) /\
    (i_Mac <$> ifs ≡ₚ drop_last <$> List.filter (fun mac => negb (bool_decide (mac = EmptyString))) (strings_Split macResult newline)) /\
    Sorted (fun a b => i_Number a <= i_Number b) ifs /\ Forall wf_interface ifs.
Proof.
  intros E. apply bind_done_inv in E as ([] & w1 & E1 & E); [|done].
  apply bind_done_inv in E as ([macResult|e] & w2 & E2 & E); [|done]. cbv zeta in E.
  apply bind_done_inv in E as (r & w3 & E3 & E). exists macResult, w1, w2. split; [done|].
  set (listed := List.filter (fun mac => negb (bool_decide (mac = EmptyString)))).
  eapply (ensures_loop _ _ _ (fun don l => i_Mac <$> l = drop_last <$> listed don /\ Forall wf_interface l) (fun _ => True)) in E3;
    [|done|].
  - destruct r as [l|e]; [|done]. destruct E3 as [Hm Hw]. injection E as <- <-.
    pose proof (sort_slice_perm _ Interfaces_Less l) as Hp. split; [by rewrite Hp, Hm|].
    split; [|by rewrite Hp]. eapply Sorted_impl; [|apply sort_slice_sorted, _].
    unfold Interfaces_Less. intros a b. rewrite Z.ltb_ge. lia.
  - intros don mac rest l Hl [Hm Hw]. unfold listed. rewrite List.filter_app. cbn [List.filter].
    case_bool_decide; cbn [negb]; [apply ensures_ret; by rewrite app_nil_r|].
    eapply ensures_bind; [apply getInterface_wf|]. intros [i [e|]] [Hi Hwf]; apply ensures_ret; [done|]. cbn [fst snd] in *.
    rewrite !fmap_app, Hm. split; [cbn; by rewrite Hi|]. apply Forall_app. split; [done|by apply Forall_singleton].
Qed.
Lemma GetInterfaces_wf {X} `{!Host X} :
  ensures (X := X) GetInterfaces (fun r => match r with Ok ifs => Forall wf_interface ifs | Err _ => True end).
Proof. intros w [ifs|e] w' E; [|done]. by apply GetInterfaces_listed in E as (? & ? & ? & _ & _ & _ & H). Qed.

(** ** Properties *)

(** C14: the interfaces [GetInterfaces] returns are one for each MAC address the
    metadata service lists, with that address, in the order of their device
    numbers; each is well formed: addresses of 16 bytes, a number that fits, and
    networks with a prefix mask and no host bits. *)
Theorem GetInterfaces_typed {X} `{!Host X} (w : World X) ifs w' :
  GetInterfaces w = (Done (Ok ifs), w') ->
  exists macResult wa wb, ext (meta_GetMetadata "network/interfaces/macs/") wa = (Done (Ok macResult), wb) /\
    (i_Mac <$> ifs ≡ₚ drop_last <$> List.filter (fun mac => negb (bool_decide (mac = EmptyString))) (strings_Split macResult newline)) /\
    Sorted (fun a b => i_Number a <= i_Number b) ifs /\ Forall wf_interface ifs.
Proof. apply GetInterfaces_listed. Qed.

(** C36: a failure to read the identity document is reported once: whatever happens
    after it, as long as the client stays as that call left it, asking again
    gives no document and no error, and [InstanceType] panics on the missing
    document instead of answering "unknown". *)
Theorem iddoc_failure_sticks {X} `{!Host X} (w w1 w2 : World X) err :
  onceIDDoc (w_client w) = false -> idDoc (w_client w) = None ->
  ext meta_GetInstanceIdentityDocument w = (Done (Err err), w1) ->
  w_client w2 = w_client (getIDDoc w).2 ->
  (getIDDoc w).1 = Done (None, Some err) /\ getIDDoc w2 = (Done (None, None), w2) /\
  exists msg, InstanceType w2 = (Panicked msg, w2).
Proof.
  intros Ho Hd E. unfold getIDDoc at 1 2. rewrite bind_gets, Ho, Hd.
  rewrite (bind_done _ _ w (Err err) w1) by exact E. rewrite bind_modify. cbn. intros Hc.
  assert (getIDDoc w2 = (Done (None, None), w2)) as E2 by (unfold getIDDoc; rewrite bind_gets, Hc; done).
  split; [done|]. split; [done|]. unfold InstanceType. rewrite (bind_done _ _ _ _ _ E2). by eexists.
Qed.

(** ** The theorems at concrete inputs *)
#[local] Existing Instance good_host.

Definition demo_read_world : World Sim := Eval vm_compute in (GetInterfaces demo_world).2.
Definition demo_read : list Interface :=
  Eval vm_compute in match (@GetInterfaces Sim good_host demo_world).1 with Done (Ok l) => l | _ => [] end.
Lemma demo_read_done : GetInterfaces demo_world = (Done (Ok demo_read), demo_read_world).
Proof. vm_cast_no_check (eq_refl (@Done (result (list Interface)) (Ok demo_read), demo_read_world)). Qed.
Lemma GetInterfaces_typed_witness :
  exists macResult (wa wb : World Sim), ext (meta_GetMetadata "network/interfaces/macs/") wa = (Done (Ok macResult), wb) /\
    (i_Mac <$> demo_read ≡ₚ drop_last <$> List.filter (fun mac => negb (bool_decide (mac = EmptyString))) (strings_Split macResult newline)) /\
    Sorted (fun a b => i_Number a <= i_Number b) demo_read /\ Forall wf_interface demo_read.
Proof. exact (@GetInterfaces_typed Sim good_host demo_world demo_read demo_read_world demo_read_done). Defined.

(** The demonstration host before its metadata service answers. *)
Definition demo_early_world : World Sim := set_ext (with_iddoc [] demo_sim) demo_world.
Lemma iddoc_failure_sticks_witness :
  exists msg, InstanceType (getIDDoc demo_early_world).2 = (Panicked msg, (getIDDoc demo_early_world).2).
Proof.
  apply (@iddoc_failure_sticks Sim good_host demo_early_world
    (ext meta_GetInstanceIdentityDocument demo_early_world).2 (getIDDoc demo_early_world).2
    (ExtErr "EC2MetadataRequestError") eq_refl eq_refl eq_refl eq_refl).
Defined.
