(* ===== verification/Cache.v ===== *)
(** * Cache: aws/cache/cacheable.go

    Values kept as JSON files, with an expiry time, in the program's run
    directory.  What can be cached is a class, [JsonCodec]: the clients
    (limits, subnets) provide instances, and the theorems about [Get] and
    [Store] are proved against the class. *)

From S2P Require Export AwsClient.

(** A type whose values survive encoding to JSON and decoding over the zero
    value, for the values [codec_ok] holds of: what is read back is
    [codec_norm] of what was written. *)
Class JsonCodec (A : Type) := {
  codec_enc : A -> json;
  codec_dec : decoder A;
  codec_zero : A;
  codec_ok : A -> Prop;
  codec_norm : A -> A;
  codec_roundtrip a : codec_ok a -> codec_enc a <> JNull ->
                      codec_dec (codec_enc a) codec_zero = Some (codec_norm a);
  codec_null a : codec_enc a = JNull -> codec_norm a = codec_zero }.

(** [State] *)
Inductive State := CacheFound | CacheExpired | CacheNoEntry | CacheNotAvailable.
#[export] Instance State_eq_dec : EqDecision State.
Proof. solve_decision. Defined.

(** [Cacheable] *)
Record Cacheable (A : Type) := mkCacheable { Expires : Time; Contents : A }.
Arguments mkCacheable {A}. Arguments Expires {A}. Arguments Contents {A}.

Section cache.
Context {X : Type} `{!Host X}.

Definition cacheRoot : string := "/run".
Definition cacheProgram : string := "cni-ipvlan-vpc-k8s".

Definition cachePath : string :=
  let uid := getuid (X := X) in
  if negb (uid =? 0) then path_Join [cacheRoot; "user"; pretty uid; cacheProgram]
  else path_Join [cacheRoot; cacheProgram].

Definition ensureDirectory : M X (option error) :=
  isdir ← os_StatIsDir cachePath;
  if isdir : bool then mret None else os_MkdirAll cachePath.

(** The decoder of a [Cacheable] whose [Contents] points to a value to fill;
    a [null] leaves that value alone. *)
Definition dec_cacheable {A} (d : decoder A) : decoder (Cacheable A) :=
  dec_struct [
    ("_expires"%string, fun j c => t ← dec_time j (Expires c); Some (mkCacheable t (Contents c)));
    ("contents"%string, fun j c =>
       match j with
       | JNull => Some c
       | _ => a ← d j (Contents c); Some (mkCacheable (Expires c) a)
       end)].
Definition enc_cacheable (c : Cacheable json) : json :=
  JObj [("_expires"%string, MarshalJSON (Expires c)); ("contents"%string, Contents c)].

(** [cache.Get(key, &decodeTo)]: the state, and what [decodeTo] holds
    afterwards (which callers look at only when the state is [CacheFound]). *)
Definition Get {A} `{!JsonCodec A} (key : string) (decodeTo : A) : M X (State * A) :=
  err ← ensureDirectory;
  match err with
  | Some _ => mret (CacheNotAvailable, decodeTo)
  | None =>
      let path := path_Join [cachePath; key] in
      file ← os_Open path;
      match file with
      | Err _ => mret (CacheNoEntry, decodeTo)
      | Ok file =>
          contents ← json_Decode path file (dec_cacheable codec_dec) (mkCacheable zeroTime decodeTo);
          match contents with
          | Err _ => mret (CacheNoEntry, decodeTo)
          | Ok contents =>
              now ← time_Now;
              if Before (Expires contents) now then mret (CacheExpired, Contents contents)
              else mret (CacheFound, Contents contents)
          end
      end
  end.

(** [cache.Store(key, lifetime, &data)] *)
Definition Store {A} `{!JsonCodec A} (key : string) (lifetime : Z) (data : A) : M X State :=
  err ← ensureDirectory;
  match err with
  | Some _ => mret CacheNotAvailable
  | None =>
      let key := path_Join [cachePath; key] in
      err ← os_Create cachePath key;
      match err with
      | Some _ => mret CacheNotAvailable
      | None =>
          now ← time_Now;
          err ← json_Encode key
                  (enc_cacheable (mkCacheable (time_Add now lifetime) (codec_enc data)));
          match err with
          | Some _ => mret CacheNotAvailable
          | None => mret CacheFound
          end
      end
  end.
End cache.
Arguments cachePath X {Host0}.

(** ** Decoding what was stored *)
Lemma dec_cacheable_enc {A} `{!JsonCodec A} t (a : A) :
  rfc3339_ok t -> codec_ok a ->
  dec_cacheable codec_dec (enc_cacheable (mkCacheable t (codec_enc a))) (mkCacheable zeroTime codec_zero)
  = Some (mkCacheable (trunc_second t) (codec_norm a)).
Proof.
  intros Ht Ha. unfold dec_cacheable, enc_cacheable, dec_struct. cbn [Expires Contents].
  dec_member. rewrite dec_time_enc by done. cbn [mbind option_bind Expires Contents].
  dec_member. pose proof (codec_roundtrip a Ha) as Hr. pose proof (codec_null a) as Hn.
  destruct (codec_enc a) eqn:E; cbn [Contents Expires];
    try (rewrite Hr by done; done).
  by rewrite (Hn eq_refl).
Qed.

Section cache_properties.
Context {X : Type} `{!Host X}.

Section frames.
Context (R : relation (World X)) `{!PreOrder R} `{!ExtClosed R}.
Lemma frame_Get {A} `{!JsonCodec A} key (a : A) :
  (forall w, R w (set_dirs (union {[cachePath X]}) w)) -> frame R (Get key a).
Proof.
  intros Hd. unfold Get, ensureDirectory, os_StatIsDir, os_MkdirAll, os_Open, json_Decode,
  fault, time_Now. solve_frame.
Qed.
Lemma frame_Store {A} `{!JsonCodec A} key lt (a : A) :
  (forall w, R w (set_dirs (union {[cachePath X]}) w)) ->
  (forall w c, R w (set_files (insert (path_Join [cachePath X; key]) c) w)) ->
  frame R (Store key lt a).
Proof.
  intros Hd Hf. unfold Store, ensureDirectory, os_StatIsDir, os_MkdirAll, os_Create, json_Encode,
  fault, time_Now. solve_frame.
Qed.
End frames.

Lemma terminates_Get {A} `{!JsonCodec A} key (a : A) : terminates (Get key a).
Proof.
  unfold Get, ensureDirectory, os_StatIsDir, os_MkdirAll, os_Open, json_Decode, fault, time_Now.
  solve_terminates.
Qed.
Lemma terminates_Store {A} `{!JsonCodec A} key lt (a : A) : terminates (Store key lt a).
Proof.
  unfold Store, ensureDirectory, os_StatIsDir, os_MkdirAll, os_Create, json_Encode, fault, time_Now.
  solve_terminates.
Qed.

Lemma total_Get {A} `{!JsonCodec A} key (a : A) : total (Get key a).
Proof.
  unfold Get, ensureDirectory, os_StatIsDir, os_MkdirAll, os_Open, json_Decode, fault, time_Now. solve_total.
Qed.

Context `{!ReliableOS X}.

Lemma wp_ensureDirectory Q w :
  dir_usable (cachePath X) w ->
  (forall w', touches id (union {[cachePath X]}) w w' -> Q None w') -> wp ensureDirectory Q w.
Proof.
  intros Hfree H. apply wp_bind, wp_StatIsDir. intros w1 Hq. case_bool_decide as Hd.
  - apply wp_ret, H. eapply touches_ext; [exact Hq|done|].
    symmetry. by apply subseteq_union_1_L, singleton_subseteq_l.
  - apply wp_MkdirAll; [rewrite (quiet_files _ _ Hq); by destruct Hfree|].
    intros w2 Ht. apply H. by eapply quiet_touches.
Qed.

(** [Store] leaves in the file of the key the value and the instant it
    expires. *)
Lemma wp_Store {A} `{!JsonCodec A} key lifetime (a : A) (Q : State -> World X -> Prop) w :
  dir_usable (cachePath X) w ->
  (forall w' t, w_clock w <= t <= w_clock w' ->
     touches (insert (path_Join [cachePath X; key]) (FJson
        (enc_cacheable (mkCacheable (mkTime (t + lifetime) local_zone) (codec_enc a)))))
       (union {[cachePath X]}) w w' ->
     Q CacheFound w') ->
  wp (Store key lifetime a) Q w.
Proof.
  intros Hfree H. apply wp_bind, wp_ensureDirectory; [done|]. intros w1 H1.
  apply wp_bind, wp_Create; [rewrite (t_dirs _ _ _ _ H1); set_solver|]. intros w2 H2.
  unfold wp. rewrite bind_now. apply wp_bind, wp_Encode. intros w3 H3. apply wp_ret.
  apply (H w3 (w_clock w2)).
  - pose proof (t_clock _ _ _ _ H1). pose proof (t_clock _ _ _ _ H2).
    pose proof (t_clock _ _ _ _ H3). lia.
  - eapply touches_ext; [exact (touches_trans _ _ _ _ _ _ _ (touches_trans _ _ _ _ _ _ _ H1 H2) H3)| |done].
    apply insert_insert_eq.
Qed.

(** [Get] of a file [Store] wrote: the value, found while the whole second
    of its expiry has not passed. *)
Lemma wp_Get {A} `{!JsonCodec A} key t (a : A) (Q : State * A -> World X -> Prop) w :
  dir_usable (cachePath X) w -> rfc3339_ok t -> codec_ok a ->
  w_files w !! path_Join [cachePath X; key] = Some (FJson (enc_cacheable (mkCacheable t (codec_enc a)))) ->
  (forall w' now, w_clock w <= now <= w_clock w' -> touches id (union {[cachePath X]}) w w' ->
     Q (if t_ns t / Second * Second <? now then CacheExpired else CacheFound, codec_norm a) w') ->
  wp (Get key codec_zero) Q w.
Proof.
  intros Hfree Ht Ha Hfile H. apply wp_bind, wp_ensureDirectory; [done|]. intros w1 H1.
  apply wp_bind, wp_Open. intros w2 H2. rewrite (t_files _ _ _ _ H1). cbn [id]. rewrite Hfile.
  apply wp_bind, wp_Decode. intros w3 H3. rewrite dec_cacheable_enc by done.
  unfold wp. rewrite bind_now.
  assert (w_clock w <= w_clock w3) as Hc.
  { pose proof (t_clock _ _ _ _ H1). pose proof (t_clock _ _ _ _ H2).
    pose proof (t_clock _ _ _ _ H3). lia. }
  assert (touches id (union {[cachePath X]}) w w3) as Ht3.
  { eapply touches_quiet; [|exact H3]. by eapply touches_quiet. }
  specialize (H w3 (w_clock w3) ltac:(lia) Ht3).
  unfold Before. cbn [Expires Contents t_ns trunc_second]. destruct (_ <? _); by apply wp_ret.
Qed.
End cache_properties.
#[export] Hint Resolve terminates_Get terminates_Store : terminates.

(** Relations that ignore the disk are respected by every cache operation. *)
Section cache_disk.
Context {X : Type} `{!Host X} (R : relation (World X)) `{!PreOrder R} `{!ExtClosed R} `{!DiskClosed R}.
Lemma dframe_Get {A} `{!JsonCodec A} key (a : A) : frame R (Get key a).
Proof. apply frame_Get; [apply _..|intros w; apply dirs_closed]. Qed.
Lemma dframe_Store {A} `{!JsonCodec A} key lt (a : A) : frame R (Store key lt a).
Proof. apply frame_Store; [apply _..|intros w; apply dirs_closed|intros w c; apply files_closed]. Qed.
End cache_disk.
#[export] Hint Resolve dframe_Get dframe_Store : frame.

(** ** Property *)

(** C13: a value stored under a key is what a later [Get] of that key finds, after
    any code that left the disk alone: found until the second of its expiry has
    passed, reported as expired from then on. *)
Theorem cache_roundtrip {X} `{!Host X} `{!ReliableOS X} {A} `{!JsonCodec A} key lifetime (a : A) (m : M X ()) (w : World X) :
  dir_usable (cachePath X) w -> codec_ok a -> 0 <= w_clock w -> 0 <= lifetime ->
  total m -> frame same_disk m -> frame clock_le m ->
  w_clock ((_ ← Store key lifetime a; _ ← m; Get key codec_zero) w).2 + lifetime <= max_clock ->
  exists stored now w', w_clock w <= stored <= now /\ now <= w_clock w' /\
    (_ ← Store key lifetime a; _ ← m; Get key codec_zero) w
    = (Done (if (stored + lifetime) / Second * Second <? now then CacheExpired else CacheFound, codec_norm a), w').
Proof.
  intros Hu Ha H0 Hl Hm Hd Hc Hmax.
  enough (wp (_ ← Store key lifetime a; _ ← m; Get key codec_zero) (fun r w' => w_clock w' + lifetime <= max_clock ->
    exists stored now, w_clock w <= stored <= now /\ now <= w_clock w' /\
      r = (if (stored + lifetime) / Second * Second <? now then CacheExpired else CacheFound, codec_norm a)) w) as Hwp.
  { destruct Hwp as (r & w' & E & H). rewrite E in Hmax. destruct (H Hmax) as (s & n & ? & ? & ->). by exists s, n, w'. }
  apply wp_bind, wp_Store; [done|]. intros w1 t Ht H1. apply wp_bind.
  eapply wp_mono; [by apply total_wp|]. intros [] w2 E2.
  pose proof (frame_done same_disk _ _ _ _ Hd E2) as [F2 D2]. pose proof (frame_done clock_le _ _ _ _ Hc E2) as C2.
  unfold clock_le in C2.
  assert (w_files w2 !! path_Join [cachePath X; key] = Some (FJson
    (enc_cacheable (mkCacheable (mkTime (t + lifetime) local_zone) (codec_enc a))))) as Hf.
  { rewrite F2, (t_files _ _ _ _ H1). apply lookup_insert_eq. }
  destruct (decide (t + lifetime <= max_clock)) as [Hok|Hno].
  - apply (wp_Get key (mkTime (t + lifetime) local_zone) a); [..|exact Hf|].
    + left. rewrite D2, (t_dirs _ _ _ _ H1). set_solver.
    + apply clock_rfc3339. lia.
    + done.
    + intros w3 now Hnow Ht3 _. exists t, now. split_and!; [lia..|done].
  - eapply wp_mono; [apply total_wp, total_Get|]. intros r w3 E3 H3. exfalso. apply Hno.
    pose proof (frame_done clock_le _ _ _ _ (dframe_Get clock_le _ _) E3) as C3. unfold clock_le in C3. lia.
Qed.

(** ** The theorem at a concrete input *)
#[local] Existing Instance good_host.

(** Numbers, as they are. *)
#[local] Instance demo_codec : JsonCodec Z.
Proof.
  refine {| codec_enc := JInt; codec_dec := dec_int; codec_zero := 0; codec_ok := int64_ok; codec_norm := id |}; [|done].
  intros z Hz _. by apply dec_int_enc.
Defined.
Definition demo_nap : M Sim () := time_Sleep Minute.
Lemma cache_roundtrip_witness :
  exists stored now w', w_clock demo_world <= stored <= now /\ now <= w_clock w' /\
    (_ ← Store "answer" Hour 42; _ ← demo_nap; Get "answer" codec_zero) demo_world
    = (Done (if (stored + Hour) / Second * Second <? now then CacheExpired else CacheFound, 42), w').
Proof.
  apply (@cache_roundtrip Sim good_host _ Z demo_codec "answer" Hour 42 demo_nap demo_world);
    [by right|split; vm_compute; discriminate|vm_compute; discriminate|vm_compute; discriminate| | | |vm_compute; discriminate].
  - unfold demo_nap, time_Sleep. solve_total.
  - unfold demo_nap. solve_frame.
  - unfold demo_nap. solve_frame.
Defined.
