(* ===== verification/Limits.v ===== *)
(** * Limits: aws/limits.go

    How many network interfaces, and addresses on each, the instance's type
    allows: asked of EC2 once and cached for a day, with a fixed fallback when
    the instance type or its limits cannot be learnt. *)

From S2P Require Export Cache.

(** [ENILimit] *)
Record ENILimit := mkENILimit { Adapters : Z; l_IPv4 : Z; l_IPv6 : Z }.
#[export] Instance ENILimit_eq_dec : EqDecision ENILimit.
Proof. solve_decision. Defined.
Definition zeroLimit : ENILimit := mkENILimit 0 0 0.
Definition defaultLimit : ENILimit := mkENILimit 4 15 15.

Definition enc_limit (l : ENILimit) : json :=
  JObj [("Adapters"%string, JInt (Adapters l)); ("IPv4"%string, JInt (l_IPv4 l));
        ("IPv6"%string, JInt (l_IPv6 l))].
Definition dec_limit : decoder ENILimit := dec_struct [
  ("Adapters"%string, fun j l => z ← dec_int j (Adapters l); Some (mkENILimit z (l_IPv4 l) (l_IPv6 l)));
  ("IPv4"%string, fun j l => z ← dec_int j (l_IPv4 l); Some (mkENILimit (Adapters l) z (l_IPv6 l)));
  ("IPv6"%string, fun j l => z ← dec_int j (l_IPv6 l); Some (mkENILimit (Adapters l) (l_IPv4 l) z))].
Definition limit_ok (l : ENILimit) : Prop :=
  int64_ok (Adapters l) /\ int64_ok (l_IPv4 l) /\ int64_ok (l_IPv6 l).

#[export] Instance limit_codec : JsonCodec ENILimit.
Proof.
  refine {| codec_enc := enc_limit; codec_dec := dec_limit; codec_zero := zeroLimit;
            codec_ok := limit_ok; codec_norm := id |}; [|done].
  intros [a v4 v6] (Ha & H4 & H6) _. unfold dec_limit, enc_limit, dec_struct.
  cbn [Adapters l_IPv4 l_IPv6] in *.
  do 3 (dec_member; rewrite dec_int_enc by done; cbn [mbind option_bind Adapters l_IPv4 l_IPv6]).
  done.
Defined.

Section limits.
Context {X : Type} `{!Host X}.

Definition ENILimitsForInstanceType (itype : string) : M X (result ENILimit) :=
  r ← newEC2;
  match r.2 with
  | Some err => mret (Err err)
  | None =>
      let client := r.1 in
      let itypeList := [itype] in
      types ←? ec2_call client (fun region => ec2_DescribeInstanceTypes region itypeList);
      match types with
      | [] => mret (Err (Errorf "empty answer from DescribeInstanceTypes for %s" [AStr itype]))
      | netInfo :: _ =>
          netInfo ← deref netInfo;
          adapters ← deref (MaximumNetworkInterfaces netInfo);
          ipv4 ← deref (Ipv4AddressesPerInterface netInfo);
          ipv6 ← deref (Ipv6AddressesPerInterface netInfo);
          mret (Ok (mkENILimit adapters ipv4 ipv6))
      end
  end.

Definition limits_key (itype : string) : string := ("eni_limits_for_" +:+ itype)%string.

(** [errors.Wrap(err, msg)]: nil stays nil. *)
Definition errors_Wrap (err : option error) (msg : string) : option error :=
  (fun e => Wrapped e msg) <$> err.

Definition ENILimits : M X (ENILimit * option error) :=
  r ← getIDDoc;
  match r.2, r.1 with
  | None, Some id =>
      let key := limits_key (id_InstanceType id) in
      c ← Get key zeroLimit;
      match c.1 with
      | CacheFound => mret (c.2, None)
      | _ =>
          limit ← ENILimitsForInstanceType (id_InstanceType id);
          match limit with
          | Err err => mret (defaultLimit, errors_Wrap (Some err) "unable get instance network limits")
          | Ok limit => _ ← Store key (24 * Hour) limit; mret (limit, None)
          end
      end
  | err, _ => mret (defaultLimit, errors_Wrap err "unable get instance identity doc")
  end.
End limits.

Section limits_frames.
Context {X : Type} `{!Host X} (R : relation (World X)) `{!PreOrder R} `{!ExtClosed R} `{!ClientClosed R}.
Lemma frame_ENILimitsForInstanceType itype : frame R (ENILimitsForInstanceType itype).
Proof. unfold ENILimitsForInstanceType. solve_frame. Qed.
Lemma frame_ENILimits :
  (forall w, R w (set_dirs (union {[cachePath X]}) w)) ->
  (forall itype w c, R w (set_files (insert (path_Join [cachePath X; limits_key itype]) c) w)) ->
  frame R ENILimits.
Proof.
  intros Hd Hf. unfold ENILimits.
  pose proof (fun A `{!JsonCodec A} key (a : A) => frame_Get R key a Hd) as FG.
  pose proof (fun A `{!JsonCodec A} itype lt (a : A) =>
    frame_Store R (limits_key itype) lt a Hd (Hf itype)) as FS.
  pose proof frame_ENILimitsForInstanceType. solve_frame.
Qed.
End limits_frames.
#[export] Hint Resolve frame_ENILimitsForInstanceType : frame.
Lemma dframe_ENILimits {X} `{!Host X} (R : relation (World X)) `{!PreOrder R} `{!ExtClosed R} `{!ClientClosed R}
  `{!DiskClosed R} : frame R ENILimits.
Proof. apply frame_ENILimits; [apply _..|intros w; apply dirs_closed|intros i w c; apply files_closed]. Qed.
#[export] Hint Resolve dframe_ENILimits : frame.

Section limits_terminates.
Context {X : Type} `{!Host X}.
Lemma terminates_ENILimitsForInstanceType itype : terminates (ENILimitsForInstanceType itype).
Proof. unfold ENILimitsForInstanceType. solve_terminates. Qed.
Lemma terminates_ENILimits : terminates ENILimits.
Proof. pose proof terminates_ENILimitsForInstanceType. unfold ENILimits. solve_terminates. Qed.
End limits_terminates.
#[export] Hint Resolve terminates_ENILimits : terminates.

(** ** The cache of limits stays out of other files

    The file name is made of the instance type; a type without a slash names
    a file of the cache directory. *)
Lemma limits_key_simple itype : path_slash ∉ chars itype -> simple_name (limits_key itype).
Proof.
  intros H. unfold limits_key. split_and!; [done| |done|done].
  rewrite chars_app, not_elem_of_app. split; [|done].
  intros Hin. apply list_elem_of_In in Hin. cbn in Hin. repeat (destruct Hin as [Hin|Hin]; [discriminate|]). done.
Qed.

(** Every instance type the metadata service reports is free of slashes. *)
Class PlainInstanceTypes (X : Type) `{!Host X} : Prop :=
  plain_type x d : (meta_GetInstanceIdentityDocument x).2 = Ok d -> path_slash ∉ chars (id_InstanceType d).

Section plain.
Context {X : Type} `{!Host X}.
Implicit Types w : World X.

Definition doc_plain w : Prop :=
  forall d, idDoc (w_client w) = Some d -> path_slash ∉ chars (id_InstanceType d).
(** The file [p] and the directories stay, and the instance type stays plain. *)
Definition plain_step (p : string) w w' : Prop :=
  doc_plain w -> doc_plain w' /\ w_files w' !! p = w_files w !! p /\ w_dirs w ⊆ w_dirs w' /\ clock_le w w'.

#[export] Instance plain_step_preorder p : PreOrder (plain_step p).
Proof.
  split; [intros w Hw; split_and!; [done..|reflexivity]|].
  intros a b c H1 H2 Ha. destruct (H1 Ha) as (Hb & F1 & D1 & C1). destruct (H2 Hb) as (Hc & F2 & D2 & C2).
  split_and!; [done|congruence|by etrans|by etrans].
Qed.
#[export] Instance plain_step_ext p : ExtClosed (plain_step p).
Proof. intros w x t H Hw. by split_and!. Qed.

Lemma plain_step_quiet p w w' : doc_plain w' -> quiet w w' -> plain_step p w w'.
Proof. intros Hd Hq _. split_and!; [done|by rewrite (quiet_files _ _ Hq)|by rewrite (quiet_dirs _ _ Hq)|by apply t_clock in Hq]. Qed.

Context `{!PlainInstanceTypes X}.

(** What a call of [getIDDoc] leaves: the files, and a plain document. *)
Lemma getIDDoc_plain p w r w' :
  doc_plain w -> getIDDoc w = (Done r, w') ->
  (forall d, r.1 = Some d -> path_slash ∉ chars (id_InstanceType d)) /\ plain_step p w w'.
Proof.
  intros Hw. unfold getIDDoc. rewrite bind_gets. destruct (onceIDDoc (w_client w)).
  { intros [= <- <-]. split; [apply Hw|by intros _; split_and!; [..|reflexivity]]. }
  destruct (idDoc (w_client w)) as [d|] eqn:Ed.
  { rewrite bind_modify. intros [= <- <-]. split; [intros d' [= <-]; by apply Hw|].
    intros _. split_and!; [|done|done|unfold clock_le; cbn; lia]. intros d' [= <-]. by apply Hw. }
  rewrite bind_eq. unfold ext at 1.
  pose proof (plain_type (w_ext w)) as Hp.
  destruct (meta_GetInstanceIdentityDocument (w_ext w)) as [x [d|e]]; cbn [fst snd] in *;
    rewrite bind_modify; intros [= <- <-]; cbn [fst].
  - split; [intros d' [= <-]; by apply Hp|]. intros _.
    split_and!; [intros d' [= <-]; by apply Hp|done|done|unfold clock_le; cbn; lia].
  - split; [done|]. intros _. split_and!; [done|done|done|unfold clock_le; cbn; lia].
Qed.

Lemma plain_getIDDoc p : frame (plain_step p) getIDDoc.
Proof.
  intros w Hw. pose proof (terminates_getIDDoc w) as Ht.
  destruct (getIDDoc w) as [[r|s|] w'] eqn:E; [|exfalso|done].
  - by apply (getIDDoc_plain p) in E as [_ E]; [apply E|].
  - revert E. unfold getIDDoc. rewrite bind_gets. destruct (onceIDDoc _); [done|].
    destruct (idDoc _); [done|]. rewrite bind_eq. unfold ext. by destruct (meta_GetInstanceIdentityDocument _) as [? []].
Qed.

(** Changing the once flags and the client keeps the document. *)
Lemma plain_newEC2 p : frame (plain_step p) newEC2.
Proof.
  intros w Hw. unfold newEC2. rewrite bind_gets. destruct (onceEc2 (w_client w)); [by apply plain_step_preorder|].
  pose proof (plain_getIDDoc p w Hw) as H. rewrite bind_eq.
  destruct (getIDDoc w) as [[r|s|] w1]; [|done..]. cbn [snd] in H.
  assert (forall e o, let w2 := set_client (mkAwsclient (idDoc (w_client w1)) (onceIDDoc (w_client w1)) e o) w1 in
    doc_plain w2 /\ w_files w2 !! p = w_files w !! p /\ w_dirs w ⊆ w_dirs w2 /\ clock_le w w2) as Hset.
  { intros e o. exact H. }
  rewrite bind_gets. destruct r.2; [apply Hset|]. destruct (ec2Client (w_client w1)); [apply Hset|].
  rewrite bind_eq. destruct r.1; cbn [deref]; [|exact H]. apply Hset.
Qed.
End plain.
#[export] Hint Resolve plain_getIDDoc plain_newEC2 : frame.

Section plain_limits.
Context {X : Type} `{!Host X} `{!PlainInstanceTypes X} (p : string).

Lemma plain_Get {A} `{!JsonCodec A} key (a : A) : frame (plain_step p) (Get key a).
Proof. apply frame_Get; [apply _..|]. intros w Hw. split_and!; [done|done|set_solver|unfold clock_le; cbn; lia]. Qed.
Lemma plain_Store {A} `{!JsonCodec A} key lt (a : A) :
  path_Join [cachePath X; key] <> p -> frame (plain_step p) (Store key lt a).
Proof.
  intros Hp. apply frame_Store; [apply _..| |].
  - intros w Hw. split_and!; [done|done|set_solver|unfold clock_le; cbn; lia].
  - intros w c Hw. split_and!; [done|by apply lookup_insert_ne|done|unfold clock_le; cbn; lia].
Qed.

Lemma plain_ENILimits :
  (forall k, simple_name (limits_key k) -> path_Join [cachePath X; limits_key k] <> p) ->
  frame (plain_step p) ENILimits.
Proof.
  intros Hk w Hw. unfold ENILimits. rewrite bind_eq. pose proof (plain_getIDDoc p w Hw) as H.
  destruct (getIDDoc w) as [[r|s|] w1] eqn:E; [|done..]. cbn [snd] in H.
  apply (getIDDoc_plain p) in E as [Hd _]; [|done]. destruct r as [[d|] [e|]]; cbn [fst snd] in *; try done.
  assert (path_Join [cachePath X; limits_key (id_InstanceType d)] <> p) as Hne
    by (apply Hk, limits_key_simple, Hd; done).
  assert (frame (plain_step p) (c ← Get (limits_key (id_InstanceType d)) zeroLimit;
    match c.1 with
    | CacheFound => mret (c.2, None)
    | _ =>
        limit ← ENILimitsForInstanceType (id_InstanceType d);
        match limit with
        | Err err => mret (defaultLimit, errors_Wrap (Some err) "unable get instance network limits")
        | Ok limit => _ ← Store (limits_key (id_InstanceType d)) (24 * Hour) limit; mret (limit, None)
        end
    end)) as Hf.
  { pose proof (fun A `{!JsonCodec A} key (a : A) => plain_Get key a).
    pose proof (fun A `{!JsonCodec A} lt (a : A) => plain_Store _ lt a Hne).
    unfold ENILimitsForInstanceType. solve_frame. }
  assert (plain_step p w w1) as Hw1 by by intros _.
  exact ((@transitivity _ _ _ w w1 _ Hw1 (Hf w1)) Hw).
Qed.
End plain_limits.

(** ** What the cache of limits holds *)
Section memo.
Context {X : Type} `{!Host X}.

(** The limits are in the cache, stored at [t]. *)
Definition stored_limit (key : string) (t : Z) (l : ENILimit) (w : World X) : Prop :=
  w_files w !! path_Join [cachePath X; key]
  = Some (FJson (enc_cacheable (mkCacheable (mkTime (t + 24 * Hour) local_zone) (codec_enc l)))) /\
  cachePath X ∈ w_dirs w.

Definition usable_step (w w' : World X) : Prop := dir_usable (cachePath X) w -> dir_usable (cachePath X) w'.
#[local] Instance usable_step_preorder : PreOrder usable_step.
Proof. split; [intros w H; exact H|intros a b c H1 H2 H; by apply H2, H1]. Qed.
#[local] Instance usable_step_ext : ExtClosed usable_step.
Proof. intros w x t Ht H. exact H. Qed.
#[local] Instance usable_step_client : ClientClosed usable_step.
Proof. intros w c H. exact H. Qed.

Lemma usable_fetched {A} `{!JsonCodec A} key (a : A) itype (w wd wg wl : World X) r1 r2 r3 :
  getIDDoc w = (r1, wd) -> Get key a wd = (r2, wg) -> ENILimitsForInstanceType itype wg = (r3, wl) ->
  dir_usable (cachePath X) w -> dir_usable (cachePath X) wl.
Proof.
  intros E1 E2 E3 H. apply (frame_done usable_step _ _ _ _ (frame_ENILimitsForInstanceType _ _) E3).
  eapply (frame_done usable_step); [|exact E2|exact (frame_done usable_step _ _ _ _ (frame_getIDDoc _) E1 H)].
  apply frame_Get; [apply _..|]. intros w0 _. left. cbn. set_solver.
Qed.

Lemma doc_ENILimitsForInstanceType d itype : frame (doc_step (X := X) d) (ENILimitsForInstanceType itype).
Proof. pose proof (doc_newEC2 (X := X) d). unfold ENILimitsForInstanceType. solve_frame. Qed.

Context `{!ReliableOS X}.
Lemma stored_limit_found d t l (w : World X) :
  stored_limit (limits_key (id_InstanceType d)) t l w -> has_doc d w ->
  0 <= t + 24 * Hour <= max_clock -> limit_ok l ->
  (forall now, now <= w_clock (ENILimits w).2 -> now <= (t + 24 * Hour) / Second * Second) ->
  exists w', ENILimits w = (Done (l, None), w').
Proof.
  intros [Hf Hd] Hdoc Ht Hl Hnow. unfold ENILimits in *. rewrite (bind_done _ _ _ _ _ (getIDDoc_again _ _ Hdoc)) in *.
  cbn [fst snd] in *.
  assert (wp (Get (limits_key (id_InstanceType d)) zeroLimit) (fun r w' => exists now, now <= w_clock w' /\
    r = (if (t + 24 * Hour) / Second * Second <? now then CacheExpired else CacheFound, l)) w) as (r & w' & E & now & Hn & ->).
  { change zeroLimit with (codec_zero (A := ENILimit)). apply (wp_Get _ (mkTime (t + 24 * Hour) local_zone) l); [by left|by apply clock_rfc3339|done|done|].
    intros w' now Hn _. exists now. split; [lia|done]. }
  rewrite (bind_done _ _ _ _ _ E) in Hnow |- *. destruct (Z.ltb_spec ((t + 24 * Hour) / Second * Second) now); [|by exists w'].
  exfalso. cbn [fst] in Hnow.
  assert (now <= (t + 24 * Hour) / Second * Second); [|lia]. apply Hnow. etrans; [exact Hn|].
  eapply (frame_done clock_le); [|by apply surjective_pairing]. pose proof (frame_ENILimitsForInstanceType (X := X) clock_le).
  solve_frame.
Qed.
End memo.

(** ** Property *)

(** C38: limits learnt from EC2 are not asked for again.  After a call that found
    nothing usable in the cache and got limits from EC2, and after any code that
    leaves the disk and the client alone, another call gives the same limits,
    whatever EC2 would answer now, as long as it ends at least a second before a
    day has passed. *)
Theorem ENILimits_cached {X} `{!Host X} `{!ReliableOS X} d l (w wd : World X) st c wg wl :
  getIDDoc w = (Done (Some d, None), wd) ->
  Get (limits_key (id_InstanceType d)) zeroLimit wd = (Done (st, c), wg) -> st <> CacheFound ->
  ENILimitsForInstanceType (id_InstanceType d) wg = (Done (Ok l), wl) ->
  dir_usable (cachePath X) w -> limit_ok l -> 0 <= w_clock w ->
  exists ws, ENILimits w = (Done (l, None), ws) /\
  forall m : M X (), total m -> frame same_disk m -> frame same_client m -> frame clock_le m ->
    w_clock ws + 24 * Hour <= max_clock ->
    w_clock ((_ ← m; ENILimits) ws).2 <= w_clock w + 24 * Hour - Second ->
    exists w', (_ ← m; ENILimits) ws = (Done (l, None), w').
Proof.
  intros E1 E2 Hst E3 Hu Hl H0. set (key := limits_key (id_InstanceType d)) in *.
  assert (clock_le w wl) as Cl.
  { etrans; [exact (frame_done clock_le _ _ _ _ (frame_getIDDoc clock_le) E1)|].
    etrans; [exact (frame_done clock_le _ _ _ _ (dframe_Get clock_le _ _) E2)|].
    exact (frame_done clock_le _ _ _ _ (frame_ENILimitsForInstanceType clock_le _) E3). }
  assert (dir_usable (cachePath X) wl) as Hul by by eapply usable_fetched.
  assert (has_doc d wl) as Hdl.
  { apply (frame_done (doc_step d) _ _ _ _ (doc_ENILimitsForInstanceType d _) E3).
    apply (frame_done (doc_step d) _ _ _ _ (dframe_Get _ _ _) E2). by eapply getIDDoc_has_doc. }
  assert (wp (Store key (24 * Hour) l) (fun _ ws => exists t, w_clock wl <= t <= w_clock ws /\ stored_limit key t l ws /\ has_doc d ws) wl)
    as (r & ws & Es & t & Ht & Hs & Hdoc).
  { apply wp_Store; [done|]. intros ws t Ht T. exists t. split; [done|]. split; [|by unfold has_doc; rewrite (t_client _ _ _ _ T)].
    split; [rewrite (t_files _ _ _ _ T); apply lookup_insert_eq|rewrite (t_dirs _ _ _ _ T); set_solver]. }
  exists ws. split.
  { unfold ENILimits. rewrite (bind_done _ _ _ _ _ E1). cbn [fst snd]. rewrite (bind_done _ _ _ _ _ E2). cbn [fst].
    destruct st; try done; rewrite (bind_done _ _ _ _ _ E3); by rewrite (bind_done _ _ _ _ _ Es). }
  intros m Hm Fd Fc Fk Hmax Hend. destruct (Hm ws) as ([] & wm & Em). rewrite (bind_done _ _ _ _ _ Em) in Hend |- *.
  unfold clock_le in *. assert (0 <= Hour) by done.
  apply (stored_limit_found d t); [| |lia|exact Hl|]; first last.
  - intros now Hnow. assert (now <= t + 24 * Hour - Second) as Hn by lia.
    pose proof (Z.mod_pos_bound (t + 24 * Hour) Second ltac:(done)). pose proof (Z.div_mod (t + 24 * Hour) Second ltac:(done)).
    lia.
  - pose proof (frame_done _ _ _ _ _ Fc Em) as Hc. unfold has_doc, same_client in *. by rewrite Hc.
  - destruct Hs as [Hf Hd]. destruct (frame_done _ _ _ _ _ Fd Em) as [F D]. split; by rewrite ?F, ?D.
Qed.

(** ** The theorem at a concrete input *)
#[local] Existing Instance good_host.

Definition demo_limits_key : string := limits_key (id_InstanceType demo_doc).
Definition demo_doc_world : World Sim := Eval vm_compute in (getIDDoc demo_world).2.
Definition demo_miss_world : World Sim := Eval vm_compute in (Get demo_limits_key zeroLimit demo_doc_world).2.
Definition demo_limit_world : World Sim := Eval vm_compute in (ENILimitsForInstanceType (id_InstanceType demo_doc) demo_miss_world).2.
Definition demo_limit : ENILimit :=
  Eval vm_compute in match (ENILimitsForInstanceType (id_InstanceType demo_doc) demo_miss_world).1 with Done (Ok l) => l | _ => zeroLimit end.
Lemma ENILimits_cached_witness :
  exists ws, ENILimits demo_world = (Done (demo_limit, None), ws) /\
  exists w', (_ ← time_Sleep Minute; ENILimits) ws = (Done (demo_limit, None), w').
Proof.
  destruct (@ENILimits_cached Sim good_host _ demo_doc demo_limit demo_world demo_doc_world CacheNoEntry zeroLimit demo_miss_world
    demo_limit_world) as (ws & E & H);
    [vm_compute; reflexivity|vm_compute; reflexivity|discriminate|vm_compute; reflexivity|by right
    |by vm_compute|by vm_compute|].
  exists ws. split; [exact E|]. assert (ws = (ENILimits demo_world).2) as -> by by rewrite E.
  apply H; [unfold time_Sleep; solve_total|solve_frame|solve_frame|solve_frame|by vm_compute|by vm_compute].
Defined.
