(* ===== verification/Subnets.v ===== *)
(** * Subnets: aws/subnets.go and aws/util.go

    The subnets of the instance's VPC and availability zone, with their tags,
    cached for five minutes. *)

From S2P Require Export Limits.

(** [Subnet] *)
Record Subnet := mkSubnet {
  s_ID : string; s_Cidr : string; s_IsDefault : bool; s_AvailableAddressCount : Z;
  s_Name : string; s_Tags : gmap string string }.
#[export] Instance Subnet_eq_dec : EqDecision Subnet.
Proof. solve_decision. Defined.
Definition zeroSubnet : Subnet := mkSubnet EmptyString EmptyString false 0 EmptyString ∅.

(** [SubnetsByAvailableAddressCount.Less] *)
Definition SubnetsByAvailableAddressCount_Less (a b : Subnet) : bool :=
  s_AvailableAddressCount b <? s_AvailableAddressCount a.
#[export] Instance SubnetsByAvailableAddressCount_weak : StrictWeak SubnetsByAvailableAddressCount_Less.
Proof.
  split; unfold SubnetsByAvailableAddressCount_Less; intros *; rewrite ?Z.ltb_lt, ?Z.ltb_ge; lia.
Qed.

Definition enc_subnet (s : Subnet) : json :=
  JObj [("ID"%string, JStr (s_ID s)); ("Cidr"%string, JStr (s_Cidr s));
        ("IsDefault"%string, JBool (s_IsDefault s));
        ("AvailableAddressCount"%string, JInt (s_AvailableAddressCount s));
        ("Name"%string, JStr (s_Name s)); ("Tags"%string, enc_map JStr (Some (s_Tags s)))].
Definition dec_subnet : decoder Subnet := dec_struct [
  ("ID"%string, fun j s => v ← dec_string j (s_ID s);
    Some (mkSubnet v (s_Cidr s) (s_IsDefault s) (s_AvailableAddressCount s) (s_Name s) (s_Tags s)));
  ("Cidr"%string, fun j s => v ← dec_string j (s_Cidr s);
    Some (mkSubnet (s_ID s) v (s_IsDefault s) (s_AvailableAddressCount s) (s_Name s) (s_Tags s)));
  ("IsDefault"%string, fun j s => v ← dec_bool j (s_IsDefault s);
    Some (mkSubnet (s_ID s) (s_Cidr s) v (s_AvailableAddressCount s) (s_Name s) (s_Tags s)));
  ("AvailableAddressCount"%string, fun j s => v ← dec_int j (s_AvailableAddressCount s);
    Some (mkSubnet (s_ID s) (s_Cidr s) (s_IsDefault s) v (s_Name s) (s_Tags s)));
  ("Name"%string, fun j s => v ← dec_string j (s_Name s);
    Some (mkSubnet (s_ID s) (s_Cidr s) (s_IsDefault s) (s_AvailableAddressCount s) v (s_Tags s)));
  ("Tags"%string, fun j s => v ← dec_map dec_string EmptyString j (Some (s_Tags s));
    Some (mkSubnet (s_ID s) (s_Cidr s) (s_IsDefault s) (s_AvailableAddressCount s) (s_Name s) (default ∅ v)))].

#[local] Ltac subnet_member := dec_member;
    cbn [mbind option_bind dec_string dec_bool s_ID s_Cidr s_IsDefault s_AvailableAddressCount s_Name s_Tags zeroSubnet].
Lemma dec_subnet_enc s :
  int64_ok (s_AvailableAddressCount s) -> dec_subnet (enc_subnet s) zeroSubnet = Some s.
Proof.
  intros H. unfold dec_subnet, enc_subnet, dec_struct.
  subnet_member. subnet_member. subnet_member.
  dec_member. rewrite dec_int_enc by done. cbn [mbind option_bind].
  subnet_member. dec_member. cbn [s_Tags].
  rewrite (dec_map_enc dec_string JStr EmptyString id) by by intros k v.
  rewrite map_fmap_id. by destruct s.
Qed.

(** A nil slice is written [null]; the lists the program caches are nil when
    they are empty. *)
Definition enc_list {A} (e : A -> json) (l : list A) : json :=
  match l with [] => JNull | _ => JArr (e <$> l) end.
Definition dec_list {A} (d : decoder A) (zero : A) : decoder (list A) := fun j cur =>
  r ← dec_slice d zero j (Some cur); Some (default [] r).

Lemma dec_list_enc {A} (d : decoder A) (e : A -> json) zero (f : A -> A) l :
  Forall (fun a => d (e a) zero = Some (f a)) l -> dec_list d zero (enc_list e l) [] = Some (f <$> l).
Proof.
  intros H. destruct l as [|a l]; [done|]. unfold dec_list, enc_list, dec_slice.
  assert (dec_elems d zero (e <$> a :: l) = Some (f <$> a :: l)) as ->; [|done].
  induction H as [|b l' Hb _ IH]; [done|]. cbn. rewrite Hb. cbn in *. by rewrite IH.
Qed.

#[export] Instance subnets_codec : JsonCodec (list Subnet).
Proof.
  refine {| codec_enc := enc_list enc_subnet; codec_dec := dec_list dec_subnet zeroSubnet; codec_zero := [];
            codec_ok := Forall (fun s => int64_ok (s_AvailableAddressCount s)); codec_norm := id |}.
  - intros l Hl _. rewrite (dec_list_enc _ _ _ id); [by rewrite list_fmap_id|].
    eapply Forall_impl; [exact Hl|]. intros s. apply dec_subnet_enc.
  - by intros [|? ?].
Defined.

(** aws/util.go *)
Definition newEc2Filter (name : string) (values : list string) : Filter := mkFilter name values.

Section subnets.
Context {X : Type} `{!Host X}.

(** The tag loop: the tag [Name] names the subnet, the others are kept. *)
Fixpoint subnet_tags (tags : list Ec2Tag) (subnet : Subnet) : M X Subnet :=
  match tags with
  | [] => mret subnet
  | tag :: rest =>
      key ← deref (tag_Key tag);
      value ← deref (tag_Value tag);
      subnet_tags rest
        (if bool_decide (key = "Name"%string) then
           mkSubnet (s_ID subnet) (s_Cidr subnet) (s_IsDefault subnet)
             (s_AvailableAddressCount subnet) value (s_Tags subnet)
         else
           mkSubnet (s_ID subnet) (s_Cidr subnet) (s_IsDefault subnet)
             (s_AvailableAddressCount subnet) (s_Name subnet) (<[key := value]> (s_Tags subnet)))
  end.

Definition convert_subnet (awsSub : Ec2Subnet) : M X Subnet :=
  id ← deref (es_SubnetId awsSub);
  cidr ← deref (es_CidrBlock awsSub);
  isdef ← deref (es_DefaultForAz awsSub);
  avail ← deref (es_AvailableIpAddressCount awsSub);
  subnet_tags (es_Tags awsSub) (mkSubnet id cidr isdef avail EmptyString ∅).

(** [subnetsClient.GetSubnetsForInstance] *)
Definition fetchSubnetsForInstance : M X (result (list Subnet)) :=
  r ← getIDDoc;
  match r.2 with
  | Some err => mret (Err err)
  | None =>
      id ← deref r.1;
      let az := id_AvailabilityZone id in
      c ← newEC2;
      match c.2 with
      | Some err => mret (Err err)
      | None =>
          interfaces ← GetInterfaces;
          match interfaces with
          | Err err => mret (Err (Wrapped err "failed to get interfaces associated with this EC2 machine"))
          | Ok [] => panic "index out of range"
          | Ok (eth0 :: _) =>
              let filters := [newEc2Filter "vpc-id" [i_VpcID eth0]; newEc2Filter "availabilityZone" [az]] in
              subnets ←? ec2_call c.1 (fun region => ec2_DescribeSubnets region filters);
              subnets ← range_fold subnets [] (fun awsSub subnets =>
                subnet ← convert_subnet awsSub; mret (subnets ++ [subnet]));
              mret (Ok subnets)
          end
      end
  end.

Definition subnets_key : string := "subnets_for_instance".

(** [subnetsCacheClient.GetSubnetsForInstance], whose client expires entries
    after five minutes. *)
Definition GetSubnetsForInstance : M X (result (list Subnet)) :=
  c ← Get subnets_key [];
  match c.1 with
  | CacheFound => mret (Ok c.2)
  | _ =>
      subnets ← fetchSubnetsForInstance;
      match subnets with
      | Ok subnets => _ ← Store subnets_key (5 * Minute) subnets; mret (Ok subnets)
      | Err err => mret (Err err)
      end
  end.
End subnets.

Section subnets_frames.
Context {X : Type} `{!Host X} (R : relation (World X)) `{!PreOrder R} `{!ExtClosed R} `{!ClientClosed R}.
Lemma frame_subnet_tags tags s : frame R (subnet_tags tags s).
Proof. revert s. induction tags as [|t tags IH]; intros s; cbn [subnet_tags]; solve_frame. Qed.
Lemma frame_fetchSubnetsForInstance : frame R fetchSubnetsForInstance.
Proof. pose proof frame_subnet_tags. unfold fetchSubnetsForInstance, convert_subnet. solve_frame. Qed.
Lemma frame_GetSubnetsForInstance :
  (forall w, R w (set_dirs (union {[cachePath X]}) w)) ->
  (forall w c, R w (set_files (insert (path_Join [cachePath X; subnets_key]) c) w)) ->
  frame R GetSubnetsForInstance.
Proof.
  intros Hd Hf. unfold GetSubnetsForInstance. pose proof frame_fetchSubnetsForInstance.
  pose proof (fun A `{!JsonCodec A} key (a : A) => frame_Get R key a Hd) as FG.
  pose proof (fun A `{!JsonCodec A} lt (a : A) => frame_Store R subnets_key lt a Hd Hf) as FS.
  solve_frame.
Qed.
End subnets_frames.

Lemma dframe_GetSubnetsForInstance {X} `{!Host X} (R : relation (World X)) `{!PreOrder R} `{!ExtClosed R}
  `{!ClientClosed R} `{!DiskClosed R} : frame R GetSubnetsForInstance.
Proof. apply frame_GetSubnetsForInstance; [apply _..|intros w; apply dirs_closed|intros w c; apply files_closed]. Qed.
#[export] Hint Resolve dframe_GetSubnetsForInstance : frame.

Section subnets_terminates.
Context {X : Type} `{!Host X}.
Lemma terminates_subnet_tags tags s : terminates (X := X) (subnet_tags tags s).
Proof. revert s. induction tags as [|t tags IH]; intros s; cbn [subnet_tags]; solve_terminates. Qed.
Lemma terminates_GetSubnetsForInstance : terminates GetSubnetsForInstance.
Proof.
  pose proof terminates_subnet_tags.
  unfold GetSubnetsForInstance, fetchSubnetsForInstance, convert_subnet. solve_terminates.
Qed.
End subnets_terminates.
#[export] Hint Resolve terminates_GetSubnetsForInstance : terminates.

(** ** Property *)
Section described.
Context {X : Type} `{!Host X}.
(** A tag EC2 gives for a key and a value. *)
Definition ec2_tag (kv : string * string) : Ec2Tag := mkEc2Tag (Some kv.1) (Some kv.2).
#[export] Instance ec2_tag_inj : Inj (=) (=) ec2_tag.
Proof. intros [k v] [k' v'] [=]. by subst. Qed.
Definition is_name (kv : string * string) : bool := bool_decide (kv.1 = "Name"%string).

(** The tags of a subnet as the program keeps them: the last [Name] is its
    name; of the others, the last of each key counts. *)
Record described (awsSub : Ec2Subnet) (s : Subnet) : Prop := {
  ds_ID : es_SubnetId awsSub = Some (s_ID s);
  ds_Cidr : es_CidrBlock awsSub = Some (s_Cidr s);
  ds_IsDefault : es_DefaultForAz awsSub = Some (s_IsDefault s);
  ds_Available : es_AvailableIpAddressCount awsSub = Some (s_AvailableAddressCount s);
  ds_Tags : exists kvs, es_Tags awsSub = ec2_tag <$> kvs /\
    s_Name s = default EmptyString (snd <$> last (List.filter is_name kvs)) /\
    s_Tags s = list_to_map (reverse (List.filter (fun kv => negb (is_name kv)) kvs)) }.

(** The tag loop, from a subnet that has the tags [don] already. *)
Lemma subnet_tags_described tags don awsSub sub (w : World X) s w' :
  subnet_tags tags sub w = (Done s, w') ->
  described (mkEc2Subnet (es_SubnetId awsSub) (es_CidrBlock awsSub) (es_DefaultForAz awsSub)
    (es_AvailableIpAddressCount awsSub) (ec2_tag <$> don)) sub ->
  es_Tags awsSub = (ec2_tag <$> don) ++ tags -> described awsSub s.
Proof.
  revert don sub w. induction tags as [|tag tags IH]; intros don sub w E Hd Ht; cbn [subnet_tags] in E.
  - injection E as <- <-. rewrite app_nil_r in Ht. destruct Hd. split; try done. by rewrite Ht.
  - apply bind_done_inv in E as (key & w1 & [Ek _]%deref_done & E). apply bind_done_inv in E as (value & w2 & [Ev _]%deref_done & E).
    eapply (IH (don ++ [(key, value)])); [exact E| |].
    2: { rewrite Ht, fmap_app, <- app_assoc. cbn. f_equal. by destruct tag as [k v]; cbn in *; subst. }
    destruct Hd as [H1 H2 H3 H4 (kvs & Hk & H5 & H6)]. cbn in Hk. apply (inj (fmap ec2_tag)) in Hk as <-.
    assert (is_name (key, value) = bool_decide (key = "Name"%string)) as Hn by done.
    case_bool_decide; split; try done; exists (don ++ [(key, value)]); (split; [done|]);
      rewrite !List.filter_app; cbn [List.filter]; rewrite Hn; cbn [negb app].
    + by rewrite last_snoc, app_nil_r.
    + rewrite app_nil_r, reverse_snoc. cbn. by rewrite H6.
Qed.

Lemma convert_subnet_described awsSub : ensures (X := X) (convert_subnet awsSub) (described awsSub).
Proof.
  intros w s w' E. apply bind_done_inv in E as (id & w1 & [E1 _]%deref_done & E).
  apply bind_done_inv in E as (cidr & w2 & [E2 _]%deref_done & E). apply bind_done_inv in E as (isdef & w3 & [E3 _]%deref_done & E).
  apply bind_done_inv in E as (avail & w4 & [E4 _]%deref_done & E).
  eapply (subnet_tags_described _ []) in E; [exact E| |done]. split; try done. by exists [].
Qed.
End described.

(** C39: the subnets of the instance are asked of EC2 for the VPC of the first
    interface and the availability zone of the instance, and come out one for one
    and in EC2's order, each with the fields EC2 gives it: its tags are a map in
    which the last of a repeated key counts, and its name is the last [Name]. *)
Theorem fetchSubnets_described {X} `{!Host X} (w : World X) subnets w' :
  fetchSubnetsForInstance w = (Done (Ok subnets), w') ->
  exists id w1 client w2 w3 eth0 rest awsSubs w4,
    getIDDoc w = (Done (Some id, None), w1) /\ newEC2 w1 = (Done (client, None), w2) /\
    GetInterfaces w2 = (Done (Ok (eth0 :: rest)), w3) /\
    ec2_call client (fun region => ec2_DescribeSubnets region
      [mkFilter "vpc-id" [i_VpcID eth0]; mkFilter "availabilityZone" [id_AvailabilityZone id]]) w3 = (Done (Ok awsSubs), w4) /\
    Forall2 described awsSubs subnets.
Proof.
  intros E. apply bind_done_inv in E as ([doc [e|]] & w1 & E1 & E); [done|]. cbn [fst snd] in E.
  apply bind_done_inv in E as (id & w1' & [Hid ->]%deref_done & E). subst doc. cbv zeta in E.
  apply bind_done_inv in E as ([client [e|]] & w2 & E2 & E); [done|]. cbn [fst snd] in E.
  apply bind_done_inv in E as ([[|eth0 rest]|e] & w3 & E3 & E); [done| |done]. cbv zeta in E.
  apply bind_done_inv in E as ([awsSubs|e] & w4 & E4 & E); [|done].
  apply bind_done_inv in E as (l & w5 & E5 & E). injection E as <- <-.
  exists id, w1, client, w2, w3, eth0, rest, awsSubs, w4. split_and!; [done..|].
  refine (ensures_fold awsSubs _ [] (Forall2 described) _ _ w4 l w5 E5); [done|].
  intros don a rest' s _ Hs. eapply ensures_bind; [apply convert_subnet_described|]. intros sub Hsub. apply ensures_ret.
  by apply Forall2_app; [|constructor].
Qed.

(** ** The theorem at a concrete input *)
#[local] Existing Instance good_host.

Definition demo_subnets_world : World Sim := Eval vm_compute in (fetchSubnetsForInstance demo_world).2.
Definition demo_subnet_list : list Subnet :=
  Eval vm_compute in match (@fetchSubnetsForInstance Sim good_host demo_world).1 with Done (Ok l) => l | _ => [] end.
Lemma demo_fetchSubnets : fetchSubnetsForInstance demo_world = (Done (Ok demo_subnet_list), demo_subnets_world).
Proof. vm_cast_no_check (eq_refl (@Done (result (list Subnet)) (Ok demo_subnet_list), demo_subnets_world)). Qed.
Lemma fetchSubnets_described_witness :
  exists id w1 client w2 w3 eth0 rest awsSubs w4,
    getIDDoc demo_world = (Done (Some id, None), w1) /\ newEC2 w1 = (Done (client, None), w2) /\
    GetInterfaces w2 = (Done (Ok (eth0 :: rest)), w3) /\
    ec2_call (X := Sim) client (fun region => ec2_DescribeSubnets region
      [mkFilter "vpc-id" [i_VpcID eth0]; mkFilter "availabilityZone" [id_AvailabilityZone id]]) w3 = (Done (Ok awsSubs), w4) /\
    Forall2 described awsSubs demo_subnet_list.
Proof. exact (@fetchSubnets_described Sim good_host demo_world demo_subnet_list demo_subnets_world demo_fetchSubnets). Defined.
