(* ===== verification/Registry.v ===== *)
(** * Registry: aws/registry.go and aws/freeip.go

    The registry of free addresses: a JSON file that keeps, for each address,
    the instant it was last released.  [FindFreeIPsAtIndex] compares the
    addresses AWS assigned to the instance with those in use, and can bring
    the registry up to date; loading a registry that does not exist yet calls
    it in turn, without updates, to prefill the file.

    The abstract registry is a finite map from the text of an address to an
    instant ([holds]); [reg_step] is its specification, and [registry_refines]
    says the file-backed operations implement it. *)

From Stdlib Require Import SpecFloat.
From S2P Require Export Cache.

(** ** Data *)

(** [AllocationResult]: an address and the interface that has it. *)
Record AllocationResult := mkAllocationResult { ar_IP : IP; ar_Interface : Interface }.

(** [registryIP] *)
Record registryIP := mkRegistryIP { ReleasedOn : Time }.
(** [registryContents]; the map or an entry of it is nil when [None]. *)
Record registryContents := mkContents {
  SchemaVersion : Z; IPs : option (gmap string (option registryIP)) }.
(** [Registry]: the directory it is kept in, empty for the default one. *)
Record Registry := mkRegistry { r_path : string }.

Definition registryDir : string := "cni-ipvlan-vpc-k8s".
Definition registryFile : string := "registry.json".
Definition registrySchemaVersion : Z := 1.
Definition defaultRegistry : registryContents := mkContents registrySchemaVersion (Some ∅).
Definition newRegistry : Registry := mkRegistry EmptyString.

(** ** The JSON form *)
Definition zeroRegistryIP : registryIP := mkRegistryIP zeroTime.
Definition enc_registryIP (p : option registryIP) : json :=
  match p with
  | None => JNull
  | Some p => JObj [("released_on"%string, MarshalJSON (ReleasedOn p))]
  end.
Definition dec_registryIP : decoder registryIP := dec_struct [
  ("released_on"%string, fun j p => t ← dec_time j (ReleasedOn p); Some (mkRegistryIP t))].
Definition enc_contents (c : registryContents) : json :=
  JObj [("schema_version"%string, JInt (SchemaVersion c)); ("ips"%string, enc_map enc_registryIP (IPs c))].
Definition dec_contents : decoder registryContents := dec_struct [
  ("schema_version"%string, fun j c => v ← dec_int j (SchemaVersion c); Some (mkContents v (IPs c)));
  ("ips"%string, fun j c =>
     m ← dec_map (dec_pointer dec_registryIP zeroRegistryIP) None j (IPs c);
     Some (mkContents (SchemaVersion c) m))].

(** ** [float64], as IEEE 754 double precision *)
Definition float64_of_Z (z : Z) : spec_float := binary_normalize 53 1024 z 0 false.
Definition float64_mul : spec_float -> spec_float -> spec_float := SFmul 53 1024.
(** [int64(f)] truncates; what is out of range gives the least integer, as on
    amd64. *)
Definition int64_of_float (f : spec_float) : Z :=
  match f with
  | S754_finite s m e =>
      let z := Z.shiftl (Zpos m) e in
      let v := if s then - z else z in
      if (int64_min <=? v) && (v <=? int64_max) then v else int64_min
  | S754_zero _ => 0
  | _ => int64_min
  end.
(** The constant [n/d] of a source literal. *)
Definition float64_lit (n d : Z) : spec_float := SFdiv 53 1024 (float64_of_Z n) (float64_of_Z d).

Example float_test : int64_of_float (float64_mul (float64_of_Z (3600 * Second)) (float64_lit 15 100)) = 540 * Second.
Proof. vm_compute. reflexivity. Qed.

(** ** freeip.go *)
Section freeip.
Context {X : Type} `{!Host X}.

(** Whether one of the addresses in use is [ip]. *)
Definition in_use (assigned : list BoundIP) (ip : IP) : bool :=
  existsb (fun a => ip_Equal (net_IP (bi_IPNet a)) ip) assigned.

(** The body of the inner loop of [FindFreeIPsAtIndex], over the three
    registry operations it may call. *)
Definition scan_ip (HasIP : IP -> M X (result bool)) (TrackIP ForgetIP : IP -> M X (option error))
    (assigned : list BoundIP) (updateRegistry : bool) (intf : Interface) (intfIP : IP)
    (freeIps : list AllocationResult) : M X (list AllocationResult + list AllocationResult * option error) :=
  let found := in_use assigned intfIP in
  let freeIps := if found then freeIps else freeIps ++ [mkAllocationResult intfIP intf] in
  if updateRegistry then
    exists_ ← HasIP intfIP;
    match exists_, found with
    | Ok false, false =>
        err ← TrackIP intfIP;
        mret (match err with Some err => inr (freeIps, Some err) | None => inl freeIps end)
    | _, true =>
        err ← ForgetIP intfIP;
        mret (match err with Some err => inr (freeIps, Some err) | None => inl freeIps end)
    | _, false => mret (inl freeIps)
    end
  else mret (inl freeIps).

(** [FindFreeIPsAtIndex].  An error after the scan has begun comes with the
    addresses found so far. *)
Definition FindFreeIPs_with (HasIP : IP -> M X (result bool)) (TrackIP ForgetIP : IP -> M X (option error))
    (index : Z) (updateRegistry : bool) : M X (list AllocationResult * option error) :=
  interfaces ← GetInterfaces;
  match interfaces with
  | Err err => mret ([], Some err)
  | Ok interfaces =>
      assigned ← GetIPs;
      match assigned with
      | Err err => mret ([], Some err)
      | Ok assigned =>
          r ← range_loop interfaces [] (fun intf freeIps =>
            if i_Number intf <? index then mret (inl freeIps)
            else range_loop (i_IPv4s intf) freeIps
                   (scan_ip HasIP TrackIP ForgetIP assigned updateRegistry intf));
          mret (match r with inl freeIps => (freeIps, None) | inr e => e end)
      end
  end.
End freeip.

(** ** registry.go *)
Section registry.
Context {X : Type} `{!Host X}.

Definition registryPath : string :=
  let uid := getuid (X := X) in
  if negb (uid =? 0) then path_Join ["/run/user"; pretty uid; registryDir]
  else path_Join ["/run"; registryDir].

(** The directory [ensurePath] works in: it sets an empty [r.path] to
    [registryPath()] once, and that never changes, so each use may as well
    resolve it again. *)
Definition registry_dir (r : Registry) : string :=
  if bool_decide (r_path r = EmptyString) then registryPath else r_path r.
Definition registry_file (r : Registry) : string := path_Join [registry_dir r; registryFile].

Definition ensurePath (r : Registry) : M X (result string) :=
  let rpath := registry_dir r in
  isdir ← os_StatIsDir rpath;
  if isdir : bool then mret (Ok (registry_file r))
  else
    ?← os_MkdirAll rpath;
    mret (Ok (registry_file r)).

Definition save (r : Registry) (rc : registryContents) : M X (option error) :=
  rpath ←! ensurePath r;
  !← os_Create (registry_dir r) rpath;
  let rc := mkContents registrySchemaVersion (IPs rc) in
  json_Encode rpath (enc_contents rc).

(** [contents.IPs[k] = v]: assigning to an entry of the nil map panics. *)
Definition set_entry (k : string) (v : registryIP) (c : registryContents) : M X registryContents :=
  match IPs c with
  | None => panic "assignment to entry in nil map"
  | Some m => mret (mkContents (SchemaVersion c) (Some (<[k := Some v]> m)))
  end.

(** The call [FindFreeIPsAtIndex(0, false)] of [load]: it makes no registry
    call ([prefill_scan_eq]). *)
Definition prefill_scan : M X (list AllocationResult * option error) :=
  FindFreeIPs_with (fun _ => out_of_fuel) (fun _ => out_of_fuel) (fun _ => out_of_fuel) 0 false.

Definition load (r : Registry) : M X (result registryContents) :=
  let contents := defaultRegistry in
  rpath ←? ensurePath r;
  file ← os_Open rpath;
  match file with
  | Err err =>
      if os_IsNotExist err then
        free ← prefill_scan;
        if bool_decide (free.2 = None) || (0 <? Z.of_nat (length free.1)) then
          contents ← range_fold free.1 contents (fun freeAlloc contents =>
            set_entry (ip_String (ar_IP freeAlloc)) (mkRegistryIP zeroTime) contents);
          err ← save r contents;
          mret (match err with Some err => Err err | None => Ok contents end)
        else mret (Ok contents)
      else mret (Err err)
  | Ok file =>
      decoded ← json_Decode rpath file dec_contents contents;
      let contents := match decoded with Ok c => c | Err _ => defaultRegistry end in
      let contents := if negb (SchemaVersion contents =? registrySchemaVersion)
                      then defaultRegistry else contents in
      let contents := match IPs contents with None => defaultRegistry | Some _ => contents end in
      mret (Ok contents)
  end.

Definition TrackIPAtEpoch (r : Registry) (ip : IP) : M X (option error) :=
  contents ←! load r;
  contents ← set_entry (ip_String ip) (mkRegistryIP zeroTime) contents;
  save r contents.

Definition TrackIP (r : Registry) (ip : IP) : M X (option error) :=
  contents ←! load r;
  now ← time_Now;
  contents ← set_entry (ip_String ip) (mkRegistryIP now) contents;
  save r contents.

Definition ForgetIP (r : Registry) (ip : IP) : M X (option error) :=
  contents ←! load r;
  save r (mkContents (SchemaVersion contents) (delete (ip_String ip) <$> IPs contents)).

Definition HasIP (r : Registry) (ip : IP) : M X (result bool) :=
  contents ←? load r;
  mret (Ok (bool_decide (is_Some (default ∅ (IPs contents) !! ip_String ip)))).

Definition TrackedBefore (r : Registry) (t : Time) : M X (result (list IP)) :=
  contents ←? load r;
  entries ← ext (range_map (default ∅ (IPs contents)));
  returned ← range_fold entries [] (fun e returned =>
    entry ← deref e.2;
    mret (if Before (ReleasedOn entry) t then
            match ParseIP e.1 with
            | None => returned
            | Some ip => returned ++ [ip]
            end
          else returned));
  mret (Ok returned).

Definition Clear (r : Registry) : M X (option error) :=
  rpath ←! ensurePath r;
  err ← os_Remove rpath;
  mret (match err with
        | Some e => if os_IsNotExist e then None else Some e
        | None => None
        end).

(** An entry whose key is not an address comes out as the nil address. *)
Definition List (r : Registry) : M X (result (list IP)) :=
  contents ←? load r;
  entries ← ext (range_map (default ∅ (IPs contents)));
  mret (Ok ((fun e : string * option registryIP => default [] (ParseIP e.1)) <$> entries)).

(** [FindFreeIPsAtIndex] itself. *)
Definition FindFreeIPsAtIndex (index : Z) (updateRegistry : bool) : M X (list AllocationResult * option error) :=
  let registry := newRegistry in
  FindFreeIPs_with (HasIP registry) (TrackIP registry) (ForgetIP registry) index updateRegistry.

(** [Jitter(d, pct)]: [rand.Int63n] panics on a bound that is not positive. *)
Definition Jitter (d : Z) (pct : spec_float) : M X Z :=
  let bound := int64_of_float (float64_mul (float64_of_Z d) pct) in
  if bound <=? 0 then panic "invalid argument to Int63n"
  else
    jitter ← ext (rand_intn bound);
    mret (wrap64 (d + jitter)).
End registry.
Arguments registryPath X {Host0}.
Arguments registry_dir X {Host0} r.
Arguments registry_file X {Host0} r.

(** ** The recursion bottoms out

    Without updates the scan makes no registry call, so the prefill of [load]
    is [FindFreeIPsAtIndex 0 false], and it never comes back to [load]. *)
Section prefill.
Context {X : Type} `{!Host X}.
Lemma FindFreeIPs_with_false (h h' : IP -> M X (result bool)) (t t' f f' : IP -> M X (option error)) index w :
  FindFreeIPs_with h t f index false w = FindFreeIPs_with h' t' f' index false w.
Proof.
  unfold FindFreeIPs_with. rewrite !bind_eq. destruct (GetInterfaces w) as [[[ifs|e]|m|] w1]; [|done..].
  rewrite !bind_eq. destruct (GetIPs w1) as [[[ips|e]|m|] w2]; done.
Qed.
(** A plain scan that fails has found nothing. *)
Lemma scan_error_empty index w free e w' :
  FindFreeIPsAtIndex (X := X) index false w = (Done (free, Some e), w') -> free = [].
Proof.
  unfold FindFreeIPsAtIndex, FindFreeIPs_with. intros E.
  apply bind_done_inv in E as ([ifs|e1] & w1 & _ & E); [|injection E; congruence].
  apply bind_done_inv in E as ([al|e2] & w2 & _ & E); [|injection E; congruence].
  apply bind_done_inv in E as (r & w3 & E1 & E). destruct r as [fr|v]; [done|]. exfalso.
  revert E1. clear E. generalize (@nil AllocationResult), w2. induction ifs as [|i ifs IH]; intros acc w0 E1; [done|].
  cbn in E1. apply bind_done_inv in E1 as ([s|v'] & w4 & E1 & E2); [by eapply IH|].
  destruct (i_Number i <? index); [done|]. clear E2. revert E1. generalize (i_IPv4s i), acc, w0.
  intros l. induction l as [|ip l IHl]; intros acc' w5 E; [done|]. exact (IHl _ _ E).
Qed.
Lemma prefill_scan_eq w : prefill_scan (X := X) w = FindFreeIPsAtIndex 0 false w.
Proof. apply FindFreeIPs_with_false. Qed.

Lemma terminates_FindFreeIPs_with h t f index upd :
  (upd = true -> (forall ip, terminates (h ip)) /\ (forall ip, terminates (t ip)) /\ (forall ip, terminates (f ip))) ->
  terminates (X := X) (FindFreeIPs_with h t f index upd).
Proof.
  intros H. unfold FindFreeIPs_with, scan_ip. destruct upd; [destruct H as (?&?&?); [done|]|]; solve_terminates.
Qed.
Lemma total_prefill_scan : total (X := X) prefill_scan.
Proof. unfold prefill_scan, FindFreeIPs_with, scan_ip. solve_total. Qed.
Lemma terminates_prefill_scan : terminates (X := X) prefill_scan.
Proof. by apply terminates_FindFreeIPs_with. Qed.
End prefill.
#[export] Hint Resolve terminates_prefill_scan : terminates.

Section registry_terminates.
Context {X : Type} `{!Host X}.
Lemma terminates_ensurePath r : terminates (X := X) (ensurePath r).
Proof. unfold ensurePath, os_StatIsDir, os_MkdirAll, fault. solve_terminates. Qed.
Lemma terminates_set_entry k v c : terminates (X := X) (set_entry k v c).
Proof. unfold set_entry. solve_terminates. Qed.
Lemma terminates_save r c : terminates (X := X) (save r c).
Proof. pose proof terminates_ensurePath. unfold save, os_Create, json_Encode, fault. solve_terminates. Qed.
Lemma terminates_load r : terminates (X := X) (load r).
Proof.
  pose proof terminates_ensurePath. pose proof terminates_save. pose proof terminates_set_entry.
  unfold load, os_Open, json_Decode, fault. solve_terminates.
Qed.
Lemma terminates_HasIP r ip : terminates (X := X) (HasIP r ip).
Proof. pose proof terminates_load. unfold HasIP. solve_terminates. Qed.
Lemma terminates_TrackIP r ip : terminates (X := X) (TrackIP r ip).
Proof.
  pose proof terminates_load. pose proof terminates_save. pose proof terminates_set_entry.
  unfold TrackIP, time_Now. solve_terminates.
Qed.
Lemma terminates_TrackIPAtEpoch r ip : terminates (X := X) (TrackIPAtEpoch r ip).
Proof.
  pose proof terminates_load. pose proof terminates_save. pose proof terminates_set_entry.
  unfold TrackIPAtEpoch. solve_terminates.
Qed.
Lemma terminates_ForgetIP r ip : terminates (X := X) (ForgetIP r ip).
Proof. pose proof terminates_load. pose proof terminates_save. unfold ForgetIP. solve_terminates. Qed.
Lemma terminates_TrackedBefore r t : terminates (X := X) (TrackedBefore r t).
Proof. pose proof terminates_load. unfold TrackedBefore. solve_terminates. Qed.
Lemma terminates_Clear r : terminates (X := X) (Clear r).
Proof. pose proof terminates_ensurePath. unfold Clear, os_Remove, fault. solve_terminates. Qed.
Lemma terminates_List r : terminates (X := X) (List r).
Proof. pose proof terminates_load. unfold List. solve_terminates. Qed.
End registry_terminates.
#[export] Hint Resolve terminates_load terminates_save terminates_HasIP terminates_TrackIP
  terminates_TrackIPAtEpoch terminates_ForgetIP terminates_TrackedBefore terminates_Clear terminates_List : terminates.

Section freeip_terminates.
Context {X : Type} `{!Host X}.
Lemma terminates_FindFreeIPsAtIndex index upd : terminates (X := X) (FindFreeIPsAtIndex index upd).
Proof. apply terminates_FindFreeIPs_with. intros _. split_and!; eauto with terminates. Qed.
End freeip_terminates.
#[export] Hint Resolve terminates_FindFreeIPsAtIndex : terminates.

(** What the registry operations may change: the registry file of [r] and its
    directory. *)
Section registry_frames.
Context {X : Type} `{!Host X} (R : relation (World X)) `{!PreOrder R} `{!ExtClosed R}.

Lemma frame_FindFreeIPs_with h t f index upd :
  (upd = true -> (forall ip, frame R (h ip)) /\ (forall ip, frame R (t ip)) /\ (forall ip, frame R (f ip))) ->
  frame R (FindFreeIPs_with h t f index upd).
Proof.
  intros H. unfold FindFreeIPs_with, scan_ip. destruct upd; [destruct H as (?&?&?); [done|]|]; solve_frame.
Qed.

Section one.
Context (r : Registry).
Context (Hd : forall w, R w (set_dirs (union {[registry_dir X r]}) w)).
Lemma frame_ensurePath : frame R (ensurePath r).
Proof. unfold ensurePath, os_StatIsDir, os_MkdirAll, fault. solve_frame. Qed.
Lemma ensurePath_value w p w' : ensurePath r w = (Done (Ok p), w') -> p = registry_file X r.
Proof.
  unfold ensurePath. intros E. apply bind_done_inv in E as ([] & w1 & _ & E); [by injection E|].
  apply bind_done_inv in E as ([e|] & w2 & _ & E); by injection E.
Qed.
Lemma frame_with_path {A} (k : result string -> M X A) :
  (forall e, frame R (k (Err e))) -> frame R (k (Ok (registry_file X r))) -> frame R (ensurePath r ≫= k).
Proof.
  intros He Hk. apply (frame_bind_val R (fun p => forall q, p = Ok q -> q = registry_file X r)).
  - apply frame_ensurePath.
  - intros w a w' E q ->. by eapply ensurePath_value.
  - intros [p|e] Hp; [|done]. by rewrite (Hp p eq_refl).
Qed.
Lemma frame_set_entry k v c : frame R (set_entry k v c).
Proof. unfold set_entry. solve_frame. Qed.

Context (Hf : forall w c, R w (set_files (insert (registry_file X r) c) w)).
Lemma frame_save c : frame R (save r c).
Proof. apply frame_with_path; unfold os_Create, json_Encode, fault; solve_frame. Qed.
Lemma frame_prefill_scan : frame R prefill_scan.
Proof. by apply frame_FindFreeIPs_with. Qed.
Lemma frame_load : frame R (load r).
Proof.
  pose proof frame_save. pose proof frame_set_entry. pose proof frame_prefill_scan.
  apply frame_with_path; unfold os_Open, json_Decode, fault; solve_frame.
Qed.
Lemma frame_HasIP ip : frame R (HasIP r ip).
Proof. pose proof frame_load. unfold HasIP. solve_frame. Qed.
Lemma frame_TrackIP ip : frame R (TrackIP r ip).
Proof.
  pose proof frame_load. pose proof frame_save. pose proof frame_set_entry.
  unfold TrackIP, time_Now. solve_frame.
Qed.
Lemma frame_TrackIPAtEpoch ip : frame R (TrackIPAtEpoch r ip).
Proof.
  pose proof frame_load. pose proof frame_save. pose proof frame_set_entry.
  unfold TrackIPAtEpoch. solve_frame.
Qed.
Lemma frame_ForgetIP ip : frame R (ForgetIP r ip).
Proof. pose proof frame_load. pose proof frame_save. unfold ForgetIP. solve_frame. Qed.
Lemma frame_TrackedBefore t : frame R (TrackedBefore r t).
Proof. pose proof frame_load. unfold TrackedBefore. solve_frame. Qed.
Lemma frame_List : frame R (List r).
Proof. pose proof frame_load. unfold List. solve_frame. Qed.
End one.

Lemma frame_FindFreeIPsAtIndex index upd :
  (forall w, R w (set_dirs (union {[registry_dir X newRegistry]}) w)) ->
  (forall w c, R w (set_files (insert (registry_file X newRegistry) c) w)) ->
  frame R (FindFreeIPsAtIndex index upd).
Proof.
  intros Hd Hf. apply frame_FindFreeIPs_with. intros _.
  split_and!; intros ip; [by apply frame_HasIP|by apply frame_TrackIP|by apply frame_ForgetIP].
Qed.
End registry_frames.

(** Relations that ignore the disk are respected by every registry operation. *)
Section registry_disk.
Context {X : Type} `{!Host X} (R : relation (World X)) `{!PreOrder R} `{!ExtClosed R} `{!DiskClosed R}.
Context (r : Registry).
Lemma dframe_HasIP ip : frame R (HasIP r ip).
Proof. apply frame_HasIP; [apply _..|intros w; apply dirs_closed|intros w c; apply files_closed]. Qed.
Lemma dframe_TrackIP ip : frame R (TrackIP r ip).
Proof. apply frame_TrackIP; [apply _..|intros w; apply dirs_closed|intros w c; apply files_closed]. Qed.
Lemma dframe_ForgetIP ip : frame R (ForgetIP r ip).
Proof. apply frame_ForgetIP; [apply _..|intros w; apply dirs_closed|intros w c; apply files_closed]. Qed.
Lemma dframe_TrackedBefore t : frame R (TrackedBefore r t).
Proof. apply frame_TrackedBefore; [apply _..|intros w; apply dirs_closed|intros w c; apply files_closed]. Qed.
Lemma dframe_FindFreeIPsAtIndex i u : frame R (FindFreeIPsAtIndex i u).
Proof. apply frame_FindFreeIPsAtIndex; [apply _..|intros w; apply dirs_closed|intros w c; apply files_closed]. Qed.
End registry_disk.
#[export] Hint Resolve dframe_HasIP dframe_TrackIP dframe_ForgetIP dframe_TrackedBefore dframe_FindFreeIPsAtIndex : frame.
#[export] Hint Resolve frame_save frame_load frame_HasIP frame_TrackIP frame_TrackIPAtEpoch
  frame_ForgetIP frame_TrackedBefore frame_List frame_FindFreeIPsAtIndex : frame.

(** ** The abstract registry *)

(** The contents of a registry file that holds the instants [m]. *)
Definition contents_of (m : gmap string Time) : registryContents :=
  mkContents registrySchemaVersion (Some ((fun t => Some (mkRegistryIP t)) <$> m)).
Definition times_ok (m : gmap string Time) : Prop := map_Forall (fun _ t => rfc3339_ok t) m.

Lemma dec_registryIP_enc t :
  rfc3339_ok t -> dec_registryIP (enc_registryIP (Some (mkRegistryIP t))) zeroRegistryIP
                  = Some (mkRegistryIP (trunc_second t)).
Proof.
  intros H. unfold dec_registryIP, enc_registryIP, dec_struct. cbn [ReleasedOn].
  dec_member. by rewrite dec_time_enc.
Qed.

(** What is written is read back, to the second. *)
Lemma dec_contents_enc m :
  times_ok m ->
  dec_contents (enc_contents (contents_of m)) defaultRegistry = Some (contents_of (trunc_second <$> m)).
Proof.
  intros H. unfold dec_contents, enc_contents, dec_struct, contents_of, defaultRegistry. cbn [SchemaVersion IPs].
  dec_member. rewrite dec_int_enc by done. cbn [mbind option_bind IPs SchemaVersion].
  dec_member. cbn [IPs]. rewrite (dec_map_enc _ _ _ (fmap (fun p => mkRegistryIP (trunc_second (ReleasedOn p))))).
  - cbn. rewrite <- !map_fmap_compose. done.
  - intros k e He. apply lookup_fmap_Some in He as (t & <- & Ht).
    pose proof (dec_registryIP_enc t (H _ _ Ht)) as E. unfold dec_pointer.
    destruct (enc_registryIP _) eqn:Ej; [done|..]; cbn [default from_option id]; by rewrite E.
Qed.

Lemma contents_of_insert k t m c :
  IPs c = IPs (contents_of m) ->
  <[k := Some (mkRegistryIP t)]> <$> IPs c = IPs (contents_of (<[k := t]> m)).
Proof. intros ->. cbn. by rewrite fmap_insert. Qed.

Section holds.
Context {X : Type} `{!Host X}.
Implicit Types w : World X.

(** The registry file of [r] holds [m]. *)
Definition holds (r : Registry) w (m : gmap string Time) : Prop :=
  exists m0, times_ok m0 /\ m = trunc_second <$> m0 /\
    w_files w !! registry_file X r = Some (FJson (enc_contents (contents_of m0))).

Lemma times_ok_trunc m : times_ok m -> times_ok (trunc_second <$> m).
Proof. intros H k t (u & <- & Hu)%lookup_fmap_Some. apply rfc3339_ok_trunc. by eapply H. Qed.
Lemma times_ok_insert k t m : rfc3339_ok t -> times_ok m -> times_ok (<[k := t]> m).
Proof. intros Ht Hm. by apply map_Forall_insert_2. Qed.
Lemma times_ok_delete k m : times_ok m -> times_ok (delete k m).
Proof. apply map_Forall_delete. Qed.
Lemma holds_times r w m : holds r w m -> times_ok m.
Proof. intros (m0 & H & -> & _). by apply times_ok_trunc. Qed.
Lemma holds_trunc r w m : holds r w m -> trunc_second <$> m = m.
Proof.
  intros (m0 & H & -> & _). rewrite <- map_fmap_compose. apply map_fmap_ext.
  intros k t _. apply trunc_second_idem.
Qed.
(** At most one abstract registry describes a file. *)
Lemma holds_inj r w m m' : holds r w m -> holds r w m' -> m = m'.
Proof.
  intros (m0 & H & -> & Hf) (m1 & H' & -> & Hf'). rewrite Hf in Hf'.
  apply (f_equal (fun c => match c with Some (FJson j) => j | _ => JNull end)) in Hf'. cbn beta iota in Hf'.
  pose proof (dec_contents_enc m0 H) as D. rewrite Hf', dec_contents_enc in D by done.
  injection D as D. symmetry.
  assert (Inj (=) (=) (fun t => Some (mkRegistryIP t))) by (by intros t u [= ->]).
  exact (map_fmap_inj _ _ _ _ D).
Qed.
Lemma holds_touches r w w' m fd : touches id fd w w' -> holds r w m -> holds r w' m.
Proof. intros H (m0 & ? & ? & Hf). exists m0. split_and!; [done..|]. by rewrite (t_files _ _ _ _ H). Qed.
Lemma holds_written r w w' m fd :
  touches (insert (registry_file X r) (FJson (enc_contents (contents_of m)))) fd w w' -> times_ok m ->
  holds r w' (trunc_second <$> m).
Proof.
  intros H Hm. exists m. split_and!; [done..|]. rewrite (t_files _ _ _ _ H). by rewrite lookup_insert_eq.
Qed.

Context `{!ReliableOS X}.

Lemma wp_ensurePath r (Q : result string -> World X -> Prop) w :
  dir_usable (registry_dir X r) w ->
  (forall w', touches id (union {[registry_dir X r]}) w w' -> Q (Ok (registry_file X r)) w') ->
  wp (ensurePath r) Q w.
Proof.
  intros Hu H. apply wp_bind, wp_StatIsDir. intros w1 Hq. case_bool_decide as Hd.
  - apply wp_ret, H. eapply touches_ext; [exact Hq|done|].
    symmetry. by apply subseteq_union_1_L, singleton_subseteq_l.
  - apply wp_bind, wp_MkdirAll; [rewrite (quiet_files _ _ Hq); by destruct Hu|].
    intros w2 Ht. apply wp_ret, H. by eapply quiet_touches.
Qed.

Lemma wp_save r c (Q : option error -> World X -> Prop) w :
  dir_usable (registry_dir X r) w ->
  (forall w', touches (insert (registry_file X r) (FJson (enc_contents (mkContents registrySchemaVersion (IPs c)))))
                (union {[registry_dir X r]}) w w' -> Q None w') ->
  wp (save r c) Q w.
Proof.
  intros Hu H. apply wp_bind, wp_ensurePath; [done|]. intros w1 H1.
  apply wp_bind, wp_Create; [rewrite (t_dirs _ _ _ _ H1); set_solver|]. intros w2 H2.
  apply wp_Encode. intros w3 H3. apply H.
  eapply touches_ext; [exact (touches_trans _ _ _ _ _ _ _ (touches_trans _ _ _ _ _ _ _ H1 H2) H3)| |done].
  apply insert_insert_eq.
Qed.

(** Loading a registry file that is there. *)
Lemma wp_load r m (Q : result registryContents -> World X -> Prop) w :
  dir_usable (registry_dir X r) w -> holds r w m ->
  (forall w', touches id (union {[registry_dir X r]}) w w' -> Q (Ok (contents_of m)) w') ->
  wp (load r) Q w.
Proof.
  intros Hu (m0 & Hok & -> & Hf) H. apply wp_bind, wp_ensurePath; [done|]. intros w1 H1.
  apply wp_bind, wp_Open. intros w2 H2. rewrite (t_files _ _ _ _ H1). cbn [id]. rewrite Hf.
  apply wp_bind, wp_Decode. intros w3 H3. rewrite dec_contents_enc by done. apply wp_ret, H.
  eapply touches_quiet; [|exact H3]. by eapply touches_quiet.
Qed.
End holds.

(** ** The operations on a registry that is there *)
Section operations.
Context {X : Type} `{!Host X} `{!ReliableOS X}.
Implicit Types w : World X.

(** [w'] is [w] after the registry file may have been rewritten: nothing
    else on the disk has changed, and the directory is there. *)
Record reg_writes (r : Registry) w w' : Prop := {
  rw_files p : p <> registry_file X r -> w_files w' !! p = w_files w !! p;
  rw_dirs : w_dirs w' = {[registry_dir X r]} ∪ w_dirs w;
  rw_client : w_client w' = w_client w;
  rw_out : w_out w' = w_out w;
  rw_clock : w_clock w <= w_clock w' }.

Lemma reg_writes_touches r ff w w' :
  touches ff (union {[registry_dir X r]}) w w' ->
  (forall p f, p <> registry_file X r -> ff f !! p = f !! p) -> reg_writes r w w'.
Proof. intros [Hf Hd Hc Ho Ht] H. split; [|done..]. intros p Hp. by rewrite Hf, H. Qed.
Lemma reg_writes_id r w w' : touches id (union {[registry_dir X r]}) w w' -> reg_writes r w w'.
Proof. intros H. by eapply reg_writes_touches. Qed.
Lemma reg_writes_trans r w1 w2 w3 : reg_writes r w1 w2 -> reg_writes r w2 w3 -> reg_writes r w1 w3.
Proof.
  intros [F1 D1 C1 O1 T1] [F2 D2 C2 O2 T2]. split; [| |congruence|congruence|].
  - intros p Hp. rewrite F2, F1; done.
  - by rewrite D2, D1, (assoc_L (∪)), (idemp_L (∪)).
  - clear -T1 T2. lia.
Qed.
Lemma reg_writes_usable r w w' : reg_writes r w w' -> dir_usable (registry_dir X r) w'.
Proof. intros H. left. rewrite (rw_dirs _ _ _ H). set_solver. Qed.
Lemma reg_writes_ready r w w' m :
  reg_writes r w w' -> holds r w' m -> dir_usable (registry_dir X r) w' /\ holds r w' m.
Proof. intros H1 H2. split; [by eapply reg_writes_usable|done]. Qed.
Lemma touches_usable r ff w w' :
  touches ff (union {[registry_dir X r]}) w w' -> dir_usable (registry_dir X r) w'.
Proof. intros H. eapply dir_usable_union; [exact H|set_solver]. Qed.

(** Saving the instants [m]. *)
Lemma wp_save_times r c m (Q : option error -> World X -> Prop) w :
  dir_usable (registry_dir X r) w -> IPs c = IPs (contents_of m) ->
  (forall w', reg_writes r w w' -> (times_ok m -> holds r w' (trunc_second <$> m)) -> Q None w') ->
  wp (save r c) Q w.
Proof.
  intros Hu Hc H. apply wp_save; [done|]. intros w' Ht. rewrite Hc in Ht. apply H.
  - eapply reg_writes_touches; [exact Ht|]. intros p f Hp. by rewrite lookup_insert_ne.
  - intros Hm. by eapply holds_written.
Qed.

Lemma trunc_insert_holds r w m k t :
  holds r w m -> trunc_second <$> (<[k := t]> m) = <[k := trunc_second t]> m.
Proof. intros H. by rewrite fmap_insert, (holds_trunc _ _ _ H). Qed.

Lemma wp_TrackIP r ip m (Q : option error -> World X -> Prop) w :
  dir_usable (registry_dir X r) w -> holds r w m ->
  (forall w' t, w_clock w <= t <= w_clock w' -> reg_writes r w w' ->
     (rfc3339_ok (mkTime t local_zone) ->
      holds r w' (<[ip_String ip := trunc_second (mkTime t local_zone)]> m)) -> Q None w') ->
  wp (TrackIP r ip) Q w.
Proof.
  intros Hu Hm H. apply wp_bind, (wp_load r m); [done..|]. intros w1 H1.
  unfold wp. rewrite bind_now. unfold set_entry. cbn [IPs contents_of]. rewrite bind_ret.
  apply (wp_save_times r _ (<[ip_String ip := mkTime (w_clock w1) local_zone]> m)); [by eapply touches_usable| |].
  { cbn. by rewrite fmap_insert. }
  intros w2 H2 Hh. apply (H w2 (w_clock w1)).
  - pose proof (t_clock _ _ _ _ H1). pose proof (rw_clock _ _ _ H2). lia.
  - eapply reg_writes_trans; [by apply reg_writes_id|done].
  - intros Ht. rewrite <- (trunc_insert_holds _ _ _ _ _ Hm). apply Hh, times_ok_insert; [done|].
    by eapply holds_times.
Qed.

Lemma wp_TrackIPAtEpoch r ip m (Q : option error -> World X -> Prop) w :
  dir_usable (registry_dir X r) w -> holds r w m ->
  (forall w', reg_writes r w w' -> holds r w' (<[ip_String ip := zeroTime]> m) -> Q None w') ->
  wp (TrackIPAtEpoch r ip) Q w.
Proof.
  intros Hu Hm H. apply wp_bind, (wp_load r m); [done..|]. intros w1 H1.
  unfold set_entry. cbn [IPs contents_of]. unfold wp. rewrite bind_ret.
  apply (wp_save_times r _ (<[ip_String ip := zeroTime]> m)); [by eapply touches_usable| |].
  { cbn. by rewrite fmap_insert. }
  intros w2 H2 Hh. apply H.
  - eapply reg_writes_trans; [by apply reg_writes_id|done].
  - pose proof (trunc_insert_holds _ _ _ (ip_String ip) zeroTime Hm) as E.
    change (trunc_second zeroTime) with zeroTime in E. rewrite <- E. apply Hh, times_ok_insert; [apply rfc3339_ok_zero|]. by eapply holds_times.
Qed.

Lemma wp_ForgetIP r ip m (Q : option error -> World X -> Prop) w :
  dir_usable (registry_dir X r) w -> holds r w m ->
  (forall w', reg_writes r w w' -> holds r w' (delete (ip_String ip) m) -> Q None w') ->
  wp (ForgetIP r ip) Q w.
Proof.
  intros Hu Hm H. apply wp_bind, (wp_load r m); [done..|]. intros w1 H1.
  apply (wp_save_times r _ (delete (ip_String ip) m)); [by eapply touches_usable| |].
  { cbn. by rewrite fmap_delete. }
  intros w2 H2 Hh. apply H.
  - eapply reg_writes_trans; [by apply reg_writes_id|done].
  - rewrite <- (holds_trunc _ _ _ Hm), <- fmap_delete. apply Hh, times_ok_delete. by eapply holds_times.
Qed.

Lemma wp_HasIP r ip m (Q : result bool -> World X -> Prop) w :
  dir_usable (registry_dir X r) w -> holds r w m ->
  (forall w', reg_writes r w w' -> holds r w' m -> Q (Ok (bool_decide (is_Some (m !! ip_String ip)))) w') ->
  wp (HasIP r ip) Q w.
Proof.
  intros Hu Hm H. apply wp_bind, (wp_load r m); [done..|]. intros w1 H1. apply wp_ret.
  cbn [IPs contents_of default from_option]. unfold id.
  rewrite (bool_decide_ext _ (is_Some (m !! ip_String ip))) by (by rewrite lookup_fmap, fmap_is_Some).
  apply H; [by apply reg_writes_id|by eapply holds_touches].
Qed.

(** The addresses of [m] last released before [t]. *)
Definition released_before (t : Time) (m : gmap string Time) : list IP :=
  omap (fun e => if Before e.2 t then ParseIP e.1 else None) (map_to_list m).

Lemma wp_TrackedBefore r t m (Q : result (list IP) -> World X -> Prop) w :
  dir_usable (registry_dir X r) w -> holds r w m ->
  (forall w' l, reg_writes r w w' -> holds r w' m -> l ≡ₚ released_before t m -> Q (Ok l) w') ->
  wp (TrackedBefore r t) Q w.
Proof.
  intros Hu Hm H. apply wp_bind, (wp_load r m); [done..|]. intros w1 H1.
  cbn [IPs contents_of default from_option]. unfold id.
  apply wp_bind, wp_ext. intros entries x c E Hc.
  set (f := fun t0 => Some (mkRegistryIP t0)) in *.
  pose proof (range_map_perm _ (f <$> m) (w_ext w1)) as Hp. rewrite E in Hp. cbn in Hp.
  assert (exists l, l ≡ₚ map_to_list m /\ entries = prod_map id f <$> l) as (l & Hl & ->).
  { rewrite map_to_list_fmap in Hp. apply Permutation_map_inv in Hp as (l & -> & Hl). by exists l. }
  apply wp_bind.
  apply (wp_range_fold _ _ _ (fun don returned w' => w' = set_ext x (set_clock c w1) /\
    exists d, don = prod_map id f <$> d /\
    returned = omap (fun e => if Before e.2 t then ParseIP e.1 else None) d)).
  { split; [done|]. by exists []. }
  - intros don [k e] rest s w2 Hsplit [-> (d & -> & ->)].
    assert (exists t0, e = f t0) as [t0 ->].
    { assert ((k, e) ∈ prod_map id f <$> l) as Hin by (rewrite Hsplit; set_solver).
      apply list_elem_of_fmap in Hin as ([k' t0] & [= _ ->] & _). by exists t0. }
    cbn [snd fst deref f]. unfold wp. rewrite bind_ret. do 2 eexists. split; [done|]. split; [done|].
    exists (d ++ [(k, t0)]). split; [by rewrite fmap_app|]. rewrite omap_app. cbn [ReleasedOn]. cbn [omap list_omap fst snd].
    destruct (Before t0 t); [destruct (ParseIP k)|]; by rewrite ?app_nil_r.
  - intros s w2 [-> (d & Hd & ->)]. apply wp_ret.
    assert (d = l) as ->.
    { assert (Inj (=) (=) f) by (by intros a b [= ->]).
      symmetry. exact (inj (fmap (M := list) (prod_map id f)) _ _ Hd). }
    apply H.
    + apply reg_writes_id. eapply touches_quiet; [exact H1|]. by apply quiet_ext.
    + eapply holds_touches; [|exact Hm]. eapply touches_quiet; [exact H1|]. by apply quiet_ext.
    + unfold released_before. by rewrite Hl.
Qed.
End operations.

(** ** The registry refines a finite map *)
Inductive reg_op :=
  | OTrack (ip : IP) | OTrackAtEpoch (ip : IP) | OForget (ip : IP)
  | OHas (ip : IP) | OTrackedBefore (t : Time).
Inductive reg_out := RErr (e : option error) | RHas (r : result bool) | RList (r : result (list IP)).

(** The specification: what an operation may do to the map [m] and answer,
    when it runs between the instants [lo] and [hi]. *)
Inductive reg_step (zone lo hi : Z) (m : gmap string Time) : reg_op -> reg_out -> gmap string Time -> Prop :=
  | step_track ip t : lo <= t <= hi ->
      reg_step zone lo hi m (OTrack ip) (RErr None) (<[ip_String ip := trunc_second (mkTime t zone)]> m)
  | step_epoch ip :
      reg_step zone lo hi m (OTrackAtEpoch ip) (RErr None) (<[ip_String ip := zeroTime]> m)
  | step_forget ip : reg_step zone lo hi m (OForget ip) (RErr None) (delete (ip_String ip) m)
  | step_has ip : reg_step zone lo hi m (OHas ip) (RHas (Ok (bool_decide (is_Some (m !! ip_String ip))))) m
  | step_before t l : l ≡ₚ released_before t m ->
      reg_step zone lo hi m (OTrackedBefore t) (RList (Ok l)) m.

Inductive reg_run (zone : Z) : Z -> Z -> gmap string Time -> list reg_op -> list reg_out -> gmap string Time -> Prop :=
  | run_nil lo hi m : lo <= hi -> reg_run zone lo hi m [] [] m
  | run_cons lo mid hi m m' m'' op ops o os :
      reg_step zone lo mid m op o m' -> lo <= mid -> reg_run zone mid hi m' ops os m'' ->
      reg_run zone lo hi m (op :: ops) (o :: os) m''.

Section refinement.
Context {X : Type} `{!Host X} `{!ReliableOS X}.

Definition run_op (r : Registry) (op : reg_op) : M X reg_out :=
  match op with
  | OTrack ip => e ← TrackIP r ip; mret (RErr e)
  | OTrackAtEpoch ip => e ← TrackIPAtEpoch r ip; mret (RErr e)
  | OForget ip => e ← ForgetIP r ip; mret (RErr e)
  | OHas ip => b ← HasIP r ip; mret (RHas b)
  | OTrackedBefore t => l ← TrackedBefore r t; mret (RList l)
  end.
Fixpoint run_ops (r : Registry) (ops : list reg_op) : M X (list reg_out) :=
  match ops with
  | [] => mret []
  | op :: ops => o ← run_op r op; os ← run_ops r ops; mret (o :: os)
  end.

Lemma frame_run_op R `{!PreOrder R} `{!ExtClosed R} r op :
  (forall w c, R w (set_files (insert (registry_file X r) c) w)) ->
  (forall w, R w (set_dirs (union {[registry_dir X r]}) w)) ->
  frame R (run_op r op).
Proof. intros Hf Hd. destruct op; cbn [run_op]; solve_frame. Qed.

Lemma wpu_run_op r op m w :
  dir_usable (registry_dir X r) w -> holds r w m -> 0 <= w_clock w ->
  wp_until (run_op r op) (fun o w' => reg_writes r w w' /\
    exists m', reg_step local_zone (w_clock w) (w_clock w') m op o m' /\ holds r w' m') w.
Proof.
  intros Hu Hm H0. apply wpu_intro. destruct op; apply wp_bind.
  - apply (wp_TrackIP r ip m); [done..|]. intros w' t Ht Hw Hh. apply wp_ret. intros Hc.
    split; [done|]. eexists. split; [by econstructor|]. apply Hh, clock_rfc3339. lia.
  - apply (wp_TrackIPAtEpoch r ip m); [done..|]. intros w' Hw Hh. apply wp_ret.
    intros _. split; [done|]. eexists. split; [constructor|done].
  - apply (wp_ForgetIP r ip m); [done..|]. intros w' Hw Hh. apply wp_ret.
    intros _. split; [done|]. eexists. split; [constructor|done].
  - apply (wp_HasIP r ip m); [done..|]. intros w' Hw Hh. apply wp_ret.
    intros _. split; [done|]. eexists. split; [constructor|done].
  - apply (wp_TrackedBefore r t m); [done..|]. intros w' l Hw Hh Hl. apply wp_ret.
    intros _. split; [done|]. eexists. split; [by constructor|done].
Qed.

Lemma frame_run_ops r ops : frame clock_le (run_ops r ops).
Proof.
  pose proof (fun op => frame_run_op clock_le r op).
  induction ops as [|op ops IH]; cbn [run_ops]; solve_frame.
Qed.

Lemma wpu_run_ops r ops m w :
  dir_usable (registry_dir X r) w -> holds r w m -> 0 <= w_clock w ->
  wp_until (run_ops r ops) (fun os w' => dir_usable (registry_dir X r) w' /\
    exists m', reg_run local_zone (w_clock w) (w_clock w') m ops os m' /\ holds r w' m') w.
Proof.
  revert m w. induction ops as [|op ops IH]; intros m w Hu Hm H0; cbn [run_ops].
  { apply wpu_ret. split; [done|]. exists m. split; [by constructor|done]. }
  apply wpu_bind; [pose proof (frame_run_ops r ops); intros ?; solve_frame|].
  eapply wpu_mono; [by apply wpu_run_op|]. intros o w1 _ (Hw1 & m1 & Hs & Hm1).
  pose proof (rw_clock _ _ _ Hw1). apply wpu_bind; [intros ?; solve_frame|].
  eapply wpu_mono; [apply (IH m1); [by eapply reg_writes_usable|done|lia]|].
  intros os w2 _ (Hw2 & m2 & Hr & Hm2). apply wpu_ret. split; [done|].
  exists m2. split; [|done]. by econstructor.
Qed.
End refinement.

(** ** A registry that is not there, or is not readable *)
Section missing.
Context {X : Type} `{!Host X}.
Implicit Types w : World X.

(** The registry that records the addresses of a scan at the epoch. *)
Definition epoch_registry (free : list AllocationResult) : gmap string Time :=
  foldl (fun m a => <[ip_String (ar_IP a) := zeroTime]> m) ∅ free.

Lemma epoch_registry_zero free k t : epoch_registry free !! k = Some t -> t = zeroTime.
Proof.
  unfold epoch_registry. assert (map_Forall (fun _ t => t = zeroTime) (∅ : gmap string Time)) as H by done.
  revert H. generalize (∅ : gmap string Time). induction free as [|a free IH]; intros m H; cbn; [apply H|].
  apply IH. by apply map_Forall_insert_2.
Qed.
Lemma epoch_registry_ok free : times_ok (epoch_registry free).
Proof. intros k t ->%epoch_registry_zero. apply rfc3339_ok_zero. Qed.
Lemma epoch_registry_trunc free : trunc_second <$> epoch_registry free = epoch_registry free.
Proof.
  apply map_eq. intros k. rewrite lookup_fmap. destruct (epoch_registry free !! k) eqn:E; [|done].
  by apply epoch_registry_zero in E as ->.
Qed.
Lemma epoch_registry_has free k :
  is_Some (epoch_registry free !! k) <-> exists a, a ∈ free /\ ip_String (ar_IP a) = k.
Proof.
  unfold epoch_registry. trans (is_Some ((∅ : gmap string Time) !! k) \/ exists a, a ∈ free /\ ip_String (ar_IP a) = k).
  2: { rewrite lookup_empty, is_Some_alt. naive_solver. }
  generalize (∅ : gmap string Time). induction free as [|a free IH]; intros m; cbn.
  - set_solver.
  - rewrite IH. destruct (decide (ip_String (ar_IP a) = k)) as [<-|Hne].
    + rewrite lookup_insert_eq. set_solver.
    + rewrite lookup_insert_ne by done. set_solver.
Qed.

(** The contents [load] fills before it saves them. *)
Lemma fill_epoch free m w :
  range_fold free (contents_of m) (fun a c => set_entry (ip_String (ar_IP a)) (mkRegistryIP zeroTime) c) w
  = (Done (contents_of (foldl (fun m a => <[ip_String (ar_IP a) := zeroTime]> m) m free)), w).
Proof.
  revert m. induction free as [|a free IH]; intros m; [done|]. cbn [range_fold foldl].
  rewrite <- IH. unfold contents_of at 2. rewrite fmap_insert. done.
Qed.

Context `{!ReliableOS X}.

Lemma wp_load_missing r (Q : result registryContents -> World X -> Prop) w :
  dir_usable (registry_dir X r) w -> w_files w !! registry_file X r = None ->
  (forall w1, touches id (union {[registry_dir X r]}) w w1 ->
     wp prefill_scan (fun free w2 => w_dirs w2 = w_dirs w1 /\
       match free.2 with
       | None => forall w3, reg_writes r w2 w3 -> holds r w3 (epoch_registry free.1) ->
                   Q (Ok (contents_of (epoch_registry free.1))) w3
       | Some _ => free.1 = [] /\ Q (Ok defaultRegistry) w2
       end) w1) ->
  wp (load r) Q w.
Proof.
  intros Hu Hf H. apply wp_bind, wp_ensurePath; [done|]. intros w1 H1.
  apply wp_bind, wp_Open. intros w2 H2. rewrite (t_files _ _ _ _ H1). cbn [id]. rewrite Hf.
  assert (touches id (union {[registry_dir X r]}) w w2) as H12 by by eapply touches_quiet.
  cbn [os_IsNotExist ENOENT]. rewrite bool_decide_true by done.
  apply wp_bind. eapply wp_mono; [by apply H|]. intros [free e] w3 [Hd HQ]. cbn [fst snd] in *.
  destruct e as [e|]; [destruct HQ as [-> HQ]|].
  - rewrite bool_decide_false by done. cbn. by apply wp_ret.
  - rewrite bool_decide_true by done. cbn [orb]. apply wp_bind.
    change defaultRegistry with (contents_of ∅). unfold wp at 1. rewrite fill_epoch.
    do 2 eexists. split; [done|]. apply wp_bind.
    apply (wp_save_times r _ (epoch_registry free)); [|done|].
    { left. rewrite Hd, (t_dirs _ _ _ _ H12). set_solver. }
    intros w4 H4 Hh. apply wp_ret, HQ; [done|]. rewrite <- epoch_registry_trunc.
    apply Hh, epoch_registry_ok.
Qed.

(** What [load] makes of the contents of a file. *)
Definition decoded (c : fcontent) : option registryContents :=
  match c with FJson j => dec_contents j defaultRegistry | FInvalid => None end.
(** A registry file [load] gives up on. *)
Definition unreadable (c : fcontent) : Prop :=
  match decoded c with
  | None => True
  | Some c => SchemaVersion c <> registrySchemaVersion \/ IPs c = None
  end.

Lemma wp_load_unreadable r c (Q : result registryContents -> World X -> Prop) w :
  dir_usable (registry_dir X r) w -> w_files w !! registry_file X r = Some c -> unreadable c ->
  (forall w', touches id (union {[registry_dir X r]}) w w' -> Q (Ok (contents_of ∅)) w') ->
  wp (load r) Q w.
Proof.
  intros Hu Hf Hc H. apply wp_bind, wp_ensurePath; [done|]. intros w1 H1.
  apply wp_bind, wp_Open. intros w2 H2. rewrite (t_files _ _ _ _ H1). cbn [id]. rewrite Hf.
  apply wp_bind, wp_Decode. intros w3 H3. apply wp_ret.
  assert (touches id (union {[registry_dir X r]}) w w3) as H13
    by (eapply touches_quiet; [|exact H3]; by eapply touches_quiet).
  specialize (H w3 H13). unfold unreadable, decoded in Hc. destruct c as [j|]; [|done].
  destruct (dec_contents j defaultRegistry) as [[v ips]|]; [|done]. cbn [SchemaVersion IPs] in *.
  destruct (Z.eqb_spec v registrySchemaVersion) as [->|Hv]; [|done]. cbn [negb IPs].
  by destruct Hc as [?| ->].
Qed.
End missing.

(** ** What the scan finds *)
Section scan.
Context {X : Type} `{!Host X}.
Implicit Types w : World X.

(** The addresses of the interfaces numbered [index] or more. *)
Definition scanned (interfaces : list Interface) (index : Z) : list (Interface * IP) :=
  concat ((fun i => if i_Number i <? index then [] else pair i <$> i_IPv4s i) <$> interfaces).
(** Those of [l] that are not in use. *)
Definition free_of (assigned : list BoundIP) (l : list (Interface * IP)) : list AllocationResult :=
  (fun e => mkAllocationResult e.2 e.1) <$> filter (fun e => in_use assigned e.2 = false) l.

Lemma elem_of_scanned interfaces index i ip :
  (i, ip) ∈ scanned interfaces index <-> i ∈ interfaces /\ index <= i_Number i /\ ip ∈ i_IPv4s i.
Proof.
  unfold scanned. rewrite list_elem_of_In, in_concat. split.
  - intros (l & Hl & Hin). apply list_elem_of_In, list_elem_of_fmap in Hl as (j & -> & Hj).
    destruct (Z.ltb_spec (i_Number j) index); [done|].
    apply list_elem_of_In, list_elem_of_fmap in Hin as (ip' & [= <- <-] & Hip). done.
  - intros (Hi & Hn & Hip). exists (pair i <$> i_IPv4s i). rewrite <- !list_elem_of_In. split.
    + apply list_elem_of_fmap. exists i. split; [|done]. destruct (Z.ltb_spec (i_Number i) index); [lia|done].
    + apply list_elem_of_fmap. by exists ip.
Qed.
Lemma elem_of_free_of assigned l a :
  a ∈ free_of assigned l <-> (ar_Interface a, ar_IP a) ∈ l /\ in_use assigned (ar_IP a) = false.
Proof.
  unfold free_of. rewrite list_elem_of_fmap. setoid_rewrite list_elem_of_filter. split.
  - intros ([i ip] & -> & Hu & Hin). done.
  - intros [Hin Hu]. exists (ar_Interface a, ar_IP a). by destruct a.
Qed.
Lemma free_of_snoc assigned l e :
  free_of assigned (l ++ [e])
  = free_of assigned l ++ (if in_use assigned e.2 then [] else [mkAllocationResult e.2 e.1]).
Proof.
  unfold free_of. rewrite filter_app, fmap_app. f_equal.
  destruct (in_use assigned e.2) eqn:E.
  - by rewrite filter_cons_False by congruence.
  - by rewrite filter_cons_True.
Qed.

(** The scan is one loop over the addresses. *)
Lemma FindFreeIPs_flat h t f index upd w ifs w1 assigned w2 :
  GetInterfaces w = (Done (Ok ifs), w1) -> GetIPs w1 = (Done (Ok assigned), w2) ->
  FindFreeIPs_with h t f index upd w
  = (r ← range_loop (scanned ifs index) [] (fun e => scan_ip h t f assigned upd e.1 e.2);
     mret (match r with inl freeIps => (freeIps, None) | inr e => e end)) w2.
Proof.
  intros E1 E2. unfold FindFreeIPs_with. rewrite (bind_done _ _ _ _ _ E1), (bind_done _ _ _ _ _ E2), !bind_eq.
  unfold scanned. rewrite (range_loop_concat _ (fun i => if i_Number i <? index then [] else pair i <$> i_IPv4s i)
    _ _ (fun e => scan_ip h t f assigned upd e.1 e.2)); [done|].
  intros i s w3. destruct (i_Number i <? index); [done|]. by rewrite range_loop_fmap.
Qed.

Lemma scan_loop_plain h t f assigned l acc w :
  range_loop l acc (fun e => scan_ip (X := X) h t f assigned false e.1 e.2) w
  = (Done (inl (acc ++ free_of assigned l)), w).
Proof.
  revert acc. induction l as [|e l IH]; intros acc; cbn [range_loop].
  - by rewrite app_nil_r.
  - rewrite bind_eq. unfold scan_ip at 1. cbv zeta beta iota. unfold mret at 1, M_ret at 1. rewrite IH.
    do 3 f_equal.
    change (e :: l) with ([e] ++ l). unfold free_of. rewrite filter_app, fmap_app, app_assoc. f_equal.
    destruct (in_use assigned e.2) eqn:E.
    + by rewrite filter_cons_False, app_nil_r by congruence.
    + by rewrite filter_cons_True.
Qed.
End scan.

(** ** How a scan with updates brings the registry up to date *)
Section sync.
Context {X : Type} `{!Host X}.
Implicit Types w : World X.
Local Abbreviation zone := (local_zone (X := X)).

(** What happens to the entry of one address: forgotten when the address is
    in use, otherwise kept if there, and recorded as free now if not. *)
Definition sync_key (used : bool) (lo hi : Z) (before after : option Time) : Prop :=
  if used then after = None
  else match before with
       | Some t => after = Some t
       | None => exists t, lo <= t <= hi /\ after = Some (trunc_second (mkTime t zone))
       end.
Definition entry_key (e : Interface * IP) : string := ip_String e.2.
(** The registry [m'] is [m] after a scan of the addresses [l]. *)
Definition synced (assigned : list BoundIP) (lo hi : Z) (m : gmap string Time)
    (l : list (Interface * IP)) (m' : gmap string Time) : Prop :=
  (forall e, e ∈ l -> sync_key (in_use assigned e.2) lo hi (m !! entry_key e) (m' !! entry_key e)) /\
  (forall k, k ∉ entry_key <$> l -> m' !! k = m !! k).

(** Addresses with the same text are in use together. *)
Definition consistent (assigned : list BoundIP) (l : list (Interface * IP)) : Prop :=
  forall e e', e ∈ l -> e' ∈ l -> entry_key e = entry_key e' -> in_use assigned e.2 = in_use assigned e'.2.

Lemma sync_key_trans used lo mid hi a b c :
  lo <= mid <= hi -> sync_key used lo mid a b -> sync_key used mid hi b c -> sync_key used lo hi a c.
Proof.
  unfold sync_key. intros Hl. destruct used; [done|]. destruct a as [t|].
  - by intros ->.
  - intros (t & Ht & ->) ->. exists t. split; [lia|done].
Qed.
Lemma sync_key_mono used lo hi hi' a b : hi <= hi' -> sync_key used lo hi a b -> sync_key used lo hi' a b.
Proof.
  unfold sync_key. intros Hl. destruct used; [done|]. destruct a; [done|].
  intros (t & Ht & ->). exists t. split; [lia|done].
Qed.
Lemma sync_key_from used lo mid hi a b : lo <= mid -> sync_key used mid hi a b -> sync_key used lo hi a b.
Proof.
  unfold sync_key. intros Hl. destruct used; [done|]. destruct a; [done|].
  intros (t & Ht & ->). exists t. split; [lia|done].
Qed.

Lemma synced_snoc assigned lo mid hi m l m' e m'' :
  lo <= mid <= hi -> consistent assigned (l ++ [e]) ->
  synced assigned lo mid m l m' ->
  sync_key (in_use assigned e.2) mid hi (m' !! entry_key e) (m'' !! entry_key e) ->
  (forall k, k <> entry_key e -> m'' !! k = m' !! k) ->
  synced assigned lo hi m (l ++ [e]) m''.
Proof.
  intros Hl Hc [H1 H2] Hk Hne. split.
  - intros e' He'. destruct (decide (entry_key e' = entry_key e)) as [E|E].
    + rewrite (Hc e' e He') by (done || set_solver). rewrite E.
      destruct (decide (entry_key e ∈ entry_key <$> l)) as [Hin|Hin].
      * apply list_elem_of_fmap in Hin as (d & Ed & Hd). eapply sync_key_trans; [done| |done].
        rewrite Ed, <- (Hc d e) by (done || set_solver). by apply H1.
      * rewrite <- (H2 _ Hin). eapply sync_key_from; [|done]. lia.
    + apply elem_of_app in He' as [He'|He']; [|set_solver].
      rewrite Hne by done. eapply sync_key_mono; [|by apply H1]. lia.
  - intros k Hk'. rewrite fmap_app, not_elem_of_app in Hk'. rewrite Hne by set_solver. apply H2, Hk'.
Qed.

Lemma synced_nil assigned lo hi m : synced assigned lo hi m [] m.
Proof. split; [set_solver|done]. Qed.

Lemma consistent_app assigned l1 l2 : consistent assigned (l1 ++ l2) -> consistent assigned l1.
Proof. intros H e e' He He'. apply H; set_solver. Qed.

(** Among IPv4 addresses, the text decides. *)
Lemma consistent_v4 assigned l : Forall (fun e => is_ipv4 e.2) l -> consistent assigned l.
Proof.
  intros Hl e e' He He' Ek. rewrite Forall_forall in Hl.
  destruct (Hl _ He) as (q & Hq & Lq & Bq). destruct (Hl _ He') as (q' & Hq' & Lq' & Bq').
  assert (q = q') as <-.
  { pose proof (ParseIP_String_v4 _ _ Hq Bq) as P. pose proof (ParseIP_String_v4 _ _ Hq' Bq') as P'.
    unfold entry_key in Ek. rewrite Ek, P' in P. injection P as P. done. }
  unfold in_use. induction assigned as [|x al IH]; [done|]. cbn. rewrite IH. f_equal. by eapply ip_Equal_To4.
Qed.

Context `{!ReliableOS X}.
Local Abbreviation reg := newRegistry.

Lemma wpu_scan_ip assigned e lo m don m' acc w :
  dir_usable (registry_dir X reg) w -> holds reg w m' -> 0 <= lo <= w_clock w ->
  consistent assigned (don ++ [e]) -> synced assigned lo (w_clock w) m don m' ->
  wp_until (scan_ip (HasIP reg) (TrackIP reg) (ForgetIP reg) assigned true e.1 e.2 acc)
    (fun r w' => reg_writes reg w w' /\
       r = inl (acc ++ (if in_use assigned e.2 then [] else [mkAllocationResult e.2 e.1])) /\
       exists m'', holds reg w' m'' /\ synced assigned lo (w_clock w') m (don ++ [e]) m'') w.
Proof.
  intros Hu Hm Hlo Hc Hs. apply wpu_intro. unfold scan_ip. cbv zeta.
  apply wp_bind, (wp_HasIP reg e.2 m'); [done..|]. intros w1 Hw1 Hm1.
  pose proof (rw_clock _ _ _ Hw1) as Hc1.
  destruct (in_use assigned e.2) eqn:Eu.
  - assert (wp (err ← ForgetIP reg e.2;
                mret (match err with Some err => inr (acc, Some err) | None => inl acc end))
      (fun r w' => w_clock w' <= max_clock -> reg_writes reg w w' /\ r = inl (acc ++ []) /\
       exists m'', holds reg w' m'' /\ synced assigned lo (w_clock w') m (don ++ [e]) m'') w1) as H.
    { apply wp_bind, (wp_ForgetIP reg e.2 m'); [by eapply reg_writes_usable|done|].
      intros w2 Hw2 Hm2. apply wp_ret. intros _. split; [by eapply reg_writes_trans|].
      pose proof (rw_clock _ _ _ Hw2). rewrite app_nil_r. split; [done|]. eexists. split; [done|].
      apply (synced_snoc _ _ (w_clock w) _ _ _ m'); [lia|done..| |].
      - rewrite Eu. cbn. unfold entry_key. apply lookup_delete_eq.
      - intros k Hk. by rewrite lookup_delete_ne. }
    by destruct (bool_decide _).
  - case_bool_decide as Hk.
    + apply wp_ret. intros _. split; [done|]. split; [done|]. exists m'. split; [done|].
      apply (synced_snoc _ _ (w_clock w) _ _ _ m'); [lia|done..| |done].
      rewrite Eu. cbn. unfold entry_key. by destruct Hk as [t ->].
    + apply wp_bind, (wp_TrackIP reg e.2 m'); [by eapply reg_writes_usable|done|].
      intros w2 t Ht Hw2 Hm2. apply wp_ret. intros Hmax. split; [by eapply reg_writes_trans|].
      split; [done|]. eexists. split; [apply Hm2, clock_rfc3339; lia|].
      apply (synced_snoc _ _ (w_clock w) _ _ _ m'); [lia|done..| |].
      * rewrite Eu. cbn. unfold entry_key. rewrite (proj2 (eq_None_not_Some _) Hk).
        exists t. split; [lia|]. apply lookup_insert_eq.
      * intros k Hne. by rewrite lookup_insert_ne.
Qed.
End sync.

(** The scan with updates, from the registry's point of view. *)
Lemma FindFree_synced {X} `{!Host X} `{!ReliableOS X} index m (w : World X) ifs w1 assigned w2 :
  dir_usable (registry_dir X newRegistry) w -> holds newRegistry w m -> 0 <= w_clock w ->
  w_clock (FindFreeIPsAtIndex index true w).2 <= max_clock ->
  GetInterfaces w = (Done (Ok ifs), w1) -> GetIPs w1 = (Done (Ok assigned), w2) ->
  (forall i ip, i ∈ ifs -> ip ∈ i_IPv4s i -> is_ipv4 ip) ->
  exists w' m', FindFreeIPsAtIndex index true w = (Done (free_of assigned (scanned ifs index), None), w') /\
    dir_usable (registry_dir X newRegistry) w' /\ holds newRegistry w' m' /\
    synced (X := X) assigned (w_clock w) (w_clock w') m (scanned ifs index) m'.
Proof.
  intros Hu Hm H0 Hmax E1 E2 Hv4.
  pose proof (frame_done quiet _ _ _ _ (frame_GetInterfaces quiet) E1) as Q1.
  pose proof (frame_done quiet _ _ _ _ (frame_GetIPs quiet) E2) as Q2.
  assert (quiet w w2) as Q by (by etrans).
  assert (consistent assigned (scanned ifs index)) as Hc.
  { apply consistent_v4, Forall_forall. intros [i ip] (Hi & _ & Hip)%elem_of_scanned. by eapply Hv4. }
  unfold FindFreeIPsAtIndex in *. rewrite (FindFreeIPs_flat _ _ _ _ _ _ _ _ _ _ E1 E2) in *.
  set (l := scanned ifs index) in *.
  assert (wp_until (r ← range_loop l [] (fun e => scan_ip (HasIP newRegistry) (TrackIP newRegistry)
      (ForgetIP newRegistry) assigned true e.1 e.2);
      mret (match r with inl freeIps => (freeIps, None) | inr e => e end))
    (fun r w' => r = (free_of assigned l, None) /\ dir_usable (registry_dir X newRegistry) w' /\ exists m', holds newRegistry w' m' /\
       synced (X := X) assigned (w_clock w) (w_clock w') m l m') w2) as Hwp.
  { apply wpu_bind; [intros ?; solve_frame|].
    apply (wpu_range_loop _ _ _ (fun don acc w' => acc = free_of assigned don /\
      dir_usable (registry_dir X newRegistry) w' /\ w_clock w <= w_clock w' /\ exists m', holds newRegistry w' m' /\
      synced (X := X) assigned (w_clock w) (w_clock w') m don m')).
    - intros e s. unfold scan_ip. solve_frame.
    - split; [done|]. split; [|split; [by apply t_clock in Q|]].
      + unfold dir_usable. by rewrite (quiet_files _ _ Q), (quiet_dirs _ _ Q).
      + exists m. split; [by eapply holds_touches|apply synced_nil].
    - intros don e rest s w3 Hl (-> & Hu3 & Hc3 & m3 & Hm3 & Hs3).
      assert (consistent assigned (don ++ [e])) as Hc'.
      { apply (consistent_app _ _ rest). rewrite <- app_assoc. cbn [app]. by rewrite <- Hl. }
      eapply wpu_mono; [apply (wpu_scan_ip assigned e (w_clock w) m don m3); [done|done|lia|done|done]|].
      intros r w4 _ (Hw4 & -> & m4 & Hm4 & Hs4). pose proof (rw_clock _ _ _ Hw4).
      split; [by rewrite free_of_snoc|]. split; [by eapply reg_writes_usable|]. split; [lia|]. by exists m4.
    - intros s w3 (-> & Hu3 & _ & H). apply wpu_ret. done. }
  destruct (Hwp Hmax) as (r & w' & E & -> & Hu' & m' & H). by exists w', m'.
Qed.

(** ** Properties *)

(** C1: on an operating system whose file operations succeed, any sequence of
    registry operations run on a registry file that holds the map [m] returns,
    answers as the abstract registry does, and leaves a file that holds the
    abstract result: [TrackIP] records the second of the current time,
    [TrackIPAtEpoch] the zero time, [ForgetIP] removes the entry, [HasIP]
    tells whether there is one, and [TrackedBefore] lists exactly the
    addresses recorded before its argument. *)
Theorem registry_refines {X} `{!Host X} `{!ReliableOS X} r ops m (w : World X) :
  dir_usable (registry_dir X r) w -> holds r w m -> 0 <= w_clock w ->
  w_clock (run_ops r ops w).2 <= max_clock ->
  exists os w' m', run_ops r ops w = (Done os, w') /\
    reg_run (local_zone (X := X)) (w_clock w) (w_clock w') m ops os m' /\ holds r w' m'.
Proof.
  intros Hu Hm H0 Hmax. destruct (wpu_run_ops r ops m w Hu Hm H0 Hmax) as (os & w' & E & _ & m' & H).
  by exists os, w', m'.
Qed.

(** C21: loading a registry that does not exist creates it: it holds exactly
    the addresses the scan of the host reports free, all at the epoch; and
    when the scan fails the registry is empty and no file is made. *)
Theorem load_missing_prefills {X} `{!Host X} `{!ReliableOS X} r (w : World X) :
  dir_usable (registry_dir X r) w -> w_files w !! registry_file X r = None ->
  exists w1 free err w2 w3, w_files w1 = w_files w /\
    FindFreeIPsAtIndex 0 false w1 = (Done (free, err), w2) /\
    match err with
    | None => exists m, load r w = (Done (Ok (contents_of m)), w3) /\ holds r w3 m /\
        forall k t, m !! k = Some t <-> t = zeroTime /\ exists a, a ∈ free /\ ip_String (ar_IP a) = k
    | Some _ => load r w = (Done (Ok (contents_of ∅)), w3) /\ w_files w3 = w_files w
    end.
Proof.
  intros Hu Hf.
  assert (wp (load r) (fun c w3 => exists w1 free err w2, w_files w1 = w_files w /\
    FindFreeIPsAtIndex 0 false w1 = (Done (free, err), w2) /\
    match err with
    | None => c = Ok (contents_of (epoch_registry free)) /\ holds r w3 (epoch_registry free)
    | Some _ => c = Ok (contents_of ∅) /\ w_files w3 = w_files w
    end) w) as (c & w3 & E & w1 & free & err & w2 & Hw1 & E1 & H).
  { apply wp_load_missing; [done..|]. intros w1 Hw1. assert (w_files w1 = w_files w) as Hw1f by apply (t_files _ _ _ _ Hw1).
    eapply wp_mono; [apply total_wp, total_prefill_scan|]. intros [free err] w2 E. cbn [fst snd].
    pose proof (frame_prefill_scan same_disk w1) as [Ff Fd]. rewrite E in Ff, Fd. cbn in Ff, Fd.
    pose proof E as E'. rewrite prefill_scan_eq in E'. split; [done|]. destruct err as [e|].
    - split; [by eapply scan_error_empty|]. exists w1, free, (Some e), w2. split_and!; [done..|congruence].
    - intros w3 Hw3 Hh. by exists w1, free, None, w2. }
  exists w1, free, err, w2, w3. split; [done|]. split; [done|].
  destruct err; [by destruct H as [-> ?]|]. destruct H as [-> ?]. eexists. split_and!; [done..|].
  intros k t. rewrite <- epoch_registry_has. split.
  - intros Hk. split; [by eapply epoch_registry_zero|by eexists].
  - intros [-> [u Hu']]. by rewrite (epoch_registry_zero _ _ _ Hu') in Hu'.
Qed.

(** C22: a registry file that cannot be decoded, has another schema version or
    no address map is taken for an empty registry: after [TrackIP] the file
    holds the new address and nothing else. *)
Theorem unreadable_registry_resets {X} `{!Host X} `{!ReliableOS X} r ip c (w : World X) :
  dir_usable (registry_dir X r) w -> w_files w !! registry_file X r = Some c -> unreadable c ->
  0 <= w_clock w -> w_clock (TrackIP r ip w).2 <= max_clock ->
  exists t w', TrackIP r ip w = (Done None, w') /\ w_clock w <= t <= w_clock w' /\
    holds r w' {[ip_String ip := trunc_second (mkTime t (local_zone (X := X)))]}.
Proof.
  intros Hu Hf Hc H0 Hmax.
  assert (wp_until (TrackIP r ip) (fun e w' => e = None /\ exists t, w_clock w <= t <= w_clock w' /\
    holds r w' {[ip_String ip := trunc_second (mkTime t (local_zone (X := X)))]}) w) as Hwp.
  { apply wpu_intro, wp_bind, (wp_load_unreadable r c); [done..|]. intros w1 H1. pose proof (t_clock _ _ _ _ H1).
    unfold wp. rewrite bind_now. unfold set_entry. cbn [IPs contents_of]. rewrite bind_ret.
    apply (wp_save_times r _ {[ip_String ip := mkTime (w_clock w1) local_zone]}); [by eapply touches_usable| |].
    { cbn. by rewrite fmap_empty, map_fmap_singleton. }
    intros w2 H2 Hh Hm. pose proof (rw_clock _ _ _ H2). split; [done|]. exists (w_clock w1). split; [lia|].
    rewrite <- (map_fmap_singleton trunc_second). apply Hh, map_Forall_singleton, clock_rfc3339. lia. }
  destruct (Hwp Hmax) as (e & w' & E & -> & t & ? & ?). by exists t, w'.
Qed.

(** C16: without updates, [FindFreeIPsAtIndex] returns exactly the addresses of
    the interfaces numbered [index] or more that no bound address equals, in
    the order of the interfaces and their address lists, and touches no file. *)
Theorem FindFreeIPs_exact {X} `{!Host X} index (w : World X) ifs w1 assigned w2 :
  GetInterfaces w = (Done (Ok ifs), w1) -> GetIPs w1 = (Done (Ok assigned), w2) ->
  exists free, FindFreeIPsAtIndex index false w = (Done (free, None), w2) /\
    w_files w2 = w_files w /\ w_dirs w2 = w_dirs w /\
    (fun a => (ar_Interface a, ar_IP a)) <$> free
    = filter (fun e => in_use assigned e.2 = false) (scanned ifs index) /\
    forall a, a ∈ free <-> ar_Interface a ∈ ifs /\ index <= i_Number (ar_Interface a) /\
      ar_IP a ∈ i_IPv4s (ar_Interface a) /\
      (forall b, b ∈ assigned -> ip_Equal (net_IP (bi_IPNet b)) (ar_IP a) = false).
Proof.
  intros E1 E2. exists (free_of assigned (scanned ifs index)).
  unfold FindFreeIPsAtIndex. rewrite (FindFreeIPs_flat _ _ _ _ _ _ _ _ _ _ E1 E2).
  rewrite (bind_done _ _ _ _ _ (scan_loop_plain _ _ _ _ _ _ _)). split; [done|].
  pose proof (frame_done same_disk _ _ _ _ (frame_GetInterfaces same_disk) E1) as [F1 D1].
  pose proof (frame_done same_disk _ _ _ _ (frame_GetIPs same_disk) E2) as [F2 D2].
  split_and!; [congruence..| |].
  - unfold free_of. rewrite <- list_fmap_compose. rewrite <- (list_fmap_id (filter _ _)) at 2.
    apply list_fmap_ext. by intros _ [i ip] _.
  - intros a. rewrite elem_of_free_of, elem_of_scanned. unfold in_use.
    rewrite <- not_true_iff_false, existsb_exists. setoid_rewrite <- list_elem_of_In.
    setoid_rewrite <- not_true_iff_false. naive_solver.
Qed.

(** C8: with updates, on a host whose file operations succeed, the scan finds
    the same addresses, and leaves in the registry: no entry for a scanned
    address in use; the entry a scanned free address had, or the current
    second when it had none; every other entry as it was. *)
Theorem FindFreeIPs_syncs {X} `{!Host X} `{!ReliableOS X} index m (w : World X) ifs w1 assigned w2 :
  dir_usable (registry_dir X newRegistry) w -> holds newRegistry w m -> 0 <= w_clock w ->
  w_clock (FindFreeIPsAtIndex index true w).2 <= max_clock ->
  GetInterfaces w = (Done (Ok ifs), w1) -> GetIPs w1 = (Done (Ok assigned), w2) ->
  (forall i ip, i ∈ ifs -> ip ∈ i_IPv4s i -> is_ipv4 ip) ->
  exists w' m', FindFreeIPsAtIndex index true w = (Done (free_of assigned (scanned ifs index), None), w') /\
    holds newRegistry w' m' /\ synced (X := X) assigned (w_clock w) (w_clock w') m (scanned ifs index) m'.
Proof.
  intros Hu Hm H0 Hmax E1 E2 Hv4.
  destruct (FindFree_synced index m w ifs w1 assigned w2) as (w' & m' & E & _ & H); [done..|]. by exists w', m'.
Qed.

(** The duration [Jitter] returns is the one given, moved forward by less
    than the jitter bound (when the sum fits 64 bits); it panics exactly when
    the bound is not positive, as for a zero duration. *)
Theorem Jitter_forward {X} `{!Host X} d pct (w : World X) :
  let bound := int64_of_float (float64_mul (float64_of_Z d) pct) in
  0 <= d -> d + bound <= int64_max ->
  (0 < bound -> exists r w', Jitter d pct w = (Done r, w') /\ d <= r < d + bound) /\
  (bound <= 0 -> exists s w', Jitter d pct w = (Panicked s, w')).
Proof.
  intros bound Hd Hmax. unfold Jitter. fold bound. split; intros Hb.
  - destruct (Z.leb_spec bound 0); [lia|]. unfold ext. rewrite bind_eq. do 2 eexists. split; [done|].
    pose proof (rand_intn_range bound (w_ext w) Hb). rewrite wrap64_id by (unfold int64_min; lia). lia.
  - destruct (Z.leb_spec bound 0); [|lia]. by do 2 eexists.
Qed.

(** ** The theorems at concrete inputs *)
#[local] Existing Instance good_host.

Definition demo_registry : gmap string Time := {["10.0.16.21"%string := mkTime (demo_clock - Hour) 0]}.
Definition with_registry (c : fcontent) : World Sim :=
  mkWorld {[registry_file Sim newRegistry := c]} {[registry_dir Sim newRegistry]} demo_clock
    new_awsclient [] demo_sim.
Definition demo_reg_world : World Sim := with_registry (FJson (enc_contents (contents_of demo_registry))).

Lemma demo_holds : holds newRegistry demo_reg_world demo_registry.
Proof.
  exists demo_registry. split; [|split].
  - apply map_Forall_singleton, rfc3339_ok_clock; [vm_compute; split; [discriminate|reflexivity]|done].
  - unfold demo_registry. by rewrite map_fmap_singleton.
  - unfold demo_reg_world, with_registry. cbn [w_files]. by rewrite lookup_singleton_eq.
Qed.
Lemma demo_usable c : dir_usable (registry_dir Sim newRegistry) (with_registry c).
Proof. left. cbn. set_solver. Qed.

Definition demo_ops : list reg_op :=
  [OHas (ip4 10 0 16 21); OTrack (ip4 10 0 16 20); OForget (ip4 10 0 16 21); OTrackedBefore (mkTime (demo_clock + Hour) 0)].

Lemma registry_refines_witness :
  exists os w' m', run_ops newRegistry demo_ops demo_reg_world = (Done os, w') /\
    reg_run 0 demo_clock (w_clock w') demo_registry demo_ops os m' /\ holds newRegistry w' m'.
Proof.
  apply (@registry_refines Sim good_host _ newRegistry demo_ops demo_registry demo_reg_world);
    [apply demo_usable|apply demo_holds|vm_compute; discriminate|vm_compute; discriminate].
Defined.

Lemma load_missing_prefills_witness :
  exists w1 free err w2 w3, w_files w1 = w_files demo_world /\
    FindFreeIPsAtIndex 0 false w1 = (Done (free, err), w2) /\
    match err with
    | None => exists m, load newRegistry demo_world = (Done (Ok (contents_of m)), w3) /\ holds newRegistry w3 m /\
        forall k t, m !! k = Some t <-> t = zeroTime /\ exists a, a ∈ free /\ ip_String (ar_IP a) = k
    | Some _ => load newRegistry demo_world = (Done (Ok (contents_of ∅)), w3) /\ w_files w3 = w_files demo_world
    end.
Proof. apply (@load_missing_prefills Sim good_host _ newRegistry demo_world); [by right|done]. Defined.

Lemma unreadable_registry_resets_witness :
  exists t w', TrackIP newRegistry (ip4 10 0 16 20) (with_registry FInvalid) = (Done None, w') /\
    demo_clock <= t <= w_clock w' /\
    holds newRegistry w' {[ip_String (ip4 10 0 16 20) := trunc_second (mkTime t 0)]}.
Proof.
  apply (@unreadable_registry_resets Sim good_host _ newRegistry (ip4 10 0 16 20) FInvalid (with_registry FInvalid));
    [apply demo_usable|apply lookup_singleton_eq|done|vm_compute; discriminate|vm_compute; discriminate].
Defined.

Definition result_of {X A} (p : outcome (result (list A)) * World X) : list A :=
  match p.1 with Done (Ok l) => l | _ => [] end.

(** The view of the demonstration host: its interfaces and bound addresses. *)
Definition demo_ifs : list Interface := Eval vm_compute in result_of (GetInterfaces demo_reg_world).
Definition demo_w1 : World Sim := Eval vm_compute in (GetInterfaces demo_reg_world).2.
Definition demo_assigned : list BoundIP := Eval vm_compute in result_of (GetIPs demo_w1).
Definition demo_w2 : World Sim := Eval vm_compute in (GetIPs demo_w1).2.
Lemma demo_GetInterfaces : GetInterfaces demo_reg_world = (Done (Ok demo_ifs), demo_w1).
Proof. vm_cast_no_check (eq_refl (Done (Ok demo_ifs), demo_w1)). Qed.
Lemma demo_GetIPs : GetIPs demo_w1 = (Done (Ok demo_assigned), demo_w2).
Proof. vm_cast_no_check (eq_refl (Done (Ok demo_assigned), demo_w2)). Qed.
Lemma demo_ifs_v4 i ip : i ∈ demo_ifs -> ip ∈ i_IPv4s i -> is_ipv4 ip.
Proof.
  assert (Forall (fun i => Forall is_ipv4 (i_IPv4s i)) demo_ifs) as H.
  { repeat constructor; eexists; (split; [vm_compute; reflexivity|]); split; try reflexivity;
      repeat constructor; discriminate. }
  intros Hi Hip. rewrite Forall_forall in H. specialize (H i Hi). rewrite Forall_forall in H. by apply H.
Qed.

Lemma FindFreeIPs_exact_witness :
  exists free, FindFreeIPsAtIndex 1 false demo_reg_world = (Done (free, None), demo_w2) /\
    w_files demo_w2 = w_files demo_reg_world /\ w_dirs demo_w2 = w_dirs demo_reg_world /\
    (fun a => (ar_Interface a, ar_IP a)) <$> free
    = filter (fun e => in_use demo_assigned e.2 = false) (scanned demo_ifs 1) /\
    forall a, a ∈ free <-> ar_Interface a ∈ demo_ifs /\ 1 <= i_Number (ar_Interface a) /\
      ar_IP a ∈ i_IPv4s (ar_Interface a) /\
      (forall b, b ∈ demo_assigned -> ip_Equal (net_IP (bi_IPNet b)) (ar_IP a) = false).
Proof.
  exact (@FindFreeIPs_exact Sim good_host 1 demo_reg_world demo_ifs demo_w1 demo_assigned demo_w2
    demo_GetInterfaces demo_GetIPs).
Defined.

Lemma FindFreeIPs_syncs_witness :
  exists w' m', FindFreeIPsAtIndex 0 true demo_reg_world
    = (Done (free_of demo_assigned (scanned demo_ifs 0), None), w') /\ holds newRegistry w' m' /\
    synced (X := Sim) demo_assigned (w_clock demo_reg_world) (w_clock w') demo_registry (scanned demo_ifs 0) m'.
Proof.
  apply (@FindFreeIPs_syncs Sim good_host _ 0 demo_registry demo_reg_world demo_ifs demo_w1 demo_assigned demo_w2
    (demo_usable _) demo_holds);
    [vm_compute; discriminate|vm_compute; discriminate|exact demo_GetInterfaces|exact demo_GetIPs|exact demo_ifs_v4].
Defined.
Example demo_free : (fun a => (ar_IP a)) <$> free_of demo_assigned (scanned demo_ifs 0) = [IPv4 [10; 0; 16; 21]].
Proof. vm_compute. reflexivity. Qed.

Lemma Jitter_forward_witness :
  exists r w', Jitter Hour (float64_lit 15 100) demo_world = (Done r, w') /\ Hour <= r < Hour + 540 * Second.
Proof.
  apply (@Jitter_forward Sim good_host Hour (float64_lit 15 100) demo_world); vm_compute; congruence.
Defined.
