(* ===== verification/Vpc.v ===== *)
(** * Vpc: aws/vpc.go

    The CIDR blocks of a VPC and of its peers, cached for an hour.  A network
    read back from the cache carries its address in 16-byte form, so cached
    lists are equal up to [ipnet_equiv]. *)

From S2P Require Export Subnets.

(** The 16-byte form [ParseIP] gives an address when it is read back. *)
Definition to16 (ip : IP) : IP :=
  match To4 ip with Some q => IPv4 q | None => ip end.
Definition normalize_net (n : IPNet) : IPNet := mkIPNet (to16 (net_IP n)) (net_Mask n).

(** The same network, whichever form its address has. *)
Definition ipnet_equiv (n m : IPNet) : Prop :=
  To4 (net_IP n) = To4 (net_IP m) /\ net_Mask n = net_Mask m /\
  (To4 (net_IP n) = None -> net_IP n = net_IP m).
#[export] Instance ipnet_equiv_equivalence : Equivalence ipnet_equiv.
Proof.
  split; unfold ipnet_equiv; [naive_solver| |].
  { intros a b (H1 & H2 & H3). split_and!; [done..|]. intros H. symmetry. apply H3. congruence. }
  intros a b c (H1 & H2 & H3) (H4 & H5 & H6). split_and!; try congruence.
  intros H. rewrite H3 by done. apply H6. congruence.
Qed.

(** Networks the JSON form is faithful to: an IPv4 address and mask. *)
Definition net_ok (n : IPNet) : Prop :=
  is_ipv4 (net_IP n) /\ length (net_Mask n) = 4%nat /\ Forall is_byte (net_Mask n).

Lemma normalize_net_equiv n : net_ok n -> ipnet_equiv (normalize_net n) n.
Proof.
  intros ((q & H4 & Hl & Hq) & _). unfold normalize_net, to16, ipnet_equiv. rewrite H4. cbn [net_IP net_Mask].
  rewrite To4_IPv4 by done. by rewrite ?H4.
Qed.

(** Equivalent networks print alike: the de-duplication and the sorting of
    routes, which go by text, do not see the difference. *)
#[export] Instance ipnet_String_proper : Proper (ipnet_equiv ==> eq) ipnet_String.
Proof.
  intros n m (H1 & H2 & H3). unfold ipnet_String. rewrite H1, H2.
  destruct (To4 (net_IP m)) eqn:E; [done|]. by rewrite H3.
Qed.

Definition enc_net (n : IPNet) : json :=
  JObj [("IP"%string, JStr (if bool_decide (net_IP n = []) then EmptyString else ip_String (net_IP n)));
        ("Mask"%string, enc_bytes (net_Mask n))].
(** [IP.UnmarshalText]: the empty text is the nil address. *)
Definition dec_ip : decoder IP := fun j cur =>
  match j with
  | JNull => Some cur
  | JStr s => if bool_decide (s = EmptyString) then Some [] else ParseIP s
  | _ => None
  end.
Definition zeroNet : IPNet := mkIPNet [] [].
Definition dec_net : decoder IPNet := dec_struct [
  ("IP"%string, fun j n => v ← dec_ip j (net_IP n); Some (mkIPNet v (net_Mask n)));
  ("Mask"%string, fun j n => v ← dec_bytes j (net_Mask n); Some (mkIPNet (net_IP n) v))].

Lemma ip_String_ne ip : is_ipv4 ip -> ip_String ip <> EmptyString.
Proof.
  intros (q & H4 & Hl & Hq) E. pose proof (ParseIP_String_v4 ip q H4 Hq) as H. by rewrite E in H.
Qed.

Lemma dec_net_enc n : net_ok n -> dec_net (enc_net n) zeroNet = Some (normalize_net n).
Proof.
  intros (Hip & Hl & Hm). pose proof (ip_String_ne _ Hip) as Hne. destruct Hip as (q & H4 & _ & Hq).
  unfold dec_net, enc_net, dec_struct, normalize_net, to16. rewrite H4.
  assert (net_IP n <> []) as Hip by (intros E; by rewrite E in H4).
  rewrite bool_decide_false by done.
  dec_member. cbn [dec_ip]. rewrite bool_decide_false by done.
  rewrite (ParseIP_String_v4 _ q) by done. cbn [mbind option_bind net_IP net_Mask].
  dec_member. rewrite dec_bytes_enc; [done|]. exact Hm.
Qed.

#[export] Instance nets_codec : JsonCodec (list IPNet).
Proof.
  refine {| codec_enc := enc_list enc_net; codec_dec := dec_list dec_net zeroNet; codec_zero := [];
            codec_ok := Forall net_ok; codec_norm := fmap normalize_net |}.
  - intros l Hl _. apply dec_list_enc. eapply Forall_impl; [exact Hl|]. intros n. apply dec_net_enc.
  - by intros [|? ?].
Defined.

Section vpc.
Context {X : Type} `{!Host X}.

(** [vpcclient.DescribeVPCCIDRs] *)
Definition fetchVPCCIDRs (vpcID : string) : M X (result (list IPNet)) :=
  c ← newEC2;
  match c.2 with
  | Some err => mret (Err err)
  | None =>
      vpcs ←? ec2_call c.1 (fun region => ec2_DescribeVpcs region [vpcID]);
      r ← range_loop (concat vpcs) [] (fun cblock cidrs =>
        state ← deref (ca_State cblock);
        state ← deref state;
        if negb (bool_decide (state = "associated"%string)) then mret (inl cidrs)
        else
          block ← deref (ca_CidrBlock cblock);
          mret (match ParseCIDR block with
                | Err err => inr err
                | Ok (_, parsed) => inl (cidrs ++ [parsed])
                end));
      mret (match r with inl cidrs => Ok cidrs | inr err => Err err end)
  end.

(** The peer of [vpcID] in a peering connection, if [vpcID] is in it. *)
Definition peering_peer (vpcID : string) (peering : Peering) : M X (option (option VpcInfo)) :=
  accepter ← deref (pe_Accepter peering);
  accepterId ← deref (vi_VpcId accepter);
  if bool_decide (vpcID = accepterId) then mret (Some (pe_Requester peering))
  else
    requester ← deref (pe_Requester peering);
    requesterId ← deref (vi_VpcId requester);
    if bool_decide (vpcID = requesterId) then mret (Some (pe_Accepter peering))
    else mret None.

(** [vpcclient.DescribeVPCPeerCIDRs]: the blocks are collected in a map to
    drop duplicates, and come out in the order of its iteration. *)
Definition fetchVPCPeerCIDRs (vpcID : string) : M X (result (list IPNet)) :=
  c ← newEC2;
  match c.2 with
  | Some err => mret (Err err)
  | None =>
      peerings ←? ec2_call c.1 ec2_DescribeVpcPeeringConnections;
      cidrs ← range_fold peerings ∅ (fun peering cidrs =>
        peer ← peering_peer vpcID peering;
        match peer with
        | None => mret cidrs
        | Some peer =>
            peer ← deref peer;
            range_fold (vi_CidrBlockSet peer) cidrs (fun cidrBlock cidrs =>
              block ← deref cidrBlock;
              mret (if is_ok (ParseCIDR block) then <[block := true]> cidrs else cidrs))
        end);
      entries ← ext (range_map cidrs);
      mret (Ok (omap (fun e : string * bool =>
                  match ParseCIDR e.1 with Ok (_, cidr) => Some cidr | Err _ => None end) entries))
  end.

Definition vpc_cidr_key (vpcID : string) : string := ("vpc-cidr-" +:+ vpcID)%string.
Definition vpc_peers_key (vpcID : string) : string := ("vpc-peers-" +:+ vpcID)%string.

(** [vpcCacheClient.DescribeVPCCIDRs] and [DescribeVPCPeerCIDRs]; the
    client's expiration is one hour. *)
Definition DescribeVPCCIDRs (vpcID : string) : M X (result (list IPNet)) :=
  let key := vpc_cidr_key vpcID in
  c ← Get key [];
  match c.1 with
  | CacheFound => mret (Ok c.2)
  | _ => cidrs ←? fetchVPCCIDRs vpcID; _ ← Store key Hour cidrs; mret (Ok cidrs)
  end.

Definition DescribeVPCPeerCIDRs (vpcID : string) : M X (result (list IPNet)) :=
  let key := vpc_peers_key vpcID in
  c ← Get key [];
  match c.1 with
  | CacheFound => mret (Ok c.2)
  | _ => cidrs ←? fetchVPCPeerCIDRs vpcID; _ ← Store key Hour cidrs; mret (Ok cidrs)
  end.
End vpc.

Section vpc_terminates.
Context {X : Type} `{!Host X}.
Lemma terminates_DescribeVPCCIDRs v : terminates (DescribeVPCCIDRs v).
Proof. unfold DescribeVPCCIDRs, fetchVPCCIDRs. solve_terminates. Qed.
Lemma terminates_DescribeVPCPeerCIDRs v : terminates (DescribeVPCPeerCIDRs v).
Proof. unfold DescribeVPCPeerCIDRs, fetchVPCPeerCIDRs, peering_peer. solve_terminates. Qed.
End vpc_terminates.
#[export] Hint Resolve terminates_DescribeVPCCIDRs terminates_DescribeVPCPeerCIDRs : terminates.

Section vpc_frames.
Context {X : Type} `{!Host X} (R : relation (World X)) `{!PreOrder R} `{!ExtClosed R} `{!ClientClosed R}.
Context (Hd : forall w, R w (set_dirs (union {[cachePath X]}) w)).
Lemma frame_DescribeVPCCIDRs v :
  (forall w c, R w (set_files (insert (path_Join [cachePath X; vpc_cidr_key v]) c) w)) ->
  frame R (DescribeVPCCIDRs v).
Proof.
  intros Hf. unfold DescribeVPCCIDRs, fetchVPCCIDRs.
  pose proof (fun A `{!JsonCodec A} key (a : A) => frame_Get R key a Hd).
  pose proof (fun A `{!JsonCodec A} lt (a : A) => frame_Store R (vpc_cidr_key v) lt a Hd Hf).
  solve_frame.
Qed.
Lemma frame_DescribeVPCPeerCIDRs v :
  (forall w c, R w (set_files (insert (path_Join [cachePath X; vpc_peers_key v]) c) w)) ->
  frame R (DescribeVPCPeerCIDRs v).
Proof.
  intros Hf. unfold DescribeVPCPeerCIDRs, fetchVPCPeerCIDRs, peering_peer.
  pose proof (fun A `{!JsonCodec A} key (a : A) => frame_Get R key a Hd).
  pose proof (fun A `{!JsonCodec A} lt (a : A) => frame_Store R (vpc_peers_key v) lt a Hd Hf).
  solve_frame.
Qed.
End vpc_frames.

Section vpc_disk.
Context {X : Type} `{!Host X} (R : relation (World X)) `{!PreOrder R} `{!ExtClosed R} `{!ClientClosed R} `{!DiskClosed R}.
Lemma dframe_DescribeVPCCIDRs v : frame R (DescribeVPCCIDRs v).
Proof. apply frame_DescribeVPCCIDRs; [apply _..|intros w; apply dirs_closed|intros w c; apply files_closed]. Qed.
Lemma dframe_DescribeVPCPeerCIDRs v : frame R (DescribeVPCPeerCIDRs v).
Proof. apply frame_DescribeVPCPeerCIDRs; [apply _..|intros w; apply dirs_closed|intros w c; apply files_closed]. Qed.
End vpc_disk.
#[export] Hint Resolve dframe_DescribeVPCCIDRs dframe_DescribeVPCPeerCIDRs : frame.

(** ** Property *)
Section peers.
Context {X : Type} `{!Host X}.

(** [peer] is at the other end of a connection of [vpcID]. *)
Definition peer_in (vpcID : string) (peering : Peering) (peer : VpcInfo) : Prop :=
  exists accepter a, pe_Accepter peering = Some accepter /\ vi_VpcId accepter = Some a /\
    if bool_decide (vpcID = a) then pe_Requester peering = Some peer
    else peer = accepter /\ exists requester, pe_Requester peering = Some requester /\ vi_VpcId requester = Some vpcID.
(** A block of a peer of [vpcID] that names a network. *)
Definition peer_block (vpcID : string) (peerings : list Peering) (block : string) : Prop :=
  is_ok (ParseCIDR block) = true /\
  exists peering peer, peering ∈ peerings /\ peer_in vpcID peering peer /\ Some block ∈ vi_CidrBlockSet peer.

Lemma peering_peer_in vpcID peering (w : World X) r w' peer :
  peering_peer vpcID peering w = (Done r, w') -> (r = Some (Some peer) <-> peer_in vpcID peering peer).
Proof.
  intros E. apply bind_done_inv in E as (acc & w1 & [Ea _]%deref_done & E).
  apply bind_done_inv in E as (a & w2 & [Eid _]%deref_done & E). unfold peer_in.
  case_bool_decide as Hv.
  - injection E as <- <-. split; [intros [= ->]; exists acc, a; by rewrite bool_decide_true by done|].
    intros (acc' & a' & H1 & H2 & H3). simplify_eq. rewrite bool_decide_true in H3 by done. by rewrite H3.
  - apply bind_done_inv in E as (req & w3 & [Er _]%deref_done & E).
    apply bind_done_inv in E as (rid & w4 & [Erid _]%deref_done & E).
    case_bool_decide as Hr; injection E as <- <-; (split;
      [intros [= ?]|intros (acc' & a' & H1 & H2 & H3); simplify_eq; rewrite bool_decide_false in H3 by done;
        destruct H3 as (-> & req' & ? & ?); simplify_eq]).
    + exists acc, a. rewrite bool_decide_false by done. split_and!; [done..|congruence|by exists req; subst].
    + by rewrite Ea.
Qed.

Definition keys_are (P : string -> Prop) (cidrs : gmap string bool) : Prop := forall b, is_Some (cidrs !! b) <-> P b.

Lemma peer_blocks_collected blocks (cidrs : gmap string bool) P :
  keys_are P cidrs ->
  ensures (X := X) (range_fold blocks cidrs (fun cidrBlock cidrs =>
    block ← deref cidrBlock;
    mret (if is_ok (ParseCIDR block) then <[block := true]> cidrs else cidrs)))
  (keys_are (fun b => P b \/ (is_ok (ParseCIDR b) = true /\ Some b ∈ blocks))).
Proof.
  intros H0. apply (ensures_fold blocks _ cidrs (fun don => keys_are (fun b => P b \/ (is_ok (ParseCIDR b) = true /\ Some b ∈ don)))).
  - intros b. rewrite (H0 b). set_solver.
  - intros don a rest m _ Hm w m' w' E. apply bind_done_inv in E as (block & w1 & [-> _]%deref_done & E).
    injection E as <- <-. intros b. setoid_rewrite elem_of_app. setoid_rewrite list_elem_of_singleton. specialize (Hm b).
    destruct (is_ok (ParseCIDR block)) eqn:Eb; [|rewrite Hm; split; [naive_solver|intros [?|[? [?|[= ->]]]]; [naive_solver..|congruence]]].
    destruct (decide (b = block)) as [->|Hne].
    + rewrite lookup_insert_eq. naive_solver.
    + rewrite lookup_insert_ne by done. naive_solver.
Qed.
End peers.

(** C15: the networks of the peers of a VPC are those of the blocks that some peering
    connection with the VPC lists for the other end and that name a network, each
    block once however many connections list it, in no particular order. *)
Theorem fetchVPCPeerCIDRs_exact {X} `{!Host X} vpcID (w : World X) cidrs w' :
  fetchVPCPeerCIDRs vpcID w = (Done (Ok cidrs), w') ->
  exists client w1 peerings w2 blocks,
    newEC2 w = (Done (client, None), w1) /\ ec2_call client ec2_DescribeVpcPeeringConnections w1 = (Done (Ok peerings), w2) /\
    NoDup blocks /\ (forall b, b ∈ blocks <-> peer_block vpcID peerings b) /\
    Forall2 (fun b n => exists ip, ParseCIDR b = Ok (ip, n)) blocks cidrs.
Proof.
  intros E. apply bind_done_inv in E as ([client [e|]] & w1 & E1 & E); [done|]. cbn [fst snd] in E.
  apply bind_done_inv in E as ([peerings|e] & w2 & E2 & E); [|done].
  apply bind_done_inv in E as (m & w3 & E3 & E). apply bind_done_inv in E as (entries & w4 & E4 & E). injection E as <- <-.
  assert (keys_are (peer_block vpcID peerings) m) as Hm.
  { refine (ensures_fold peerings _ ∅ (fun don => keys_are (peer_block vpcID don)) _ _ w2 m w3 E3).
    - intros b. rewrite lookup_empty. unfold peer_block. split; [by intros [? ?]|]. intros (_ & p & ? & Hp & _). by apply elem_of_nil in Hp.
    - intros don p rest s _ Hs w5 s' w6 E. apply bind_done_inv in E as (r & w7 & Er & E).
      assert (forall b, peer_block vpcID (don ++ [p]) b <->
        peer_block vpcID don b \/ (is_ok (ParseCIDR b) = true /\ exists q, r = Some (Some q) /\ Some b ∈ vi_CidrBlockSet q)) as Hsnoc.
      { intros b. unfold peer_block. setoid_rewrite elem_of_app. setoid_rewrite list_elem_of_singleton.
        setoid_rewrite (peering_peer_in vpcID p _ _ _ _ Er). naive_solver. }
      destruct r as [peer|]; [|injection E as <- <-; intros b; rewrite (Hs b), Hsnoc; naive_solver].
      apply bind_done_inv in E as (q & w8 & [-> _]%deref_done & E).
      pose proof (peer_blocks_collected (vi_CidrBlockSet q) s _ Hs _ _ _ E) as H. intros b. rewrite (H b), Hsnoc. naive_solver. }
  assert (entries ≡ₚ map_to_list m) as Hp.
  { unfold ext in E4. injection E4 as <- _. apply range_map_perm. }
  exists client, w1, peerings, w2, (fst <$> entries). split_and!; [done..| | |].
  - rewrite Hp. apply NoDup_fst_map_to_list.
  - intros b. rewrite <- (Hm b), Hp, list_elem_of_fmap. split.
    + intros ([k v] & -> & Hin). apply elem_of_map_to_list in Hin. by exists v.
    + intros [v Hv]. exists (b, v). split; [done|]. by apply elem_of_map_to_list.
  - assert (Forall (fun e : string * bool => is_ok (ParseCIDR e.1) = true) entries) as Hall.
    { rewrite Hp. apply Forall_forall. intros [k v] Hin%elem_of_map_to_list. by apply (Hm k). }
    clear -Hall. induction Hall as [|[k v] l Hk _ IH]; [constructor|]. cbn in *.
    destruct (ParseCIDR k) as [[ip n]|] eqn:Ek; [|done]. cbn. constructor; [by exists ip|done].
Qed.

(** ** The theorem at a concrete input *)
#[local] Existing Instance good_host.

Definition demo_peerings : list Peering :=
  let info id blocks := Some (mkVpcInfo (Some id) (Some <$> blocks)) in
  [mkPeering (info "vpc-1" ["10.0.0.0/16"]) (info "vpc-2" ["10.1.0.0/16"; "10.2.0.0/16"]);
   mkPeering (info "vpc-3" ["10.1.0.0/16"; "10.3.0.0"]) (info "vpc-1" ["10.0.0.0/16"]);
   mkPeering (info "vpc-2" ["10.1.0.0/16"]) (info "vpc-3" ["10.4.0.0/16"])]%string.
Definition demo_peers_start : World Sim :=
  let s := demo_sim in
  set_ext (mkSim (sim_meta s) (sim_iddoc s) (sim_ifs s) (sim_links s) (sim_macs s) (sim_pool s) (sim_types s) (sim_subnets s)
    (sim_vpcs s) demo_peerings (sim_enis s) (sim_rules s) (sim_log s)) demo_world.
Definition demo_peers_world : World Sim := Eval vm_compute in (fetchVPCPeerCIDRs "vpc-1" demo_peers_start).2.
Definition demo_peers : list IPNet :=
  Eval vm_compute in match (@fetchVPCPeerCIDRs Sim good_host "vpc-1" demo_peers_start).1 with Done (Ok l) => l | _ => [] end.
Lemma demo_fetch_peers : fetchVPCPeerCIDRs "vpc-1" demo_peers_start = (Done (Ok demo_peers), demo_peers_world).
Proof. vm_cast_no_check (eq_refl (@Done (result (list IPNet)) (Ok demo_peers), demo_peers_world)). Qed.
Example demo_peers_once : ipnet_String <$> demo_peers ≡ₚ ["10.1.0.0/16"; "10.2.0.0/16"]%string.
Proof. apply (bool_decide_unpack _). vm_compute. exact I. Qed.
Lemma fetchVPCPeerCIDRs_exact_witness :
  exists client w1 peerings w2 blocks,
    newEC2 demo_peers_start = (Done (client, None), w1) /\
    ec2_call (X := Sim) client ec2_DescribeVpcPeeringConnections w1 = (Done (Ok peerings), w2) /\
    NoDup blocks /\ (forall b, b ∈ blocks <-> peer_block "vpc-1" peerings b) /\
    Forall2 (fun b n => exists ip, ParseCIDR b = Ok (ip, n)) blocks demo_peers.
Proof. exact (@fetchVPCPeerCIDRs_exact Sim good_host "vpc-1" demo_peers_start demo_peers demo_peers_world demo_fetch_peers). Defined.
