(* ===== verification/Allocate.v ===== *)
(** * Allocate: aws/allocate.go

    Asking EC2 for more addresses on an interface, waiting for them to appear
    in the metadata and recording them in the registry; choosing the interface
    to ask for; and giving an address back. *)

From S2P Require Export Registry Subnets.

Section allocate.
Context {X : Type} `{!Host X}.

(** The number of addresses [AllocateIPsOn] requests, for an interface that
    has [have] of at most [limit]. *)
Definition request_count (limit have batchSize : Z) : Z :=
  let available := wrap64 (limit - have) in
  if (batchSize =? 0) || (available <? batchSize) then available else batchSize.

(** Whether [ip] is one of the addresses in [olds]. *)
Definition was_there (olds : list IP) (ip : IP) : bool := existsb (fun oldip => ip_Equal ip oldip) olds.

(** The body of the loop over the addresses of the interface read back. *)
Definition accept_ip (intf newIntf : Interface) (newip : IP) (allocationResults : list AllocationResult)
    : M X (list AllocationResult + list AllocationResult * option error) :=
  if was_there (i_IPv4s intf) newip then mret (inl allocationResults)
  else
    exists_ ← HasIP newRegistry newip;
    match exists_ with
    | Ok false =>
        let allocationResults := allocationResults ++ [mkAllocationResult newip newIntf] in
        err ← TrackIP newRegistry newip;
        mret (match err with
              | Some err => inr (allocationResults, Some (Errorf "failed to track ip: %s" [AErr (Some err)]))
              | None => inl allocationResults
              end)
    | _ => mret (inl allocationResults)
    end.

(** The polling loop: [attempts] reads of the metadata, a second apart. *)
Fixpoint await_ips (intf : Interface) (attempts : nat) (allocationResults : list AllocationResult)
    : M X (list AllocationResult * option error) :=
  match attempts with
  | O => mret ([], Some (Errorf "Can't locate new IP address from AWS" []))
  | S attempts =>
      newIntf ← getInterface (i_Mac intf);
      match newIntf.2 with
      | Some _ => _ ← time_Sleep Second; await_ips intf attempts allocationResults
      | None =>
          let newIntf := newIntf.1 in
          if bool_decide (length (i_IPv4s newIntf) <> length (i_IPv4s intf)) then
            r ← range_loop (i_IPv4s newIntf) allocationResults (accept_ip intf newIntf);
            match r with
            | inr e => mret e
            | inl allocationResults =>
                if (0 <? length allocationResults)%nat then mret (allocationResults, None)
                else _ ← time_Sleep Second; await_ips intf attempts allocationResults
            end
          else _ ← time_Sleep Second; await_ips intf attempts allocationResults
      end
  end.

(** A failure to record an address comes with the addresses found so far. *)
Definition AllocateIPsOn (intf : Interface) (batchSize : Z) : M X (list AllocationResult * option error) :=
  client ← newEC2;
  match client.2 with
  | Some err => mret ([], Some err)
  | None =>
      limits ← ENILimits;
      let batchSize := request_count (l_IPv4 limits.1) (Z.of_nat (length (i_IPv4s intf))) batchSize in
      err ← ec2_call client.1 (fun region => ec2_AssignPrivateIpAddresses region (i_ID intf) batchSize);
      match err with
      | Some err => mret ([], Some err)
      | None => await_ips intf 10 []
      end
  end.

(** The candidates: interfaces numbered [index] or more with room. *)
Definition candidates_of (index limit : Z) (interfaces : list Interface) : list Interface :=
  List.filter (fun intf => negb (i_Number intf <? index) && (Z.of_nat (length (i_IPv4s intf)) <? limit)) interfaces.

(** The two nested loops over subnets and candidates, up to their [return]. *)
Fixpoint pick_interface (subnets : list Subnet) (candidates : list Interface) : option Interface :=
  match subnets with
  | [] => None
  | subnet :: rest =>
      if s_AvailableAddressCount subnet <=? 0 then pick_interface rest candidates
      else match List.find (fun intf => bool_decide (i_SubnetID intf = s_ID subnet)) candidates with
           | Some intf => Some intf
           | None => pick_interface rest candidates
           end
  end.

Definition AllocateIPsFirstAvailableAtIndex (index batchSize : Z) : M X (list AllocationResult * option error) :=
  interfaces ← GetInterfaces;
  match interfaces with
  | Err err => mret ([], Some err)
  | Ok interfaces =>
      limits ← ENILimits;
      let candidates := candidates_of index (l_IPv4 limits.1) interfaces in
      subnets ← GetSubnetsForInstance;
      match subnets with
      | Err err => mret ([], Some err)
      | Ok subnets =>
          match pick_interface (sort_slice SubnetsByAvailableAddressCount_Less subnets) candidates with
          | Some intf => AllocateIPsOn intf batchSize
          | None => mret ([], Some (Errorf "Unable to allocate - no IPs available on any interfaces" []))
          end
      end
  end.

Definition AllocateIPsFirstAvailable (batchSize : Z) : M X (list AllocationResult * option error) :=
  AllocateIPsFirstAvailableAtIndex 0 batchSize.

(** The first interface that has the address. *)
Definition owner (ip : IP) (interfaces : list Interface) : option Interface :=
  List.find (fun intf => existsb (fun i => ip_Equal ip i) (i_IPv4s intf)) interfaces.

Definition DeallocateIP (ipToRelease : IP) : M X (option error) :=
  client ← newEC2;
  match client.2 with
  | Some err => mret (Some err)
  | None =>
      interfaces ←! GetInterfaces;
      match owner ipToRelease interfaces with
      | Some intf =>
          ec2_call client.1 (fun region =>
            ec2_UnassignPrivateIpAddresses region (i_ID intf) [ip_String ipToRelease])
      | None => mret (Some (Errorf "IP not found - can't release" []))
      end
  end.
End allocate.

(** ** Termination *)
Section allocate_terminates.
Context {X : Type} `{!Host X}.
Lemma terminates_await_ips intf n acc : terminates (X := X) (await_ips intf n acc).
Proof.
  revert acc. induction n as [|n IH]; intros acc; cbn [await_ips]; [by apply terminates_ret|].
  unfold accept_ip. solve_terminates.
Qed.
Lemma terminates_AllocateIPsOn intf b : terminates (X := X) (AllocateIPsOn intf b).
Proof. pose proof terminates_await_ips. unfold AllocateIPsOn. solve_terminates. Qed.
Lemma terminates_AllocateIPsFirstAvailableAtIndex i b : terminates (X := X) (AllocateIPsFirstAvailableAtIndex i b).
Proof. pose proof terminates_AllocateIPsOn. unfold AllocateIPsFirstAvailableAtIndex. solve_terminates. Qed.
Lemma terminates_DeallocateIP ip : terminates (X := X) (DeallocateIP ip).
Proof. unfold DeallocateIP. solve_terminates. Qed.
End allocate_terminates.
#[export] Hint Resolve terminates_AllocateIPsOn terminates_AllocateIPsFirstAvailableAtIndex terminates_DeallocateIP : terminates.

(** ** What allocation leaves alone, the disk aside *)
Section allocate_frames.
Context {X : Type} `{!Host X} (R : relation (World X)) `{!PreOrder R} `{!ExtClosed R} `{!ClientClosed R} `{!DiskClosed R}.
Lemma dframe_await_ips intf n acc : frame R (await_ips intf n acc).
Proof.
  revert acc. induction n as [|n IH]; intros acc; cbn [await_ips]; [solve_frame|]. unfold accept_ip. solve_frame.
Qed.
Lemma dframe_AllocateIPsOn intf b : frame R (AllocateIPsOn intf b).
Proof. pose proof dframe_await_ips. unfold AllocateIPsOn. solve_frame. Qed.
Lemma dframe_AllocateIPsFirstAvailableAtIndex i b : frame R (AllocateIPsFirstAvailableAtIndex i b).
Proof. pose proof dframe_AllocateIPsOn. unfold AllocateIPsFirstAvailableAtIndex. solve_frame. Qed.
End allocate_frames.
#[export] Hint Resolve dframe_AllocateIPsOn dframe_AllocateIPsFirstAvailableAtIndex : frame.
Lemma frame_DeallocateIP {X} `{!Host X} (R : relation (World X)) `{!PreOrder R} `{!ExtClosed R} `{!ClientClosed R} ip :
  frame R (DeallocateIP ip).
Proof. unfold DeallocateIP. solve_frame. Qed.
#[export] Hint Resolve frame_DeallocateIP : frame.

(** ** What is returned is new *)
Section fresh.
Context {X : Type} `{!Host X}.
Implicit Types w : World X.

Lemma was_there_spec olds ip : was_there olds ip = false <-> forall o, o ∈ olds -> ip_Equal ip o = false.
Proof.
  unfold was_there. rewrite <- not_true_iff_false, existsb_exists. setoid_rewrite <- list_elem_of_In.
  setoid_rewrite <- not_true_iff_false. naive_solver.
Qed.

(** A result [AllocateIPsOn] may return for [intf]. *)
Definition new_on (intf : Interface) (a : AllocationResult) : Prop :=
  i_Mac (ar_Interface a) = i_Mac intf /\ ar_IP a ∈ i_IPv4s (ar_Interface a) /\
  forall o, o ∈ i_IPv4s intf -> ip_Equal (ar_IP a) o = false.

Lemma accept_ips_new intf newIntf acc :
  i_Mac newIntf = i_Mac intf -> Forall (new_on intf) acc ->
  ensures (X := X) (range_loop (i_IPv4s newIntf) acc (accept_ip intf newIntf))
    (fun r => match r with inl acc' => Forall (new_on intf) acc' | inr e => Forall (new_on intf) e.1 /\ e.2 <> None end).
Proof.
  intros Hmac Hacc. apply (ensures_range_loop _ _ _ (Forall (new_on intf))); [done|].
  intros ip s Hip Hs. unfold accept_ip. destruct (was_there _ _) eqn:Ew; [by apply ensures_ret|].
  apply ensures_bind_any. intros [[]|e]; try by apply ensures_ret.
  assert (Forall (new_on intf) (s ++ [mkAllocationResult ip newIntf])) as H.
  { apply Forall_app. split; [done|]. apply Forall_singleton. split_and!; [done..|]. by apply was_there_spec. }
  cbv zeta. apply ensures_bind_any. intros [err|]; by apply ensures_ret.
Qed.

Lemma await_ips_new intf n acc :
  Forall (new_on intf) acc ->
  ensures (X := X) (await_ips intf n acc) (fun r => Forall (new_on intf) r.1 /\ (r.2 = None -> r.1 <> [])).
Proof.
  revert acc. induction n as [|n IH]; intros acc Hacc; cbn [await_ips]; [by apply ensures_ret|].
  eapply ensures_bind; [apply getInterface_Mac|]. intros [newIntf [e|]] Hmac; cbn [fst snd] in *.
  - apply ensures_bind_any. intros _. by apply IH.
  - case_bool_decide; [|apply ensures_bind_any; intros _; by apply IH].
    eapply ensures_bind; [by apply accept_ips_new|]. intros [acc'|e] H'.
    + destruct (Nat.ltb_spec 0 (length acc')) as [Hl|Hl].
      * apply ensures_ret. split; [done|]. cbn [fst snd]. intros _ ->. cbn in Hl. lia.
      * apply ensures_bind_any. intros _. by apply IH.
    + apply ensures_ret. by destruct H'.
Qed.
End fresh.

(** ** The registry and the addresses allocated *)
Section recorded.
Context {X : Type} `{!Host X} `{!ReliableOS X}.
Implicit Types w : World X.
Local Abbreviation reg := newRegistry.
Local Abbreviation zone := (local_zone (X := X)).

Definition alloc_key (a : AllocationResult) : string := ip_String (ar_IP a).

(** [m'] is [m] with the addresses of [rs], all new to it, recorded between
    [lo] and [hi]. *)
Record recorded (lo hi : Z) (m : gmap string Time) (rs : list AllocationResult) (m' : gmap string Time) : Prop := {
  rec_nodup : NoDup (alloc_key <$> rs);
  rec_new k : k ∈ alloc_key <$> rs -> m !! k = None /\
    exists t, lo <= t <= hi /\ m' !! k = Some (trunc_second (mkTime t zone));
  rec_old k : k ∉ alloc_key <$> rs -> m' !! k = m !! k }.

Lemma recorded_nil lo hi m : recorded lo hi m [] m.
Proof. split; [constructor|by intros k ?%elem_of_nil|done]. Qed.
Lemma recorded_mono lo hi hi' m rs m' : hi <= hi' -> recorded lo hi m rs m' -> recorded lo hi' m rs m'.
Proof.
  intros Hh [H1 H2 H3]. split; [done| |done]. intros k Hk. destruct (H2 k Hk) as (? & t & ? & ?).
  split; [done|]. exists t. split; [lia|done].
Qed.
Lemma recorded_snoc lo hi m rs m' a t :
  recorded lo hi m rs m' -> lo <= t <= hi -> m' !! alloc_key a = None ->
  recorded lo hi m (rs ++ [a]) (<[alloc_key a := trunc_second (mkTime t zone)]> m').
Proof.
  intros [H1 H2 H3] Ht Hn.
  assert (alloc_key a ∉ alloc_key <$> rs) as Hni.
  { intros Hin. destruct (H2 _ Hin) as (_ & u & _ & Hu). congruence. }
  split.
  - rewrite fmap_app, NoDup_app. split_and!; [done| |apply NoDup_singleton].
    intros k Hk ->%list_elem_of_singleton. done.
  - intros k. rewrite fmap_app, elem_of_app. intros [Hk|Hk].
    + destruct (H2 k Hk) as (? & u & ? & ?). split; [done|]. exists u. split; [done|].
      by rewrite lookup_insert_ne by (intros <-; done).
    + apply list_elem_of_singleton in Hk as ->. split; [by rewrite <- (H3 _ Hni)|].
      exists t. split; [done|]. apply lookup_insert_eq.
  - intros k. rewrite fmap_app, not_elem_of_app. intros [Hk Hk'].
    rewrite lookup_insert_ne by set_solver. by apply H3.
Qed.

Definition alloc_inv lo m rs w : Prop :=
  dir_usable (registry_dir X reg) w /\ lo <= w_clock w /\
  exists m', holds reg w m' /\ recorded lo (w_clock w) m rs m'.

Lemma alloc_inv_quiet lo m rs w w' : alloc_inv lo m rs w -> quiet w w' -> alloc_inv lo m rs w'.
Proof.
  intros (Hu & Hl & m' & Hm & Hr) Hq. pose proof (t_clock _ _ _ _ Hq). split_and!.
  - unfold dir_usable. by rewrite (quiet_files _ _ Hq), (quiet_dirs _ _ Hq).
  - lia.
  - exists m'. split; [by eapply holds_touches|]. by eapply recorded_mono.
Qed.

Lemma wpu_accept_ip intf newIntf ip rs lo m w :
  0 <= lo -> alloc_inv lo m rs w ->
  wp_until (accept_ip intf newIntf ip rs)
    (fun r w' => exists rs', r = inl rs' /\ alloc_inv lo m rs' w') w.
Proof.
  intros H0 (Hu & Hl & m' & Hm & Hr). unfold accept_ip. destruct (was_there _ _).
  { apply wpu_ret. exists rs. split; [done|]. split_and!; [done..|]. by exists m'. }
  apply wpu_intro, wp_bind, (wp_HasIP reg ip m'); [done..|]. intros w1 Hw1 Hm1.
  pose proof (rw_clock _ _ _ Hw1). case_bool_decide as Hk.
  - apply wp_ret. intros _. exists rs. split; [done|]. split_and!; [by eapply reg_writes_usable|lia|].
    exists m'. split; [done|]. by eapply recorded_mono.
  - cbv zeta. apply wp_bind, (wp_TrackIP reg ip m'); [by eapply reg_writes_usable|done|].
    intros w2 t Ht Hw2 Hm2. pose proof (rw_clock _ _ _ Hw2). apply wp_ret. intros Hmax.
    exists (rs ++ [mkAllocationResult ip newIntf]). split; [done|].
    split_and!; [by eapply reg_writes_usable|lia|]. eexists. split; [apply Hm2, clock_rfc3339; lia|].
    apply (recorded_snoc _ _ _ _ _ (mkAllocationResult ip newIntf)); [|lia|by apply eq_None_not_Some].
    eapply recorded_mono; [|done]. lia.
Qed.

Lemma frame_accept_ip intf newIntf ip rs : frame clock_le (accept_ip (X := X) intf newIntf ip rs).
Proof. unfold accept_ip. solve_frame. Qed.
Lemma frame_await_ips intf n rs : frame clock_le (await_ips (X := X) intf n rs).
Proof.
  revert rs. induction n as [|n IH]; intros rs; cbn [await_ips]; [solve_frame|].
  pose proof frame_accept_ip. solve_frame.
Qed.

Lemma wpu_await_ips intf n rs lo m w :
  0 <= lo -> rs = [] -> alloc_inv lo m rs w ->
  wp_until (await_ips intf n rs)
    (fun r w' => alloc_inv lo m r.1 w' /\ (r.2 = None \/ r.1 = [])) w.
Proof.
  intros H0. revert rs w. induction n as [|n IH]; intros rs w -> Hi; cbn [await_ips].
  { apply wpu_ret. split; [done|by right]. }
  pose proof (frame_await_ips intf) as Hfa. pose proof (frame_accept_ip intf) as Hfi.
  assert (forall w1, alloc_inv lo m [] w1 ->
    wp_until (_ ← time_Sleep Second; await_ips intf n [])
      (fun r w' => alloc_inv lo m r.1 w' /\ (r.2 = None \/ r.1 = [])) w1) as Hretry.
  { intros w1 Hi1. apply wpu_bind; [intros ?; apply Hfa|]. apply wpu_intro.
    exists tt. eexists. split; [done|]. intros _. apply (IH []); [done|].
    eapply alloc_inv_quiet; [exact Hi1|]. apply (frame_Sleep quiet). }
  apply wpu_bind; [intros ?; solve_frame|]. apply wpu_intro.
  eapply wp_mono; [apply total_wp, total_getInterface|]. intros [newIntf e] w1 E1 _. cbn [fst snd].
  assert (alloc_inv lo m [] w1) as Hi1.
  { eapply alloc_inv_quiet; [exact Hi|]. exact (frame_done quiet _ _ _ _ (frame_getInterface quiet _) E1). }
  destruct e as [e|]; [by apply Hretry|]. case_bool_decide; [|by apply Hretry].
  apply wpu_bind; [intros ?; solve_frame|].
  apply (wpu_range_loop _ _ _ (fun _ rs w' => alloc_inv lo m rs w')); [done|done| |].
  - intros don ip rest rs w2 _ Hi2. eapply wpu_mono; [by apply wpu_accept_ip|].
    by intros r w3 _ (rs' & -> & Hi3).
  - intros rs w2 Hi2. destruct (Nat.ltb_spec 0 (length rs)).
    + apply wpu_ret. split; [done|by left].
    + assert (rs = []) as -> by (destruct rs; cbn in *; [done|lia]). by apply Hretry.
Qed.
End recorded.

(** ** The registry and the caches share a directory, not a file *)
Section disjoint.
Context {X : Type} `{!Host X}.

Lemma registryPath_cachePath : registryPath X = cachePath X.
Proof.
  unfold registryPath, cachePath, registryDir, cacheProgram, cacheRoot.
  destruct (negb _); [|done]. generalize (pretty (getuid (X := X))). intros u. unfold path_Join. cbn [List.filter].
  destruct (bool_decide (u = EmptyString)); done.
Qed.
Lemma cachePath_ne : cachePath X <> EmptyString.
Proof.
  unfold cachePath, path_Join. destruct (negb _); cbn -[path_Clean pretty];
    [destruct (negb (bool_decide (pretty getuid = EmptyString)))|]; apply path_Clean_ne.
Qed.
(** No key of the caches names the registry file. *)
Lemma cache_key_registry key :
  simple_name key -> key <> registryFile -> path_Join [cachePath X; key] <> registry_file X newRegistry.
Proof.
  intros Hk Hne E. unfold registry_file in E.
  change (registry_dir X newRegistry) with (registryPath X) in E. rewrite registryPath_cachePath in E.
  apply path_Join_inj in E; [done|apply cachePath_ne|done|].
  split_and!; try done. apply (bool_decide_unpack _). vm_compute. exact I.
Qed.
Lemma limits_key_registry itype :
  simple_name (limits_key itype) -> path_Join [cachePath X; limits_key itype] <> registry_file X newRegistry.
Proof. intros H. apply cache_key_registry; [done|]. unfold limits_key. by intros [=]. Qed.
End disjoint.

(** ** The choice over sorted subnets *)
Lemma find_subnet (candidates : list Interface) id :
  match List.find (fun intf => bool_decide (i_SubnetID intf = id)) candidates with
  | Some intf => intf ∈ candidates /\ i_SubnetID intf = id
  | None => forall c, c ∈ candidates -> i_SubnetID c <> id
  end.
Proof.
  destruct (List.find _ _) as [i|] eqn:E.
  - apply find_some in E as [Hin E]. apply bool_decide_eq_true in E. by rewrite list_elem_of_In.
  - intros c Hc. pose proof (find_none _ _ E c) as H. rewrite <- list_elem_of_In in H.
    by eapply bool_decide_eq_false_1, H.
Qed.

Lemma pick_interface_sorted l candidates :
  StronglySorted (fun a b => SubnetsByAvailableAddressCount_Less b a = false) l ->
  match pick_interface l candidates with
  | Some intf => intf ∈ candidates /\ exists s, s ∈ l /\ s_ID s = i_SubnetID intf /\ 0 < s_AvailableAddressCount s /\
      forall o c, o ∈ l -> s_AvailableAddressCount s < s_AvailableAddressCount o -> c ∈ candidates -> i_SubnetID c <> s_ID o
  | None => forall s c, s ∈ l -> 0 < s_AvailableAddressCount s -> c ∈ candidates -> i_SubnetID c <> s_ID s
  end.
Proof.
  unfold SubnetsByAvailableAddressCount_Less.
  induction 1 as [|s l Hs IH Hle]; cbn [pick_interface]; [by intros s c ?%elem_of_nil|].
  rewrite Forall_forall in Hle.
  pose proof (find_subnet candidates (s_ID s)) as Hf.
  destruct (Z.leb_spec (s_AvailableAddressCount s) 0) as [H0|H0];
    [|destruct (List.find _ candidates) as [i|]].
  2: { destruct Hf as [Hi Hid]. split; [done|]. exists s. split_and!; [by left|done|lia|].
       intros o c [->|Ho]%elem_of_cons Hlt; [lia|]. specialize (Hle o Ho). lia. }
  all: destruct (pick_interface l candidates) as [i'|].
  - destruct IH as (Hi & s' & Hs' & Hid & Hp & Hm). specialize (Hle s' Hs'). lia.
  - intros s' c [->|Hs']%elem_of_cons Hp; [lia|by apply IH].
  - destruct IH as (Hi & s' & Hs' & Hid & Hp & Hm). split; [done|]. exists s'.
    split_and!; [by right|done|done|]. intros o c [->|Ho]%elem_of_cons Hlt Hc; [by apply Hf|by apply Hm].
  - intros s' c [->|Hs']%elem_of_cons Hp Hc; [by apply Hf|by apply IH].
Qed.

Lemma candidates_spec index limit interfaces c :
  c ∈ candidates_of index limit interfaces <->
  c ∈ interfaces /\ index <= i_Number c /\ Z.of_nat (length (i_IPv4s c)) < limit.
Proof.
  unfold candidates_of. rewrite !list_elem_of_In, filter_In.
  rewrite andb_true_iff, negb_true_iff, Z.ltb_ge, Z.ltb_lt. tauto.
Qed.
(** The choice among the candidates. *)
Lemma pick_interface_best {X} `{!GoRuntime X} index limit interfaces subnets :
  let candidates := candidates_of index limit interfaces in
  match pick_interface (sort_slice (X := X) SubnetsByAvailableAddressCount_Less subnets) candidates with
  | Some intf =>
      intf ∈ interfaces /\ index <= i_Number intf /\ Z.of_nat (length (i_IPv4s intf)) < limit /\
      exists subnet, subnet ∈ subnets /\ s_ID subnet = i_SubnetID intf /\ 0 < s_AvailableAddressCount subnet /\
        forall other c, other ∈ subnets -> s_AvailableAddressCount subnet < s_AvailableAddressCount other ->
          c ∈ candidates -> i_SubnetID c <> s_ID other
  | None =>
      forall subnet c, subnet ∈ subnets -> 0 < s_AvailableAddressCount subnet -> c ∈ candidates ->
        i_SubnetID c <> s_ID subnet
  end.
Proof.
  intros candidates.
  pose proof (sort_slice_perm (X := X) _ SubnetsByAvailableAddressCount_Less subnets) as Hperm.
  pose proof (sort_slice_sorted (X := X) _ SubnetsByAvailableAddressCount_Less subnets _) as Hsort.
  revert Hperm Hsort. generalize (sort_slice (X := X) SubnetsByAvailableAddressCount_Less subnets).
  intros l Hperm Hsort. apply Sorted_StronglySorted in Hsort;
    [|intros a b c Hab Hbc; unfold SubnetsByAvailableAddressCount_Less in *; lia].
  pose proof (pick_interface_sorted l candidates Hsort) as H.
  destruct (pick_interface l candidates) as [intf|].
  - destruct H as (Hin & s & Hs & Hid & Hpos & Hmax). apply candidates_spec in Hin as (? & ? & ?). split_and!; [done..|].
    exists s. rewrite <- Hperm. split_and!; [done..|]. intros o c Ho. apply Hmax. by rewrite Hperm.
  - intros s c Hs. apply H. by rewrite Hperm.
Qed.

(** ** Properties *)

(** C19: when [AllocateIPsOn] reports success, whatever failed underneath, it
    returns at least one address; each is listed by the metadata for the very
    interface it was asked for, and equals none of the addresses the interface
    had before. *)
Theorem AllocateIPsOn_sound {X} `{!Host X} intf batchSize (w : World X) rs w' :
  AllocateIPsOn intf batchSize w = (Done (rs, None), w') -> rs <> [] /\ Forall (new_on intf) rs.
Proof.
  intros E.
  assert (ensures (X := X) (AllocateIPsOn intf batchSize)
    (fun r => Forall (new_on intf) r.1 /\ (r.2 = None -> r.1 <> []))) as H.
  { unfold AllocateIPsOn. apply ensures_bind_any. intros [c [e|]]; cbn [fst snd]; [by apply ensures_ret|].
    apply ensures_bind_any. intros l. cbv zeta. apply ensures_bind_any. intros [e|]; [by apply ensures_ret|].
    by apply await_ips_new. }
  destruct (H _ _ _ E) as [H1 H2]. cbn in *. auto.
Qed.

(** C3: on a host with a registry and working file operations, the addresses
    [AllocateIPsOn] returns are distinct and were unknown to the registry, and
    afterwards the registry is what it was plus exactly those addresses, each
    recorded at a second of the call: the next caller sees them as used just
    now, so they cannot be handed out twice. *)
Theorem AllocateIPsOn_recorded {X} `{!Host X} `{!ReliableOS X} `{!PlainInstanceTypes X} intf batchSize m
    (w : World X) rs w' :
  registry_dir X newRegistry ∈ w_dirs w -> holds newRegistry w m -> doc_plain w ->
  0 <= w_clock w -> w_clock w' <= max_clock ->
  AllocateIPsOn intf batchSize w = (Done (rs, None), w') ->
  exists m', holds newRegistry w' m' /\ recorded (X := X) (w_clock w) (w_clock w') m rs m'.
Proof.
  intros Hd Hm Hp H0 Hmax E. unfold AllocateIPsOn in E.
  apply bind_done_inv in E as ([c ce] & w1 & E1 & E). cbn [fst snd] in E. destruct ce as [e|]; [done|].
  apply bind_done_inv in E as (l & w2 & E2 & E). cbv zeta in E.
  apply bind_done_inv in E as (err & w3 & E3 & E). destruct err as [e|]; [done|].
  assert (plain_step (registry_file X newRegistry) w w3) as Hs.
  { set (p := registry_file X newRegistry). etrans; [exact (frame_done _ _ _ _ _ (plain_newEC2 p) E1)|].
    etrans; [exact (frame_done _ _ _ _ _ (plain_ENILimits p limits_key_registry) E2)|].
    exact (frame_done _ _ _ _ _ (frame_ec2_call (plain_step p) _ _) E3). }
  destruct (Hs Hp) as (_ & Hf & Hdirs & Hc).
  destruct (wpu_await_ips intf 10 [] (w_clock w) m w3) as (r & w4 & E' & Hi & _); [done|done| | |].
  - split; [left; by apply Hdirs|]. split; [done|]. exists m. split; [|apply recorded_nil].
    destruct Hm as (m0 & ? & ? & Hm0). exists m0. by rewrite Hf.
  - by rewrite E.
  - rewrite E in E'. injection E' as <- <-. destruct Hi as (_ & _ & m' & H). by exists m'.
Qed.

(** The request never exceeds what the interface has left, asks for all of
    it when the batch size is 0, and for the batch otherwise when there is
    room; it is not positive exactly when the interface is full (EC2 refuses
    such a request). *)
Theorem request_count_bounds limit have batchSize :
  0 <= limit <= int64_max -> 0 <= have <= int64_max -> 0 <= batchSize ->
  let n := request_count limit have batchSize in
  n <= limit - have /\ (batchSize = 0 -> n = limit - have) /\ (0 < batchSize -> n = Z.min batchSize (limit - have)) /\
  (n <= 0 <-> limit <= have).
Proof.
  intros Hl Hh Hb. unfold request_count. rewrite wrap64_id by (unfold int64_min, int64_max in *; lia).
  destruct (Z.eqb_spec batchSize 0), (Z.ltb_spec (limit - have) batchSize); cbn [orb]; lia.
Qed.

(** C12: [AllocateIPsFirstAvailableAtIndex] asks for the addresses on an
    interface that has room, has at least the given number and lies in a subnet
    with free addresses, such that no other interface with room and number lies
    in a subnet with more of them; when no interface with room and number lies
    in a subnet with a free address, it asks for nothing and returns an error. *)
Theorem AllocateIPs_best_interface {X} `{!Host X} index batchSize (w : World X) ifs w1 limits w2 subnets w3 :
  GetInterfaces w = (Done (Ok ifs), w1) -> ENILimits w1 = (Done limits, w2) ->
  GetSubnetsForInstance w2 = (Done (Ok subnets), w3) ->
  let roomy c := c ∈ ifs /\ index <= i_Number c /\ Z.of_nat (length (i_IPv4s c)) < l_IPv4 limits.1 in
  (exists intf subnet, roomy intf /\ subnet ∈ subnets /\ s_ID subnet = i_SubnetID intf /\
     0 < s_AvailableAddressCount subnet /\
     (forall other c, other ∈ subnets -> s_AvailableAddressCount subnet < s_AvailableAddressCount other ->
        roomy c -> i_SubnetID c <> s_ID other) /\
     AllocateIPsFirstAvailableAtIndex index batchSize w = AllocateIPsOn intf batchSize w3) \/
  ((forall subnet c, subnet ∈ subnets -> 0 < s_AvailableAddressCount subnet -> roomy c -> i_SubnetID c <> s_ID subnet) /\
     AllocateIPsFirstAvailableAtIndex index batchSize w
     = (Done ([], Some (Errorf "Unable to allocate - no IPs available on any interfaces" [])), w3)).
Proof.
  intros E1 E2 E3 roomy. unfold AllocateIPsFirstAvailableAtIndex.
  rewrite (bind_done _ _ _ _ _ E1), (bind_done _ _ _ _ _ E2). cbv zeta. rewrite (bind_done _ _ _ _ _ E3).
  pose proof (pick_interface_best (X := X) index (l_IPv4 limits.1) ifs subnets) as H. cbv zeta in H.
  destruct (pick_interface _ _) as [intf|].
  - left. destruct H as (Hin & Hnum & Hroom & subnet & Hs & Hid & Hfree & Hbest). exists intf, subnet.
    split_and!; [done..| |done]. intros other c Ho Hlt Hc. apply (Hbest other c Ho Hlt). by apply candidates_spec.
  - right. split; [|done]. intros subnet c Hs Hfree Hc. apply (H subnet c Hs Hfree). by apply candidates_spec.
Qed.

(** C23: [DeallocateIP] asks EC2 to release exactly the given address from the
    first interface that lists it, and reports what EC2 answered; when no
    interface lists it, it returns an error and calls nothing more. *)
Theorem DeallocateIP_exact {X} `{!Host X} ip (w : World X) region w1 ifs w2 :
  newEC2 w = (Done (Some region, None), w1) -> GetInterfaces w1 = (Done (Ok ifs), w2) ->
  match owner ip ifs with
  | Some intf =>
      intf ∈ ifs /\ (exists i, i ∈ i_IPv4s intf /\ ip_Equal ip i = true) /\
      DeallocateIP ip w = ext (ec2_UnassignPrivateIpAddresses region (i_ID intf) [ip_String ip]) w2
  | None =>
      (forall intf i, intf ∈ ifs -> i ∈ i_IPv4s intf -> ip_Equal ip i = false) /\
      DeallocateIP ip w = (Done (Some (Errorf "IP not found - can't release" [])), w2)
  end.
Proof.
  intros E1 E2. unfold DeallocateIP. rewrite (bind_done _ _ _ _ _ E1). cbn [fst snd].
  rewrite (bind_done _ _ _ _ _ E2). destruct (owner ip ifs) as [intf|] eqn:Eo.
  - apply find_some in Eo as [Hin Hex]. apply existsb_exists in Hex as (i & Hi & Heq).
    rewrite <- !list_elem_of_In in *. split_and!; [done|by exists i|done].
  - split; [|done]. intros intf i Hin Hi. pose proof (find_none _ _ Eo intf) as H.
    rewrite list_elem_of_In in Hin. specialize (H Hin). cbn in H. apply not_true_iff_false in H.
    apply not_true_iff_false. intros Heq. apply H, existsb_exists. exists i. by rewrite <- list_elem_of_In.
Qed.

(** ** The theorems at concrete inputs *)
#[local] Existing Instance good_host.

#[export] Instance good_host_plain : @PlainInstanceTypes Sim good_host.
Proof.
  intros x d H. assert (exists r, plain_doc r = Ok d) as [r Hr].
  { cbn in H. destruct (sim_iddoc x) as [|r [|? ?]]; [done|by exists r..]. }
  destruct r as [d'|]; [|done]. cbn in Hr. destruct (existsb _ _) eqn:E; [done|]. injection Hr as ->.
  intros Hin. apply not_true_iff_false in E. apply E, existsb_exists. exists path_slash.
  split; [by apply list_elem_of_In|]. apply Ascii.eqb_refl.
Qed.

(** The Pods' interface of the demonstration host. *)
Definition demo_eni : Interface := Eval vm_compute in nth 1 demo_ifs zeroInterface.
Definition demo_results (p : outcome (list AllocationResult * option error) * World Sim) : list AllocationResult :=
  match p.1 with Done (l, _) => l | _ => [] end.
Definition demo_alloc : list AllocationResult := Eval vm_compute in demo_results (AllocateIPsOn demo_eni 1 demo_reg_world).
Definition demo_alloc_world : World Sim := Eval vm_compute in (AllocateIPsOn demo_eni 1 demo_reg_world).2.
Lemma demo_AllocateIPsOn : AllocateIPsOn demo_eni 1 demo_reg_world = (Done (demo_alloc, None), demo_alloc_world).
Proof. vm_cast_no_check (eq_refl (@Done (list AllocationResult * option error) (demo_alloc, None), demo_alloc_world)). Qed.
Example demo_alloc_ips : ar_IP <$> demo_alloc = [IPv4 [10; 0; 16; 30]].
Proof. reflexivity. Qed.

Lemma AllocateIPsOn_sound_witness : demo_alloc <> [] /\ Forall (new_on demo_eni) demo_alloc.
Proof. exact (@AllocateIPsOn_sound Sim good_host demo_eni 1 demo_reg_world demo_alloc demo_alloc_world demo_AllocateIPsOn). Defined.

Lemma AllocateIPsOn_recorded_witness :
  exists m', holds newRegistry demo_alloc_world m' /\
    recorded (X := Sim) (w_clock demo_reg_world) (w_clock demo_alloc_world) demo_registry demo_alloc m'.
Proof.
  apply (@AllocateIPsOn_recorded Sim good_host _ _ demo_eni 1 demo_registry demo_reg_world demo_alloc demo_alloc_world);
    [cbn; set_solver|exact demo_holds|done|vm_compute; discriminate|vm_compute; discriminate|exact demo_AllocateIPsOn].
Defined.

Lemma request_count_bounds_witness :
  let n := request_count 15 2 20 in
  n <= 15 - 2 /\ (20 = 0 -> n = 15 - 2) /\ (0 < 20 -> n = Z.min 20 (15 - 2)) /\ (n <= 0 <-> 15 <= 2).
Proof. apply (request_count_bounds 15 2 20); unfold int64_max; lia. Defined.

Definition demo_dealloc_w1 : World Sim := Eval vm_compute in (newEC2 demo_reg_world).2.
Definition demo_dealloc_w2 : World Sim := Eval vm_compute in (GetInterfaces demo_dealloc_w1).2.
Lemma demo_dealloc_newEC2 : newEC2 demo_reg_world = (Done (Some "us-east-1"%string, None), demo_dealloc_w1).
Proof. vm_cast_no_check (eq_refl (@Done (option string * option error) (Some "us-east-1"%string, None), demo_dealloc_w1)). Qed.
Lemma demo_dealloc_ifs : GetInterfaces demo_dealloc_w1 = (Done (Ok demo_ifs), demo_dealloc_w2).
Proof. vm_cast_no_check (eq_refl (Done (Ok demo_ifs), demo_dealloc_w2)). Qed.
Lemma DeallocateIP_exact_witness :
  match owner (ip4 10 0 16 21) demo_ifs with
  | Some intf =>
      intf ∈ demo_ifs /\ (exists i, i ∈ i_IPv4s intf /\ ip_Equal (ip4 10 0 16 21) i = true) /\
      DeallocateIP (ip4 10 0 16 21) demo_reg_world
      = ext (ec2_UnassignPrivateIpAddresses "us-east-1" (i_ID intf) [ip_String (ip4 10 0 16 21)]) demo_dealloc_w2
  | None =>
      (forall intf i, intf ∈ demo_ifs -> i ∈ i_IPv4s intf -> ip_Equal (ip4 10 0 16 21) i = false) /\
      DeallocateIP (ip4 10 0 16 21) demo_reg_world
      = (Done (Some (Errorf "IP not found - can't release" [])), demo_dealloc_w2)
  end.
Proof.
  exact (@DeallocateIP_exact Sim good_host (ip4 10 0 16 21) demo_reg_world "us-east-1" demo_dealloc_w1
    demo_ifs demo_dealloc_w2 demo_dealloc_newEC2 demo_dealloc_ifs).
Defined.

Definition demo_best_w1 : World Sim := Eval vm_compute in (GetInterfaces demo_reg_world).2.
Definition demo_best_limits : ENILimit * option error :=
  Eval vm_compute in match (ENILimits demo_best_w1).1 with Done l => l | _ => (zeroLimit, None) end.
Definition demo_best_w2 : World Sim := Eval vm_compute in (ENILimits demo_best_w1).2.
Definition demo_best_subnets : list Subnet :=
  Eval vm_compute in match (GetSubnetsForInstance demo_best_w2).1 with Done (Ok l) => l | _ => [] end.
Definition demo_best_w3 : World Sim := Eval vm_compute in (GetSubnetsForInstance demo_best_w2).2.
Lemma AllocateIPs_best_interface_witness :
  let roomy c := c ∈ demo_ifs /\ 1 <= i_Number c /\ Z.of_nat (length (i_IPv4s c)) < l_IPv4 demo_best_limits.1 in
  (exists intf subnet, roomy intf /\ subnet ∈ demo_best_subnets /\ s_ID subnet = i_SubnetID intf /\
     0 < s_AvailableAddressCount subnet /\
     (forall other c, other ∈ demo_best_subnets -> s_AvailableAddressCount subnet < s_AvailableAddressCount other ->
        roomy c -> i_SubnetID c <> s_ID other) /\
     AllocateIPsFirstAvailableAtIndex 1 2 demo_reg_world = AllocateIPsOn intf 2 demo_best_w3) \/
  ((forall subnet c, subnet ∈ demo_best_subnets -> 0 < s_AvailableAddressCount subnet -> roomy c -> i_SubnetID c <> s_ID subnet) /\
     AllocateIPsFirstAvailableAtIndex 1 2 demo_reg_world
     = (Done ([], Some (Errorf "Unable to allocate - no IPs available on any interfaces" [])), demo_best_w3)).
Proof.
  apply (@AllocateIPs_best_interface Sim good_host 1 2 demo_reg_world demo_ifs demo_best_w1 demo_best_limits demo_best_w2
    demo_best_subnets demo_best_w3).
  - vm_cast_no_check (eq_refl (Done (Ok demo_ifs), demo_best_w1)).
  - vm_cast_no_check (eq_refl (Done demo_best_limits, demo_best_w2)).
  - vm_cast_no_check (eq_refl (Done (Ok demo_best_subnets), demo_best_w3)).
Defined.
Example demo_best_roomy : i_SubnetID <$> candidates_of 1 (l_IPv4 demo_best_limits.1) demo_ifs = s_ID <$> demo_best_subnets.
Proof. vm_compute. reflexivity. Qed.

(** The host without a registry, after the failed allocation. *)
Definition demo_fail_world : World Sim := Eval vm_compute in (AllocateIPsOn demo_eni 1 demo_world).2.
Definition demo_fail_registry : gmap string Time :=
  list_to_map ((fun k => (k, zeroTime)) <$> ["10.0.16.21"; "10.0.16.30"]%string).
Lemma demo_fail_holds : holds newRegistry demo_fail_world demo_fail_registry.
Proof.
  exists demo_fail_registry. split; [|split; [vm_compute; reflexivity|vm_compute; reflexivity]].
  intros k t Hk. apply elem_of_list_to_map_2 in Hk. unfold demo_fail_registry in *.
  apply list_elem_of_fmap in Hk as (? & [= _ ->] & _). apply rfc3339_ok_zero.
Qed.

(** On a host without a registry file, [AllocateIPsOn] fails although EC2
    granted the address: its first [HasIP] creates the registry from a scan
    that already sees the new address, so the address counts as known in each
    of the ten rounds.  The address stays on the interface, recorded at the
    epoch. *)
Theorem AllocateIPsOn_without_registry :
  w_files demo_world !! registry_file Sim newRegistry = None /\
  exists w' m, AllocateIPsOn demo_eni 1 demo_world
      = (Done ([], Some (Errorf "Can't locate new IP address from AWS" [])), w') /\
    sim_meta (w_ext w') !! ipv4s_key "02:bb" = Some (lines ["10.0.16.20"; "10.0.16.21"; "10.0.16.30"]) /\
    holds newRegistry w' m /\ m !! "10.0.16.30"%string = Some zeroTime.
Proof.
  split; [done|]. exists demo_fail_world, demo_fail_registry.
  split; [|split; [vm_compute; reflexivity|split; [exact demo_fail_holds|reflexivity]]].
  vm_cast_no_check (eq_refl (@Done (list AllocationResult * option error)
    ([], Some (Errorf "Can't locate new IP address from AWS" [])), demo_fail_world)).
Qed.
