(* ===== verification/Eni.v ===== *)
(** * Eni: aws/interface.go

    Creating, attaching and configuring a network interface, and detaching and
    deleting one.

    After the attachment the code polls the metadata once a second until 30
    seconds have passed: at most 31 rounds and one last look at the clock, so
    the loop has fuel 32.  The wait for a detachment counts its own attempts. *)

From S2P Require Export Allocate.

Section eni.
Context {X : Type} `{!Host X}.

Definition interfacePollWaitTime : Z := 1000 * Millisecond.
Definition interfaceSettleTime : Z := 30 * Second.
Definition interfaceDetachWaitTime : Z := 1 * Second.
Definition interfacePostDetachSettleTime : Z := 5 * Second.
Definition interfaceDetachAttempts : nat := 20.

(** The number of secondary addresses requested with a new interface. *)
Definition secondary_count (limit ipBatchSize : Z) : option Z :=
  let ipBatchSize := if (ipBatchSize =? 0) || (limit <? ipBatchSize) then limit else ipBatchSize in
  let ipBatchSize := wrap64 (ipBatchSize - 1) in
  if 0 <? ipBatchSize then Some ipBatchSize else None.

(** Errors are reported on stderr only. *)
Definition configureInterface (intf : Interface) (mainIf : string) : M X () :=
  err ← UpInterfacePoll (LocalName intf);
  match err with
  | Some _ => mret tt
  | None =>
      baseMtu ← GetMtu mainIf;
      match baseMtu with
      | Err _ => mret tt
      | Ok baseMtu =>
          if (baseMtu <? 1000) || (9001 <? baseMtu) then mret tt
          else _ ← SetMtu (LocalName intf) baseMtu; mret tt
      end
  end.

(** Recording the addresses of the new interface; failures are ignored. *)
Definition track_new_ips (addresses : list (option string)) : M X () :=
  range_fold addresses tt (fun privateIPAddress _ =>
    privateIPAddress ← deref privateIPAddress;
    match ParseIP privateIPAddress with
    | Some privateIPAddr => _ ← TrackIPAtEpoch newRegistry privateIPAddr; mret tt
    | None => mret tt
    end).

Definition settle_fuel : nat := 32.
Definition settle_body (created : NetworkInterface) (start : Time) (_ : ()) : M X (() + result Interface) :=
  now ← time_Now;
  if t_ns now - t_ns start <=? interfaceSettleTime then
    newInterfaces ← GetInterfaces;
    found ← match newInterfaces with
            | Err _ | Ok [] => mret None
            | Ok ((main :: _) as newInterfaces) =>
                mac ← deref (ni_MacAddress created);
                mret ((fun intf => (intf, i_IfName main)) <$>
                        List.find (fun intf => bool_decide (i_Mac intf = mac)) newInterfaces)
            end;
    match found with
    | Some (intf, mainIf) =>
        _ ← track_new_ips (ni_PrivateIpAddresses created);
        _ ← configureInterface intf mainIf;
        mret (inr (Ok intf))
    | None => _ ← time_Sleep interfacePollWaitTime; mret (inl tt)
    end
  else mret (inr (Err (Errorf "interface did not attach in time" []))).

(** What follows a successful creation. *)
Definition attach_and_settle (client : option string) (index : Z) (instanceID : string) (created : option NetworkInterface)
    : M X (result Interface) :=
  created ← deref created;
  eni ← deref (ni_NetworkInterfaceId created);
  attachResp ← ec2_call client (fun region =>
    ec2_AttachNetworkInterface region (mkAttachRequest index instanceID eni));
  match attachResp with
  | Err err =>
      delErr ← ec2_call client (fun region => ec2_DeleteNetworkInterface region eni);
      mret (Err (match delErr with Some delErr => delErr | None => err end))
  | Ok attachmentId =>
      attachmentId ← deref attachmentId;
      _ ← ec2_call client (fun region =>
        ec2_ModifyNetworkInterfaceAttribute region (mkModifyRequest attachmentId true eni));
      start ← time_Now;
      fuel_loop settle_fuel tt (settle_body created start)
  end.

Definition NewInterfaceOnSubnetAtIndex (index : Z) (secGrps : list string) (subnet : Subnet) (ipBatchSize : Z)
    : M X (result Interface) :=
  client ← newEC2;
  match client.2 with
  | Some err => mret (Err err)
  | None =>
      idDoc ← getIDDoc;
      match idDoc.2 with
      | Some err => mret (Err err)
      | None =>
          id ← deref idDoc.1;
          limits ← ENILimits;
          let createReq := mkCreateRequest ("CNI-ENI " +:+ id_InstanceID id)%string secGrps (s_ID subnet)
                             (secondary_count (l_IPv4 limits.1) ipBatchSize) in
          resp ←? ec2_call client.1 (fun region => ec2_CreateNetworkInterface region createReq);
          attach_and_settle client.1 index (id_InstanceID id) resp
      end
  end.

(** The subnets that carry every required tag with the required value. *)
Definition tagged (requiredTags : gmap string string) (subnet : Subnet) : bool :=
  bool_decide (map_Forall (fun tagKey tagValue => s_Tags subnet !! tagKey = Some tagValue) requiredTags).
Definition available_subnets (requiredTags : gmap string string) (subnets : list Subnet) : list Subnet :=
  sort_slice SubnetsByAvailableAddressCount_Less (List.filter (tagged requiredTags) subnets).

Definition NewInterface (secGrps : list string) (requiredTags : gmap string string) (ipBatchSize : Z)
    : M X (result Interface) :=
  subnets ←? GetSubnetsForInstance;
  existingInterfaces ←? GetInterfaces;
  limits ← ENILimits;
  if Adapters limits.1 <=? Z.of_nat (length existingInterfaces) then
    mret (Err (Errorf "too many adapters on this instance already" []))
  else
    match available_subnets requiredTags subnets with
    | [] => mret (Err (Errorf "No subnets are available which haven't already been used" []))
    | subnet :: _ => NewInterfaceOnSubnetAtIndex (Z.of_nat (length existingInterfaces)) secGrps subnet ipBatchSize
    end.

(** ** Removal *)
Definition describeNetworkInterface (interfaceID : string) : M X (result NetworkInterface) :=
  client ← newEC2;
  match client.2 with
  | Some err => mret (Err err)
  | None =>
      out ←? ec2_call client.1 (fun region => ec2_DescribeNetworkInterfaces region [interfaceID]);
      match out with
      | [] => mret (Err (Errorf "Cannot describe interface, it might not exist" []))
      | ni :: _ => mret (Ok ni)
      end
  end.

Definition deleteInterface (interfaceID : string) : M X (option error) :=
  client ← newEC2;
  match client.2 with
  | Some err => mret (Some err)
  | None => ec2_call client.1 (fun region => ec2_DeleteNetworkInterface region interfaceID)
  end.

(** The loop of [waitUtilInterfaceDetaches], with [remaining] attempts to go. *)
Fixpoint wait_detached (interfaceID : string) (remaining : nat) (interfaceDescription : NetworkInterface) : M X (option error) :=
  status ← deref (ni_Status interfaceDescription);
  if bool_decide (status = "available"%string) then mret None
  else
    interfaceDescription ←! describeNetworkInterface interfaceID;
    match remaining with
    | O => mret (Some (Errorf "Interface %v has not detached yet, use --force to override this check" [AStr interfaceID]))
    | S remaining => _ ← time_Sleep interfaceDetachWaitTime; wait_detached interfaceID remaining interfaceDescription
    end.

Definition waitUtilInterfaceDetaches (interfaceID : string) : M X (option error) :=
  interfaceDescription ←! describeNetworkInterface interfaceID;
  wait_detached interfaceID interfaceDetachAttempts interfaceDescription.

(** The body of the loop of [RemoveInterface]. *)
Definition remove_one (client : option string) (interfaceID : string) : M X (option error) :=
  interfaceDescription ←! describeNetworkInterface interfaceID;
  attachment ← deref (ni_Attachment interfaceDescription);
  err ← ec2_call client (fun region => ec2_DetachNetworkInterface region (mkDetachRequest attachment false false));
  match err with
  | Some err =>
      _ ← Printf "Error occurced when trying to detach %v interface, use --force to override this check" [AStr interfaceID];
      mret (Some err)
  | None =>
      !← waitUtilInterfaceDetaches interfaceID;
      _ ← time_Sleep interfacePostDetachSettleTime;
      deleteInterface interfaceID
  end.

Definition RemoveInterface (interfaceIDs : list string) : M X (option error) :=
  client ← newEC2;
  match client.2 with
  | Some err => mret (Some err)
  | None =>
      r ← range_loop interfaceIDs tt (fun interfaceID _ =>
        err ← remove_one client.1 interfaceID;
        mret (match err with Some err => inr err | None => inl tt end));
      mret (match r with inl _ => None | inr err => Some err end)
  end.
End eni.

(** ** Frames and termination *)
Section eni_frames.
Context {X : Type} `{!Host X} (R : relation (World X)) `{!PreOrder R} `{!ExtClosed R}.
Lemma frame_configureInterface i m : frame R (configureInterface i m).
Proof. unfold configureInterface. solve_frame. Qed.

Context `{!ClientClosed R}.
Lemma frame_describeNetworkInterface id : frame R (describeNetworkInterface id).
Proof. unfold describeNetworkInterface. solve_frame. Qed.
Lemma frame_deleteInterface id : frame R (deleteInterface id).
Proof. unfold deleteInterface. solve_frame. Qed.
Lemma frame_wait_detached id n ni : frame R (wait_detached id n ni).
Proof.
  pose proof frame_describeNetworkInterface. revert ni.
  induction n as [|n IH]; intros ni; cbn [wait_detached]; solve_frame.
Qed.
Lemma frame_waitUtilInterfaceDetaches id : frame R (waitUtilInterfaceDetaches id).
Proof.
  pose proof frame_describeNetworkInterface. pose proof frame_wait_detached.
  unfold waitUtilInterfaceDetaches. solve_frame.
Qed.

Context (Hd : forall w, R w (set_dirs (union {[registry_dir X newRegistry]}) w)).
Context (Hf : forall w c, R w (set_files (insert (registry_file X newRegistry) c) w)).
Lemma frame_track_new_ips l : frame R (track_new_ips l).
Proof.
  unfold track_new_ips. pose proof (frame_TrackIPAtEpoch R newRegistry Hd Hf). solve_frame.
Qed.
Lemma frame_settle_body ni start u : frame R (settle_body ni start u).
Proof.
  pose proof frame_track_new_ips. pose proof frame_configureInterface. unfold settle_body, time_Now. solve_frame.
Qed.
End eni_frames.
#[export] Hint Resolve frame_configureInterface frame_describeNetworkInterface frame_deleteInterface
  frame_waitUtilInterfaceDetaches : frame.

Section eni_disk.
Context {X : Type} `{!Host X} (R : relation (World X)) `{!PreOrder R} `{!ExtClosed R} `{!ClientClosed R} `{!DiskClosed R}.
Lemma dframe_attach_and_settle c i id ni : frame R (attach_and_settle c i id ni).
Proof.
  assert (forall ni start u, frame R (settle_body ni start u)).
  { intros ?? u. apply frame_settle_body; [apply _..|intros w; apply dirs_closed|intros w ?; apply files_closed]. }
  unfold attach_and_settle, time_Now. solve_frame.
Qed.
Lemma dframe_NewInterface g t b : frame R (NewInterface g t b).
Proof.
  pose proof dframe_attach_and_settle. unfold NewInterface, NewInterfaceOnSubnetAtIndex. solve_frame.
Qed.
End eni_disk.
#[export] Hint Resolve dframe_NewInterface : frame.

Section eni_terminates.
Context {X : Type} `{!Host X}.

Lemma terminates_configureInterface i m : terminates (X := X) (configureInterface i m).
Proof. unfold configureInterface, GetMtu, SetMtu. solve_terminates. Qed.
Lemma terminates_track_new_ips l : terminates (X := X) (track_new_ips l).
Proof. unfold track_new_ips. solve_terminates. Qed.
Lemma terminates_settle_body ni start u : terminates (X := X) (settle_body ni start u).
Proof.
  pose proof terminates_configureInterface. pose proof terminates_track_new_ips.
  unfold settle_body, time_Now. solve_terminates.
Qed.

(** A round that goes on began before the deadline and took a second. *)
Lemma settle_round ni start u (w : World X) u' w' :
  settle_body ni start u w = (Done (inl u'), w') ->
  w_clock w - t_ns start <= interfaceSettleTime /\ w_clock w + interfacePollWaitTime <= w_clock w'.
Proof.
  unfold settle_body. rewrite bind_now. cbn [t_ns].
  destruct (Z.leb_spec (w_clock w - t_ns start) interfaceSettleTime); [|done]. intros E. split; [done|].
  apply bind_done_inv in E as (ifs & w1 & E1 & E).
  pose proof (frame_done clock_le _ _ _ _ (frame_GetInterfaces clock_le) E1) as C1.
  apply bind_done_inv in E as (found & w2 & E2 & E).
  assert (clock_le w1 w2) as C2.
  { eapply frame_done; [|exact E2]. destruct ifs as [[|main ifs]|]; solve_frame. }
  unfold clock_le in *. destruct found as [[intf mainIf]|].
  - apply bind_done_inv in E as (? & ? & _ & E). by apply bind_done_inv in E as (? & ? & _ & [=]).
  - apply bind_done_inv in E as (? & w3 & E3 & [= <- <-]). injection E3 as _ <-. cbn. lia.
Qed.

Lemma terminates_settle ni (w : World X) :
  (fuel_loop settle_fuel tt (settle_body ni (mkTime (w_clock w) local_zone)) w).1 <> OutOfFuel.
Proof.
  apply (terminates_poll _ (w_clock w) interfaceSettleTime interfacePollWaitTime).
  - done.
  - intros s. apply terminates_settle_body.
  - intros s w1 s' w2 E. by apply settle_round in E.
  - unfold settle_fuel. lia.
  - unfold settle_fuel, interfaceSettleTime, interfacePollWaitTime, Second, Millisecond. lia.
Qed.
Lemma terminates_attach_and_settle c i id ni : terminates (X := X) (attach_and_settle c i id ni).
Proof.
  unfold attach_and_settle. apply terminates_bind; [eauto with terminates|]. intros ni'.
  apply terminates_bind; [eauto with terminates|]. intros eni. apply terminates_bind; [eauto with terminates|].
  intros [a|e]; [|solve_terminates]. do 2 (apply terminates_bind; [eauto with terminates|]; intros ?).
  intros w. rewrite bind_now. apply terminates_settle.
Qed.
Lemma terminates_NewInterfaceOnSubnetAtIndex i g s b : terminates (X := X) (NewInterfaceOnSubnetAtIndex i g s b).
Proof. pose proof terminates_attach_and_settle. unfold NewInterfaceOnSubnetAtIndex. solve_terminates. Qed.
Lemma terminates_describeNetworkInterface id : terminates (X := X) (describeNetworkInterface id).
Proof. unfold describeNetworkInterface. solve_terminates. Qed.
Lemma terminates_wait_detached id n ni : terminates (X := X) (wait_detached id n ni).
Proof.
  pose proof terminates_describeNetworkInterface. revert ni.
  induction n as [|n IH]; intros ni; cbn [wait_detached]; solve_terminates.
Qed.
Lemma terminates_remove_one c id : terminates (X := X) (remove_one c id).
Proof.
  pose proof terminates_describeNetworkInterface. pose proof terminates_wait_detached.
  unfold remove_one, waitUtilInterfaceDetaches, deleteInterface, Printf. solve_terminates.
Qed.
End eni_terminates.
#[export] Hint Resolve terminates_NewInterfaceOnSubnetAtIndex terminates_remove_one : terminates.
Lemma terminates_NewInterface {X} `{!Host X} g t b : terminates (X := X) (NewInterface g t b).
Proof. unfold NewInterface. solve_terminates. Qed.
Lemma terminates_RemoveInterface {X} `{!Host X} ids : terminates (X := X) (RemoveInterface ids).
Proof. unfold RemoveInterface. solve_terminates. Qed.
#[export] Hint Resolve terminates_NewInterface terminates_RemoveInterface : terminates.

(** ** Waiting for the detachment *)
Section detach.
Context {X : Type} `{!Host X}.
Implicit Types w : World X.

(** At some point of the run from [w] to [w'], EC2 described the interface as
    available. *)
Definition seen_available (id : string) w w' : Prop :=
  exists w1 w2 ni, describeNetworkInterface id w1 = (Done (Ok ni), w2) /\
    ni_Status ni = Some "available"%string /\ w_clock w <= w_clock w1 /\ w_clock w2 <= w_clock w'.

Lemma wait_detached_available id n ni w0 w1 w2 w w' :
  describeNetworkInterface id w1 = (Done (Ok ni), w2) -> w_clock w0 <= w_clock w1 -> w_clock w2 <= w_clock w ->
  wait_detached id n ni w = (Done None, w') -> seen_available id w0 w'.
Proof.
  revert ni w w1 w2. induction n as [|n IH]; intros ni w w1 w2 E1 C1 C2 E; cbn [wait_detached] in E;
    apply bind_done_inv in E as (status & w3 & E2 & E);
    destruct (ni_Status ni) as [st|] eqn:Est; [|done| |done]; injection E2 as <- <-.
  all: destruct (decide (st = "available"%string)) as [->|Hst];
    [rewrite bool_decide_true in E by done; injection E as <-; by exists w1, w2, ni|].
  all: rewrite bool_decide_false in E by done; apply bind_done_inv in E as ([ni'|e] & w4 & E3 & E); [|done].
  - done.
  - apply bind_done_inv in E as (u & w5 & E4 & E).
    pose proof (frame_done clock_le _ _ _ _ (frame_describeNetworkInterface clock_le id) E1) as F1.
    pose proof (frame_done clock_le _ _ _ _ (frame_Sleep clock_le _) E4) as F4. unfold clock_le in *.
    eapply (IH ni' w5 w w4); [done|lia|lia|exact E].
Qed.

Lemma waitUtilInterfaceDetaches_available id w w' :
  waitUtilInterfaceDetaches id w = (Done None, w') -> seen_available id w w'.
Proof.
  intros E. apply bind_done_inv in E as ([ni|e] & w1 & E1 & E); [|done].
  eapply wait_detached_available; [exact E1|done|done|exact E].
Qed.

(** An answer of [describeNetworkInterface] is an answer of EC2. *)
Lemma describeNetworkInterface_asks id w ni w' :
  describeNetworkInterface id w = (Done (Ok ni), w') ->
  exists region w1 rest, w_clock w <= w_clock w1 /\
    ext (ec2_DescribeNetworkInterfaces region [id]) w1 = (Done (Ok (ni :: rest)), w').
Proof.
  intros E. apply bind_done_inv in E as ([c [e|]] & w1 & E1 & E); [done|]. cbn [fst snd] in E.
  apply bind_done_inv in E as ([[|ni' rest]|e] & w2 & E2 & E); [done| |done]. injection E as <- <-.
  apply bind_done_inv in E2 as (region & w3 & E3 & E2). apply deref_done in E3 as [_ ->].
  exists region, w1, rest. split; [|exact E2].
  exact (frame_done clock_le _ _ _ _ (frame_newEC2 clock_le) E1).
Qed.
End detach.

(** ** The requests to delete an interface

    The identifiers of the deletions EC2 was asked for, whatever it answered:
    an observation of the outside, which only such a request changes among the
    calls that removing an interface makes. *)
Class DeletionLog (X : Type) `{!Host X} := {
  deletions : X -> list string;
  deletions_delete region id x : deletions (ec2_DeleteNetworkInterface region id x).1 = deletions x ++ [id];
  deletions_detach region req x : deletions (ec2_DetachNetworkInterface region req x).1 = deletions x;
  deletions_describe region ids x : deletions (ec2_DescribeNetworkInterfaces region ids x).1 = deletions x;
  deletions_iddoc x : deletions (meta_GetInstanceIdentityDocument x).1 = deletions x }.

Section deletions.
Context {X : Type} `{!Host X} `{!DeletionLog X}.
Implicit Types w : World X.

(** No deletion is asked for between [w] and [w']. *)
Definition deletes_nothing w w' : Prop := w_clock w <= w_clock w' /\ deletions (w_ext w') = deletions (w_ext w).
#[export] Instance deletes_nothing_preorder : PreOrder deletes_nothing.
Proof. split; [intros w; unfold deletes_nothing; split; [lia|done]|intros a b c [] []; split; [lia|congruence]]. Qed.
#[export] Instance deletes_nothing_client : ClientClosed deletes_nothing.
Proof. intros w c. split; [cbn; lia|done]. Qed.

Lemma deletes_nothing_ext {A} (op : X -> X * A) :
  (forall x, deletions (op x).1 = deletions x) -> frame deletes_nothing (ext op).
Proof. intros H w. split; [cbn; lia|apply H]. Qed.
Lemma deletes_nothing_call {A} c (op : string -> X -> X * A) :
  (forall region x, deletions (op region x).1 = deletions x) -> frame deletes_nothing (ec2_call c op).
Proof. intros H. apply frame_bind; [apply _|apply frame_deref, _|]. intros region. by apply deletes_nothing_ext. Qed.
Lemma deletes_nothing_Sleep d : frame deletes_nothing (time_Sleep d).
Proof. apply frame_bind; [apply _| |intros _; by apply deletes_nothing_ext]. apply frame_modify. intros w. split; [cbn; lia|done]. Qed.
Lemma deletes_nothing_newEC2 : frame deletes_nothing newEC2.
Proof.
  pose proof (deletes_nothing_ext _ deletions_iddoc). unfold newEC2, getIDDoc. solve_frame.
Qed.
Lemma deletes_nothing_describe id : frame deletes_nothing (describeNetworkInterface id).
Proof.
  pose proof deletes_nothing_newEC2.
  pose proof (fun c => deletes_nothing_call c _ (fun region => deletions_describe region [id])).
  unfold describeNetworkInterface. solve_frame.
Qed.
Lemma deletes_nothing_wait id : frame deletes_nothing (waitUtilInterfaceDetaches id).
Proof.
  pose proof deletes_nothing_Sleep. pose proof deletes_nothing_describe.
  assert (forall n ni, frame deletes_nothing (wait_detached id n ni)).
  { induction n as [|n IH]; intros ni; cbn [wait_detached]; solve_frame. }
  unfold waitUtilInterfaceDetaches. solve_frame.
Qed.

(** The first part of a computation, when it deletes nothing. *)
Lemma deletes_nothing_bind {A B} (m : M X A) (k : A -> M X B) w o w'' :
  frame deletes_nothing m -> (m ≫= k) w = (o, w'') ->
  (exists a w', m w = (Done a, w') /\ deletes_nothing w w' /\ k a w' = (o, w'')) \/
  (deletes_nothing w w'' /\ forall b, o <> Done b).
Proof.
  intros Hf E. apply bind_inv in E as [(a & w' & E1 & E2)|[<- Ho]]; [left|right].
  - exists a, w'. split; [done|]. split; [by eapply frame_done|done].
  - split; [apply Hf|done].
Qed.

(** Between [w] and [w'] a single deletion is asked for, that of [id], to which
    EC2 answers [err]; EC2 had described the interface as available after [w],
    and the request comes at least five seconds after that answer. *)
Definition safe_deletion (id : string) (err : option error) w w' : Prop :=
  exists region w1 ni rest w2 region' wd,
    ext (ec2_DescribeNetworkInterfaces region [id]) w1 = (Done (Ok (ni :: rest)), w2) /\
    ni_Status ni = Some "available"%string /\
    w_clock w <= w_clock w1 /\ w_clock w2 + 5 * Second <= w_clock wd /\ deletes_nothing w wd /\
    ext (ec2_DeleteNetworkInterface region' id) wd = (Done err, w').

(** The deletions asked for between [w] and [w'], each of them safe, each but
    the last one granted. *)
Inductive safe_deletions : World X -> list (string * option error) -> World X -> Prop :=
  | sd_none w w' : deletes_nothing w w' -> safe_deletions w [] w'
  | sd_quiet w w1 don w' : deletes_nothing w w1 -> safe_deletions w1 don w' -> safe_deletions w don w'
  | sd_granted id w w1 don w' :
      safe_deletion id None w w1 -> safe_deletions w1 don w' -> safe_deletions w ((id, None) :: don) w'
  | sd_refused id err w w' : safe_deletion id (Some err) w w' -> safe_deletions w [(id, Some err)] w'.

Lemma safe_deletion_log id err w w' : safe_deletion id err w w' -> deletions (w_ext w') = deletions (w_ext w) ++ [id].
Proof.
  intros (region & w1 & ni & rest & w2 & region' & wd & _ & _ & _ & _ & [_ Hd] & E). injection E as _ <-.
  cbn. by rewrite deletions_delete, Hd.
Qed.
Lemma safe_deletions_log w don w' :
  safe_deletions w don w' -> deletions (w_ext w') = deletions (w_ext w) ++ don.*1.
Proof.
  induction 1 as [w w' [_ H]|w w1 don w' [_ H] _ IH|id w w1 don w' H _ IH|id err w w' H]; cbn.
  - by rewrite H, app_nil_r.
  - by rewrite IH, H.
  - by rewrite IH, (safe_deletion_log _ _ _ _ H), <- app_assoc.
  - exact (safe_deletion_log _ _ _ _ H).
Qed.

Lemma deleteInterface_calls id w o w' :
  deleteInterface id w = (o, w') ->
  (deletes_nothing w w' /\ o <> Done None) \/
  exists err region wd, o = Done err /\ deletes_nothing w wd /\ ext (ec2_DeleteNetworkInterface region id) wd = (Done err, w').
Proof.
  intros E. apply deletes_nothing_bind in E as [([c [e|]] & w1 & E1 & Q1 & E)|[Q Ho]];
    [injection E as <- <-; by left| |by left|apply deletes_nothing_newEC2].
  cbn [fst snd] in E. apply deletes_nothing_bind in E as [(region & w2 & E2 & Q2 & E)|[Q Ho]];
    [|left; split; [by etransitivity|done]|apply frame_deref, _].
  right. destruct o as [err|s|]; [|done..]. exists err, region, w2. split; [done|]. split; [by etransitivity|exact E].
Qed.

(** However the removal of one interface ends. *)
Lemma remove_one_calls c id w o w' :
  remove_one c id w = (o, w') ->
  (deletes_nothing w w' /\ o <> Done None) \/ exists err, o = Done err /\ safe_deletion id err w w'.
Proof.
  intros E. apply deletes_nothing_bind in E as [([ni|e] & w1 & E1 & Q1 & E)|[Q Ho]];
    [|injection E as <- <-; by left|by left|apply deletes_nothing_describe].
  apply deletes_nothing_bind in E as [(att & w2 & E2 & Q2 & E)|[Q Ho]];
    [|left; split; [by etransitivity|done]|apply frame_deref, _].
  apply deletes_nothing_bind in E as [([e|] & w3 & E3 & Q3 & E)|[Q Ho]];
    [injection E as <- <-; left; split; [|done]; do 2 (etransitivity; [eassumption|]); exact Q3
    | |left; split; [do 2 (etransitivity; [eassumption|]); done|done]
    |apply deletes_nothing_call; intros; apply deletions_detach].
  assert (deletes_nothing w w3) as Q by (do 2 (etransitivity; [eassumption|]); exact Q3).
  apply deletes_nothing_bind in E as [([e|] & w4 & E4 & Q4 & E)|[Q4 Ho]];
    [injection E as <- <-; left; split; [by etransitivity|done]| |left; split; [by etransitivity|done]
    |apply deletes_nothing_wait].
  apply deletes_nothing_bind in E as [([] & w5 & E5 & Q5 & E)|[Q5 Ho]]; [| |apply deletes_nothing_Sleep].
  2: left; split; [do 2 (etransitivity; [eassumption|]); done|done].
  assert (deletes_nothing w w5) as Q' by (do 2 (etransitivity; [eassumption|]); exact Q5).
  apply deleteInterface_calls in E as [[Q6 Ho]|(err & region & wd & -> & Q6 & E)];
    [left; split; [by etransitivity|done]|right; exists err; split; [done|]].
  destruct (waitUtilInterfaceDetaches_available _ _ _ E4) as (wa & wb & ni' & Hd & Hs & Ha & Hb).
  apply describeNetworkInterface_asks in Hd as (reg & wa' & rest & Ha' & Hd).
  exists reg, wa', ni', rest, wb, region, wd. destruct Q as [Qc _], Q6 as [Q6c Q6d].
  destruct Q' as [Qc' Qd']. assert (w_clock w4 + 5 * Second <= w_clock w5) as Q5c.
  { injection E5 as <-. unfold interfacePostDetachSettleTime. cbn. lia. }
  split_and!; [done|done|lia|lia|split; [lia|congruence]|done].
Qed.

(** The loop of [RemoveInterface]. *)
Lemma remove_all_calls c ids w o w' :
  range_loop ids tt (fun interfaceID _ => err ← remove_one c interfaceID;
    mret (match err with Some err => inr err | None => inl tt end)) w = (o, w') ->
  exists don, don.*1 `prefix_of` ids /\ safe_deletions w don w' /\
    (o = Done (inl tt) -> don = (fun id => (id, None)) <$> ids).
Proof.
  revert w. induction ids as [|id ids IH]; intros w E.
  - injection E as <- <-. exists []. split_and!; [apply prefix_nil|by apply sd_none|done].
  - cbn in E. rewrite bind_eq, bind_eq in E. destruct (remove_one c id w) as [r w1] eqn:E1.
    apply remove_one_calls in E1 as [[Q Ho]|(err & -> & Hs)].
    + exists []. destruct r as [[e|]|s|]; [|done| |]; injection E as <- <-;
        (split_and!; [apply prefix_nil|by apply sd_none|done]).
    + destruct err as [e|]; [injection E as <- <-; exists [(id, Some e)]; split_and!;
        [apply prefix_cons, prefix_nil|by apply sd_refused|done]|].
      cbn in E. apply IH in E as (don & Hp & Hd & Ho). exists ((id, None) :: don).
      split_and!; [by apply prefix_cons|by eapply sd_granted|]. intros H. cbn. by rewrite <- Ho.
Qed.
End deletions.

(** ** The addresses of a new interface *)
(** The registry once the addresses are entered at the epoch. *)
Definition at_epoch (addresses : list string) (m : gmap string Time) : gmap string Time :=
  foldl (fun m ip => <[ip_String ip := zeroTime]> m) m (omap ParseIP addresses).

Lemma new_ips_tracked_at_epoch {X} `{!Host X} `{!ReliableOS X} (addresses : list string) m (w : World X) :
  dir_usable (registry_dir X newRegistry) w -> holds newRegistry w m ->
  exists w', track_new_ips (Some <$> addresses) w = (Done tt, w') /\
    holds newRegistry w' (at_epoch addresses m).
Proof.
  intros Hu Hm.
  assert (wp (track_new_ips (Some <$> addresses)) (fun _ w' =>
    holds newRegistry w' (at_epoch addresses m)) w)
    as (u & w' & E & H); [|destruct u; by exists w'].
  apply (wp_range_fold _ _ _ (fun don _ w' => dir_usable (registry_dir X newRegistry) w' /\
    exists d, don = Some <$> d /\
    holds newRegistry w' (at_epoch d m))).
  - split; [done|]. by exists [].
  - intros don a rest s w1 Hs (Hu1 & d & -> & Hm1).
    assert (exists x, a = Some x) as [x ->].
    { assert (a ∈ Some <$> addresses) as Hin by (rewrite Hs; set_solver).
      apply list_elem_of_fmap in Hin as (x & -> & _). by exists x. }
    cbn [deref]. unfold wp. rewrite bind_ret.
    destruct (ParseIP x) as [ip|] eqn:Ex.
    + apply wp_bind. eapply wp_TrackIPAtEpoch; [done..|]. intros w2 Hw2 Hm2. apply wp_ret.
      split; [by eapply reg_writes_usable|]. exists (d ++ [x]). split; [by rewrite fmap_app|].
      unfold at_epoch. rewrite omap_app. cbn. rewrite Ex, foldl_app. exact Hm2.
    + apply wp_ret. split; [done|]. exists (d ++ [x]). split; [by rewrite fmap_app|].
      unfold at_epoch. rewrite omap_app. cbn. by rewrite Ex, app_nil_r.
  - intros s w1 (_ & d & Hd & H). by apply (inj (fmap Some)) in Hd as ->.
Qed.


(** The loop dereferences every address: when it ends, none was missing. *)
Lemma track_new_ips_known {X} `{!Host X} l (w : World X) w' :
  track_new_ips l w = (Done tt, w') -> exists addresses, l = Some <$> addresses.
Proof.
  revert w. induction l as [|a l IH]; intros w E; [by exists []|].
  unfold track_new_ips in *. cbn [range_fold] in E. apply bind_done_inv in E as ([] & w1 & E1 & E).
  apply bind_done_inv in E1 as (x & w2 & E1 & _). apply deref_done in E1 as [-> _].
  apply IH in E as [addresses ->]. by exists (x :: addresses).
Qed.

Section settle_tracks.
Context {X : Type} `{!Host X} `{!ReliableOS X}.
Implicit Types w : World X.
Definition tracking m w : Prop := dir_usable (registry_dir X newRegistry) w /\ holds newRegistry w m.
Lemma holds_same_disk r w w' m : same_disk w w' -> holds r w m -> holds r w' m.
Proof. intros [Hf _] (m0 & ? & ? & H). exists m0. by rewrite Hf. Qed.
Lemma usable_same_disk d w w' : same_disk w w' -> dir_usable d w -> dir_usable d w'.
Proof. intros [Hf Hd] H. unfold dir_usable. by rewrite Hf, Hd. Qed.
Lemma tracking_same_disk m w w' : same_disk w w' -> tracking m w -> tracking m w'.
Proof. intros D [Hu Hm]. split; [by eapply usable_same_disk|by eapply holds_same_disk]. Qed.

(** A poll that finds the interface has recorded its addresses. *)
Lemma settle_tracks n ni start m w intf w' :
  tracking m w -> fuel_loop n tt (settle_body ni start) w = (Done (Ok intf), w') ->
  exists ifs wm wn addresses, w_clock w <= w_clock wm /\ GetInterfaces wm = (Done (Ok ifs), wn) /\ intf ∈ ifs /\
    ni_MacAddress ni = Some (i_Mac intf) /\ ni_PrivateIpAddresses ni = Some <$> addresses /\
    holds newRegistry w' (at_epoch addresses m).
Proof.
  revert w. induction n as [|n IH]; intros w Ht E; [done|]. cbn [fuel_loop] in E.
  apply bind_done_inv in E as (r & w1 & Eb & E). unfold settle_body in Eb. rewrite bind_now in Eb.
  destruct (_ <=? interfaceSettleTime) in Eb; [|injection Eb as <- <-; done].
  apply bind_done_inv in Eb as (ifs & w2 & E2 & Eb).
  pose proof (frame_done same_disk _ _ _ _ (frame_GetInterfaces same_disk) E2) as D2.
  pose proof (frame_done clock_le _ _ _ _ (frame_GetInterfaces clock_le) E2) as C2.
  apply bind_done_inv in Eb as (found & w3 & E3 & Eb).
  assert (w3 = w2 /\ forall i j, found = Some (i, j) -> exists l, ifs = Ok l /\ i ∈ l /\ ni_MacAddress ni = Some (i_Mac i))
    as [-> Hfound].
  { destruct ifs as [[|main rest]|e]; [by injection E3 as <- <-| |by injection E3 as <- <-].
    apply bind_done_inv in E3 as (mac & w4 & E4 & E3). apply deref_done in E4 as [Hmac ->]. injection E3 as <- <-.
    split; [done|]. intros i j Hf. apply fmap_Some in Hf as (i' & Hf & [= -> ->]).
    apply (find_some (fun i => bool_decide (i_Mac i = mac)) (main :: rest)) in Hf as [Hin Heq].
    apply bool_decide_eq_true in Heq. exists (main :: rest).
    rewrite list_elem_of_In, Heq. done. }
  destruct found as [[i main]|].
  - destruct (Hfound _ _ eq_refl) as (l & -> & Hin & Hmac). apply bind_done_inv in Eb as ([] & w4 & E4 & Eb).
    destruct (track_new_ips_known _ _ _ E4) as [addresses Ha]. rewrite Ha in E4.
    destruct (tracking_same_disk _ _ _ D2 Ht) as [Hu Hm].
    destruct (new_ips_tracked_at_epoch addresses m w2 Hu Hm) as (w5 & E5 & H5).
    rewrite E5 in E4. injection E4 as <-. apply bind_done_inv in Eb as ([] & w6 & E6 & Eb). injection Eb as <- <-.
    injection E as <- <-. exists l, w, w2, addresses. split_and!; [lia|done..|].
    eapply holds_same_disk, H5. exact (frame_done same_disk _ _ _ _ (frame_configureInterface same_disk _ _) E6).
  - apply bind_done_inv in Eb as ([] & w4 & E4 & Eb). injection Eb as <- <-.
    apply IH in E as (l & wm & wn & addresses & Hc & H).
    + exists l, wm, wn, addresses. split; [|done].
      pose proof (frame_done clock_le _ _ _ _ (frame_Sleep clock_le _) E4). unfold clock_le in *. lia.
    + eapply tracking_same_disk, Ht. etransitivity; [exact D2|].
      exact (frame_done same_disk _ _ _ _ (frame_Sleep same_disk _) E4).
Qed.
End settle_tracks.

(** An interface that was attached went through the poll. *)
Lemma attach_and_settle_inv {X} `{!Host X} c index instanceID created (w : World X) intf w' :
  attach_and_settle c index instanceID created w = (Done (Ok intf), w') ->
  exists ni start w1, created = Some ni /\ same_disk w w1 /\ clock_le w w1 /\
    fuel_loop settle_fuel tt (settle_body ni start) w1 = (Done (Ok intf), w').
Proof.
  intros E. apply bind_done_inv in E as (ni & wx & Ex & E). apply deref_done in Ex as [-> ->].
  apply bind_done_inv in E as (eni & wx & Ex & E). apply deref_done in Ex as [_ ->].
  apply bind_done_inv in E as ([att|e] & w1 & E1 & E); [|by apply bind_done_inv in E as (? & ? & _ & ?)].
  apply bind_done_inv in E as (a & wx & Ex & E). apply deref_done in Ex as [_ ->].
  apply bind_done_inv in E as (r & w2 & E2 & E). rewrite bind_now in E.
  eexists ni, _, w2. split_and!; [done| | |exact E].
  - etransitivity; [exact (frame_done same_disk _ _ _ _ (frame_ec2_call same_disk _ _) E1)|].
    exact (frame_done same_disk _ _ _ _ (frame_ec2_call same_disk _ _) E2).
  - etransitivity; [exact (frame_done clock_le _ _ _ _ (frame_ec2_call clock_le _ _) E1)|].
    exact (frame_done clock_le _ _ _ _ (frame_ec2_call clock_le _ _) E2).
Qed.

(** ** Properties *)

(** Every operation on interfaces ends: creating one polls the metadata
    for at most 30 seconds and the link for at most 20, and removing one makes
    a bounded number of attempts. *)
Theorem eni_operations_terminate {X} `{!Host X} (w : World X) :
  (forall secGrps requiredTags ipBatchSize, (NewInterface secGrps requiredTags ipBatchSize w).1 <> OutOfFuel) /\
  (forall index secGrps subnet ipBatchSize,
     (NewInterfaceOnSubnetAtIndex index secGrps subnet ipBatchSize w).1 <> OutOfFuel) /\
  (forall ids, (RemoveInterface ids w).1 <> OutOfFuel).
Proof.
  split_and!; [intros g t b; apply terminates_NewInterface|intros i g s b; apply terminates_NewInterfaceOnSubnetAtIndex
    |intros ids; apply terminates_RemoveInterface].
Qed.

(** C18: a new interface is attached at the index after the existing ones, of
    which there are fewer than the instance allows, and is placed in a subnet
    that carries every required tag and has at least as many free addresses as
    any other such subnet. *)
Theorem NewInterface_placement {X} `{!Host X} secGrps requiredTags ipBatchSize (w : World X) intf w' :
  NewInterface secGrps requiredTags ipBatchSize w = (Done (Ok intf), w') ->
  exists subnets existing limits w1 w2 w3 subnet,
    GetSubnetsForInstance w = (Done (Ok subnets), w1) /\ GetInterfaces w1 = (Done (Ok existing), w2) /\
    ENILimits w2 = (Done limits, w3) /\ Z.of_nat (length existing) < Adapters limits.1 /\
    subnet ∈ subnets /\ tagged requiredTags subnet = true /\
    (forall other, other ∈ subnets -> tagged requiredTags other = true ->
       s_AvailableAddressCount other <= s_AvailableAddressCount subnet) /\
    NewInterfaceOnSubnetAtIndex (Z.of_nat (length existing)) secGrps subnet ipBatchSize w3 = (Done (Ok intf), w').
Proof.
  intros E. apply bind_done_inv in E as ([subnets|e] & w1 & E1 & E); [|done].
  apply bind_done_inv in E as ([existing|e] & w2 & E2 & E); [|done].
  apply bind_done_inv in E as (limits & w3 & E3 & E).
  destruct (Z.leb_spec (Adapters limits.1) (Z.of_nat (length existing))) as [H|H]; [done|].
  unfold available_subnets in E.
  pose proof (sort_slice_perm (X := X) _ SubnetsByAvailableAddressCount_Less (List.filter (tagged requiredTags) subnets)) as Hp.
  pose proof (sort_slice_sorted (X := X) _ SubnetsByAvailableAddressCount_Less (List.filter (tagged requiredTags) subnets) _) as Hs.
  destruct (sort_slice _ (List.filter _ _)) as [|subnet rest]; [done|].
  assert (forall s, s ∈ subnet :: rest <-> s ∈ subnets /\ tagged requiredTags s = true) as Hin.
  { intros s. rewrite Hp, !list_elem_of_In. apply filter_In. }
  apply Sorted_StronglySorted in Hs; [|intros a b c; unfold SubnetsByAvailableAddressCount_Less; lia].
  apply StronglySorted_inv in Hs as [_ Hs]. rewrite Forall_forall in Hs.
  destruct (proj1 (Hin subnet)) as [Hsub Htag]; [by left|].
  exists subnets, existing, limits, w1, w2, w3, subnet. split_and!; [done..| |done].
  intros o Ho Hto. assert (o ∈ subnet :: rest) as [->|Hr]%elem_of_cons by by apply Hin.
  - lia.
  - specialize (Hs o Hr). unfold SubnetsByAvailableAddressCount_Less in Hs. lia.
Qed.

(** C24: when EC2 refuses to attach the interface just created, that interface
    is deleted, and the caller gets the error of the deletion if there is one
    and of the attachment otherwise. *)
Theorem attach_failure_rolls_back {X} `{!Host X} region index instanceID ni eni (w : World X) err w1 :
  ni_NetworkInterfaceId ni = Some eni ->
  ext (ec2_AttachNetworkInterface region (mkAttachRequest index instanceID eni)) w = (Done (Err err), w1) ->
  exists d w2, ext (ec2_DeleteNetworkInterface region eni) w1 = (Done d, w2) /\
    attach_and_settle (Some region) index instanceID (Some ni) w = (Done (Err (default err d)), w2).
Proof.
  intros Hid E. unfold attach_and_settle. cbn [deref]. rewrite bind_ret, Hid. cbn [deref]. rewrite bind_ret.
  unfold ec2_call. cbn [deref]. do 2 eexists. split; [done|].
  rewrite (bind_done _ _ w (Err err) w1) by exact E. rewrite bind_eq, bind_ret.
  unfold ext at 1. cbv zeta. by destruct (ec2_DeleteNetworkInterface region eni (w_ext w1)).2.
Qed.

(** C7: however [RemoveInterface] ends, with or without an error or by a panic,
    the deletions it asked EC2 for are those of a prefix of the given
    interfaces, one each and in order; each request came after an answer of EC2
    that described that interface as available, given during its removal, and
    at least five seconds after that answer; the first refused deletion is the
    last request; and when no error is returned every interface was deleted. *)
Theorem RemoveInterface_waits {X} `{!Host X} `{!DeletionLog X} ids (w : World X) o w' :
  RemoveInterface ids w = (o, w') ->
  exists don, don.*1 `prefix_of` ids /\ deletions (w_ext w') = deletions (w_ext w) ++ don.*1 /\
    safe_deletions w don w' /\ (o = Done None -> don = (fun id => (id, None)) <$> ids).
Proof.
  intros E. assert (exists don, don.*1 `prefix_of` ids /\ safe_deletions w don w' /\
    (o = Done None -> don = (fun id => (id, None)) <$> ids)) as (don & Hp & Hs & Ho).
  { apply deletes_nothing_bind in E as [([c [e|]] & w1 & E1 & Q1 & E)|[Q Ho]]; [| | |apply deletes_nothing_newEC2].
    - injection E as <- <-. exists []. split_and!; [apply prefix_nil|by apply sd_none|done].
    - cbn [fst snd] in E. rewrite bind_eq in E. destruct (range_loop _ _ _ w1) as [r w2] eqn:E2.
      apply remove_all_calls in E2 as (don & Hp & Hd & Ho). exists don.
      assert (w2 = w') as -> by (destruct r as [[]| |]; by injection E).
      split_and!; [done|by eapply sd_quiet|]. intros ->. apply Ho. by destruct r as [[[]|]| |].
    - exists []. split_and!; [apply prefix_nil|by apply sd_none|by intros ->; edestruct Ho]. }
  exists don. split_and!; [done|by apply safe_deletions_log|done|done].
Qed.

(** C26: when a new interface was made, each address EC2 gave it is entered in the
    registry at the epoch, so that it counts as free for as long as one cares to
    ask, and nothing else changes there.  The addresses are those of EC2's answer
    to the one request, which names the given subnet and security groups, and
    the interface returned is the one the metadata lists with the MAC address of
    that answer. *)
Theorem NewInterface_tracks_ips {X} `{!Host X} `{!ReliableOS X} `{!PlainInstanceTypes X}
    index secGrps subnet ipBatchSize m (w : World X) intf w' :
  registry_dir X newRegistry ∈ w_dirs w -> holds newRegistry w m -> doc_plain w ->
  NewInterfaceOnSubnetAtIndex index secGrps subnet ipBatchSize w = (Done (Ok intf), w') ->
  exists region w1 id w2 limits w3 ni w4 ifs wm wn addresses,
    newEC2 w = (Done (Some region, None), w1) /\ getIDDoc w1 = (Done (Some id, None), w2) /\
    ENILimits w2 = (Done limits, w3) /\
    ext (ec2_CreateNetworkInterface region (mkCreateRequest ("CNI-ENI " +:+ id_InstanceID id)%string secGrps
      (s_ID subnet) (secondary_count (l_IPv4 limits.1) ipBatchSize))) w3 = (Done (Ok (Some ni)), w4) /\
    w_clock w4 <= w_clock wm /\ GetInterfaces wm = (Done (Ok ifs), wn) /\ intf ∈ ifs /\
    ni_MacAddress ni = Some (i_Mac intf) /\ ni_PrivateIpAddresses ni = Some <$> addresses /\
    holds newRegistry w' (foldl (fun m ip => <[ip_String ip := zeroTime]> m) m (omap ParseIP addresses)).
Proof.
  intros Hd Hm Hp E. apply bind_done_inv in E as ([c [e|]] & w1 & E1 & E); [done|].
  apply bind_done_inv in E as ([d [e|]] & w2 & E2 & E); [done|]. cbn [fst snd] in E.
  apply bind_done_inv in E as (id & wx & Ex & E). apply deref_done in Ex as [-> ->].
  apply bind_done_inv in E as (limits & w3 & E3 & E). cbv zeta in E.
  apply bind_done_inv in E as ([created|e] & w4 & E4 & E); [|done].
  assert (plain_step (registry_file X newRegistry) w w4) as Hs.
  { set (p := registry_file X newRegistry). etrans; [exact (frame_done _ _ _ _ _ (plain_newEC2 p) E1)|].
    etrans; [exact (frame_done _ _ _ _ _ (plain_getIDDoc p) E2)|].
    etrans; [exact (frame_done _ _ _ _ _ (plain_ENILimits p limits_key_registry) E3)|].
    exact (frame_done _ _ _ _ _ (frame_ec2_call (plain_step p) _ _) E4). }
  apply bind_done_inv in E4 as (region & wx & Ex & E4). apply deref_done in Ex as [-> ->].
  apply attach_and_settle_inv in E as (ni & start & w5 & -> & D5 & C5 & E).
  destruct (Hs Hp) as (_ & Hf & Hdirs & _).
  destruct (settle_tracks settle_fuel ni start m w5 intf w') as (ifs & wm & wn & addresses & Hc & H); [|exact E|].
  - eapply tracking_same_disk; [exact D5|]. split; [left; by apply Hdirs|]. unfold holds. by rewrite Hf.
  - exists region, w1, id, w2, limits, w3, ni, w4, ifs, wm, wn, addresses. unfold clock_le in C5.
    split_and!; [done|done|done|done|lia|apply H..].
Qed.

(** [RemoveInterface] dereferences the attachment of the interface without
    a check: for an interface that is not attached it panics instead of
    returning an error. *)
Theorem RemoveInterface_unattached_panics {X} `{!Host X} region id ids (w : World X) w1 ni w2 :
  newEC2 w = (Done (Some region, None), w1) -> describeNetworkInterface id w1 = (Done (Ok ni), w2) ->
  ni_Attachment ni = None -> exists s, RemoveInterface (id :: ids) w = (Panicked s, w2).
Proof.
  intros E1 E2 Ha. unfold RemoveInterface. rewrite (bind_done _ _ _ _ _ E1). cbn [fst snd range_loop].
  eexists. rewrite !bind_eq. unfold remove_one. rewrite (bind_done _ _ _ _ _ E2), Ha. done.
Qed.

(** ** The theorems at concrete inputs *)
#[local] Existing Instance good_host.

Definition with_eni (ni : NetworkInterface) (refuse : bool) : World Sim :=
  let s := demo_sim in
  mkWorld (w_files demo_reg_world) (w_dirs demo_reg_world) demo_clock new_awsclient []
    (mkSim (if refuse then <["refuse/attach"%string := "AttachmentLimitExceeded"%string]> (sim_meta s) else sim_meta s)
       (sim_iddoc s) (sim_ifs s) (sim_links s) (sim_macs s) (sim_pool s) (sim_types s) (sim_subnets s) (sim_vpcs s)
       (sim_peerings s) [ni] (sim_rules s) (sim_log s)).
Definition demo_ni (attachment : option (option string)) : NetworkInterface :=
  mkNetworkInterface (Some "eni-b"%string) (Some "02:bb"%string) [Some "10.0.16.40"%string] attachment
    (Some "available"%string).
Definition demo_eni_world : World Sim := with_eni (demo_ni (Some (Some "eni-attach-1"%string))) false.

Definition demo_tags : gmap string string := {["kubernetes_kubelet"%string := "true"%string]}.
Definition demo_new_world : World Sim := Eval vm_compute in (NewInterface ["sg-1"%string] demo_tags 4 demo_eni_world).2.
Lemma demo_NewInterface : NewInterface ["sg-1"%string] demo_tags 4 demo_eni_world = (Done (Ok demo_eni), demo_new_world).
Proof. vm_cast_no_check (eq_refl (Done (Ok demo_eni), demo_new_world)). Qed.

Lemma NewInterface_placement_witness :
  exists subnets existing limits w1 w2 w3 subnet,
    GetSubnetsForInstance demo_eni_world = (Done (Ok subnets), w1) /\ GetInterfaces w1 = (Done (Ok existing), w2) /\
    ENILimits w2 = (Done limits, w3) /\ Z.of_nat (length existing) < Adapters limits.1 /\
    subnet ∈ subnets /\ tagged demo_tags subnet = true /\
    (forall other, other ∈ subnets -> tagged demo_tags other = true ->
       s_AvailableAddressCount other <= s_AvailableAddressCount subnet) /\
    NewInterfaceOnSubnetAtIndex (Z.of_nat (length existing)) ["sg-1"%string] subnet 4 w3
    = (Done (Ok demo_eni), demo_new_world).
Proof. exact (@NewInterface_placement Sim good_host _ _ _ _ _ _ demo_NewInterface). Defined.

Definition demo_refused : World Sim := with_eni (demo_ni None) true.
Lemma attach_failure_rolls_back_witness :
  exists d w1 w2, ext (ec2_DeleteNetworkInterface "us-east-1" "eni-b") w1 = (Done d, w2) /\
    attach_and_settle (Some "us-east-1"%string) 2 "i-1" (Some (demo_ni None)) demo_refused
    = (Done (Err (default (ExtErr "AttachmentLimitExceeded") d)), w2).
Proof.
  destruct (@attach_failure_rolls_back Sim good_host "us-east-1" 2 "i-1" (demo_ni None) "eni-b" demo_refused
    (ExtErr "AttachmentLimitExceeded") (ext (ec2_AttachNetworkInterface "us-east-1" (mkAttachRequest 2 "i-1" "eni-b")) demo_refused).2)
    as (d & w2 & H); [reflexivity|reflexivity|].
  eexists d, _, w2. exact H.
Defined.

Definition demo_removed_world : World Sim := Eval vm_compute in (RemoveInterface ["eni-b"%string] demo_eni_world).2.
Lemma demo_RemoveInterface : RemoveInterface ["eni-b"%string] demo_eni_world = (Done None, demo_removed_world).
Proof. vm_cast_no_check (eq_refl (@Done (option error) None, demo_removed_world)). Qed.
(** What follows the word of a log entry that starts with it. *)
Fixpoint after_word (word s : string) : option string :=
  match word, s with
  | EmptyString, _ => Some s
  | String a word, String b s => if Ascii.eqb a b then after_word word s else None
  | _, _ => None
  end.
#[local] Instance sim_deletions : DeletionLog Sim.
Proof.
  refine {| deletions := fun s => omap (after_word "delete ") (sim_log s) |}; intros; cbn.
  - by rewrite omap_app.
  - by rewrite omap_app, app_nil_r.
  - done.
  - by destruct (sim_iddoc x) as [|? [|]].
Defined.
Lemma RemoveInterface_waits_witness :
  exists don, don.*1 `prefix_of` ["eni-b"%string] /\
    deletions (w_ext demo_removed_world) = deletions (w_ext demo_eni_world) ++ don.*1 /\
    safe_deletions demo_eni_world don demo_removed_world /\
    (@Done (option error) None = Done None -> don = [("eni-b"%string, None)]).
Proof.
  exact (@RemoveInterface_waits Sim good_host sim_deletions ["eni-b"%string] demo_eni_world (Done None)
    demo_removed_world demo_RemoveInterface).
Defined.

Definition demo_new_subnet : Subnet :=
  Eval vm_compute in match (GetSubnetsForInstance demo_eni_world).1 with
                     | Done (Ok (subnet :: _)) => subnet
                     | _ => zeroSubnet
                     end.
Definition demo_made_world : World Sim :=
  Eval vm_compute in (NewInterfaceOnSubnetAtIndex 2 ["sg-1"%string] demo_new_subnet 4 demo_eni_world).2.
Lemma demo_NewInterfaceOnSubnet :
  NewInterfaceOnSubnetAtIndex 2 ["sg-1"%string] demo_new_subnet 4 demo_eni_world = (Done (Ok demo_eni), demo_made_world).
Proof. vm_cast_no_check (eq_refl (Done (Ok demo_eni), demo_made_world)). Qed.
Lemma NewInterface_tracks_ips_witness :
  exists region w1 id w2 limits w3 ni w4 ifs wm wn addresses,
    newEC2 demo_eni_world = (Done (Some region, None), w1) /\ getIDDoc w1 = (Done (Some id, None), w2) /\
    ENILimits w2 = (Done limits, w3) /\
    ext (ec2_CreateNetworkInterface region (mkCreateRequest ("CNI-ENI " +:+ id_InstanceID id)%string ["sg-1"%string]
      (s_ID demo_new_subnet) (secondary_count (l_IPv4 limits.1) 4))) w3 = (Done (Ok (Some ni)), w4) /\
    w_clock w4 <= w_clock wm /\ GetInterfaces wm = (Done (Ok ifs), wn) /\ demo_eni ∈ ifs /\
    ni_MacAddress ni = Some (i_Mac demo_eni) /\ ni_PrivateIpAddresses ni = Some <$> addresses /\
    holds newRegistry demo_made_world
      (foldl (fun m ip => <[ip_String ip := zeroTime]> m) demo_registry (omap ParseIP addresses)).
Proof.
  apply (@NewInterface_tracks_ips Sim good_host _ _ 2 ["sg-1"%string] demo_new_subnet 4 demo_registry demo_eni_world demo_eni
    demo_made_world); [cbn; set_solver|exact demo_holds|done|exact demo_NewInterfaceOnSubnet].
Defined.

Definition demo_unattached : World Sim := with_eni (demo_ni None) false.
Definition demo_unattached_w1 : World Sim := Eval vm_compute in (newEC2 demo_unattached).2.
Definition demo_unattached_w2 : World Sim := Eval vm_compute in (describeNetworkInterface "eni-b" demo_unattached_w1).2.
Lemma RemoveInterface_unattached_panics_witness :
  exists s, RemoveInterface ["eni-b"%string] demo_unattached = (Panicked s, demo_unattached_w2).
Proof.
  apply (@RemoveInterface_unattached_panics Sim good_host "us-east-1" "eni-b" [] demo_unattached demo_unattached_w1
    (demo_ni None) demo_unattached_w2); [vm_compute; reflexivity|vm_compute; reflexivity|reflexivity].
Defined.
