(* ===== verification/CniConf.v ===== *)
(** * CniConf: what the three plugins receive and share

    The arguments of a call ([skel.CmdArgs]), the combinators the decoders of the
    three configurations are made of, and the part of the configuration the
    chained plugins embed ([types.NetConf]), with its previous result. *)

From S2P Require Export Sim.

(** [skel.CmdArgs]; the standard input is [None] when it is not JSON. *)
Record CmdArgs := mkCmdArgs { StdinData : option json; Netns : string; IfName : string; ContainerID : string }.

(** [json.Unmarshal] of standard input. *)
Definition json_Unmarshal {A} (stdin : option json) (d : decoder A) (cur : A) : result A :=
  match stdin with
  | None => Err (ExtErr "json: syntax error")
  | Some j => match d j cur with Some a => Ok a | None => Err (ExtErr "json: cannot unmarshal") end
  end.

(** A document read into an [interface{}]: members are unique and in order.
    Numbers stay as they are written. *)
Fixpoint any_value (j : json) : json :=
  match j with
  | JArr l => JArr (any_value <$> l)
  | JObj l => JObj (sorted_members (list_to_map (reverse ((fun p => (p.1, any_value p.2)) <$> l))))
  | _ => j
  end.
Definition dec_any : decoder json := fun j _ => Some (any_value j).
(** [map[string]interface{}] *)
Abbreviation anymap := (gmap string json) (only parsing).
Definition dec_anymap : decoder (option anymap) := dec_map dec_any JNull.
(** [*map[string]interface{}] *)
Definition dec_rawPrevResult : decoder (option anymap) := fun j cur =>
  match j with JNull => Some None | _ => dec_anymap j cur end.

(** A field of a struct: its tag, its decoder, and how it is read and set. *)
Definition field {A B} (tag : string) (d : decoder B) (get : A -> B) (set : B -> A -> A) : string * decoder A :=
  (tag, fun j a => v ← d j (get a); Some (set v a)).
(** The fields of an embedded struct. *)
Definition embed {A B} (get : A -> B) (set : B -> A -> A) (fields : list (string * decoder B)) : list (string * decoder A) :=
  (fun f => field f.1 f.2 get set) <$> fields.

Definition dec_strings : decoder (list string) := fun j cur =>
  default [] <$> dec_slice dec_string EmptyString j (Some cur).
Definition dec_DNS : decoder DNS := dec_struct [
  field "nameservers" dec_strings dns_Nameservers (fun v d => mkDNS v (dns_Domain d) (dns_Search d) (dns_Options d));
  field "domain" dec_string dns_Domain (fun v d => mkDNS (dns_Nameservers d) v (dns_Search d) (dns_Options d));
  field "search" dec_strings dns_Search (fun v d => mkDNS (dns_Nameservers d) (dns_Domain d) v (dns_Options d));
  field "options" dec_strings dns_Options (fun v d => mkDNS (dns_Nameservers d) (dns_Domain d) (dns_Search d) v)].
Definition dec_IPAM : decoder string := dec_struct [field "type" dec_string id (fun v _ => v)].

(** [types.NetConf] *)
Record NetConfBase := mkNetConfBase {
  nc_CNIVersion : string; nc_Name : string; nc_Type : string;
  nc_Capabilities : option (gmap string bool); nc_IPAM_Type : string; nc_DNS : DNS;
  nc_RawPrevResult : option anymap }.
Definition zeroNetConf : NetConfBase :=
  mkNetConfBase EmptyString EmptyString EmptyString None EmptyString emptyDNS None.
Definition NetConf_fields : list (string * decoder NetConfBase) := [
  field "cniVersion" dec_string nc_CNIVersion (fun v c =>
    mkNetConfBase v (nc_Name c) (nc_Type c) (nc_Capabilities c) (nc_IPAM_Type c) (nc_DNS c) (nc_RawPrevResult c));
  field "name" dec_string nc_Name (fun v c =>
    mkNetConfBase (nc_CNIVersion c) v (nc_Type c) (nc_Capabilities c) (nc_IPAM_Type c) (nc_DNS c) (nc_RawPrevResult c));
  field "type" dec_string nc_Type (fun v c =>
    mkNetConfBase (nc_CNIVersion c) (nc_Name c) v (nc_Capabilities c) (nc_IPAM_Type c) (nc_DNS c) (nc_RawPrevResult c));
  field "capabilities" (dec_map dec_bool false) nc_Capabilities (fun v c =>
    mkNetConfBase (nc_CNIVersion c) (nc_Name c) (nc_Type c) v (nc_IPAM_Type c) (nc_DNS c) (nc_RawPrevResult c));
  field "ipam" dec_IPAM nc_IPAM_Type (fun v c =>
    mkNetConfBase (nc_CNIVersion c) (nc_Name c) (nc_Type c) (nc_Capabilities c) v (nc_DNS c) (nc_RawPrevResult c));
  field "dns" dec_DNS nc_DNS (fun v c =>
    mkNetConfBase (nc_CNIVersion c) (nc_Name c) (nc_Type c) (nc_Capabilities c) (nc_IPAM_Type c) v (nc_RawPrevResult c));
  field "prevResult" dec_anymap nc_RawPrevResult (fun v c =>
    mkNetConfBase (nc_CNIVersion c) (nc_Name c) (nc_Type c) (nc_Capabilities c) (nc_IPAM_Type c) (nc_DNS c) v)].

(** ** Documents that do not mention a field *)

(** A property every field decoder but one keeps is kept by documents that do
    not mention that field. *)
Lemma dec_fields_keeps {A} (fields : list (string * decoder A)) (tag : string) (P : A -> Prop) members a a' :
  Forall (fun f => f.1 = tag \/ forall j a a', f.2 j a = Some a' -> P a -> P a') fields ->
  Forall (fun kv => eq_fold tag kv.1 = false) members ->
  dec_fields fields members a = Some a' -> P a -> P a'.
Proof.
  intros Hf Hm. revert a. induction Hm as [|[k j] l Hk _ IH]; intros a; [by intros [= <-]|].
  rewrite dec_fields_cons. cbn [fst] in Hk. destruct (find_field fields k) as [d|] eqn:Ed; [|apply IH].
  destruct (d j a) as [b|] eqn:Eb; [|done]. intros E HP. apply (IH b E).
  clear IH E. induction Hf as [|[t d'] fs [Ht|Ht] _ IHf]; [done|..]; cbn [find_field] in Ed.
  - cbn [fst] in Ht. subst t. rewrite Hk in Ed. by apply IHf.
  - destruct (eq_fold t k); [|by apply IHf]. injection Ed as ->. by eapply Ht.
Qed.
Lemma field_inv {A B} tag (d : decoder B) (get : A -> B) set j a a' :
  (field tag d get set).2 j a = Some a' -> exists v, d j (get a) = Some v /\ a' = set v a.
Proof. cbn. destruct (d j (get a)) as [v|]; [|done]. intros [= <-]. by exists v. Qed.

(** Solves the side condition of [dec_fields_keeps] for a list of fields. *)
Ltac keeps_fields :=
  repeat (apply List.Forall_cons || apply List.Forall_nil);
  first [by left | right; intros ? ? ? (? & _ & ->)%field_inv HP; exact HP].
