(* ===== verification/Ipam.v ===== *)
(** * Ipam: plugin/ipam/main.go

    The IPAM plugin: for an ADD request it reuses an address of the host that
    has been free for long enough, or asks AWS for one, and prints the address
    with the gateway, the DNS server and the routes derived from the interface;
    for a DEL request it hands the addresses of the container back.

    [append(subnetAddr[:3], subnetAddr[3]+1)] writes the gateway into the
    backing array of the interface's own subnet address (and likewise for DNS).
    That array is not read again, so the model computes the two addresses. *)

From S2P Require Export Eni Vpc Lock CniConf.

(** [PluginConf]; the slices and the map are nil when [None]. *)
Record PluginConf := mkPluginConf {
  Name : string; CNIVersion : string; SecGroupIds : option (list string);
  SubnetTags : option (gmap string string); IfaceIndex : Z; SkipDeallocation : bool;
  RouteToVPCPeers : bool; ReuseIPWait : Z; IPBatchSize : Z; RouteToCidrs : option (list string) }.

(** The configuration before the JSON is read over it. *)
Definition defaultConf : PluginConf := mkPluginConf EmptyString EmptyString None None 0 false false 60 1 None.

Definition dec_conf : decoder PluginConf := dec_struct [
  field "name" dec_string Name (fun v c =>
    mkPluginConf v (CNIVersion c) (SecGroupIds c) (SubnetTags c) (IfaceIndex c)
      (SkipDeallocation c) (RouteToVPCPeers c) (ReuseIPWait c) (IPBatchSize c) (RouteToCidrs c));
  field "cniVersion" dec_string CNIVersion (fun v c =>
    mkPluginConf (Name c) v (SecGroupIds c) (SubnetTags c) (IfaceIndex c)
      (SkipDeallocation c) (RouteToVPCPeers c) (ReuseIPWait c) (IPBatchSize c) (RouteToCidrs c));
  field "secGroupIds" (dec_slice dec_string EmptyString) SecGroupIds (fun v c =>
    mkPluginConf (Name c) (CNIVersion c) v (SubnetTags c) (IfaceIndex c)
      (SkipDeallocation c) (RouteToVPCPeers c) (ReuseIPWait c) (IPBatchSize c) (RouteToCidrs c));
  field "subnetTags" (dec_map dec_string EmptyString) SubnetTags (fun v c =>
    mkPluginConf (Name c) (CNIVersion c) (SecGroupIds c) v (IfaceIndex c)
      (SkipDeallocation c) (RouteToVPCPeers c) (ReuseIPWait c) (IPBatchSize c) (RouteToCidrs c));
  field "interfaceIndex" dec_int IfaceIndex (fun v c =>
    mkPluginConf (Name c) (CNIVersion c) (SecGroupIds c) (SubnetTags c) v
      (SkipDeallocation c) (RouteToVPCPeers c) (ReuseIPWait c) (IPBatchSize c) (RouteToCidrs c));
  field "skipDeallocation" dec_bool SkipDeallocation (fun v c =>
    mkPluginConf (Name c) (CNIVersion c) (SecGroupIds c) (SubnetTags c) (IfaceIndex c)
      v (RouteToVPCPeers c) (ReuseIPWait c) (IPBatchSize c) (RouteToCidrs c));
  field "routeToVpcPeers" dec_bool RouteToVPCPeers (fun v c =>
    mkPluginConf (Name c) (CNIVersion c) (SecGroupIds c) (SubnetTags c) (IfaceIndex c)
      (SkipDeallocation c) v (ReuseIPWait c) (IPBatchSize c) (RouteToCidrs c));
  field "reuseIPWait" dec_int ReuseIPWait (fun v c =>
    mkPluginConf (Name c) (CNIVersion c) (SecGroupIds c) (SubnetTags c) (IfaceIndex c)
      (SkipDeallocation c) (RouteToVPCPeers c) v (IPBatchSize c) (RouteToCidrs c));
  field "ipBatchSize" dec_int IPBatchSize (fun v c =>
    mkPluginConf (Name c) (CNIVersion c) (SecGroupIds c) (SubnetTags c) (IfaceIndex c)
      (SkipDeallocation c) (RouteToVPCPeers c) (ReuseIPWait c) v (RouteToCidrs c));
  field "routeToCidrs" (dec_slice dec_string EmptyString) RouteToCidrs (fun v c =>
    mkPluginConf (Name c) (CNIVersion c) (SecGroupIds c) (SubnetTags c) (IfaceIndex c)
      (SkipDeallocation c) (RouteToVPCPeers c) (ReuseIPWait c) (IPBatchSize c) v)].

Definition ipam_parseConfig (stdin : option json) : result PluginConf :=
  match json_Unmarshal stdin dec_conf defaultConf with
  | Err err => Err (Errorf "failed to parse network configuration: %v" [AErr (Some err)])
  | Ok conf =>
      match SecGroupIds conf with
      | None => Err (Errorf "secGroupIds must be specified" [])
      | Some _ => Ok conf
      end
  end.

(** The two nested loops over the free addresses and those of the registry: the
    first pair of equal addresses. *)
Fixpoint pick_free (free : list AllocationResult) (registryFreeIPs : list IP) : option (AllocationResult * IP) :=
  match free with
  | [] => None
  | freeAlloc :: rest =>
      match List.find (fun freeRegistry => ip_Equal (ar_IP freeAlloc) freeRegistry) registryFreeIPs with
      | Some freeRegistry => Some (freeAlloc, freeRegistry)
      | None => pick_free rest registryFreeIPs
      end
  end.

(** [append(a[:3], a[3]+n)] of a 4-byte address: the last byte wraps around. *)
Definition add_last (n : Z) (a : list Z) : list Z :=
  take 3 a ++ [(nth 3 a 0 + n) mod 256].

Section ipam.
Context {X : Type} `{!Host X}.

(** [time.Now().Add(time.Duration(-conf.ReuseIPWait) * time.Second)] *)
Definition reuse_limit (now : Time) (reuseIPWait : Z) : Time :=
  time_Add now (wrap64 (wrap64 (- reuseIPWait) * Second)).

(** The first part of [cmdAdd]: looking for an address to reuse.  The error is
    that of recording the address picked. *)
Definition find_reusable (conf : PluginConf) : M X (result (option AllocationResult)) :=
  free ← FindFreeIPsAtIndex (IfaceIndex conf) true;
  if bool_decide (free.2 = None) || (0 <? length free.1)%nat then
    now ← time_Now;
    registryFreeIPs ← TrackedBefore newRegistry (reuse_limit now (ReuseIPWait conf));
    match registryFreeIPs with
    | Err _ => mret (Ok None)
    | Ok registryFreeIPs =>
        match pick_free free.1 registryFreeIPs with
        | None => mret (Ok None)
        | Some (freeAlloc, freeRegistry) =>
            err ← TrackIP newRegistry freeRegistry;
            mret (match err with
                  | Some err => Err (Errorf "failed to track ip: %s" [AErr (Some err)])
                  | None => Ok (Some freeAlloc)
                  end)
        end
    end
  else mret (Ok None).

(** The second part: an address of AWS, on an interface there is or a new one. *)
Definition allocate_ip (conf : PluginConf) : M X (result AllocationResult) :=
  allocs ← AllocateIPsFirstAvailableAtIndex (IfaceIndex conf) (IPBatchSize conf);
  if bool_decide (allocs.2 = None) || (0 <? length allocs.1)%nat then
    match allocs.1 with
    | [] => panic "index out of range"
    | a :: _ => mret (Ok a)
    end
  else
    newIf ← NewInterface (default [] (SecGroupIds conf)) (default ∅ (SubnetTags conf)) (IPBatchSize conf);
    let fail err := Err (Errorf "unable to create a new elastic network interface due to %v" [AErr err]) in
    mret (match newIf with
          | Err err => fail (Some err)
          | Ok newIf =>
              match i_IPv4s newIf with
              | [] => fail None
              | ip :: _ => Ok (mkAllocationResult ip newIf)
              end
          end).

(** [net.IPNet.IP.To4()] of a network pointer, sliced to three bytes: a nil
    pointer or an IPv6 address panics. *)
Definition base_address (n : option IPNet) : M X (list Z) :=
  n ← deref n;
  match To4 (net_IP n) with
  | Some a => mret a
  | None => panic "slice bounds out of range"
  end.

Fixpoint parse_cidrs (routeToCidrs : list string) (cidrs : list IPNet) : result (list IPNet) :=
  match routeToCidrs with
  | [] => Ok cidrs
  | cidr :: rest =>
      match ParseCIDR cidr with
      | Err err => Err (Errorf "unable to parse routeToCidrs element %v" [AErr (Some err)])
      | Ok (_, parsed) => parse_cidrs rest (cidrs ++ [parsed])
      end
  end.

(** The destinations of the routes. *)
Definition route_cidrs (conf : PluginConf) (alloc : AllocationResult) : M X (result (list IPNet)) :=
  broken ← HasBugBrokenVPCCidrs;
  cidrs ← (if broken : bool then DescribeVPCCIDRs (i_VpcID (ar_Interface alloc))
           else mret (Ok (i_VpcCidrs (ar_Interface alloc))));
  match cidrs with
  | Err err => mret (Err (Errorf "Unable to enumerate CIDRs from the AWS API due to a specific meta-data bug %v" [AErr (Some err)]))
  | Ok cidrs =>
      peers ← (if RouteToVPCPeers conf then DescribeVPCPeerCIDRs (i_VpcID (ar_Interface alloc)) else mret (Ok []));
      match peers with
      | Err err => mret (Err (Errorf "unable to enumerate peer CIDrs %v" [AErr (Some err)]))
      | Ok peers => mret (parse_cidrs (default [] (RouteToCidrs conf)) (cidrs ++ peers))
      end
  end.

(** The result printed for an allocation. *)
Definition ipam_result (alloc : AllocationResult) (mask gw dns : list Z) (cidrs : list IPNet) : Result :=
  mkResult [mkCniInterface (LocalName (ar_Interface alloc)) EmptyString EmptyString]
    [mkIPConfig "4" (Some 0) (mkIPNet (ar_IP alloc) mask) gw]
    ((fun dst => mkRoute dst gw) <$> cidrs)
    (mkDNS [ip_String dns] EmptyString [] []).

(** The last part of [cmdAdd]: bringing the interface up and printing. *)
Definition hand_out (conf : PluginConf) (alloc : AllocationResult) : M X (option error) :=
  subnetAddr ← base_address (i_SubnetCidr (ar_Interface alloc));
  let gw := add_last 1 subnetAddr in
  vpcPrimaryAddr ← base_address (i_VpcPrimaryCidr (ar_Interface alloc));
  let dns := add_last 2 vpcPrimaryAddr in
  subnetCidr ← deref (i_SubnetCidr (ar_Interface alloc));
  let master := LocalName (ar_Interface alloc) in
  err ← UpInterfacePoll master;
  match err with
  | Some err => mret (Some (Errorf "unable to bring up interface %v due to %v" [AStr master; AErr (Some err)]))
  | None =>
      cidrs ←! route_cidrs conf alloc;
      err ← ForgetIP newRegistry (ar_IP alloc);
      match err with
      | Some err => mret (Some (Errorf "failed to forget ip: %s" [AErr (Some err)]))
      | None => PrintResult (ipam_result alloc (net_Mask subnetCidr) gw dns cidrs) (CNIVersion conf)
      end
  end.

Definition ipam_cmdAdd (args : CmdArgs) : M X (option error) :=
  match ipam_parseConfig (StdinData args) with
  | Err err => mret (Some err)
  | Ok conf =>
      reused ←! find_reusable conf;
      match reused with
      | Some alloc => hand_out conf alloc
      | None =>
          alloc ←! allocate_ip conf;
          hand_out conf alloc
      end
  end.

(** The addresses of the container's interface; what fails is ignored. *)
Definition container_addrs (args : CmdArgs) : M X (list Addr) :=
  r ← WithNetNSPath (Netns args) [] (fun ns addrs =>
    iface ← ext (nl_LinkByName ns (IfName args));
    match iface with
    | Err err => mret (addrs, Some err)
    | Ok iface =>
        l ← ext (nl_AddrList ns iface FAMILY_V4);
        mret (match l with Ok addrs => (addrs, None) | Err err => ([], Some err) end)
    end);
  mret r.1.

Definition ipam_cmdDel (args : CmdArgs) : M X (option error) :=
  match ipam_parseConfig (StdinData args) with
  | Err err => mret (Some err)
  | Ok conf =>
      addrs ← container_addrs args;
      r ← range_loop addrs tt (fun addr _ =>
        err ← (if negb (SkipDeallocation conf) then DeallocateIP (net_IP (ad_IPNet addr)) else mret None);
        match err with
        | Some err => mret (inr (Errorf "failed to deallocate ip: %s" [AErr (Some err)]))
        | None =>
            err ← TrackIP newRegistry (net_IP (ad_IPNet addr));
            mret (match err with
                  | Some err => inr (Errorf "failed to track ip: %s" [AErr (Some err)])
                  | None => inl tt
                  end)
        end);
      mret (match r with inl _ => None | inr err => Some err end)
  end.

Definition ipam_cmdCheck (args : CmdArgs) : M X (option error) := mret None.

(** [main]: the request runs under the lock, and the outcome of taking the
    lock is dropped. *)
Definition ipam_main (pluginMain : M X ()) : M X () :=
  _ ← LockfileRun (_ ← pluginMain; mret None); mret tt.
End ipam.

(** ** Frames and termination *)
Section ipam_frames.
Context {X : Type} `{!Host X} (R : relation (World X)) `{!PreOrder R} `{!ExtClosed R} `{!ClientClosed R} `{!DiskClosed R}.
Lemma dframe_find_reusable conf : frame R (find_reusable conf).
Proof. unfold find_reusable, time_Now. solve_frame. Qed.
Lemma dframe_allocate_ip conf : frame R (allocate_ip conf).
Proof. unfold allocate_ip. solve_frame. Qed.
Lemma frame_base_address n : frame R (base_address n).
Proof. unfold base_address. solve_frame. Qed.
Lemma dframe_route_cidrs conf alloc : frame R (route_cidrs conf alloc).
Proof. unfold route_cidrs. solve_frame. Qed.
End ipam_frames.
#[export] Hint Resolve dframe_find_reusable dframe_allocate_ip frame_base_address dframe_route_cidrs : frame.
Lemma frame_container_addrs {X} `{!Host X} (R : relation (World X)) `{!PreOrder R} `{!ExtClosed R} args :
  frame R (container_addrs args).
Proof. unfold container_addrs. solve_frame. Qed.
#[export] Hint Resolve frame_container_addrs : frame.

Section ipam_terminates.
Context {X : Type} `{!Host X}.
Lemma terminates_find_reusable conf : terminates (X := X) (find_reusable conf).
Proof. unfold find_reusable, time_Now. solve_terminates. Qed.
Lemma terminates_allocate_ip conf : terminates (X := X) (allocate_ip conf).
Proof. unfold allocate_ip. solve_terminates. Qed.
Lemma terminates_HasBug : terminates (X := X) HasBugBrokenVPCCidrs.
Proof. unfold HasBugBrokenVPCCidrs. solve_terminates. Qed.
Lemma terminates_hand_out conf alloc : terminates (X := X) (hand_out conf alloc).
Proof. pose proof terminates_HasBug. unfold hand_out, base_address, route_cidrs. solve_terminates. Qed.
Lemma terminates_ipam_cmdAdd args : terminates (X := X) (ipam_cmdAdd args).
Proof.
  pose proof terminates_find_reusable. pose proof terminates_allocate_ip. pose proof terminates_hand_out.
  unfold ipam_cmdAdd. solve_terminates.
Qed.
Lemma terminates_ipam_cmdDel args : terminates (X := X) (ipam_cmdDel args).
Proof. unfold ipam_cmdDel, container_addrs. solve_terminates. Qed.
End ipam_terminates.

(** ** What an ADD prints *)
Section printing.
Context {X : Type} `{!Host X}.
Implicit Types w : World X.

Lemma same_out_done {A} (m : M X A) w r w' : frame same_out m -> m w = (r, w') -> w_out w' = w_out w.
Proof. intros H E. exact (frame_done same_out _ _ _ _ H E). Qed.

(** The result an ADD of [conf] prints for [alloc], with destinations [cidrs]. *)
Definition printed_for (conf : PluginConf) (alloc : AllocationResult) (r : Result) : Prop :=
  exists subnet vpc sa va cidrs, i_SubnetCidr (ar_Interface alloc) = Some subnet /\ To4 (net_IP subnet) = Some sa /\
    i_VpcPrimaryCidr (ar_Interface alloc) = Some vpc /\ To4 (net_IP vpc) = Some va /\
    (exists wa wb, route_cidrs conf alloc wa = (Done (Ok cidrs), wb)) /\
    r = ipam_result alloc (net_Mask subnet) (add_last 1 sa) (add_last 2 va) cidrs.

Lemma base_address_done n w a w' :
  base_address (X := X) n w = (Done a, w') -> w' = w /\ exists net, n = Some net /\ To4 (net_IP net) = Some a.
Proof.
  unfold base_address. destruct n as [net|]; [|done]. cbn [deref]. rewrite bind_ret. destruct (To4 (net_IP net)) as [q|] eqn:E; [|done].
  intros [= <- <-]. split; [done|]. by exists net.
Qed.

Lemma PrintResult_done r v w e w' :
  PrintResult r v w = (Done e, w') ->
  w_out w' = w_out w ++ match e with None => [OutResult r v] | Some _ => [] end.
Proof.
  intros E. apply bind_done_inv in E as ([e'|] & w1 & E1 & E); injection E1 as _ <-.
  - injection E as <- <-. by rewrite app_nil_r.
  - by injection E as <- <-.
Qed.

Lemma hand_out_prints conf alloc w e w' :
  hand_out conf alloc w = (Done e, w') ->
  match e with
  | Some _ => w_out w' = w_out w
  | None => exists r, printed_for conf alloc r /\ w_out w' = w_out w ++ [OutResult r (CNIVersion conf)]
  end.
Proof.
  intros E. apply bind_done_inv in E as (sa & w1 & E1 & E).
  apply base_address_done in E1 as [-> (subnet & Hs & Hsa)].
  apply bind_done_inv in E as (va & w2 & E2 & E). apply base_address_done in E2 as [-> (vpc & Hv & Hva)].
  rewrite Hs in E. cbn [deref] in E. rewrite bind_ret in E.
  apply bind_done_inv in E as (up & w3 & E3 & E).
  pose proof (same_out_done _ _ _ _ (frame_UpInterfacePoll same_out _) E3) as O3.
  destruct up as [up|]; [by injection E as <- <-|]. cbv zeta in E.
  apply bind_done_inv in E as (cidrs & w4 & E4 & E).
  pose proof (same_out_done _ _ _ _ (dframe_route_cidrs same_out _ _) E4) as O4.
  destruct cidrs as [cidrs|err]; [|injection E as <- <-; congruence].
  apply bind_done_inv in E as (fe & w5 & E5 & E).
  pose proof (same_out_done _ _ _ _ (dframe_ForgetIP same_out _ _) E5) as O5.
  destruct fe as [fe|]; [injection E as <- <-; congruence|].
  apply PrintResult_done in E. destruct e as [e|]; [rewrite E, app_nil_r; congruence|].
  eexists. split; [|by rewrite E, O5, O4, O3].
  exists subnet, vpc, sa, va, cidrs. split_and!; [done..|by exists w3, w4|done].
Qed.
End printing.

(** ** The gateway and the DNS server *)
Definition last_mask (ones : Z) : Z := 256 - 2 ^ (8 - Z.max 0 (Z.min 8 (ones - 24))).

(** Adding 1 or 2 to the last byte of a network address of at most 30 bits
    stays in the network and does not wrap. *)
Lemma last_byte_stays ones b k :
  0 <= ones <= 30 -> is_byte b -> 1 <= k <= 2 ->
  (Z.land b (last_mask ones) + k) mod 256 = Z.land b (last_mask ones) + k /\
  Z.land (Z.land b (last_mask ones) + k) (last_mask ones) = Z.land b (last_mask ones).
Proof.
  intros Ho Hb Hk.
  assert (forallb (fun o => forallb (fun b => forallb (fun k =>
    ((Z.land b (last_mask o) + k) mod 256 =? Z.land b (last_mask o) + k) &&
    (Z.land (Z.land b (last_mask o) + k) (last_mask o) =? Z.land b (last_mask o)))
    [1; 2]) (seqZ 0 256)) (seqZ 0 31) = true) as H by (vm_compute; reflexivity).
  rewrite forallb_forall in H. specialize (H ones).
  rewrite <- list_elem_of_In, elem_of_seqZ in H. specialize (H ltac:(lia)).
  rewrite forallb_forall in H. specialize (H b). rewrite <- list_elem_of_In, elem_of_seqZ in H.
  specialize (H ltac:(unfold is_byte in Hb; lia)). rewrite forallb_forall in H.
  assert (In k [1; 2]) as Hin by (cbn; lia). specialize (H k Hin).
  apply andb_true_iff in H as [H1 H2]. by apply Z.eqb_eq in H1, H2.
Qed.

(** ** Reusing an address *)
Lemma pick_free_spec free reg a r :
  pick_free free reg = Some (a, r) -> a ∈ free /\ r ∈ reg /\ ip_Equal (ar_IP a) r = true.
Proof.
  induction free as [|b free IH]; [done|]. cbn [pick_free]. destruct (List.find _ reg) as [r'|] eqn:E.
  - intros [= <- <-]. apply find_some in E as [H1 H2]. split; [by left|]. by rewrite list_elem_of_In.
  - intros H. apply IH in H as (? & ? & ?). split; [by right|done].
Qed.

(** The keys the program writes: texts of IPv4 addresses. *)
Definition canonical (m : gmap string Time) : Prop :=
  forall k, is_Some (m !! k) -> exists ip, is_ipv4 ip /\ k = ip_String ip.

Lemma canonical_synced {X} `{!Host X} assigned lo hi m l m' :
  canonical m -> Forall (fun e => is_ipv4 e.2) l -> synced (X := X) assigned lo hi m l m' -> canonical m'.
Proof.
  intros Hm Hl [_ Hold] k Hk. destruct (decide (k ∈ entry_key <$> l)) as [Hin|Hin].
  - apply list_elem_of_fmap in Hin as (e & -> & He). rewrite Forall_forall in Hl.
    exists e.2. split; [by apply Hl|done].
  - apply Hm. by rewrite <- Hold.
Qed.

(** Among canonical keys, an address found under a key prints as that key. *)
Lemma canonical_key k r a :
  (exists ip, is_ipv4 ip /\ k = ip_String ip) -> ParseIP k = Some r -> is_ipv4 a -> ip_Equal a r = true ->
  k = ip_String a.
Proof.
  intros (ip & (q & Hq & Lq & Bq) & ->) Hr Ha Heq. rewrite (ParseIP_String_v4 _ _ Hq Bq) in Hr. injection Hr as <-.
  pose proof (is_ipv4_IPv4 q Lq Bq) as Hv. rewrite (ip_String_Equal a (IPv4 q) Ha Hv Heq).
  unfold ip_String. by rewrite To4_IPv4, Hq.
Qed.

Section reuse.
Context {X : Type} `{!Host X} `{!ReliableOS X}.
Implicit Types w : World X.

Definition sane_wait (wait : Z) : Prop := 0 <= wait <= 9000000000.

Lemma reuse_limit_ns now wait : sane_wait wait -> t_ns (reuse_limit now wait) = t_ns now - wait * Second.
Proof.
  intros H. unfold reuse_limit, time_Add, sane_wait, Second in *. cbn [t_ns].
  rewrite !wrap64_id; unfold int64_min, int64_max; rewrite ?wrap64_id; unfold int64_min, int64_max; lia.
Qed.

(** The entry of the address picked, as of just before it was picked. *)
Lemma find_reusable_entry conf m w alloc w' ifs w1 assigned w2 :
  dir_usable (registry_dir X newRegistry) w -> holds newRegistry w m -> canonical m -> 0 <= w_clock w ->
  GetInterfaces w = (Done (Ok ifs), w1) -> GetIPs w1 = (Done (Ok assigned), w2) ->
  (forall i ip, i ∈ ifs -> ip ∈ i_IPv4s i -> is_ipv4 ip) -> sane_wait (ReuseIPWait conf) ->
  find_reusable conf w = (Done (Ok (Some alloc)), w') -> w_clock w' <= max_clock ->
  in_use assigned (ar_IP alloc) = false /\ ar_Interface alloc ∈ ifs /\ IfaceIndex conf <= i_Number (ar_Interface alloc) /\
  exists t, t_ns t + ReuseIPWait conf * Second < w_clock w' /\
    match m !! ip_String (ar_IP alloc) with
    | Some t0 => t = t0
    | None => w_clock w - Second < t_ns t
    end.
Proof.
  intros Hu Hm Hcan H0 E1 E2 Hv4 Hwait E Hmax.
  set (l := scanned ifs (IfaceIndex conf)).
  assert (Forall (fun e => is_ipv4 e.2) l) as Hl.
  { apply Forall_forall. intros [i ip] (Hi & _ & Hip)%elem_of_scanned. by eapply Hv4. }
  apply bind_done_inv in E as (fr & w3 & E3 & E).
  assert (w_clock w3 <= max_clock) as Hmax3.
  { assert (clock_le w3 w') as C; [|unfold clock_le in C; lia].
    eapply frame_done; [|exact E]. unfold time_Now. solve_frame. }
  destruct (FindFree_synced (IfaceIndex conf) m w ifs w1 assigned w2) as (w3' & m3 & E3' & Hu3 & Hm3 & Hs3);
    [done..|by rewrite E3|done|done|done|].
  rewrite E3' in E3. injection E3 as <- <-. cbn [fst snd] in E. rewrite bool_decide_true in E by done.
  cbn [orb] in E. rewrite bind_now in E. apply bind_done_inv in E as (reg & w4 & E4 & E).
  destruct reg as [reg|e]; [|done].
  assert (exists lr, reg = lr /\ lr ≡ₚ released_before (reuse_limit (mkTime (w_clock w3') local_zone) (ReuseIPWait conf)) m3)
    as (lr & -> & Hlr).
  { assert (wp (TrackedBefore newRegistry (reuse_limit (mkTime (w_clock w3') local_zone) (ReuseIPWait conf)))
      (fun r _ => exists lr, r = Ok lr /\
         lr ≡ₚ released_before (reuse_limit (mkTime (w_clock w3') local_zone) (ReuseIPWait conf)) m3) w3') as Hwp.
    { apply (wp_TrackedBefore newRegistry _ m3); [done..|]. intros w5 lr _ _ Hlr. by exists lr. }
    apply (wp_done _ _ _ _ _ Hwp) in E4 as (lr & [= ->] & Hlr). by exists lr. }
  destruct (pick_free _ lr) as [[a r]|] eqn:Ep; [|done].
  apply bind_done_inv in E as (te & w5 & E5 & E). destruct te as [te|]; [done|]. injection E as <- <-.
  apply pick_free_spec in Ep as (Ha & Hr & Heq). apply elem_of_free_of in Ha as [Hin Hfree].
  pose proof Hin as Hin'. apply elem_of_scanned in Hin' as (Hi & Hidx & Hip).
  split; [done|]. split; [done|]. split; [done|].
  rewrite Hlr in Hr. unfold released_before in Hr. apply list_elem_of_omap in Hr as ([k t] & Hk & Hb).
  cbn [fst snd] in Hb. destruct (Before t _) eqn:Eb; [|done]. apply elem_of_map_to_list in Hk.
  assert (k = ip_String (ar_IP a)) as ->.
  { eapply canonical_key; [|exact Hb|by eapply Hv4|exact Heq].
    by apply (canonical_synced _ _ _ _ _ _ Hcan Hl Hs3). }
  unfold Before in Eb. rewrite reuse_limit_ns in Eb by done. cbn [t_ns] in Eb. apply Z.ltb_lt in Eb.
  assert (w_clock w3' <= w_clock w5) as C.
  { pose proof (frame_done clock_le _ _ _ _ (dframe_TrackedBefore clock_le newRegistry _) E4) as C4.
    pose proof (frame_done clock_le _ _ _ _ (dframe_TrackIP clock_le newRegistry _) E5) as C5.
    unfold clock_le in *. lia. }
  exists t. split; [lia|]. destruct Hs3 as [Hsync _]. specialize (Hsync _ Hin). unfold entry_key in Hsync.
  cbn [snd] in Hsync. rewrite Hfree, Hk in Hsync. unfold sync_key in Hsync.
  destruct (m !! ip_String (ar_IP a)) as [t0|]; [by injection Hsync|].
  destruct Hsync as (u & Hu' & [= ->]). pose proof (trunc_second_le (mkTime u local_zone)) as Ht.
  cbn [t_ns] in Ht. lia.
Qed.
End reuse.

(** [a] is the [k]-th address after the base address of the network [n], in [n]. *)
Definition next_to (k : Z) (n : IPNet) (a : list Z) : Prop :=
  length a = 4%nat /\ take 3 a = take 3 (net_IP n) /\ nth 3 a 0 = nth 3 (net_IP n) 0 + k /\
  ip_Mask a (net_Mask n) = net_IP n.

Lemma simpleMaskLength_CIDRMask ones : 0 <= ones <= 32 -> simpleMaskLength (CIDRMask ones 32) = ones.
Proof.
  intros Ho. assert (forallb (fun o => simpleMaskLength (CIDRMask o 32) =? o) (seqZ 0 33) = true) as H
    by (vm_compute; reflexivity).
  rewrite forallb_forall in H. apply Z.eqb_eq, H. rewrite <- list_elem_of_In, elem_of_seqZ. lia.
Qed.
Lemma ip_Mask_v4 a m : length a = 4%nat -> length m = 4%nat -> ip_Mask a m = zip_with Z.land a m.
Proof.
  intros La Lm. destruct a as [|? [|? [|? [|? [|? ?]]]]]; try done. by destruct m as [|? [|? [|? [|? [|? ?]]]]].
Qed.

(** Adding 1 or 2 to the base address of an IPv4 network of at most 30 bits. *)
Lemma add_last_in_network n sa k :
  wf_net n -> To4 (net_IP n) = Some sa -> length (net_Mask n) = 4%nat -> simpleMaskLength (net_Mask n) <= 30 ->
  1 <= k <= 2 -> next_to k n (add_last k sa).
Proof.
  intros (ones & len & Hlen & Ho & Hm & Li & Bi & Hi) Hsa Lm Hones Hk.
  assert (len = 4%nat) as -> by (rewrite Hm, length_CIDRMask in Lm; lia).
  change (8 * Z.of_nat 4) with 32 in *.
  assert (sa = net_IP n) as -> by (unfold To4 in Hsa; rewrite bool_decide_true in Hsa by done; by injection Hsa).
  rewrite Hm, simpleMaskLength_CIDRMask in Hones by done. clear Hsa. rewrite ip_Mask_v4 in Hi by (rewrite ?Hm; done).
  unfold next_to. rewrite ip_Mask_v4 by (unfold add_last; rewrite ?Hm, ?length_app, ?length_take, ?Li; done).
  assert (CIDRMask ones 32 = [nth 0 (CIDRMask ones 32) 0; nth 1 (CIDRMask ones 32) 0; nth 2 (CIDRMask ones 32) 0; last_mask ones])
    as HM by reflexivity.
  rewrite HM in Hm. rewrite Hm in Hi |- *. clear Hm HM. revert Hi.
  generalize (nth 0 (CIDRMask ones 32) 0), (nth 1 (CIDRMask ones 32) 0), (nth 2 (CIDRMask ones 32) 0). intros m0 m1 m2 Hi.
  destruct (net_IP n) as [|a [|b [|c [|d [|? ?]]]]]; try done.
  assert (is_byte d) as Hd by (rewrite Forall_forall in Bi; apply Bi; set_solver).
  destruct (last_byte_stays ones d k) as [W S]; [lia|done|done|].
  cbn [zip_with] in Hi. injection Hi as H0 H1 H2 H3. rewrite H3 in W, S.
  unfold add_last. cbn [take nth app length zip_with]. rewrite W, S, H0, H1, H2. done.
Qed.

(** ** The interfaces of the addresses handed out are well formed *)
Section handed_out_wf.
Context {X : Type} `{!Host X}.
Definition wf_alloc (a : AllocationResult) : Prop := wf_interface (ar_Interface a).

Lemma FindFreeIPs_wf index upd :
  ensures (X := X) (FindFreeIPsAtIndex index upd) (fun r => Forall wf_alloc r.1).
Proof.
  unfold FindFreeIPsAtIndex, FindFreeIPs_with. eapply ensures_bind; [apply GetInterfaces_wf|].
  intros [ifs|e] Hifs; [|by apply ensures_ret]. rewrite Forall_forall in Hifs.
  apply ensures_bind_any. intros [assigned|e]; [|by apply ensures_ret].
  eapply ensures_bind; [apply (ensures_range_loop _ _ _ (Forall wf_alloc) (fun e => Forall wf_alloc e.1)); [done|]|].
  - intros intf free Hin Hfree. destruct (_ <? index); [by apply ensures_ret|].
    apply (ensures_range_loop _ _ _ (Forall wf_alloc)); [done|]. intros ip acc _ Hacc.
    assert (Forall wf_alloc (acc ++ [mkAllocationResult ip intf])) as Hadd.
    { apply Forall_app. split; [done|]. apply Forall_singleton. by apply Hifs. }
    unfold scan_ip. cbv zeta.
    repeat first [apply ensures_ret; repeat case_match; simplify_eq; done | apply ensures_bind_any; intros ?
                 |match goal with |- ensures (match ?x with _ => _ end) _ => destruct x end].
  - intros [free|e] H; by apply ensures_ret.
Qed.

Lemma find_reusable_wf conf :
  ensures (X := X) (find_reusable conf) (fun r => match r with Ok (Some a) => wf_alloc a | _ => True end).
Proof.
  unfold find_reusable. eapply ensures_bind; [apply FindFreeIPs_wf|]. intros free Hfree. rewrite Forall_forall in Hfree.
  destruct (_ || _); [|by apply ensures_ret]. do 2 (apply ensures_bind_any; intros ?).
  destruct a0 as [reg|e]; [|by apply ensures_ret].
  destruct (pick_free free.1 reg) as [[x r]|] eqn:Ep; [|by apply ensures_ret].
  apply ensures_bind_any. intros [e|]; apply ensures_ret; [done|].
  apply pick_free_spec in Ep as [Hx _]. by apply Hfree.
Qed.

Lemma await_ips_wf intf n acc :
  Forall wf_alloc acc -> ensures (X := X) (await_ips intf n acc) (fun r => Forall wf_alloc r.1).
Proof.
  revert acc. induction n as [|n IH]; intros acc Hacc; cbn [await_ips]; [by apply ensures_ret|].
  eapply ensures_bind; [apply getInterface_wf|]. intros [newIntf [e|]] [_ Hwf]; cbn [fst snd] in *.
  { apply ensures_bind_any. intros _. by apply IH. }
  case_bool_decide; [|apply ensures_bind_any; intros _; by apply IH].
  eapply ensures_bind; [apply (ensures_range_loop _ _ _ (Forall wf_alloc) (fun e => Forall wf_alloc e.1)); [done|]|].
  - intros ip s _ Hs. assert (Forall wf_alloc (s ++ [mkAllocationResult ip newIntf])) as Hadd
      by (apply Forall_app; split; [done|by apply Forall_singleton]).
    unfold accept_ip. destruct (was_there _ _); [by apply ensures_ret|].
    apply ensures_bind_any. intros [[]|e]; [by apply ensures_ret| |by apply ensures_ret].
    cbv zeta. apply ensures_bind_any. intros [e|]; by apply ensures_ret.
  - intros [acc'|e] H'; [|by apply ensures_ret].
    destruct (_ <? _)%nat; [by apply ensures_ret|]. apply ensures_bind_any. intros _. by apply IH.
Qed.

Lemma AllocateIPs_wf index batchSize :
  ensures (X := X) (AllocateIPsFirstAvailableAtIndex index batchSize) (fun r => Forall wf_alloc r.1).
Proof.
  unfold AllocateIPsFirstAvailableAtIndex, AllocateIPsOn.
  apply ensures_bind_any. intros [ifs|e]; [|by apply ensures_ret]. apply ensures_bind_any. intros limits. cbv zeta.
  apply ensures_bind_any. intros [subnets|e]; [|by apply ensures_ret].
  destruct (pick_interface _ _) as [intf|]; [|by apply ensures_ret].
  apply ensures_bind_any. intros [c [e|]]; cbn [fst snd]; [by apply ensures_ret|].
  do 2 (apply ensures_bind_any; intros ?). destruct a0; [by apply ensures_ret|by apply await_ips_wf].
Qed.

Lemma settle_wf n ni start :
  ensures (X := X) (fuel_loop n tt (settle_body ni start)) (fun r => match r with Ok intf => wf_interface intf | Err _ => True end).
Proof.
  apply (ensures_fuel_loop _ _ _ (fun _ => True)); [done|]. intros u _. unfold settle_body.
  apply ensures_bind_any. intros now. destruct (_ <=? _); [|by apply ensures_ret].
  eapply ensures_bind; [apply GetInterfaces_wf|]. intros ifs Hifs.
  eapply (ensures_bind _ _ (fun found => forall i j, found = Some (i, j) -> wf_interface i)).
  - destruct ifs as [[|main rest]|e]; [by apply ensures_ret| |by apply ensures_ret].
    apply ensures_bind_any. intros mac. apply ensures_ret. intros i j Hf.
    apply fmap_Some in Hf as (i' & Hf & [= -> _]).
    apply (find_some (fun i => bool_decide (i_Mac i = mac)) (main :: rest)) in Hf as [Hin _].
    rewrite Forall_forall in Hifs. apply Hifs. by apply list_elem_of_In.
  - intros [[i j]|] Hf; [|apply ensures_bind_any; intros _; by apply ensures_ret].
    do 2 (apply ensures_bind_any; intros _). apply ensures_ret. by eapply Hf.
Qed.
Lemma NewInterface_wf secGrps requiredTags ipBatchSize :
  ensures (X := X) (NewInterface secGrps requiredTags ipBatchSize)
    (fun r => match r with Ok intf => wf_interface intf | Err _ => True end).
Proof.
  unfold NewInterface, NewInterfaceOnSubnetAtIndex, attach_and_settle.
  repeat first [apply settle_wf | by apply ensures_ret | progress cbv zeta | apply ensures_bind_any; intros ?
    | match goal with |- ensures (match ?x with _ => _ end) _ => destruct x end].
Qed.

Lemma allocate_ip_wf conf :
  ensures (X := X) (allocate_ip conf) (fun r => match r with Ok a => wf_alloc a | Err _ => True end).
Proof.
  unfold allocate_ip. eapply ensures_bind; [apply AllocateIPs_wf|]. intros allocs Ha.
  destruct (_ || _).
  - destruct Ha as [|x l Hx _]; [by intros w a w'|by apply ensures_ret].
  - eapply ensures_bind; [apply NewInterface_wf|]. intros [intf|e] Hi; apply ensures_ret; [|done].
    by destruct (i_IPv4s intf).
Qed.
End handed_out_wf.

(** ** Where the printed result comes from *)
Lemma ipam_cmdAdd_outcome {X} `{!Host X} args (w : World X) e w' :
  ipam_cmdAdd args w = (Done e, w') ->
  match e with
  | Some _ => w_out w' = w_out w
  | None => exists conf alloc r,
      ipam_parseConfig (StdinData args) = Ok conf /\ printed_for (X := X) conf alloc r /\
      w_out w' = w_out w ++ [OutResult r (CNIVersion conf)] /\
      exists wa wb : World X, find_reusable conf wa = (Done (Ok (Some alloc)), wb) \/
                              allocate_ip conf wa = (Done (Ok alloc), wb)
  end.
Proof.
  unfold ipam_cmdAdd. destruct (ipam_parseConfig (StdinData args)) as [conf|err]; [|by intros [= <- <-]].
  intros E. apply bind_done_inv in E as (fr & w1 & E1 & E).
  pose proof (same_out_done _ _ _ _ (dframe_find_reusable same_out conf) E1) as O1.
  destruct fr as [[alloc|]|err]; [| |by injection E as <- <-].
  - apply hand_out_prints in E. rewrite O1 in E. destruct e as [e|]; [done|]. destruct E as (r & Hr & Ho).
    exists conf, alloc, r. split_and!; [done..|]. exists w, w1. by left.
  - apply bind_done_inv in E as (al & w2 & E2 & E).
    pose proof (same_out_done _ _ _ _ (dframe_allocate_ip same_out conf) E2) as O2.
    destruct al as [alloc|err]; [|injection E as <- <-; congruence].
    apply hand_out_prints in E. rewrite O2, O1 in E. destruct e as [e|]; [done|]. destruct E as (r & Hr & Ho).
    exists conf, alloc, r. split_and!; [done..|]. exists w1, w2. by right.
Qed.

Lemma ipam_cmdAdd_printed {X} `{!Host X} args (w : World X) w' :
  ipam_cmdAdd args w = (Done None, w') ->
  exists conf alloc r,
    ipam_parseConfig (StdinData args) = Ok conf /\ printed_for (X := X) conf alloc r /\
    w_out w' = w_out w ++ [OutResult r (CNIVersion conf)] /\
    exists wa wb : World X, find_reusable conf wa = (Done (Ok (Some alloc)), wb) \/
                            allocate_ip conf wa = (Done (Ok alloc), wb).
Proof. apply (ipam_cmdAdd_outcome args w None w'). Qed.

(** ** Tracking at deletion *)
Section deletion.
Context {X : Type} `{!Host X} `{!ReliableOS X}.
Implicit Types w : World X.

(** [m'] is [m] with the addresses of [ips], and only those, recorded between
    [lo] and [hi]. *)
Definition released (lo hi : Z) (m : gmap string Time) (ips : list IP) (m' : gmap string Time) : Prop :=
  (forall ip, ip ∈ ips -> exists t, lo <= t <= hi /\ m' !! ip_String ip = Some (trunc_second (mkTime t (local_zone (X := X))))) /\
  (forall k, k ∉ ip_String <$> ips -> m' !! k = m !! k).


Lemma released_snoc lo hi hi' m ips m' ip t :
  hi <= hi' -> lo <= t <= hi' -> released lo hi m ips m' ->
  released lo hi' m (ips ++ [ip]) (<[ip_String ip := trunc_second (mkTime t (local_zone (X := X)))]> m').
Proof.
  intros Hhi Ht [H1 H2]. split.
  - intros ip' Hin. destruct (decide (ip_String ip' = ip_String ip)) as [->|Hne].
    + exists t. split; [done|]. apply lookup_insert_eq.
    + rewrite lookup_insert_ne by done. apply elem_of_app in Hin as [Hin| ->%list_elem_of_singleton]; [|done].
      destruct (H1 ip' Hin) as (u & ? & ?). exists u. split; [lia|done].
  - intros k Hk. rewrite fmap_app, not_elem_of_app in Hk. destruct Hk as [Hk Hk'].
    rewrite lookup_insert_ne by set_solver. by apply H2.
Qed.

Definition del_body (conf : PluginConf) (addr : Addr) (u : ()) : M X (() + error) :=
  err ← (if negb (SkipDeallocation conf) then DeallocateIP (net_IP (ad_IPNet addr)) else mret None);
  match err with
  | Some err => mret (inr (Errorf "failed to deallocate ip: %s" [AErr (Some err)]))
  | None =>
      err ← TrackIP newRegistry (net_IP (ad_IPNet addr));
      mret (match err with
            | Some err => inr (Errorf "failed to track ip: %s" [AErr (Some err)])
            | None => inl tt
            end)
  end.

Lemma del_loop_releases conf addrs don lo m m' w w' u :
  0 <= lo <= w_clock w -> w_clock w' <= max_clock ->
  dir_usable (registry_dir X newRegistry) w -> holds newRegistry w m' -> released lo (w_clock w) m don m' ->
  range_loop addrs u (del_body conf) w = (Done (inl tt), w') ->
  exists m'', holds newRegistry w' m'' /\
    released lo (w_clock w') m (don ++ ((fun a => net_IP (ad_IPNet a)) <$> addrs)) m''.
Proof.
  revert don m' w u. induction addrs as [|a addrs IH]; intros don m' w u Hlo Hmax Hu Hm Hr E.
  { injection E as _ <-. exists m'. by rewrite app_nil_r. }
  cbn [range_loop] in E. apply bind_done_inv in E as (r & w1 & E1 & E). destruct r as [u'|v]; [|done].
  assert (forall l u (wx : World X) r wy, range_loop l u (del_body conf) wx = (Done r, wy) -> clock_le wx wy) as Hc.
  { intros l v wx r wy Er. eapply (frame_done clock_le); [|exact Er]. unfold del_body. solve_frame. }
  pose proof (Hc _ _ _ _ _ E) as C1. apply bind_done_inv in E1 as (de & w2 & E2 & E1).
  assert (same_disk w w2 /\ clock_le w w2) as [D2 C2].
  { split; (eapply frame_done; [|exact E2]); solve_frame. }
  destruct de as [de|]; [done|]. apply bind_done_inv in E1 as (te & w3 & E3 & E1).
  destruct te as [te|]; [done|]. injection E1 as <- <-.
  pose proof (usable_same_disk _ _ _ D2 Hu) as Hu2. pose proof (holds_same_disk _ _ _ _ D2 Hm) as Hm2.
  assert (wp (TrackIP newRegistry (net_IP (ad_IPNet a))) (fun _ w3 => w_clock w3 <= max_clock ->
    dir_usable (registry_dir X newRegistry) w3 /\ exists m3, holds newRegistry w3 m3 /\
      released lo (w_clock w3) m (don ++ [net_IP (ad_IPNet a)]) m3) w2) as Hwp.
  { apply (wp_TrackIP newRegistry _ m'); [done..|]. intros w4 t Ht Hw4 Hh Hmax4.
    split; [by eapply reg_writes_usable|]. unfold clock_le in *. eexists. split; [apply Hh, clock_rfc3339; lia|].
    eapply released_snoc; [|lia|exact Hr]. lia. }
  unfold clock_le in *.
  destruct (wp_done _ _ _ _ _ Hwp E3) as (Hu3 & m3 & Hm3 & Hr3); [lia|].
  pose proof (frame_done clock_le _ _ _ _ (dframe_TrackIP clock_le newRegistry _) E3) as C3. unfold clock_le in C3.
  destruct (IH (don ++ [net_IP (ad_IPNet a)]) m3 w3 tt) as (m4 & Hm4 & Hr4); [lia|done..|].
  exists m4. split; [done|]. by rewrite <- app_assoc in Hr4.
Qed.
End deletion.

(** ** Properties *)

(** C4: an ADD prints nothing when it returns an error, and exactly one result
    when it succeeds, in the version the configuration names.  The result is
    for an address that was reused or allocated during the call: it carries
    the address with the mask of its subnet, the subnet's address plus one as
    the gateway, the VPC's plus two as the DNS server, and one route through
    that gateway for each destination. *)
Theorem ipam_cmdAdd_prints {X} `{!Host X} args (w : World X) e w' :
  ipam_cmdAdd args w = (Done e, w') ->
  match e with
  | Some _ => w_out w' = w_out w
  | None => exists conf alloc r,
      ipam_parseConfig (StdinData args) = Ok conf /\ printed_for (X := X) conf alloc r /\
      w_out w' = w_out w ++ [OutResult r (CNIVersion conf)] /\
      exists wa wb : World X, find_reusable conf wa = (Done (Ok (Some alloc)), wb) \/
                              allocate_ip conf wa = (Done (Ok alloc), wb)
  end.
Proof. apply ipam_cmdAdd_outcome. Qed.

(** C2: an address is reused only if no interface of the host, container or
    namespace has it bound, it belongs to an interface of the configured index
    or above, and its last release in the registry lies more than
    [reuseIPWait] seconds before the moment of reuse; an address the registry
    did not know counts as released when the call began (to the second). *)
Theorem reuse_waits {X} `{!Host X} `{!ReliableOS X} conf m (w : World X) alloc w' ifs w1 assigned w2 :
  dir_usable (registry_dir X newRegistry) w -> holds newRegistry w m -> canonical m -> 0 <= w_clock w ->
  GetInterfaces w = (Done (Ok ifs), w1) -> GetIPs w1 = (Done (Ok assigned), w2) ->
  (forall i ip, i ∈ ifs -> ip ∈ i_IPv4s i -> is_ipv4 ip) -> sane_wait (ReuseIPWait conf) ->
  find_reusable conf w = (Done (Ok (Some alloc)), w') -> w_clock w' <= max_clock ->
  in_use assigned (ar_IP alloc) = false /\
  IfaceIndex conf <= i_Number (ar_Interface alloc) /\
  match m !! ip_String (ar_IP alloc) with
  | Some t => t_ns t + ReuseIPWait conf * Second < w_clock w'
  | None => w_clock w - Second + ReuseIPWait conf * Second < w_clock w'
  end.
Proof.
  intros Hu Hm Hcan H0 E1 E2 Hv4 Hwait E Hmax.
  destruct (find_reusable_entry conf m w alloc w' ifs w1 assigned w2) as (Hf & _ & Hi & t & Ht & Hm'); [done..|].
  split; [done|]. split; [done|]. destruct (m !! _) as [t0|]; [by subst|lia].
Qed.

(** C27: what an ADD prints when it succeeds is for an address that was reused or
    allocated during the call, on an interface whose subnet and VPC are known:
    the address carries the mask of that subnet, one and the same gateway serves
    the address and every route, and there is one DNS server.  If the subnet is
    an IPv4 network of at most 30 bits, the gateway is the address of that
    network right after its base address, and if the VPC is one, the DNS server
    is the second address after its base: in both cases the byte arithmetic
    neither wraps nor leaves the network.  (For a network of 31 or 32 bits it
    does leave it.) *)
Theorem ipam_gateway_in_network {X} `{!Host X} args (w : World X) w' :
  ipam_cmdAdd args w = (Done None, w') ->
  exists conf alloc r subnet vpc gw dns,
    ipam_parseConfig (StdinData args) = Ok conf /\
    (exists wa wb : World X, find_reusable conf wa = (Done (Ok (Some alloc)), wb) \/
                             allocate_ip conf wa = (Done (Ok alloc), wb)) /\
    w_out w' = w_out w ++ [OutResult r (CNIVersion conf)] /\
    i_SubnetCidr (ar_Interface alloc) = Some subnet /\ i_VpcPrimaryCidr (ar_Interface alloc) = Some vpc /\
    res_IPs r = [mkIPConfig "4" (Some 0) (mkIPNet (ar_IP alloc) (net_Mask subnet)) gw] /\
    Forall (fun route => rt_GW route = gw) (res_Routes r) /\ dns_Nameservers (res_DNS r) = [ip_String dns] /\
    (length (net_Mask subnet) = 4%nat -> simpleMaskLength (net_Mask subnet) <= 30 -> next_to 1 subnet gw) /\
    (length (net_Mask vpc) = 4%nat -> simpleMaskLength (net_Mask vpc) <= 30 -> next_to 2 vpc dns).
Proof.
  intros E. apply ipam_cmdAdd_printed in E as (conf & alloc & r & Hc & Hr & Ho & Ha).
  assert (wf_interface (ar_Interface alloc)) as [_ _ Hsn Hvn _].
  { destruct Ha as (wa & wb & [Ha|Ha]).
    - exact (find_reusable_wf conf _ _ _ Ha).
    - exact (allocate_ip_wf conf _ _ _ Ha). }
  destruct Hr as (subnet & vpc & sa & va & cidrs & Hs & Hsa & Hv & Hva & _ & ->).
  exists conf, alloc, (ipam_result alloc (net_Mask subnet) (add_last 1 sa) (add_last 2 va) cidrs),
    subnet, vpc, (add_last 1 sa), (add_last 2 va). split_and!; [done..| |done| |].
  - cbn. apply Forall_fmap, Forall_forall. done.
  - intros Hl Ho30. apply add_last_in_network; [by apply Hsn|done..].
  - intros Hl Ho30. apply add_last_in_network; [by apply Hvn|done..].
Qed.

(** A configuration is accepted only with security groups, and what it does
    not mention has the documented defaults: addresses rest 60 seconds and are
    requested one at a time. *)
Theorem parseConfig_defaults members conf :
  ipam_parseConfig (Some (JObj members)) = Ok conf ->
  SecGroupIds conf <> None /\
  (Forall (fun kv => eq_fold "reuseIPWait" kv.1 = false) members -> ReuseIPWait conf = 60) /\
  (Forall (fun kv => eq_fold "ipBatchSize" kv.1 = false) members -> IPBatchSize conf = 1) /\
  (Forall (fun kv => eq_fold "interfaceIndex" kv.1 = false) members -> IfaceIndex conf = 0) /\
  (Forall (fun kv => eq_fold "skipDeallocation" kv.1 = false) members -> SkipDeallocation conf = false).
Proof.
  unfold ipam_parseConfig, json_Unmarshal, dec_conf, dec_struct.
  destruct (dec_fields _ members defaultConf) as [c|] eqn:E; [|done].
  destruct (SecGroupIds c) eqn:Es; [|done]. intros [= <-]. split; [by rewrite Es|].
  split_and!; intros Hno.
  - refine (dec_fields_keeps _ "reuseIPWait" (fun c => ReuseIPWait c = 60) _ _ _ _ Hno E eq_refl). keeps_fields.
  - refine (dec_fields_keeps _ "ipBatchSize" (fun c => IPBatchSize c = 1) _ _ _ _ Hno E eq_refl). keeps_fields.
  - refine (dec_fields_keeps _ "interfaceIndex" (fun c => IfaceIndex c = 0) _ _ _ _ Hno E eq_refl). keeps_fields.
  - refine (dec_fields_keeps _ "skipDeallocation" (fun c => SkipDeallocation c = false) _ _ _ _ Hno E eq_refl). keeps_fields.
Qed.

(** C25: a DEL that succeeds has recorded every address of the container's
    interface in the registry at a second of the call, whether or not it also
    released the address to AWS, and changed no other entry. *)
Theorem ipam_cmdDel_tracks {X} `{!Host X} `{!ReliableOS X} args m (w : World X) addrs w1 w' :
  dir_usable (registry_dir X newRegistry) w -> holds newRegistry w m -> 0 <= w_clock w -> w_clock w' <= max_clock ->
  container_addrs args w = (Done addrs, w1) -> ipam_cmdDel args w = (Done None, w') ->
  exists m', holds newRegistry w' m' /\
    released (X := X) (w_clock w) (w_clock w') m ((fun a => net_IP (ad_IPNet a)) <$> addrs) m'.
Proof.
  intros Hu Hm H0 Hmax E1 E. unfold ipam_cmdDel in E. destruct (ipam_parseConfig _) as [conf|e]; [|done].
  rewrite (bind_done _ _ _ _ _ E1) in E. apply bind_done_inv in E as (r & w2 & E2 & E).
  destruct r as [[]|e]; [|done]. injection E as <-.
  pose proof (frame_done same_disk _ _ _ _ (frame_container_addrs same_disk args) E1) as D1.
  pose proof (frame_done clock_le _ _ _ _ (frame_container_addrs clock_le args) E1) as C1. unfold clock_le in C1.
  destruct (del_loop_releases conf addrs [] (w_clock w) m m w1 w2 tt) as (m' & Hm' & Hr);
    [lia|done|by eapply usable_same_disk|by eapply holds_same_disk| |exact E2|by exists m'].
  split; [by intros ip ?%elem_of_nil|done].
Qed.

(** C29: when the lock cannot be had, the plugin ends without an error and
    without printing anything: the runtime that called it sees a success with
    no result. *)
Theorem ipam_main_silent {X} `{!Host X} (pluginMain : M X ()) (w w1 w2 : World X) err :
  ext lock_New w = (Done None, w1) -> acquire lock_tries w1 = (Done (Some err), w2) ->
  ipam_main pluginMain w = (Done tt, w2) /\ w_out w2 = w_out w /\ w_files w2 = w_files w.
Proof.
  intros E1 E2. unfold ipam_main, LockfileRun. rewrite bind_eq, (bind_done _ _ _ _ _ E1), (bind_done _ _ _ _ _ E2).
  split; [done|].
  pose proof (frame_done same_disk _ _ _ _ (frame_ext same_disk _) E1) as [F1 _].
  pose proof (frame_done same_disk _ _ _ _ (frame_acquire same_disk _) E2) as [F2 _].
  pose proof (same_out_done _ _ _ _ (frame_ext same_out _) E1). pose proof (same_out_done _ _ _ _ (frame_acquire same_out _) E2).
  split; congruence.
Qed.

(** ** The theorems at concrete inputs *)
#[local] Existing Instance good_host.

Definition demo_members : list (string * json) :=
  [("cniVersion"%string, JStr "0.3.1"); ("secGroupIds"%string, JArr [JStr "sg-1"]); ("interfaceIndex"%string, JInt 1)].
Definition demo_conf : PluginConf :=
  mkPluginConf EmptyString "0.3.1" (Some ["sg-1"%string]) None 1 false false 60 1 None.
Definition demo_args : CmdArgs := mkCmdArgs (Some (JObj demo_members)) "/var/run/netns/pod" "eth1" "c1".
Lemma demo_parse : ipam_parseConfig (StdinData demo_args) = Ok demo_conf.
Proof. reflexivity. Qed.

Definition demo_add_world : World Sim := Eval vm_compute in (ipam_cmdAdd demo_args demo_reg_world).2.
Lemma demo_add : ipam_cmdAdd demo_args demo_reg_world = (Done None, demo_add_world).
Proof. vm_cast_no_check (eq_refl (@Done (option error) None, demo_add_world)). Qed.
Example demo_add_out : w_out demo_add_world =
  [OutResult (mkResult [mkCniInterface "eth1" EmptyString EmptyString]
     [mkIPConfig "4" (Some 0) (mkIPNet (IPv4 [10; 0; 16; 21]) [255; 255; 240; 0]) [10; 0; 16; 1]]
     [mkRoute (mkIPNet [10; 0; 0; 0] [255; 255; 0; 0]) [10; 0; 16; 1];
      mkRoute (mkIPNet [100; 64; 0; 0] [255; 255; 0; 0]) [10; 0; 16; 1]]
     (mkDNS ["10.0.0.2"%string] EmptyString [] [])) "0.3.1"].
Proof. reflexivity. Qed.

Lemma ipam_cmdAdd_prints_witness :
  exists conf alloc r,
      ipam_parseConfig (StdinData demo_args) = Ok conf /\ printed_for (X := Sim) conf alloc r /\
      w_out demo_add_world = w_out demo_reg_world ++ [OutResult r (CNIVersion conf)] /\
      exists wa wb : World Sim, find_reusable conf wa = (Done (Ok (Some alloc)), wb) \/
                              allocate_ip conf wa = (Done (Ok alloc), wb).
Proof. exact (@ipam_cmdAdd_prints Sim good_host demo_args demo_reg_world None demo_add_world demo_add). Defined.

Definition demo_reused : AllocationResult := mkAllocationResult (IPv4 [10; 0; 16; 21]) demo_eni.
Definition demo_reuse_world : World Sim := Eval vm_compute in (find_reusable demo_conf demo_reg_world).2.
Lemma demo_find_reusable : find_reusable demo_conf demo_reg_world = (Done (Ok (Some demo_reused)), demo_reuse_world).
Proof. vm_cast_no_check (eq_refl (Done (Ok (Some demo_reused)), demo_reuse_world)). Qed.
Lemma demo_canonical : canonical demo_registry.
Proof.
  intros k [t Hk]. unfold demo_registry in Hk. apply lookup_singleton_Some in Hk as [<- _]. exists (ip4 10 0 16 21). split; [|reflexivity].
  exists (ip4 10 0 16 21). split_and!; [reflexivity|reflexivity|]. by repeat constructor.
Qed.
Lemma reuse_waits_witness :
  in_use demo_assigned (ar_IP demo_reused) = false /\
  IfaceIndex demo_conf <= i_Number (ar_Interface demo_reused) /\
  match demo_registry !! ip_String (ar_IP demo_reused) with
  | Some t => t_ns t + ReuseIPWait demo_conf * Second < w_clock demo_reuse_world
  | None => w_clock demo_reg_world - Second + ReuseIPWait demo_conf * Second < w_clock demo_reuse_world
  end.
Proof.
  apply (@reuse_waits Sim good_host _ demo_conf demo_registry demo_reg_world demo_reused demo_reuse_world
    demo_ifs demo_w1 demo_assigned demo_w2 (demo_usable _) demo_holds demo_canonical);
    [vm_compute; discriminate|exact demo_GetInterfaces|exact demo_GetIPs|exact demo_ifs_v4
    |split; vm_compute; discriminate|exact demo_find_reusable|vm_compute; discriminate].
Defined.

Lemma ipam_gateway_in_network_witness :
  exists conf alloc r subnet vpc gw dns,
    ipam_parseConfig (StdinData demo_args) = Ok conf /\
    (exists wa wb : World Sim, find_reusable conf wa = (Done (Ok (Some alloc)), wb) \/
                               allocate_ip conf wa = (Done (Ok alloc), wb)) /\
    w_out demo_add_world = w_out demo_reg_world ++ [OutResult r (CNIVersion conf)] /\
    i_SubnetCidr (ar_Interface alloc) = Some subnet /\ i_VpcPrimaryCidr (ar_Interface alloc) = Some vpc /\
    res_IPs r = [mkIPConfig "4" (Some 0) (mkIPNet (ar_IP alloc) (net_Mask subnet)) gw] /\
    Forall (fun route => rt_GW route = gw) (res_Routes r) /\ dns_Nameservers (res_DNS r) = [ip_String dns] /\
    (length (net_Mask subnet) = 4%nat -> simpleMaskLength (net_Mask subnet) <= 30 -> next_to 1 subnet gw) /\
    (length (net_Mask vpc) = 4%nat -> simpleMaskLength (net_Mask vpc) <= 30 -> next_to 2 vpc dns).
Proof. exact (@ipam_gateway_in_network Sim good_host demo_args demo_reg_world demo_add_world demo_add). Defined.
(** The networks of the demonstration host meet the conditions. *)
Example demo_networks_v4 :
  (fun i => (simpleMaskLength <$> (net_Mask <$> i_SubnetCidr i), length <$> (net_Mask <$> i_VpcPrimaryCidr i))) demo_eni
  = (Some 20, Some 4%nat).
Proof. reflexivity. Qed.

Lemma parseConfig_defaults_witness :
  SecGroupIds demo_conf <> None /\ ReuseIPWait demo_conf = 60 /\ IPBatchSize demo_conf = 1.
Proof.
  destruct (parseConfig_defaults demo_members demo_conf demo_parse) as (H1 & H2 & H3 & _).
  split; [exact H1|]. split; [apply H2|apply H3]; by repeat constructor.
Defined.

Definition demo_del_addrs : list Addr := [mkAddr (mkIPNet (ip4 10 0 16 20) [255;255;240;0]) "eth1"].
Definition demo_del_w1 : World Sim := Eval vm_compute in (container_addrs demo_args demo_reg_world).2.
Definition demo_del_world : World Sim := Eval vm_compute in (ipam_cmdDel demo_args demo_reg_world).2.
Lemma demo_del_list : container_addrs demo_args demo_reg_world = (Done demo_del_addrs, demo_del_w1).
Proof. vm_cast_no_check (eq_refl (Done demo_del_addrs, demo_del_w1)). Qed.
Lemma demo_del : ipam_cmdDel demo_args demo_reg_world = (Done None, demo_del_world).
Proof. vm_cast_no_check (eq_refl (@Done (option error) None, demo_del_world)). Qed.
Lemma ipam_cmdDel_tracks_witness :
  exists m', holds newRegistry demo_del_world m' /\
    released (X := Sim) (w_clock demo_reg_world) (w_clock demo_del_world) demo_registry
      ((fun a => net_IP (ad_IPNet a)) <$> demo_del_addrs) m'.
Proof.
  apply (@ipam_cmdDel_tracks Sim good_host _ demo_args demo_registry demo_reg_world demo_del_addrs demo_del_w1
    demo_del_world (demo_usable _) demo_holds);
    [vm_compute; discriminate|vm_compute; discriminate|exact demo_del_list|exact demo_del].
Defined.

Definition demo_locked_w1 : World Sim :=
  (@ext Sim (@host_runtime Sim locked_host) _ (@lock_New Sim (@host_lockfile Sim locked_host)) demo_world).2.
Lemma ipam_main_silent_witness :
  exists w2, @ipam_main Sim locked_host (mret tt) demo_world = (Done tt, w2) /\
    w_out w2 = w_out demo_world /\ w_files w2 = w_files demo_world.
Proof.
  exists (@acquire Sim locked_host lock_tries demo_locked_w1).2.
  apply (@ipam_main_silent Sim locked_host (mret tt) demo_world demo_locked_w1 _
    (Errorf "Lockfile not acquired, aborting" [])); [reflexivity|vm_compute; reflexivity].
Defined.
