(* ===== verification/Ipvlan.v ===== *)
(** * Ipvlan: plugin/ipvlan/ipvlan.go

    The second plugin of the chain: it makes an ipvlan link on the master
    interface, moves it into the Pod's namespace and configures it with the
    addresses of the previous result, or of an IPAM plugin of its own. *)

From S2P Require Export CniConf Ipam.

(** [NetConf]; [ipvlan_RawPrevResult] is the pointer of the outer struct, which
    hides the field of the same tag of the embedded one. *)
Record NetConf := mkNetConf {
  ipvlan_NetConf : NetConfBase; ipvlan_RawPrevResult : option (gmap string json);
  ipvlan_PrevResult : option Result; Master : string; Mode : string; ipvlan_MTU : Z }.

Definition NetConf_own_fields : list (string * decoder NetConf) := [
  field "prevResult" dec_rawPrevResult ipvlan_RawPrevResult (fun v n =>
    mkNetConf (ipvlan_NetConf n) v (ipvlan_PrevResult n) (Master n) (Mode n) (ipvlan_MTU n));
  field "master" dec_string Master (fun v n =>
    mkNetConf (ipvlan_NetConf n) (ipvlan_RawPrevResult n) (ipvlan_PrevResult n) v (Mode n) (ipvlan_MTU n));
  field "mode" dec_string Mode (fun v n =>
    mkNetConf (ipvlan_NetConf n) (ipvlan_RawPrevResult n) (ipvlan_PrevResult n) (Master n) v (ipvlan_MTU n));
  field "mtu" dec_int ipvlan_MTU (fun v n =>
    mkNetConf (ipvlan_NetConf n) (ipvlan_RawPrevResult n) (ipvlan_PrevResult n) (Master n) (Mode n) v)].
Definition dec_NetConf : decoder NetConf := dec_struct (NetConf_own_fields ++
  embed ipvlan_NetConf (fun b n =>
    mkNetConf b (ipvlan_RawPrevResult n) (ipvlan_PrevResult n) (Master n) (Mode n) (ipvlan_MTU n)) NetConf_fields).

Inductive cni_cmd := cniAdd | cniDel.
#[export] Instance cni_cmd_eq_dec : EqDecision cni_cmd.
Proof. solve_decision. Defined.

Definition modeFromString (s : string) : result IPVlanMode :=
  if bool_decide (s = EmptyString) || bool_decide (s = "l2"%string) then Ok IPVLAN_MODE_L2
  else if bool_decide (s = "l3"%string) then Ok IPVLAN_MODE_L3
  else if bool_decide (s = "l3s"%string) then Ok IPVLAN_MODE_L3S
  else Err (Errorf "unknown ipvlan mode: %q" [AStr s]).

Section ipvlan.
Context {X : Type} `{!Host X}.

(** The previous result of a chained call, as both plugins read it:
    [json.Marshal] of a decoded map does not fail. *)
Definition read_prevResult (cniVersion : string) (raw : option (gmap string json)) : result (option Result) :=
  match raw with
  | None => Ok None
  | Some m =>
      match version_NewResult (X := X) cniVersion m with
      | Err err => Err (Errorf "could not parse prevResult: %v" [AErr (Some err)])
      | Ok res =>
          match current_NewResultFromResult res with
          | Err err => Err (Errorf "could not convert result to current version: %v" [AErr (Some err)])
          | Ok r => Ok (Some r)
          end
      end
  end.

(** The part of [loadConf] that follows the parsing: the master interface. *)
Definition choose_master (n : NetConf) (cmd : cni_cmd) : result NetConf :=
  if bool_decide (Master n = EmptyString) && negb (bool_decide (cmd = cniDel)) then
    match ipvlan_PrevResult n with
    | None => Err (Errorf "`master` field is required. It specifies the host interface name to virtualize" [])
    | Some prev =>
        match res_Interfaces prev with
        | [i] =>
            if bool_decide (if_Name i = EmptyString)
            then Err (Errorf "chained master failure. PrevResult lacks a single named interface" [])
            else Ok (mkNetConf (ipvlan_NetConf n) (ipvlan_RawPrevResult n) (ipvlan_PrevResult n) (if_Name i) (Mode n) (ipvlan_MTU n))
        | _ => Err (Errorf "chained master failure. PrevResult lacks a single named interface" [])
        end
    end
  else Ok n.

Definition loadConf (bytes : option json) (cmd : cni_cmd) : result (NetConf * string) :=
  match json_Unmarshal bytes dec_NetConf (mkNetConf zeroNetConf None None EmptyString EmptyString 0) with
  | Err err => Err (Errorf "failed to load netconf: %v" [AErr (Some err)])
  | Ok n =>
      match read_prevResult (nc_CNIVersion (ipvlan_NetConf n)) (ipvlan_RawPrevResult n) with
      | Err err => Err err
      | Ok prev =>
          match choose_master (mkNetConf (ipvlan_NetConf n) None prev (Master n) (Mode n) (ipvlan_MTU n)) cmd with
          | Err err => Err err
          | Ok n => Ok (n, nc_CNIVersion (ipvlan_NetConf n))
          end
      end
  end.

(** The closure fills in the interface it captures. *)
Definition createIpvlan (conf : NetConf) (ifName : string) (netns : string) : M X (result CniInterface) :=
  match modeFromString (Mode conf) with
  | Err err => mret (Err err)
  | Ok mode =>
      m ← ext (nl_LinkByName host_ns (Master conf));
      match m with
      | Err err => mret (Err (Errorf "failed to lookup master %q: %v" [AStr (Master conf); AErr (Some err)]))
      | Ok m =>
          tmpName ←? ext ip_RandomVethName;
          err ← ext (nl_LinkAdd (mkIPVlan (ipvlan_MTU conf) tmpName (ln_Index m) netns mode));
          match err with
          | Some err => mret (Err (Errorf "failed to create ipvlan: %v" [AErr (Some err)]))
          | None =>
              r ← netns_Do netns (mkCniInterface EmptyString EmptyString EmptyString) (fun ns ipvlan =>
                err ← ext (ip_RenameLink ns tmpName ifName);
                match err with
                | Some err => mret (ipvlan, Some (Errorf "failed to rename ipvlan to %q: %v" [AStr ifName; AErr (Some err)]))
                | None =>
                    let ipvlan := mkCniInterface ifName (if_Mac ipvlan) (if_Sandbox ipvlan) in
                    contIpvlan ← ext (nl_LinkByName ns (if_Name ipvlan));
                    mret (match contIpvlan with
                          | Err err => (ipvlan, Some (Errorf "failed to refetch ipvlan %q: %v" [AStr (if_Name ipvlan); AErr (Some err)]))
                          | Ok contIpvlan => (mkCniInterface (if_Name ipvlan) (ln_HardwareAddr contIpvlan) netns, None)
                          end)
                end);
              mret (match r.2 with Some err => Err err | None => Ok r.1 end)
          end
      end
  end.

(** The configuration an IPAM plugin of its own gives. *)
Definition exec_ipam (n : NetConf) (stdin : option json) : M X (result Result) :=
  r ←? ext (ipam_ExecAdd (nc_IPAM_Type (ipvlan_NetConf n)) stdin);
  match current_NewResultFromResult r with
  | Err err => mret (Err err)
  | Ok res =>
      match res_IPs res with
      | [] => mret (Err (Errorf "IPAM plugin returned missing IP config" []))
      | _ => mret (Ok res)
      end
  end.

(** The result to configure. *)
Definition ipvlan_result (n : NetConf) (stdin : option json) : M X (result Result) :=
  match ipvlan_PrevResult n with
  | Some prev =>
      if bool_decide (nc_IPAM_Type (ipvlan_NetConf n) = EmptyString) && (0 <? length (res_IPs prev))%nat
      then mret (Ok prev)
      else exec_ipam n stdin
  | None => exec_ipam n stdin
  end.

(** All addresses belong to the one interface of the result. *)
Definition on_interface (ipvlanInterface : CniInterface) (r : Result) : Result :=
  mkResult [ipvlanInterface]
    ((fun ipc => mkIPConfig (ipc_Version ipc) (Some 0) (ipc_Address ipc) (ipc_Gateway ipc)) <$> res_IPs r)
    (res_Routes r) (res_DNS r).
Definition with_DNS (d : DNS) (r : Result) : Result :=
  mkResult (res_Interfaces r) (res_IPs r) (res_Routes r) d.

Definition ipvlan_cmdAdd (args : CmdArgs) : M X (option error) :=
  match loadConf (StdinData args) cniAdd with
  | Err err => mret (Some err)
  | Ok (n, cniVersion) =>
      err ← ext (ns_GetNS (Netns args));
      match err with
      | Some err => mret (Some (Errorf "failed to open netns %q: %v" [AStr (Netns args); AErr (Some err)]))
      | None =>
          with_defer
            (ipvlanInterface ←! createIpvlan n (IfName args) (Netns args);
             result ←! ipvlan_result n (StdinData args);
             let result := on_interface ipvlanInterface result in
             r ← netns_Do (Netns args) tt (fun ns _ =>
               err ← ext (ipam_ConfigureIface ns (IfName args) result); mret (tt, err));
             match r.2 with
             | Some err => mret (Some err)
             | None => PrintResult (with_DNS (nc_DNS (ipvlan_NetConf n)) result) cniVersion
             end)
            (_ ← ext (ns_Close (Netns args)); mret tt)
      end
  end.

Definition ErrLinkNotFound : string := "link not found".
Definition ipvlan_cmdDel (args : CmdArgs) : M X (option error) :=
  match loadConf (StdinData args) cniDel with
  | Err err => mret (Some err)
  | Ok (n, _) =>
      let ipam := nc_IPAM_Type (ipvlan_NetConf n) in
      !← (if bool_decide (ipam = EmptyString) then mret None else ext (ipam_ExecDel ipam (StdinData args)));
      if bool_decide (Master n = EmptyString) then mret None
      else if bool_decide (Netns args = EmptyString) then mret None
      else
        r ← WithNetNSPath (Netns args) tt (fun ns _ =>
          err ← ext (ip_DelLinkByName ns (IfName args));
          mret (tt, match err with
                    | Some err => if is_ext ErrLinkNotFound err then None else Some err
                    | None => None
                    end));
        mret r.2
  end.

Definition ipvlan_cmdCheck (args : CmdArgs) : M X (option error) := mret None.
End ipvlan.

(** ** Frames and termination *)
Lemma frame_with_defer {X} (R : relation (World X)) `{!PreOrder R} {A} (m : M X A) (d : M X ()) :
  frame R m -> frame R d -> frame R (with_defer m d).
Proof.
  intros Hm Hd w. unfold with_defer. pose proof (Hm w) as H. destruct (m w) as [[a|s|] w1]; cbn in H; [| |done].
  - etransitivity; [exact H|]. rewrite bind_eq. pose proof (Hd w1) as H'. by destruct (d w1) as [[[]|s|] w2].
  - etransitivity; [exact H|]. rewrite bind_eq. pose proof (Hd w1) as H'. by destruct (d w1) as [[[]|t|] w2].
Qed.

Section ipvlan_lemmas.
Context {X : Type} `{!Host X}.
Implicit Types w : World X.

Lemma frame_createIpvlan (R : relation (World X)) `{!PreOrder R} `{!ExtClosed R} conf ifName netns :
  frame R (createIpvlan conf ifName netns).
Proof. unfold createIpvlan. solve_frame. Qed.
Lemma frame_ipvlan_result (R : relation (World X)) `{!PreOrder R} `{!ExtClosed R} n stdin :
  frame R (ipvlan_result n stdin).
Proof. unfold ipvlan_result, exec_ipam. solve_frame. Qed.
Lemma terminates_ipvlan_cmdAdd args : terminates (X := X) (ipvlan_cmdAdd args).
Proof.
  unfold ipvlan_cmdAdd. destruct (loadConf _ _) as [[n v]|e]; [|solve_terminates].
  apply terminates_bind; [solve_terminates|]. intros [e|]; [solve_terminates|].
  apply terminates_with_defer; unfold createIpvlan, ipvlan_result, exec_ipam; solve_terminates.
Qed.

(** The interface [createIpvlan] returns is the one of the container. *)
Lemma createIpvlan_names conf ifName netns :
  ensures (X := X) (createIpvlan conf ifName netns) (fun r =>
    match r with Ok i => if_Name i = ifName /\ if_Sandbox i = netns | Err _ => True end).
Proof.
  unfold createIpvlan. destruct (modeFromString (Mode conf)) as [mode|e]; [|by apply ensures_ret].
  apply ensures_bind_any. intros [m|e]; [|by apply ensures_ret].
  apply ensures_bind_any. intros [tmp|e]; [|by apply ensures_ret].
  apply ensures_bind_any. intros [e|]; [by apply ensures_ret|].
  eapply (ensures_bind _ _ (fun r => r.2 = None -> if_Name r.1 = ifName /\ if_Sandbox r.1 = netns)).
  - unfold netns_Do. apply ensures_bind_any. intros [e|]; [by apply ensures_ret|].
    apply ensures_bind_any. intros [e|]; [by apply ensures_ret|]. cbv zeta.
    apply ensures_bind_any. intros [c|e]; by apply ensures_ret.
  - intros [i [e|]] H; apply ensures_ret; [done|]. by apply H.
Qed.

(** A result to configure has an address. *)
Lemma ipvlan_result_addresses n stdin :
  ensures (X := X) (ipvlan_result n stdin) (fun r =>
    match r with
    | Ok res => res_IPs res <> [] /\
        (ipvlan_PrevResult n = Some res \/
         exists raw, current_NewResultFromResult raw = Ok res)
    | Err _ => True
    end).
Proof.
  assert (ensures (X := X) (exec_ipam n stdin) (fun r =>
    match r with
    | Ok res => res_IPs res <> [] /\ exists raw, current_NewResultFromResult raw = Ok res
    | Err _ => True
    end)) as He.
  { unfold exec_ipam. apply ensures_bind_any. intros [raw|e]; [|by apply ensures_ret].
    destruct (current_NewResultFromResult raw) as [res|e] eqn:E; [|by apply ensures_ret].
    destruct (res_IPs res) eqn:Ei; apply ensures_ret; [done|]. rewrite Ei. split; [done|by exists raw]. }
  unfold ipvlan_result. destruct (ipvlan_PrevResult n) as [prev|].
  - destruct (bool_decide _); cbn [andb]; [destruct (Nat.ltb_spec 0 (length (res_IPs prev)))|].
    + apply ensures_ret. split; [by destruct (res_IPs prev); [cbn in *; lia|]|by left].
    + eapply ensures_mono; [exact He|]. intros [res|e]; [|done]. intros [? ?]. split; [done|by right].
    + eapply ensures_mono; [exact He|]. intros [res|e]; [|done]. intros [? ?]. split; [done|by right].
  - eapply ensures_mono; [exact He|]. intros [res|e]; [|done]. intros [? ?]. split; [done|by right].
Qed.

Lemma with_defer_done {A} (m : M X A) (d : M X ()) w a w' :
  with_defer m d w = (Done a, w') -> exists w1, m w = (Done a, w1) /\ d w1 = (Done tt, w').
Proof.
  unfold with_defer. destruct (m w) as [[b|s|] w1]; [|by rewrite bind_eq; destruct (d w1) as [[[]|?|] ?]|done].
  intros E. apply bind_done_inv in E as ([] & w2 & E1 & E2). injection E2 as <- <-. by exists w1.
Qed.

Lemma netns_Do_out {S} path (s : S) body w r w' :
  (forall ns s, frame same_out (body ns s)) ->
  netns_Do path s body w = (Done r, w') -> w_out w' = w_out w.
Proof. intros H. apply same_out_done. apply frame_netns_Do; [apply _..|exact H]. Qed.
End ipvlan_lemmas.
#[export] Hint Resolve frame_createIpvlan frame_ipvlan_result : frame.

(** ** Properties *)

(** C20: an ADD of the ipvlan plugin prints nothing when it returns an error, and
    one result when it succeeds, in the version of the configuration: its only
    interface is the container's, in the Pod's namespace, every address (there
    is at least one) belongs to that interface, the routes are those of the
    previous result or of the IPAM plugin, and the DNS settings those of the
    configuration. *)
Theorem ipvlan_cmdAdd_prints {X} `{!Host X} args (w : World X) e w' :
  ipvlan_cmdAdd args w = (Done e, w') ->
  match e with
  | Some _ => w_out w' = w_out w
  | None => exists n v src r,
      loadConf (X := X) (StdinData args) cniAdd = Ok (n, v) /\
      (ipvlan_PrevResult n = Some src \/ exists raw, current_NewResultFromResult (X := X) raw = Ok src) /\
      w_out w' = w_out w ++ [OutResult r v] /\
      (exists i, res_Interfaces r = [i] /\ if_Name i = IfName args /\ if_Sandbox i = Netns args) /\
      res_IPs r <> [] /\ Forall (fun ipc => ipc_Interface ipc = Some 0) (res_IPs r) /\
      ipc_Address <$> res_IPs r = ipc_Address <$> res_IPs src /\
      res_Routes r = res_Routes src /\ res_DNS r = nc_DNS (ipvlan_NetConf n)
  end.
Proof.
  unfold ipvlan_cmdAdd. destruct (loadConf _ _) as [[n v]|err]; [|by intros [= <- <-]].
  intros E. apply bind_done_inv in E as (ge & w1 & E1 & E).
  pose proof (same_out_done _ _ _ _ (frame_ext same_out _) E1) as O1.
  destruct ge as [ge|]; [by injection E as <- <-|].
  apply with_defer_done in E as (w2 & E & Ed).
  assert (w_out w' = w_out w2) as Od.
  { eapply same_out_done, Ed. solve_frame. }
  rewrite Od, <- O1. clear O1 Od E1 Ed w w'.
  apply bind_done_inv in E as (i & w3 & E3 & E).
  pose proof (createIpvlan_names _ _ _ _ _ _ E3) as Hi.
  pose proof (same_out_done _ _ _ _ (frame_createIpvlan same_out _ _ _) E3) as O3.
  destruct i as [i|err]; [|by injection E as <- <-].
  apply bind_done_inv in E as (res & w4 & E4 & E).
  pose proof (ipvlan_result_addresses _ _ _ _ _ E4) as Hr.
  pose proof (same_out_done _ _ _ _ (frame_ipvlan_result same_out _ _) E4) as O4.
  destruct res as [src|err]; [|injection E as <- <-; congruence]. cbv zeta in E.
  apply bind_done_inv in E as ([[] ce] & w5 & E5 & E).
  apply netns_Do_out in E5; [|intros; solve_frame].
  cbn [snd] in E. destruct ce as [ce|]; [injection E as <- <-; congruence|].
  apply PrintResult_done in E. destruct e as [e|]; [rewrite E, app_nil_r; congruence|].
  destruct Hr as [Hne Hsrc]. exists n, v, src. eexists. split_and!; [done|exact Hsrc|by rewrite E, E5, O4, O3|..].
  - by exists i.
  - cbn. by destruct (res_IPs src).
  - cbn. by apply Forall_fmap, Forall_true.
  - cbn. by rewrite <- list_fmap_compose.
  - done.
  - done.
Qed.

(** C5: chained after the IPAM plugin, with the result that plugin prints for an
    address as the previous result and no IPAM block or master of its own, the
    ipvlan plugin takes the interface of the address for its master and
    configures exactly that result: it runs no other IPAM plugin. *)
Theorem chained_after_ipam {X} `{!Host X} stdin n raw res alloc mask gw dns cidrs (w : World X) :
  json_Unmarshal stdin dec_NetConf (mkNetConf zeroNetConf None None EmptyString EmptyString 0) = Ok n ->
  ipvlan_RawPrevResult n = Some raw -> Master n = EmptyString -> nc_IPAM_Type (ipvlan_NetConf n) = EmptyString ->
  version_NewResult (X := X) (nc_CNIVersion (ipvlan_NetConf n)) raw = Ok res ->
  current_NewResultFromResult res = Ok (ipam_result alloc mask gw dns cidrs) ->
  LocalName (ar_Interface alloc) <> EmptyString ->
  exists n', loadConf (X := X) stdin cniAdd = Ok (n', nc_CNIVersion (ipvlan_NetConf n)) /\
    Master n' = LocalName (ar_Interface alloc) /\ Mode n' = Mode n /\ ipvlan_MTU n' = ipvlan_MTU n /\
    ipvlan_result n' stdin w = (Done (Ok (ipam_result alloc mask gw dns cidrs)), w).
Proof.
  intros En Eraw Em Ei Ev Ec Hl. unfold loadConf. rewrite En. unfold read_prevResult. rewrite Eraw, Ev, Ec.
  unfold choose_master. cbn [Master ipvlan_PrevResult ipvlan_NetConf Mode ipvlan_MTU]. rewrite Em.
  rewrite bool_decide_true by done. rewrite bool_decide_false by done. cbn [andb negb ipam_result res_Interfaces if_Name].
  rewrite bool_decide_false by done. eexists. split; [done|]. split_and!; [done..|].
  unfold ipvlan_result. cbn [ipvlan_PrevResult ipvlan_NetConf]. rewrite Ei. by rewrite bool_decide_true.
Qed.

(** ** The theorems at concrete inputs *)
#[local] Existing Instance good_host.

Definition demo_chain_members : list (string * json) :=
  [("cniVersion"%string, JStr "0.3.1"); ("mode"%string, JStr "l2"); ("mtu"%string, JInt 9001);
   ("prevResult"%string, JObj [("master"%string, JStr "eth1")])].
Definition demo_chain_args : CmdArgs :=
  mkCmdArgs (Some (JObj demo_chain_members)) "/var/run/netns/pod" "eth0" "c1".
Definition demo_ipvlan_world : World Sim := Eval vm_compute in (ipvlan_cmdAdd demo_chain_args demo_world).2.
Lemma demo_ipvlan_add : ipvlan_cmdAdd demo_chain_args demo_world = (Done None, demo_ipvlan_world).
Proof. vm_cast_no_check (eq_refl (@Done (option error) None, demo_ipvlan_world)). Qed.
Example demo_ipvlan_calls : sim_log (w_ext demo_ipvlan_world) = ["link add"; "rename"; "configure"; "close"]%string.
Proof. reflexivity. Qed.
Lemma ipvlan_cmdAdd_prints_witness :
  exists n v src r,
      loadConf (X := Sim) (StdinData demo_chain_args) cniAdd = Ok (n, v) /\
      (ipvlan_PrevResult n = Some src \/ exists raw, current_NewResultFromResult (X := Sim) raw = Ok src) /\
      w_out demo_ipvlan_world = w_out demo_world ++ [OutResult r v] /\
      (exists i, res_Interfaces r = [i] /\ if_Name i = IfName demo_chain_args /\ if_Sandbox i = Netns demo_chain_args) /\
      res_IPs r <> [] /\ Forall (fun ipc => ipc_Interface ipc = Some 0) (res_IPs r) /\
      ipc_Address <$> res_IPs r = ipc_Address <$> res_IPs src /\
      res_Routes r = res_Routes src /\ res_DNS r = nc_DNS (ipvlan_NetConf n).
Proof. exact (@ipvlan_cmdAdd_prints Sim good_host demo_chain_args demo_world None demo_ipvlan_world demo_ipvlan_add). Defined.

Definition demo_chain_conf : NetConf := mkNetConf
  (mkNetConfBase "0.3.1" EmptyString EmptyString None EmptyString emptyDNS None)
  (Some {["master"%string := JStr "eth1"]}) None EmptyString "l2" 9001.
Definition demo_chain_alloc : AllocationResult := mkAllocationResult [10; 0; 16; 21] demo_eni.
Definition demo_chain_cidrs : list IPNet :=
  [mkIPNet [100; 64; 0; 0] [255; 255; 0; 0]; mkIPNet [10; 0; 0; 0] [255; 255; 0; 0]].
Lemma chained_after_ipam_witness :
  exists n', loadConf (X := Sim) (Some (JObj demo_chain_members)) cniAdd = Ok (n', "0.3.1"%string) /\
    Master n' = "eth1"%string /\ Mode n' = "l2"%string /\ ipvlan_MTU n' = 9001 /\
    ipvlan_result n' (Some (JObj demo_chain_members)) demo_world = (Done (Ok (sim_result "eth1")), demo_world).
Proof.
  exact (@chained_after_ipam Sim good_host (Some (JObj demo_chain_members)) demo_chain_conf _ (sim_result "eth1")
    demo_chain_alloc [255; 255; 240; 0] [10; 0; 16; 1] [10; 0; 0; 2] demo_chain_cidrs demo_world
    eq_refl eq_refl eq_refl eq_refl eq_refl eq_refl ltac:(discriminate)).
Defined.
