(* ===== verification/Ptp.v ===== *)
(** * Ptp: plugin/unnumbered-ptp/unnumbered-ptp.go

    The last plugin of the chain: a veth pair between the Pod and the host, with
    host routes to the addresses of the previous result, a route table of its
    own for traffic coming from the Pod, masquerading, and marks for traffic to
    node ports.

    The search for a free route table goes up from its start one number at a
    time; with [k] numbers taken, [k + 1] steps are enough, which is the fuel
    of [first_free].  [addPolicyRules] tries ten tables. *)

From S2P Require Export Ipvlan.

Definition RPFilterTemplate (ifName : string) : string := ("net.ipv4.conf." +:+ ifName +:+ ".rp_filter")%string.
Definition maxSleep : Z := 10000.
Definition baseSleep : Z := 20.
Definition podRulePriority : Z := 1024.
Definition nodePortRulePriority : Z := 512.
Definition MaxUint32 : Z := 2^32 - 1.

(** [PluginConf] *)
Record PtpConf := mkPtpConf {
  ptp_NetConf : NetConfBase; ptp_RawPrevResult : option (gmap string json); ptp_PrevResult : option Result;
  IPMasq : bool; HostInterface : string; ContainerInterface : string; ptp_MTU : Z;
  TableStart : Z; NodePortMark : Z; NodePorts : string }.
Definition zeroPtpConf : PtpConf :=
  mkPtpConf zeroNetConf None None false EmptyString EmptyString 0 0 0 EmptyString.

Definition ptp_own_fields : list (string * decoder PtpConf) := [
  field "prevResult" dec_rawPrevResult ptp_RawPrevResult (fun v c =>
    mkPtpConf (ptp_NetConf c) v (ptp_PrevResult c) (IPMasq c) (HostInterface c) (ContainerInterface c) (ptp_MTU c)
      (TableStart c) (NodePortMark c) (NodePorts c));
  field "ipMasq" dec_bool IPMasq (fun v c =>
    mkPtpConf (ptp_NetConf c) (ptp_RawPrevResult c) (ptp_PrevResult c) v (HostInterface c) (ContainerInterface c) (ptp_MTU c)
      (TableStart c) (NodePortMark c) (NodePorts c));
  field "hostInterface" dec_string HostInterface (fun v c =>
    mkPtpConf (ptp_NetConf c) (ptp_RawPrevResult c) (ptp_PrevResult c) (IPMasq c) v (ContainerInterface c) (ptp_MTU c)
      (TableStart c) (NodePortMark c) (NodePorts c));
  field "containerInterface" dec_string ContainerInterface (fun v c =>
    mkPtpConf (ptp_NetConf c) (ptp_RawPrevResult c) (ptp_PrevResult c) (IPMasq c) (HostInterface c) v (ptp_MTU c)
      (TableStart c) (NodePortMark c) (NodePorts c));
  field "mtu" dec_int ptp_MTU (fun v c =>
    mkPtpConf (ptp_NetConf c) (ptp_RawPrevResult c) (ptp_PrevResult c) (IPMasq c) (HostInterface c) (ContainerInterface c) v
      (TableStart c) (NodePortMark c) (NodePorts c));
  field "routeTableStart" dec_int TableStart (fun v c =>
    mkPtpConf (ptp_NetConf c) (ptp_RawPrevResult c) (ptp_PrevResult c) (IPMasq c) (HostInterface c) (ContainerInterface c) (ptp_MTU c)
      v (NodePortMark c) (NodePorts c));
  field "nodePortMark" dec_int NodePortMark (fun v c =>
    mkPtpConf (ptp_NetConf c) (ptp_RawPrevResult c) (ptp_PrevResult c) (IPMasq c) (HostInterface c) (ContainerInterface c) (ptp_MTU c)
      (TableStart c) v (NodePorts c));
  field "nodePorts" dec_string NodePorts (fun v c =>
    mkPtpConf (ptp_NetConf c) (ptp_RawPrevResult c) (ptp_PrevResult c) (IPMasq c) (HostInterface c) (ContainerInterface c) (ptp_MTU c)
      (TableStart c) (NodePortMark c) v)].
Definition dec_PtpConf : decoder PtpConf := dec_struct (ptp_own_fields ++
  embed ptp_NetConf (fun b c =>
    mkPtpConf b (ptp_RawPrevResult c) (ptp_PrevResult c) (IPMasq c) (HostInterface c) (ContainerInterface c) (ptp_MTU c)
      (TableStart c) (NodePortMark c) (NodePorts c)) NetConf_fields).

(** The addresses of the container in the previous result. *)
Definition belongs (interfaces : list CniInterface) (ifName : string) (ipc : IPConfig) : bool :=
  match ipc_Interface ipc with
  | None => false
  | Some intIdx =>
      negb ((0 <=? intIdx) && (intIdx <? Z.of_nat (length interfaces)) &&
            negb (bool_decide (option_map if_Name (interfaces !! Z.to_nat intIdx) = Some ifName)))
  end.
Definition container_ips (cniVersion ifName : string) (prev : Result) : list IP :=
  (fun ipc => net_IP (ipc_Address ipc)) <$>
    (if negb (bool_decide (cniVersion = "0.3.0"%string)) then res_IPs prev
     else List.filter (belongs (res_Interfaces prev) ifName) (res_IPs prev)).

(** The first number from [i] below [MaxUint32] that is not taken. *)
Fixpoint first_free (fuel : nat) (i : Z) (taken : list Z) : option (option Z) :=
  match fuel with
  | O => None
  | S fuel =>
      if i <? MaxUint32 then
        if bool_decide (i ∈ taken) then first_free fuel (i + 1) taken else Some (Some i)
      else Some None
  end.

(** [net.IPNet{IP: ip, Mask: net.CIDRMask(addrBits, addrBits)}] *)
Definition host_route (ip : IP) : IPNet :=
  let addrBits := match To4 ip with Some _ => 32 | None => 128 end in
  mkIPNet ip (CIDRMask addrBits addrBits).

Definition route_less (a b : Route) : bool :=
  String.ltb (ipnet_String (rt_Dst a)) (ipnet_String (rt_Dst b)).

(** [rand.Intn(int(math.Min(maxSleep, baseSleep*math.Pow(2, float64(i)))))]:
    the numbers are exact as floats. *)
Definition backoff (i : nat) : Z := Z.min maxSleep (baseSleep * 2 ^ Z.of_nat i).

Section ptp.
Context {X : Type} `{!Host X}.

Definition ptp_parseConfig (stdin : option json) : M X (result PtpConf) :=
  match json_Unmarshal stdin dec_PtpConf zeroPtpConf with
  | Err err => mret (Err (Errorf "failed to parse network configuration: %v" [AErr (Some err)]))
  | Ok conf =>
      match read_prevResult (X := X) (nc_CNIVersion (ptp_NetConf conf)) (ptp_RawPrevResult conf) with
      | Err err => mret (Err err)
      | Ok prev =>
          if bool_decide (HostInterface conf = EmptyString)
          then mret (Err (Errorf "hostInterface must be specified" []))
          else
            mtu ← (if ptp_MTU conf =? 0 then GetMtu (HostInterface conf) else mret (Ok (ptp_MTU conf)));
            mret (match mtu with
                  | Err _ => Err (Errorf "unable to get MTU for hostInterface" [])
                  | Ok mtu =>
                      if bool_decide (ContainerInterface conf = EmptyString)
                      then Err (Errorf "containerInterface must be specified" [])
                      else Ok (mkPtpConf (ptp_NetConf conf) None prev (IPMasq conf) (HostInterface conf)
                                 (ContainerInterface conf) mtu
                                 (if TableStart conf =? 0 then 256 else TableStart conf)
                                 (if NodePortMark conf =? 0 then 8192 else NodePortMark conf)
                                 (if bool_decide (NodePorts conf = EmptyString) then "30000:32767"%string else NodePorts conf))
                  end)
      end
  end.

Definition enableForwarding (ns : netns) (ipv4 ipv6 : bool) : M X (option error) :=
  e4 ← (if ipv4 then ext (ip_EnableIP4Forward ns) else mret None);
  match e4 with
  | Some err => mret (Some (Errorf "Could not enable IPv6 forwarding: %v" [AErr (Some err)]))
  | None =>
      e6 ← (if ipv6 then ext (ip_EnableIP6Forward ns) else mret None);
      mret (match e6 with
            | Some err => Some (Errorf "Could not enable IPv6 forwarding: %v" [AErr (Some err)])
            | None => None
            end)
  end.

Definition setupSNAT (ns : netns) (ifName comment : string) : M X (option error) :=
  err ← ext (ipt_New ns);
  match err with
  | Some err => mret (Some (Errorf "failed to locate iptables: %v" [AErr (Some err)]))
  | None =>
      fully ← ext ipt_HasRandomFully;
      let rulespec := ["-o"; ifName; "-j"; "MASQUERADE"]%string in
      let rulespec := if fully : bool then rulespec ++ ["--random-fully"%string] else rulespec in
      ext (ipt_AppendUnique ns "nat" "POSTROUTING" (rulespec ++ ["-m"; "comment"; "--comment"; comment]%string))
  end.

(** The tables of all the rules, of both families. *)
Definition allocatedTableIDs : M X (result (list Z)) :=
  v4 ←? ext (nl_RuleList FAMILY_V4);
  v6 ←? ext (nl_RuleList FAMILY_V6);
  mret (Ok ((ru_Table <$> v4) ++ (ru_Table <$> v6))).

(** The table is -1 with every error. *)
Definition findFreeTable (start : Z) : M X (Z * option error) :=
  ids ← allocatedTableIDs;
  match ids with
  | Err err => mret (-1, Some err)
  | Ok ids =>
      match first_free (S (length ids)) start ids with
      | None => out_of_fuel
      | Some (Some i) => mret (i, None)
      | Some None => mret (-1, Some (Errorf "failed to find free route table" []))
      end
  end.

(** The routes of the Pod in one table: the table, or -1 when one is refused. *)
Definition add_routes (veth : HostIface) (ipc : IPConfig) (routes : list Route) (table : Z) : M X Z :=
  r ← range_loop routes tt (fun route _ =>
    err ← ext (nl_RouteAdd host_ns
      (mkNlRoute (hi_Index veth) SCOPE_UNIVERSE (Some (rt_Dst route)) (net_IP (ipc_Address ipc)) table));
    mret (match err with Some _ => inr (-1) | None => inl tt end));
  mret (match r with inl _ => table | inr t => t end).

(** The loop over the attempts, [i] of them done, [tries] still allowed. *)
Fixpoint try_tables (tries i : nat) (veth : HostIface) (ipc : IPConfig) (routes : list Route) (tableStart : Z)
    : M X (result Z) :=
  match tries with
  | O => mret (Ok (-1))
  | S tries =>
      n ← ext (rand_intn 1000);
      t ← findFreeTable (wrap64 (tableStart + n));
      match t.2 with
      | Some err => mret (Err err)
      | None =>
          table ← add_routes veth ipc routes t.1;
          if table =? -1 then
            n ← ext (rand_intn (backoff i));
            _ ← fault OpStderr "stderr";
            _ ← time_Sleep (n * Millisecond);
            try_tables tries (S i) veth ipc routes tableStart
          else mret (Ok table)
      end
  end.

(** [sort.Slice] sorts the routes of the caller in place: they are returned. *)
Definition addPolicyRules (veth : HostIface) (ipc : IPConfig) (routes : list Route) (tableStart : Z)
    : M X (list Route * option error) :=
  let routes := sort_slice route_less routes in
  table ← try_tables 10 0 veth ipc routes tableStart;
  match table with
  | Err err => mret (routes, Some err)
  | Ok table =>
      if table =? -1 then mret (routes, Some (Errorf "failed to add routes to a free table" []))
      else
        let rule := mkRule (hi_Name veth) table podRulePriority (ru_Mark NewRule) in
        err ← ext (nl_RuleAdd rule);
        mret (routes, match err with
                      | Some err => Some (Errorf "failed to add policy rule %v: %v" [AStr (ru_IifName rule); AErr (Some err)])
                      | None => None
                      end)
  end.

(** The three rules that mark node port traffic, in order. *)
Definition nodeport_rules (ifName nodePorts : string) (nodePortMark : Z) : list (list string) :=
  let mark proto := ["-i"; ifName; "-p"; proto; "--dport"; nodePorts; "-j"; "CONNMARK"; "--set-mark";
                     pretty nodePortMark; "-m"; "comment"; "--comment"; "NodePort Mark"]%string in
  [mark "tcp"%string; mark "udp"%string;
   ["-i"; "veth+"; "-j"; "CONNMARK"; "--restore-mark"; "-m"; "comment"; "--comment"; "NodePort Mark"]%string].

Definition nodeport_rule (nodePortMark : Z) : Rule := mkRule (ru_IifName NewRule) 254 nodePortRulePriority nodePortMark.
Definition same_rule (rule r : Rule) : bool :=
  (ru_Table r =? ru_Table rule) && (ru_Mark r =? ru_Mark rule) && (ru_Priority r =? ru_Priority rule).

Definition setupNodePortRule (ifName nodePorts : string) (nodePortMark : Z) : M X (option error) :=
  err ← ext (ipt_New host_ns);
  match err with
  | Some err => mret (Some (Errorf "failed to locate iptables: %v" [AErr (Some err)]))
  | None =>
      r ← range_loop (nodeport_rules ifName nodePorts nodePortMark) tt (fun rulespec _ =>
        err ← ext (ipt_AppendUnique host_ns "mangle" "PREROUTING" rulespec);
        mret (match err with Some err => inr err | None => inl tt end));
      match r with
      | inr err => mret (Some err)
      | inl _ =>
          err ← ext (sysctl_Sysctl (RPFilterTemplate ifName) "2");
          match err with
          | Some err => mret (Some (Errorf "failed to set RP filter to loose for interface %q: %v" [AStr ifName; AErr (Some err)]))
          | None =>
              let rule := nodeport_rule nodePortMark in
              rules ← ext (nl_RuleList FAMILY_V4);
              match rules with
              | Err err => mret (Some (Errorf "Unable to retrieve IP rules %v" [AErr (Some err)]))
              | Ok rules =>
                  if existsb (same_rule rule) rules then mret None
                  else
                    err ← ext (nl_RuleAdd rule);
                    mret (match err with
                          | Some err => Some (Errorf "failed to add policy rule %v: %v" [AStr (ru_IifName rule); AErr (Some err)])
                          | None => None
                          end)
              end
          end
      end
  end.

(** Host routes to addresses, over one interface. *)
Definition add_host_routes (ns : netns) (index : Z) (ips : list IP) : M X (option error) :=
  r ← range_loop ips tt (fun ip _ =>
    err ← ext (nl_RouteAdd ns (mkNlRoute index SCOPE_LINK (Some (host_route ip)) [] 0));
    mret (match err with
          | Some err => inr (Errorf "failed to add host route dst %v: %v" [ABytes ip; AErr (Some err)])
          | None => inl tt
          end));
  mret (match r with inl _ => None | inr err => Some err end).

(** What fails is ignored. *)
Definition announce (ns : netns) (ips : list IP) (veth : HostIface) : M X () :=
  range_fold ips tt (fun ip _ => _ ← ext (arping_Gratuitous ns ip veth); mret tt).

(** The variables the closure of [setupContainerVeth] captures. *)
Record VethVars := mkVethVars { vv_host : CniInterface; vv_cont : CniInterface; vv_pr : Result }.
Definition append_interfaces (pr : Result) (l : list CniInterface) : Result :=
  mkResult (res_Interfaces pr ++ l) (res_IPs pr) (res_Routes pr) (res_DNS pr).

Definition container_veth (path ifName : string) (mtu : Z) (hostAddrs : list Addr)
    (masq containerIPV4 containerIPV6 : bool) (k8sIfName : string) (ns : netns) (v : VethVars)
    : M X (VethVars * option error) :=
  veths ← ext (ip_SetupVeth ns ifName mtu host_ns);
  match veths with
  | Err err => mret (v, Some err)
  | Ok (hostVeth, contVeth0) =>
      containerNetlinkIface ← ext (nl_LinkByName ns (hi_Name contVeth0));
      mac ← match containerNetlinkIface with
            | Ok l => mret (ln_HardwareAddr l)
            | Err _ => panic "invalid memory address or nil pointer dereference"
            end;
      let hostInterface := mkCniInterface (hi_Name hostVeth) (hi_HardwareAddr hostVeth) EmptyString in
      let containerInterface := mkCniInterface (hi_Name contVeth0) mac path in
      let v := mkVethVars hostInterface containerInterface
                 (append_interfaces (vv_pr v) [hostInterface; containerInterface]) in
      contVeth ← ext (net_InterfaceByName ns ifName);
      match contVeth with
      | Err err => mret (v, Some (Errorf "failed to look up %q: %v" [AStr ifName; AErr (Some err)]))
      | Ok contVeth =>
          err ← (if masq then
                   !← enableForwarding ns containerIPV4 containerIPV6;
                   err ← setupSNAT ns k8sIfName "kube-proxy SNAT";
                   mret (match err with
                         | Some err => Some (Errorf "failed to enable SNAT on %q: %v" [AStr k8sIfName; AErr (Some err)])
                         | None => None
                         end)
                 else mret None);
          match err with
          | Some err => mret (v, Some err)
          | None =>
              err ← add_host_routes ns (hi_Index contVeth) ((fun a => net_IP (ad_IPNet a)) <$> hostAddrs);
              match err with
              | Some err => mret (v, Some err)
              | None =>
                  gw ← match hostAddrs with
                       | [] => panic "index out of range"
                       | a :: _ => mret (net_IP (ad_IPNet a))
                       end;
                  err ← ext (nl_RouteAdd ns (mkNlRoute (hi_Index contVeth) SCOPE_UNIVERSE None gw 0));
                  match err with
                  | Some err => mret (v, Some (Errorf "failed to add default route %v: %v" [ABytes gw; AErr (Some err)]))
                  | None =>
                      _ ← announce ns ((fun ipc => net_IP (ipc_Address ipc)) <$>
                            List.filter (fun ipc => bool_decide (ipc_Version ipc = "4"%string)) (res_IPs (vv_pr v))) contVeth;
                      mret (v, None)
                  end
              end
          end
      end
  end.

(** The interfaces of the host and of the container, and the previous result
    with both appended. *)
Definition setupContainerVeth (netns ifName : string) (mtu : Z) (hostAddrs : list Addr)
    (masq containerIPV4 containerIPV6 : bool) (k8sIfName : string) (pr : Result) : M X (result VethVars) :=
  r ← netns_Do netns (mkVethVars (mkCniInterface EmptyString EmptyString EmptyString)
                        (mkCniInterface EmptyString EmptyString EmptyString) pr)
        (container_veth netns ifName mtu hostAddrs masq containerIPV4 containerIPV6 k8sIfName);
  mret (match r.2 with Some err => Err err | None => Ok r.1 end).

Definition set_routes (routes : list Route) (r : Result) : Result :=
  mkResult (res_Interfaces r) (res_IPs r) routes (res_DNS r).

Definition setupHostVeth (vethName : string) (hostAddrs : list Addr) (masq : bool) (tableStart : Z) (r : Result)
    : M X (Result * option error) :=
  match res_IPs r with
  | [] => mret (r, None)
  | ipc0 :: _ =>
      veth ← ext (net_InterfaceByName host_ns vethName);
      match veth with
      | Err err => mret (r, Some (Errorf "failed to lookup %q: %v" [AStr vethName; AErr (Some err)]))
      | Ok veth =>
          err ← add_host_routes host_ns (hi_Index veth) ((fun ipc => net_IP (ipc_Address ipc)) <$> res_IPs r);
          match err with
          | Some err => mret (r, Some err)
          | None =>
              p ← addPolicyRules veth ipc0 (res_Routes r) tableStart;
              let r := set_routes p.1 r in
              match p.2 with
              | Some err => mret (r, Some (Errorf "failed to add policy rules: %v" [AErr (Some err)]))
              | None =>
                  _ ← announce host_ns
                        (List.filter (fun ip => bool_decide (is_Some (To4 ip))) ((fun a => net_IP (ad_IPNet a)) <$> hostAddrs)) veth;
                  mret (r, None)
              end
          end
      end
  end.

(** Masquerading for the addresses of the container. *)
Definition setup_masq (conf : PtpConf) (args : CmdArgs) (containerIPV4 containerIPV6 : bool) (ips : list IP)
    : M X (option error) :=
  if IPMasq conf then
    !← enableForwarding host_ns containerIPV4 containerIPV6;
    let name := nc_Name (ptp_NetConf conf) in
    r ← range_loop ips tt (fun ip _ =>
      err ← ext (ip_SetupIPMasq (mkIPNet ip (CIDRMask 32 32))
                   (utils_FormatChainName (X := X) name (ContainerID args)) (utils_FormatComment (X := X) name (ContainerID args)));
      mret (match err with Some err => inr err | None => inl tt end));
    mret (match r with inl _ => None | inr err => Some err end)
  else mret None.

(** The last part of [cmdAdd], once the namespace is open. *)
Definition connect (conf : PtpConf) (args : CmdArgs) (prev : Result) (containerIPs : list IP) (hostAddrs : list Addr)
    : M X (option error) :=
  let v4 := existsb (fun ip => bool_decide (is_Some (To4 ip))) containerIPs in
  let v6 := existsb (fun ip => negb (bool_decide (is_Some (To4 ip)))) containerIPs in
  veths ←! setupContainerVeth (Netns args) (ContainerInterface conf) (ptp_MTU conf)
             hostAddrs (IPMasq conf) v4 v6 (IfName args) prev;
  h ← setupHostVeth (if_Name (vv_host veths)) hostAddrs (IPMasq conf) (TableStart conf) (vv_pr veths);
  match h.2 with
  | Some err => mret (Some err)
  | None =>
      !← setup_masq conf args v4 v6 containerIPs;
      !← setupNodePortRule (HostInterface conf) (NodePorts conf) (NodePortMark conf);
      PrintResult h.1 (nc_CNIVersion (ptp_NetConf conf))
  end.

Definition ptp_cmdAdd (args : CmdArgs) : M X (option error) :=
  conf ←! ptp_parseConfig (StdinData args);
  match ptp_PrevResult conf with
  | None => mret (Some (Errorf "must be called as chained plugin" []))
  | Some prev =>
      let containerIPs := container_ips (nc_CNIVersion (ptp_NetConf conf)) (IfName args) prev in
      match containerIPs with
      | [] => mret (Some (Errorf "got no container IPs" []))
      | _ =>
          iface ← ext (nl_LinkByName host_ns (HostInterface conf));
          match iface with
          | Err err => mret (Some (Errorf "failed to lookup %q: %v" [AStr (HostInterface conf); AErr (Some err)]))
          | Ok iface =>
              hostAddrs ← ext (nl_AddrList host_ns iface FAMILY_ALL);
              match hostAddrs with
              | Err err => mret (Some (Errorf "failed to get host IP addresses for %q: %v" [AStr (ln_Name iface); AErr (Some err)]))
              | Ok [] => mret (Some (Errorf "failed to get host IP addresses for %q: %v" [AStr (ln_Name iface); AErr None]))
              | Ok hostAddrs =>
                  err ← ext (ns_GetNS (Netns args));
                  match err with
                  | Some err => mret (Some (Errorf "failed to open netns %q: %v" [AStr (Netns args); AErr (Some err)]))
                  | None =>
                      with_defer (connect conf args prev containerIPs hostAddrs)
                        (_ ← ext (ns_Close (Netns args)); mret tt)
                  end
              end
          end
      end
  end.

(** What [cmdDel] finds in the namespace: the addresses and the peer's index. *)
Definition discover_peer (conf : PtpConf) (args : CmdArgs) : M X ((list Addr * Z) * option error) :=
  WithNetNSPath (Netns args) ([], -1) (fun ns vars =>
    peer ← ext (ip_GetVethPeerIfindex ns (ContainerInterface conf));
    match peer with
    | Err err => mret (vars, Some (Errorf "failed to lookup %q: %v" [AStr (ContainerInterface conf); AErr (Some err)]))
    | Ok peer =>
        iface ← ext (nl_LinkByName ns (IfName args));
        match iface with
        | Err err => mret ((vars.1, peer), Some (Errorf "couldn't load link by name %s: %w" [AStr (IfName args); AErr (Some err)]))
        | Ok iface =>
            addrs ← ext (nl_AddrList ns iface FAMILY_V4);
            mret (match addrs with
                  | Err err => (([], peer), Some (Errorf "couldn't discover addrs from iface: %s: %w" [AStr (IfName args); AErr (Some err)]))
                  | Ok [] => (([], peer), Some (Errorf "couldn't discover addrs from iface: %s: %w" [AStr (IfName args); AErr None]))
                  | Ok addrs => ((addrs, peer), None)
                  end)
        end
    end).

Definition ptp_cmdDel (args : CmdArgs) : M X (option error) :=
  conf ← ptp_parseConfig (StdinData args);
  match conf with
  | Err err => mret (Some (Errorf "couldn't parse config: %w" [AErr (Some err)]))
  | Ok conf =>
      if negb (IPMasq conf) then mret None
      else if bool_decide (Netns args = EmptyString) then mret None
      else
        d ← discover_peer conf args;
        match d.2 with
        | Some err => mret (Some (Errorf "couldn't discover peer idx from netns %s: %w" [AStr (Netns args); AErr (Some err)]))
        | None =>
            let name := nc_Name (ptp_NetConf conf) in
            r ← range_loop d.1.1 tt (fun ipn _ =>
              err ← ext (ip_TeardownIPMasq (mkIPNet (net_IP (ad_IPNet ipn)) (CIDRMask 32 32))
                           (utils_FormatChainName (X := X) name (ContainerID args)) (utils_FormatComment (X := X) name (ContainerID args)));
              mret (match err with
                    | Some err => inr (Errorf "couldn't teardown ip masq: %w" [AErr (Some err)])
                    | None => inl tt
                    end));
            match r with
            | inr err => mret (Some err)
            | inl _ =>
                if d.1.2 =? -1 then mret None
                else
                  link ← ext (nl_LinkByIndex host_ns d.1.2);
                  match link with
                  | Err err => mret (Some (Errorf "couldn't find link by index %d: %w" [AInt d.1.2; AErr (Some err)]))
                  | Ok link =>
                      let rule := mkRule (ln_Name link) (ru_Table NewRule) (ru_Priority NewRule) (ru_Mark NewRule) in
                      err ← ext (nl_RuleDel rule);
                      match err with
                      | Some err => mret (Some (Errorf "couldn't delete rule %s: %w" [AStr (ru_IifName rule); AErr (Some err)]))
                      | None =>
                          err ← ext (nl_LinkDel host_ns link);
                          mret (match err with
                                | Some err => Some (Errorf "couldn't delete link %s: %w" [AStr (ln_Name link); AErr (Some err)])
                                | None => None
                                end)
                      end
                  end
            end
        end
  end.

Definition ptp_cmdCheck (args : CmdArgs) : M X (option error) := mret None.
End ptp.

(** ** The search for a free table *)
Section tables.

Lemma first_free_found fuel i taken t :
  first_free fuel i taken = Some (Some t) ->
  i <= t < MaxUint32 /\ (t ∉ taken) /\ forall j, i <= j < t -> j ∈ taken.
Proof.
  revert i. induction fuel as [|fuel IH]; intros i; [done|]. cbn [first_free].
  destruct (Z.ltb_spec i MaxUint32); [|done]. case_bool_decide as Hi.
  - intros (? & ? & Hj)%IH. split_and!; [lia|lia|done|]. intros j Hij.
    destruct (decide (j = i)) as [->|]; [done|]. apply Hj. lia.
  - intros [= <-]. split_and!; [lia|lia|done|lia].
Qed.
Lemma first_free_full fuel i taken :
  first_free fuel i taken = Some None -> forall j, i <= j < MaxUint32 -> j ∈ taken.
Proof.
  revert i. induction fuel as [|fuel IH]; intros i; [done|]. cbn [first_free].
  destruct (Z.ltb_spec i MaxUint32); [|intros _; lia]. case_bool_decide as Hi; [|done].
  intros Hf j Hij. destruct (decide (j = i)) as [->|]; [done|]. apply (IH (i + 1)); [done|lia].
Qed.
Lemma first_free_stuck fuel i taken :
  first_free fuel i taken = None -> forall j, i <= j < i + Z.of_nat fuel -> j ∈ taken.
Proof.
  revert i. induction fuel as [|fuel IH]; intros i; [lia|]. cbn [first_free].
  destruct (i <? MaxUint32); [|done]. case_bool_decide as Hi; [|done].
  intros Hf j Hij. destruct (decide (j = i)) as [->|]; [done|]. apply (IH (i + 1)); [done|lia].
Qed.

(** More steps than numbers taken are enough (there are not that many
    different numbers to pass over). *)
Lemma first_free_fuel i taken : first_free (S (length taken)) i taken <> None.
Proof.
  intros H. pose proof (first_free_stuck _ _ _ H) as Hin.
  assert (seqZ i (Z.of_nat (S (length taken))) ⊆+ taken) as Hs%submseteq_length.
  { apply NoDup_submseteq; [apply NoDup_seqZ|]. intros j Hj%elem_of_seqZ. by apply Hin. }
  rewrite length_seqZ in Hs. lia.
Qed.
End tables.

(** ** Calls that were all accepted

    [all_accepted ops w w']: run one after the other from [w], the calls [ops]
    all answer without an error and leave [w']. *)
Section accepted.
Context {X : Type} `{!Host X}.
Implicit Types w : World X.

Inductive all_accepted : list (X -> X * option error) -> World X -> World X -> Prop :=
  | accepted_nil w : all_accepted [] w w
  | accepted_cons op ops w w1 w2 :
      ext op w = (Done None, w1) -> all_accepted ops w1 w2 -> all_accepted (op :: ops) w w2.

Lemma all_accepted_app ops1 ops2 w w1 w2 :
  all_accepted ops1 w w1 -> all_accepted ops2 w1 w2 -> all_accepted (ops1 ++ ops2) w w2.
Proof. induction 1 as [|op ops w w1 w3 E _ IH]; [done|]. intros H. econstructor; [done|by apply IH]. Qed.
Lemma accepted_one op w w1 : ext op w = (Done None, w1) -> all_accepted [op] w w1.
Proof. intros E. econstructor; [done|constructor]. Qed.

(** A loop that makes one call per element and leaves at the first error. *)
Lemma accepted_loop {A R} (l : list A) (op : A -> X -> X * option error) (f : A -> error -> R) w w' :
  range_loop l tt (fun a _ => err ← ext (op a); mret (match err with Some err => inr (f a err) | None => inl tt end)) w
    = (Done (inl tt), w') ->
  all_accepted (op <$> l) w w'.
Proof.
  revert w. induction l as [|a l IH]; intros w; [intros [= <-]; constructor|].
  cbn [range_loop fmap list_fmap]. intros E. apply bind_done_inv in E as (r & w1 & E1 & E).
  apply bind_done_inv in E1 as (err & w2 & E2 & E1). destruct err as [err|]; injection E1 as <- <-; [done|].
  econstructor; [exact E2|by apply IH].
Qed.
End accepted.

(** ** Frames and termination *)
Section ptp_frames.
Context {X : Type} `{!Host X} (R : relation (World X)) `{!PreOrder R} `{!ExtClosed R}.
Lemma frame_ptp_parseConfig stdin : frame R (ptp_parseConfig stdin).
Proof. unfold ptp_parseConfig. solve_frame. Qed.
Lemma frame_enableForwarding ns v4 v6 : frame R (enableForwarding ns v4 v6).
Proof. unfold enableForwarding. solve_frame. Qed.
Lemma frame_findFreeTable start : frame R (findFreeTable start).
Proof. unfold findFreeTable, allocatedTableIDs. solve_frame. Qed.
Lemma frame_try_tables tries i veth ipc routes start : frame R (try_tables tries i veth ipc routes start).
Proof.
  pose proof frame_findFreeTable. revert i. induction tries as [|tries IH]; intros i; cbn [try_tables]; [solve_frame|].
  unfold add_routes, fault. solve_frame.
Qed.
Lemma frame_addPolicyRules veth ipc routes start : frame R (addPolicyRules veth ipc routes start).
Proof. pose proof frame_try_tables. unfold addPolicyRules. solve_frame. Qed.
Lemma frame_add_host_routes ns i ips : frame R (add_host_routes ns i ips).
Proof. unfold add_host_routes. solve_frame. Qed.
Lemma frame_announce ns ips veth : frame R (announce ns ips veth).
Proof. unfold announce. solve_frame. Qed.
Lemma frame_setupContainerVeth netns ifName mtu addrs masq v4 v6 k pr :
  frame R (setupContainerVeth netns ifName mtu addrs masq v4 v6 k pr).
Proof.
  pose proof frame_enableForwarding. pose proof frame_add_host_routes. pose proof frame_announce.
  unfold setupContainerVeth, container_veth, setupSNAT. solve_frame.
Qed.
Lemma frame_setupHostVeth name addrs masq start r : frame R (setupHostVeth name addrs masq start r).
Proof.
  pose proof frame_addPolicyRules. pose proof frame_add_host_routes. pose proof frame_announce.
  unfold setupHostVeth. solve_frame.
Qed.
Lemma frame_setup_masq conf args v4 v6 ips : frame R (setup_masq conf args v4 v6 ips).
Proof. pose proof frame_enableForwarding. unfold setup_masq. solve_frame. Qed.
Lemma frame_setupNodePortRule a b c : frame R (setupNodePortRule a b c).
Proof. unfold setupNodePortRule. solve_frame. Qed.
End ptp_frames.
#[export] Hint Resolve frame_ptp_parseConfig frame_setupContainerVeth frame_setupHostVeth frame_setup_masq
  frame_setupNodePortRule : frame.

Section ptp_terminates.
Context {X : Type} `{!Host X}.
Lemma terminates_findFreeTable start : terminates (X := X) (findFreeTable start).
Proof.
  unfold findFreeTable, allocatedTableIDs. apply terminates_bind; [solve_terminates|]. intros [ids|e]; [|solve_terminates].
  pose proof (first_free_fuel start ids). destruct (first_free _ _ _) as [[i|]|]; [solve_terminates..|done].
Qed.
Lemma terminates_try_tables tries i veth ipc routes start : terminates (X := X) (try_tables tries i veth ipc routes start).
Proof.
  pose proof terminates_findFreeTable. revert i. induction tries as [|tries IH]; intros i; cbn [try_tables]; [solve_terminates|].
  unfold add_routes, fault. solve_terminates.
Qed.
Lemma terminates_ptp_cmdAdd args : terminates (X := X) (ptp_cmdAdd args).
Proof.
  pose proof terminates_try_tables. unfold ptp_cmdAdd, ptp_parseConfig, GetMtu.
  repeat first [apply terminates_with_defer | terminates_step
    | progress unfold connect, setupContainerVeth, container_veth, setupHostVeth, setup_masq, setupNodePortRule, enableForwarding,
        setupSNAT, add_host_routes, announce, addPolicyRules].
Qed.
Lemma terminates_ptp_cmdDel args : terminates (X := X) (ptp_cmdDel args).
Proof. unfold ptp_cmdDel, ptp_parseConfig, discover_peer, GetMtu. solve_terminates. Qed.
Lemma terminates_ipvlan_cmdDel args : terminates (X := X) (ipvlan_cmdDel args).
Proof. unfold ipvlan_cmdDel. solve_terminates. Qed.
End ptp_terminates.

(** ** What the operations have done when they succeed *)
Section ptp_effects.
Context {X : Type} `{!Host X}.
Implicit Types w : World X.

(** The routes of a Pod in a table, as calls. *)
Definition route_calls (veth : HostIface) (ipc : IPConfig) (t : Z) (routes : list Route) : list (X -> X * option error) :=
  (fun route => nl_RouteAdd host_ns
     (mkNlRoute (hi_Index veth) SCOPE_UNIVERSE (Some (rt_Dst route)) (net_IP (ipc_Address ipc)) t)) <$> routes.

Lemma add_routes_accepted veth ipc routes t w t' w' :
  add_routes veth ipc routes t w = (Done t', w') -> t' <> -1 ->
  t' = t /\ all_accepted (route_calls veth ipc t routes) w w'.
Proof.
  intros E Ht. apply bind_done_inv in E as (r & w1 & E1 & E). injection E as E <-.
  assert (r = inl tt) as ->.
  { destruct r as [[]|z]; [done|]. exfalso. apply Ht. subst t'.
    assert (ensures (X := X) (range_loop routes tt (fun route _ =>
      err ← ext (nl_RouteAdd host_ns
        (mkNlRoute (hi_Index veth) SCOPE_UNIVERSE (Some (rt_Dst route)) (net_IP (ipc_Address ipc)) t));
      mret (match err with Some _ => inr (-1) | None => inl tt end)))
      (fun r => match r with inl _ => True | inr z => z = -1 end)) as H.
    { apply (ensures_range_loop _ _ _ (fun _ => True)); [done|]. intros a s _ _.
      apply ensures_bind_any. intros [e|]; by apply ensures_ret. }
    exact (H _ _ _ E1). }
  split; [done|]. exact (accepted_loop _ _ (fun _ _ => -1) _ _ E1).
Qed.

Lemma try_tables_accepted tries i veth ipc routes start w t w' :
  try_tables tries i veth ipc routes start w = (Done (Ok t), w') -> t <> -1 ->
  exists n w0 w1, 0 <= n < 1000 /\ findFreeTable (wrap64 (start + n)) w0 = (Done (t, None), w1) /\
    all_accepted (route_calls veth ipc t routes) w1 w'.
Proof.
  revert i w. induction tries as [|tries IH]; intros i w; cbn [try_tables]; [by intros [= <- <-]|].
  intros E Ht. apply bind_done_inv in E as (n & w0 & E0 & E).
  apply bind_done_inv in E as ([t0 [e|]] & w1 & E1 & E); cbn [fst snd] in E; [done|].
  apply bind_done_inv in E as (t1 & w2 & E2 & E). destruct (Z.eqb_spec t1 (-1)).
  - apply bind_done_inv in E as (n' & w3 & _ & E). apply bind_done_inv in E as (u & w4 & _ & E).
    apply bind_done_inv in E as (u' & w5 & _ & E). by eapply IH.
  - injection E as -> <-. apply add_routes_accepted in E2 as [-> Ha]; [|done].
    exists n, w0, w1. split_and!; [..|done|done].
    all: injection E0 as <- _; by apply rand_intn_range.
Qed.

Lemma PrintResult_some r v w w' :
  PrintResult r v w = (Done None, w') -> w_out w' = w_out w ++ [OutResult r v].
Proof. apply PrintResult_done. Qed.

(** What [setupContainerVeth] hands to the rest of an ADD. *)
Lemma setupContainerVeth_result netns ifName mtu addrs masq v4 v6 k pr :
  ensures (X := X) (setupContainerVeth netns ifName mtu addrs masq v4 v6 k pr) (fun r =>
    match r with
    | Ok v => vv_pr v = append_interfaces pr [vv_host v; vv_cont v] /\ if_Sandbox (vv_cont v) = netns
    | Err _ => True
    end).
Proof.
  unfold setupContainerVeth.
  eapply (ensures_bind _ _ (fun r => r.2 = None ->
    vv_pr r.1 = append_interfaces pr [vv_host r.1; vv_cont r.1] /\ if_Sandbox (vv_cont r.1) = netns)).
  2:{ intros [v [e|]] H; apply ensures_ret; [done|]. by apply H. }
  unfold netns_Do. apply ensures_bind_any. intros [e|]; [by apply ensures_ret|].
  unfold container_veth. apply ensures_bind_any. intros [[h0 c0]|e]; [|by apply ensures_ret].
  apply ensures_bind_any. intros link. apply ensures_bind_any. intros mac. cbv zeta.
  apply ensures_bind_any. intros [cv|e]; [|by apply ensures_ret].
  apply ensures_bind_any. intros [e|]; [by apply ensures_ret|].
  apply ensures_bind_any. intros [e|]; [by apply ensures_ret|].
  apply ensures_bind_any. intros gw. apply ensures_bind_any. intros [e|]; [by apply ensures_ret|].
  apply ensures_bind_any. intros _. by apply ensures_ret.
Qed.

(** [setupHostVeth] changes nothing of the result but the order of its routes. *)
Lemma setupHostVeth_result name addrs masq start r :
  ensures (X := X) (setupHostVeth name addrs masq start r) (fun p =>
    p.2 = None -> res_IPs r <> [] -> p.1 = set_routes (sort_slice route_less (res_Routes r)) r).
Proof.
  unfold setupHostVeth. destruct (res_IPs r) as [|ipc0 rest]; [by apply ensures_ret|].
  apply ensures_bind_any. intros [veth|e]; [|by apply ensures_ret].
  apply ensures_bind_any. intros [e|]; [by apply ensures_ret|].
  eapply (ensures_bind _ _ (fun p => p.1 = sort_slice route_less (res_Routes r))).
  - unfold addPolicyRules. cbv zeta. apply ensures_bind_any. intros [t|e]; [|by apply ensures_ret].
    destruct (t =? -1); [by apply ensures_ret|]. apply ensures_bind_any. intros e. by apply ensures_ret.
  - intros [rs [e|]]; cbn [fst snd]; intros ->; [by apply ensures_ret|].
    apply ensures_bind_any. intros _. by apply ensures_ret.
Qed.

(** What the last part of an ADD prints, for a result with addresses. *)
Lemma connect_prints conf args prev ips addrs w e w' :
  connect conf args prev ips addrs w = (Done e, w') ->
  match e with
  | Some _ => w_out w' = w_out w
  | None => exists host cont, if_Sandbox cont = Netns args /\ (res_IPs prev <> [] ->
      w_out w' = w_out w ++ [OutResult (mkResult (res_Interfaces prev ++ [host; cont]) (res_IPs prev)
                                          (sort_slice route_less (res_Routes prev)) (res_DNS prev))
                               (nc_CNIVersion (ptp_NetConf conf))])
  end.
Proof.
  intros E. unfold connect in E. cbv zeta in E. apply bind_done_inv in E as (v & w1 & E1 & E).
  pose proof (setupContainerVeth_result _ _ _ _ _ _ _ _ _ _ _ _ E1) as Hv.
  pose proof (same_out_done _ _ _ _ (frame_setupContainerVeth same_out _ _ _ _ _ _ _ _ _) E1) as O1.
  destruct v as [v|err]; [|by injection E as <- <-]. destruct Hv as [Hpr Hsb].
  apply bind_done_inv in E as (h & w2 & E2 & E).
  pose proof (setupHostVeth_result _ _ _ _ _ _ _ _ E2) as Hh.
  pose proof (same_out_done _ _ _ _ (frame_setupHostVeth same_out _ _ _ _ _) E2) as O2.
  destruct h as [r [he|]]; cbn [fst snd] in *; [injection E as <- <-; congruence|].
  apply bind_done_inv in E as (me & w3 & E3 & E).
  pose proof (same_out_done _ _ _ _ (frame_setup_masq same_out _ _ _ _ _) E3) as O3.
  destruct me as [me|]; [injection E as <- <-; congruence|].
  apply bind_done_inv in E as (ne & w4 & E4 & E).
  pose proof (same_out_done _ _ _ _ (frame_setupNodePortRule same_out _ _ _) E4) as O4.
  destruct ne as [ne|]; [injection E as <- <-; congruence|].
  apply PrintResult_done in E. destruct e as [e|]; [rewrite E, app_nil_r; congruence|].
  exists (vv_host v), (vv_cont v). split; [done|]. intros Hne.
  rewrite E, O4, O3, O2, O1. rewrite Hh; [by rewrite Hpr|done|by rewrite Hpr].
Qed.

(** What was read in the Pod's namespace when the peer was found. *)
Lemma discover_peer_done conf args w addrs peer w' :
  discover_peer conf args w = (Done ((addrs, peer), None), w') ->
  exists iface wa wb wc, ext (ns_Enter (Netns args)) w = (Done None, wa) /\
    ext (ip_GetVethPeerIfindex (Some (Netns args)) (ContainerInterface conf)) wa = (Done (Ok peer), wb) /\
    ext (nl_LinkByName (Some (Netns args)) (IfName args)) wb = (Done (Ok iface), wc) /\
    ext (nl_AddrList (Some (Netns args)) iface FAMILY_V4) wc = (Done (Ok addrs), w') /\ addrs <> [].
Proof.
  intros E. apply bind_done_inv in E as ([e|] & wa & E1 & E); [done|].
  apply bind_done_inv in E as ([p|e] & wb & E2 & E); [|done].
  apply bind_done_inv in E as ([iface|e] & wc & E3 & E); [|done].
  apply bind_done_inv in E as ([[|a l]|e] & wd & E4 & E); [done| |done]. injection E as <- <- <-.
  by exists iface, wa, wb, wc.
Qed.
End ptp_effects.

(** Text order: "not before" is a total preorder. *)
#[export] Instance route_less_weak : StrictWeak route_less.
Proof.
  assert (forall a b : string, String.ltb a b = false <-> String.le b a) as Hl.
  { intros a b. unfold String.le, String.leb, String.ltb. rewrite (String.compare_antisym b a).
    by destruct (String.compare a b). }
  split; unfold route_less.
  - intros a b Hab. apply Hl. destruct (base.total String.le (ipnet_String (rt_Dst a)) (ipnet_String (rt_Dst b))) as [H|H]; [done|].
    apply Hl in H. congruence.
  - intros a b c Hba Hcb. rewrite Hl in *. by etransitivity.
Qed.

(** ** Properties *)

(** C31: when the rules of both families can be listed, the search for a free
    route table ends; it returns the least number from its start on that no
    rule of either family uses, and fails, with -1, only if every number below
    [MaxUint32] is used. *)
Theorem findFreeTable_least {X} `{!Host X} start (w w1 w2 : World X) v4 v6 :
  ext (nl_RuleList FAMILY_V4) w = (Done (Ok v4), w1) -> ext (nl_RuleList FAMILY_V6) w1 = (Done (Ok v6), w2) ->
  exists t e, findFreeTable start w = (Done (t, e), w2) /\
    let used j := exists r, (r ∈ v4 \/ r ∈ v6) /\ ru_Table r = j in
    match e with
    | None => start <= t < MaxUint32 /\ ~ used t /\ forall j, start <= j < t -> used j
    | Some _ => t = -1 /\ forall j, start <= j < MaxUint32 -> used j
    end.
Proof.
  intros E4 E6. set (ids := (ru_Table <$> v4) ++ (ru_Table <$> v6)).
  assert (forall j, j ∈ ids <-> exists r, (r ∈ v4 \/ r ∈ v6) /\ ru_Table r = j) as Hids.
  { intros j. unfold ids. rewrite elem_of_app, !list_elem_of_fmap. naive_solver. }
  unfold findFreeTable, allocatedTableIDs. rewrite !bind_assoc, (bind_done _ _ _ _ _ E4), bind_assoc, (bind_done _ _ _ _ _ E6).
  rewrite bind_ret. fold ids. pose proof (first_free_fuel start ids) as Hfuel.
  destruct (first_free _ _ ids) as [[t|]|] eqn:E; [| |done].
  - exists t, None. split; [done|]. cbv zeta. apply first_free_found in E as (? & Hn & Hj). rewrite <- Hids.
    split_and!; [lia|lia|done|]. intros j Hj'. by apply Hids, Hj.
  - eexists (-1), _. split; [done|]. split; [done|]. intros j Hj. apply Hids. by eapply first_free_full.
Qed.

(** C9: when the policy rules of a Pod are set up, its routes, all of them and
    in the order of their destinations' text, have been accepted one after the
    other in a table that was free when it was picked, no more than 999 above
    the start (or the next free one from there); the last call of all sends the
    traffic of the Pod's interface to that table, with priority 1024. *)
Theorem addPolicyRules_done {X} `{!Host X} veth ipc routes start (w : World X) rs w' :
  addPolicyRules veth ipc routes start w = (Done (rs, None), w') ->
  (rs ≡ₚ routes) /\ Sorted (fun a b => route_less b a = false) rs /\
  exists t n w0 w1, 0 <= n < 1000 /\ t <> -1 /\ findFreeTable (wrap64 (start + n)) w0 = (Done (t, None), w1) /\
    all_accepted (route_calls veth ipc t rs ++ [nl_RuleAdd (mkRule (hi_Name veth) t 1024 (-1))]) w1 w'.
Proof.
  unfold addPolicyRules. cbv zeta. intros E. apply bind_done_inv in E as ([t|e] & w2 & E1 & E); [|done].
  destruct (Z.eqb_spec t (-1)) as [|Ht]; [done|]. apply bind_done_inv in E as (err & w3 & E2 & E).
  destruct err as [err|]; [done|]. injection E as <- <-.
  split; [apply sort_slice_perm|]. split; [apply sort_slice_sorted, _|].
  apply try_tables_accepted in E1 as (n & w0 & w1 & Hn & Ef & Ha); [|done].
  exists t, n, w0, w1. split_and!; [lia|lia|done|done|]. eapply all_accepted_app; [exact Ha|by apply accepted_one].
Qed.

(** C32: setting up node ports succeeds only after three marking rules have
    been accepted in order, one that sets the mark on TCP traffic to the node
    ports of the interface, the same for UDP, and one that restores it on what
    comes back from the veth pairs, and after the interface's reverse path filter
    has been set to loose; then the policy rule is added, exactly when the rules
    of the host hold none with its table, mark and priority. *)
Theorem setupNodePortRule_done {X} `{!Host X} ifName nodePorts mark (w w' : World X) :
  setupNodePortRule ifName nodePorts mark w = (Done None, w') ->
  exists w1 rules w2,
    all_accepted ([ipt_New host_ns] ++ (ipt_AppendUnique host_ns "mangle" "PREROUTING" <$>
       [["-i"; ifName; "-p"; "tcp"; "--dport"; nodePorts; "-j"; "CONNMARK"; "--set-mark"; pretty mark;
         "-m"; "comment"; "--comment"; "NodePort Mark"];
        ["-i"; ifName; "-p"; "udp"; "--dport"; nodePorts; "-j"; "CONNMARK"; "--set-mark"; pretty mark;
         "-m"; "comment"; "--comment"; "NodePort Mark"];
        ["-i"; "veth+"; "-j"; "CONNMARK"; "--restore-mark"; "-m"; "comment"; "--comment"; "NodePort Mark"]]%string)
       ++ [sysctl_Sysctl ("net.ipv4.conf." +:+ ifName +:+ ".rp_filter") "2"]) w w1 /\
    ext (nl_RuleList FAMILY_V4) w1 = (Done (Ok rules), w2) /\
    let present := exists r, r ∈ rules /\ ru_Table r = 254 /\ ru_Mark r = mark /\ ru_Priority r = 512 in
    (present /\ w' = w2) \/ (~ present /\ ext (nl_RuleAdd (mkRule EmptyString 254 512 mark)) w2 = (Done None, w')).
Proof.
  intros E. apply bind_done_inv in E as ([e|] & w1 & E1 & E); [done|].
  apply bind_done_inv in E as ([[]|e] & w2 & E2 & E); [|done].
  apply bind_done_inv in E as ([e|] & w3 & E3 & E); [done|]. cbv zeta in E.
  apply bind_done_inv in E as ([rules|e] & w4 & E4 & E); [|done].
  exists w3, rules, w4. split; [|split; [done|]].
  - apply all_accepted_app with w1; [by apply accepted_one|]. apply all_accepted_app with w2; [|by apply accepted_one].
    exact (accepted_loop _ _ (fun _ e => e) _ _ E2).
  - assert (existsb (same_rule (nodeport_rule mark)) rules = true <->
      exists r, r ∈ rules /\ ru_Table r = 254 /\ ru_Mark r = mark /\ ru_Priority r = 512) as He.
    { rewrite existsb_exists. unfold same_rule. setoid_rewrite andb_true_iff. setoid_rewrite andb_true_iff.
      setoid_rewrite Z.eqb_eq. setoid_rewrite list_elem_of_In. cbn. naive_solver. }
    cbv zeta. rewrite <- He. destruct (existsb _ rules); [left; by injection E as <-|right].
    apply bind_done_inv in E as ([e|] & w5 & E5 & E); [done|]. by injection E as <-.
Qed.

(** C11: an ADD of the last plugin prints nothing when it returns an error, and one
    result when it succeeds: the previous result in the version of the
    configuration, with the two ends of the veth pair appended to its
    interfaces (the second one in the Pod's namespace) and its routes put in
    the order of their destinations' text. *)
Theorem ptp_cmdAdd_prints {X} `{!Host X} args (w : World X) e w' :
  ptp_cmdAdd args w = (Done e, w') ->
  match e with
  | Some _ => w_out w' = w_out w
  | None => exists conf w1 prev host cont routes,
      ptp_parseConfig (StdinData args) w = (Done (Ok conf), w1) /\ ptp_PrevResult conf = Some prev /\
      container_ips (nc_CNIVersion (ptp_NetConf conf)) (IfName args) prev <> [] /\
      if_Sandbox cont = Netns args /\
      (routes ≡ₚ res_Routes prev) /\ Sorted (fun a b => route_less b a = false) routes /\
      w_out w' = w_out w ++ [OutResult (mkResult (res_Interfaces prev ++ [host; cont]) (res_IPs prev) routes (res_DNS prev))
                               (nc_CNIVersion (ptp_NetConf conf))]
  end.
Proof.
  intros E. apply bind_done_inv in E as (c & w1 & E1 & E).
  pose proof (same_out_done _ _ _ _ (frame_ptp_parseConfig same_out _) E1) as O1.
  destruct c as [conf|err]; [|by injection E as <- <-].
  destruct (ptp_PrevResult conf) as [prev|] eqn:Ep; [|by injection E as <- <-]. cbv zeta in E.
  destruct (container_ips _ _ prev) as [|ip0 ips] eqn:Eips; [by injection E as <- <-|].
  apply bind_done_inv in E as (iface & w2 & E2 & E). pose proof (same_out_done _ _ _ _ (frame_ext same_out _) E2) as O2.
  destruct iface as [iface|err]; [|injection E as <- <-; congruence].
  apply bind_done_inv in E as (addrs & w3 & E3 & E). pose proof (same_out_done _ _ _ _ (frame_ext same_out _) E3) as O3.
  destruct addrs as [[|a addrs]|err]; [injection E as <- <-; congruence| |injection E as <- <-; congruence].
  apply bind_done_inv in E as (ge & w4 & E4 & E). pose proof (same_out_done _ _ _ _ (frame_ext same_out _) E4) as O4.
  destruct ge as [ge|]; [injection E as <- <-; congruence|].
  apply with_defer_done in E as (w5 & E & Ed).
  assert (w_out w' = w_out w5) as Od by (eapply same_out_done, Ed; solve_frame).
  apply connect_prints in E. assert (w_out w4 = w_out w) as O by congruence. rewrite Od, <- O.
  destruct e as [e|]; [done|]. destruct E as (host & cont & Hsb & E).
  exists conf, w1, prev, host, cont, (sort_slice route_less (res_Routes prev)).
  split; [done|]. split; [done|]. split; [by rewrite Eips|]. split; [done|].
  split; [apply sort_slice_perm|]. split; [apply sort_slice_sorted, _|].
  apply E. intros H0. revert Eips. unfold container_ips. rewrite H0. by destruct (negb _).
Qed.

(** C33: a DEL of the last plugin that succeeds has done nothing after reading its
    configuration when masquerading is off or no namespace is named: the policy
    rule an ADD made stays.  Otherwise it read in that namespace the peer index
    of the container interface and at least one address of the Pod's interface,
    and had the masquerading of each address torn down; then, unless the peer
    index is -1 (unknown), the policy rules of the link of that index and the
    link itself were deleted, in this order. *)
Theorem ptp_cmdDel_done {X} `{!Host X} args (w w' : World X) :
  ptp_cmdDel args w = (Done None, w') ->
  exists conf w1, ptp_parseConfig (StdinData args) w = (Done (Ok conf), w1) /\
    if negb (IPMasq conf) || bool_decide (Netns args = EmptyString) then w' = w1
    else exists addrs peer iface wa wb wc w2 w3, ext (ns_Enter (Netns args)) w1 = (Done None, wa) /\
      ext (ip_GetVethPeerIfindex (Some (Netns args)) (ContainerInterface conf)) wa = (Done (Ok peer), wb) /\
      ext (nl_LinkByName (Some (Netns args)) (IfName args)) wb = (Done (Ok iface), wc) /\
      ext (nl_AddrList (Some (Netns args)) iface FAMILY_V4) wc = (Done (Ok addrs), w2) /\ addrs <> [] /\
      all_accepted ((fun a => ip_TeardownIPMasq (mkIPNet (net_IP (ad_IPNet a)) (CIDRMask 32 32))
          (utils_FormatChainName (X := X) (nc_Name (ptp_NetConf conf)) (ContainerID args))
          (utils_FormatComment (X := X) (nc_Name (ptp_NetConf conf)) (ContainerID args))) <$> addrs) w2 w3 /\
      ((peer = -1 /\ w' = w3) \/
       exists link w4, ext (nl_LinkByIndex host_ns peer) w3 = (Done (Ok link), w4) /\
         all_accepted [nl_RuleDel (mkRule (ln_Name link) 0 (-1) (-1)); nl_LinkDel host_ns link] w4 w').
Proof.
  intros E. apply bind_done_inv in E as ([conf|err] & w1 & E1 & E); [|done]. exists conf, w1. split; [done|].
  destruct (IPMasq conf); cbn [negb orb] in *; [|by injection E]. case_bool_decide; [by injection E|].
  apply bind_done_inv in E as ([[addrs peer] [err|]] & w2 & E2 & E); [done|]. cbn [fst snd] in E.
  apply bind_done_inv in E as ([[]|err] & w3 & E3 & E); [|done].
  apply discover_peer_done in E2 as (iface & wa & wb & wc & Ea & Eb & Ec & Ed & Hne).
  exists addrs, peer, iface, wa, wb, wc, w2, w3. do 5 (split; [done|]).
  split; [exact (accepted_loop _ _ (fun _ e => Errorf "couldn't teardown ip masq: %w" [AErr (Some e)]) _ _ E3)|].
  destruct (Z.eqb_spec peer (-1)); [left; by injection E as <-|right].
  apply bind_done_inv in E as ([link|err] & w4 & E4 & E); [|done]. exists link, w4. split; [done|]. cbv zeta in E.
  apply bind_done_inv in E as ([err|] & w5 & E5 & E); [done|].
  apply bind_done_inv in E as ([err|] & w6 & E6 & E); [done|]. injection E as <-.
  econstructor; [exact E5|by apply accepted_one].
Qed.

(** Chained after the ipvlan plugin, whatever the version of the
    configuration, the last plugin takes every address of the result it is
    handed for the container's: the result names the container's interface once
    and every address points at it. *)
Theorem chained_after_ipvlan version (args : CmdArgs) (i : CniInterface) src dns :
  if_Name i = IfName args ->
  container_ips version (IfName args) (with_DNS dns (on_interface i src))
  = (fun ipc => net_IP (ipc_Address ipc)) <$> res_IPs src.
Proof.
  intros Hi. unfold container_ips, on_interface, with_DNS. cbn [res_IPs res_Interfaces].
  assert (forall l : list IPConfig, List.filter (belongs [i] (IfName args))
    ((fun ipc => mkIPConfig (ipc_Version ipc) (Some 0) (ipc_Address ipc) (ipc_Gateway ipc)) <$> l)
    = (fun ipc => mkIPConfig (ipc_Version ipc) (Some 0) (ipc_Address ipc) (ipc_Gateway ipc)) <$> l) as Hf.
  { induction l as [|a l IH]; [done|]. cbn -[belongs].
    unfold belongs at 1. cbn [ipc_Interface]. change ([i] !! Z.to_nat 0) with (Some i). cbn [option_map].
    rewrite Hi, bool_decide_true by done. cbn [negb andb]. by f_equal. }
  destruct (negb _); [|rewrite Hf]; by rewrite <- list_fmap_compose.
Qed.

(** C17: every request to each of the three plugins comes to an end: no loop of an
    ADD or a DEL runs for ever, whatever the services answer. *)
Theorem plugins_terminate {X} `{!Host X} args (w : World X) :
  (ipam_cmdAdd args w).1 <> OutOfFuel /\ (ipam_cmdDel args w).1 <> OutOfFuel /\
  (ipvlan_cmdAdd args w).1 <> OutOfFuel /\ (ipvlan_cmdDel args w).1 <> OutOfFuel /\
  (ptp_cmdAdd args w).1 <> OutOfFuel /\ (ptp_cmdDel args w).1 <> OutOfFuel.
Proof.
  split_and!; [apply terminates_ipam_cmdAdd|apply terminates_ipam_cmdDel|apply terminates_ipvlan_cmdAdd
    |apply terminates_ipvlan_cmdDel|apply terminates_ptp_cmdAdd|apply terminates_ptp_cmdDel].
Qed.

(** ** The theorems at concrete inputs *)
#[local] Existing Instance good_host.

(** The demonstration host once the veth pair is there. *)
Definition demo_ptp_sim : Sim :=
  mkSim (sim_meta demo_sim) (sim_iddoc demo_sim)
    (sim_ifs demo_sim ++ [mkHostIface 9 "veth0a1b" "0a:01"; mkHostIface 3 "veth0" "0a:02"])
    (sim_links demo_sim ++ [(mkLink 3 "veth0" 1500 "0a:02", []); (mkLink 9 "veth0a1b" 1500 "0a:01", [])])
    (sim_macs demo_sim) (sim_pool demo_sim) (sim_types demo_sim) (sim_subnets demo_sim) (sim_vpcs demo_sim)
    (sim_peerings demo_sim) (sim_enis demo_sim) [mkRule EmptyString 256 32766 (-1)] [].
Definition demo_ptp_world : World Sim := set_ext demo_ptp_sim demo_world.

Definition demo_ptp_members : list (string * json) :=
  [("cniVersion"%string, JStr "0.3.1"); ("name"%string, JStr "k8s"); ("hostInterface"%string, JStr "eth0");
   ("containerInterface"%string, JStr "veth0"); ("ipMasq"%string, JBool true);
   ("prevResult"%string, JObj [("master"%string, JStr "eth1")])].
Definition demo_ptp_args : CmdArgs := mkCmdArgs (Some (JObj demo_ptp_members)) "/var/run/netns/pod" "eth1" "c1".

Definition demo_rule : Rule := mkRule EmptyString 256 32766 (-1).
Definition demo_veth : HostIface := mkHostIface 9 "veth0a1b" "0a:01".
Definition demo_ipc : IPConfig := mkIPConfig "4" (Some 0) (mkIPNet [10; 0; 16; 21] [255; 255; 240; 0]) [10; 0; 16; 1].

Lemma findFreeTable_least_witness :
  exists t e, findFreeTable 256 demo_ptp_world
      = (Done (t, e), (ext (nl_RuleList FAMILY_V6) (ext (nl_RuleList FAMILY_V4) demo_ptp_world).2).2) /\
    let used j := exists r, (r ∈ [demo_rule] \/ r ∈ [demo_rule]) /\ ru_Table r = j in
    match e with
    | None => 256 <= t < MaxUint32 /\ ~ used t /\ forall j, 256 <= j < t -> used j
    | Some _ => t = -1 /\ forall j, 256 <= j < MaxUint32 -> used j
    end.
Proof.
  exact (@findFreeTable_least Sim good_host 256 demo_ptp_world (ext (nl_RuleList FAMILY_V4) demo_ptp_world).2 _
    [demo_rule] [demo_rule] eq_refl eq_refl).
Defined.

Definition demo_sorted_routes : list Route := Eval vm_compute in reverse (res_Routes (sim_result "eth1")).
Definition demo_policy_world : World Sim := Eval vm_compute in
  (addPolicyRules demo_veth demo_ipc (res_Routes (sim_result "eth1")) 256 demo_ptp_world).2.
Lemma demo_addPolicyRules :
  addPolicyRules demo_veth demo_ipc (res_Routes (sim_result "eth1")) 256 demo_ptp_world
  = (Done (demo_sorted_routes, None), demo_policy_world).
Proof. vm_cast_no_check (eq_refl (@Done (list Route * option error) (demo_sorted_routes, None), demo_policy_world)). Qed.
Lemma addPolicyRules_done_witness :
  (demo_sorted_routes ≡ₚ res_Routes (sim_result "eth1")) /\
  Sorted (fun a b => route_less b a = false) demo_sorted_routes /\
  exists t n w0 w1, 0 <= n < 1000 /\ t <> -1 /\ findFreeTable (wrap64 (256 + n)) w0 = (Done (t, None), w1) /\
    all_accepted (route_calls demo_veth demo_ipc t demo_sorted_routes ++ [nl_RuleAdd (mkRule "veth0a1b" t 1024 (-1))])
      w1 demo_policy_world.
Proof.
  exact (@addPolicyRules_done Sim good_host demo_veth demo_ipc (res_Routes (sim_result "eth1")) 256 demo_ptp_world
    demo_sorted_routes demo_policy_world demo_addPolicyRules).
Defined.

Definition demo_nodeport_world : World Sim := Eval vm_compute in (setupNodePortRule "eth0" "30000:32767" 8192 demo_ptp_world).2.
Lemma demo_setupNodePortRule : setupNodePortRule "eth0" "30000:32767" 8192 demo_ptp_world = (Done None, demo_nodeport_world).
Proof. vm_cast_no_check (eq_refl (@Done (option error) None, demo_nodeport_world)). Qed.
Lemma setupNodePortRule_done_witness :
  exists w1 rules w2,
    all_accepted ([ipt_New host_ns] ++ (ipt_AppendUnique host_ns "mangle" "PREROUTING" <$>
       [["-i"; "eth0"; "-p"; "tcp"; "--dport"; "30000:32767"; "-j"; "CONNMARK"; "--set-mark"; pretty 8192;
         "-m"; "comment"; "--comment"; "NodePort Mark"];
        ["-i"; "eth0"; "-p"; "udp"; "--dport"; "30000:32767"; "-j"; "CONNMARK"; "--set-mark"; pretty 8192;
         "-m"; "comment"; "--comment"; "NodePort Mark"];
        ["-i"; "veth+"; "-j"; "CONNMARK"; "--restore-mark"; "-m"; "comment"; "--comment"; "NodePort Mark"]]%string)
       ++ [sysctl_Sysctl ("net.ipv4.conf." +:+ "eth0" +:+ ".rp_filter") "2"]) demo_ptp_world w1 /\
    ext (nl_RuleList FAMILY_V4) w1 = (Done (Ok rules), w2) /\
    let present := exists r, r ∈ rules /\ ru_Table r = 254 /\ ru_Mark r = 8192 /\ ru_Priority r = 512 in
    (present /\ demo_nodeport_world = w2) \/
    (~ present /\ ext (nl_RuleAdd (mkRule EmptyString 254 512 8192)) w2 = (Done None, demo_nodeport_world)).
Proof.
  exact (@setupNodePortRule_done Sim good_host "eth0" "30000:32767" 8192 demo_ptp_world demo_nodeport_world demo_setupNodePortRule).
Defined.

Definition demo_ptp_add_world : World Sim := Eval vm_compute in (ptp_cmdAdd demo_ptp_args demo_ptp_world).2.
Lemma demo_ptp_add : ptp_cmdAdd demo_ptp_args demo_ptp_world = (Done None, demo_ptp_add_world).
Proof. vm_cast_no_check (eq_refl (@Done (option error) None, demo_ptp_add_world)). Qed.
Example demo_ptp_rules : sim_rules (w_ext demo_ptp_add_world) =
  [demo_rule; mkRule "veth0a1b" 257 1024 (-1); mkRule EmptyString 254 512 8192].
Proof. reflexivity. Qed.
Lemma ptp_cmdAdd_prints_witness :
  exists conf w1 prev host cont routes,
      ptp_parseConfig (X := Sim) (StdinData demo_ptp_args) demo_ptp_world = (Done (Ok conf), w1) /\ ptp_PrevResult conf = Some prev /\
      container_ips (nc_CNIVersion (ptp_NetConf conf)) (IfName demo_ptp_args) prev <> [] /\
      if_Sandbox cont = Netns demo_ptp_args /\
      (routes ≡ₚ res_Routes prev) /\ Sorted (fun a b => route_less b a = false) routes /\
      w_out demo_ptp_add_world = w_out demo_ptp_world
        ++ [OutResult (mkResult (res_Interfaces prev ++ [host; cont]) (res_IPs prev) routes (res_DNS prev))
              (nc_CNIVersion (ptp_NetConf conf))].
Proof. exact (@ptp_cmdAdd_prints Sim good_host demo_ptp_args demo_ptp_world None demo_ptp_add_world demo_ptp_add). Defined.

Definition demo_ptp_del_world : World Sim := Eval vm_compute in (ptp_cmdDel demo_ptp_args demo_ptp_world).2.
Lemma demo_ptp_del : ptp_cmdDel demo_ptp_args demo_ptp_world = (Done None, demo_ptp_del_world).
Proof. vm_cast_no_check (eq_refl (@Done (option error) None, demo_ptp_del_world)). Qed.
Lemma ptp_cmdDel_done_witness :
  exists conf w1, ptp_parseConfig (X := Sim) (StdinData demo_ptp_args) demo_ptp_world = (Done (Ok conf), w1) /\
    if negb (IPMasq conf) || bool_decide (Netns demo_ptp_args = EmptyString) then demo_ptp_del_world = w1
    else exists addrs peer iface wa wb wc w2 w3, ext (ns_Enter (Netns demo_ptp_args)) w1 = (Done None, wa) /\
      ext (ip_GetVethPeerIfindex (Some (Netns demo_ptp_args)) (ContainerInterface conf)) wa = (Done (Ok peer), wb) /\
      ext (nl_LinkByName (Some (Netns demo_ptp_args)) (IfName demo_ptp_args)) wb = (Done (Ok iface), wc) /\
      ext (nl_AddrList (Some (Netns demo_ptp_args)) iface FAMILY_V4) wc = (Done (Ok addrs), w2) /\ addrs <> [] /\
      all_accepted ((fun a => ip_TeardownIPMasq (mkIPNet (net_IP (ad_IPNet a)) (CIDRMask 32 32))
          (utils_FormatChainName (X := Sim) (nc_Name (ptp_NetConf conf)) (ContainerID demo_ptp_args))
          (utils_FormatComment (X := Sim) (nc_Name (ptp_NetConf conf)) (ContainerID demo_ptp_args))) <$> addrs) w2 w3 /\
      ((peer = -1 /\ demo_ptp_del_world = w3) \/
       exists link w4, ext (nl_LinkByIndex host_ns peer) w3 = (Done (Ok link), w4) /\
         all_accepted [nl_RuleDel (mkRule (ln_Name link) 0 (-1) (-1)); nl_LinkDel host_ns link] w4 demo_ptp_del_world).
Proof. exact (@ptp_cmdDel_done Sim good_host demo_ptp_args demo_ptp_world demo_ptp_del_world demo_ptp_del). Defined.

Lemma chained_after_ipvlan_witness :
  container_ips "0.3.0" "eth1" (with_DNS emptyDNS (on_interface (mkCniInterface "eth1" "02:bb" "/var/run/netns/pod") (sim_result "eth1")))
  = [[10; 0; 16; 21]].
Proof.
  exact (chained_after_ipvlan "0.3.0" demo_ptp_args (mkCniInterface "eth1" "02:bb" "/var/run/netns/pod") (sim_result "eth1")
    emptyDNS eq_refl).
Defined.
