(* ===== verification/Tool.v ===== *)
(** * Tool: cmd/cni-ipvlan-vpc-k8s-tool

    The actions of the command-line tool.  A table ([text/tabwriter]) reaches
    the output when it is flushed: its rows are printed together, at the end.
    What goes to stderr is left out. *)

From S2P Require Export Ipam.

(** [cli.Context]: the flags of a command by name, and its arguments. *)
Record Context := mkContext {
  c_String : string -> string; c_Int : string -> Z; c_Int64 : string -> Z; c_Bool : string -> bool;
  c_Duration : string -> Z; c_Args : list string }.

Definition comma_ : Ascii.ascii := Ascii.ascii_of_N 44.
Definition equals_ : Ascii.ascii := Ascii.ascii_of_N 61.

Fixpoint filter_tuples (tuples : list string) (ret : gmap string string) : result (gmap string string) :=
  match tuples with
  | [] => Ok ret
  | t :: rest =>
      match strings_Split t equals_ with
      | [k; v] =>
          if bool_decide (k = EmptyString) || bool_decide (v = EmptyString)
          then Err (Errorf "Zero length filter specified: %v" [AStr t])
          else filter_tuples rest (<[k := v]> ret)
      | _ => Err (Errorf "Invalid filter specified %v" [AStr t])
      end
  end.
(** [None] is the nil map. *)
Definition filterBuild (input : string) : result (option (gmap string string)) :=
  if bool_decide (input = EmptyString) then Ok None
  else match filter_tuples (strings_Split input comma_) ∅ with
       | Ok ret => Ok (Some ret)
       | Err err => Err err
       end.

(** How the values printed are rendered. *)
Definition arg_net (n : option IPNet) : earg := match n with Some n => AStr (ipnet_String n) | None => AErr None end.
Definition arg_ips (l : list IP) : earg := AList (ABytes <$> l).
Definition arg_nets (l : list IPNet) : earg := AList ((fun n => arg_net (Some n)) <$> l).
Definition arg_tags (m : gmap string string) : earg := AList ((fun p => AList [AStr p.1; AStr p.2]) <$> sorted_members m).
Definition arg_interface (i : Interface) : earg :=
  AList [AStr (i_ID i); AStr (i_Mac i); AStr (i_IfName i); AInt (i_Number i); arg_ips (i_IPv4s i); AStr (i_SubnetID i);
         arg_net (i_SubnetCidr i); AStr (i_VpcID i); arg_net (i_VpcPrimaryCidr i); arg_nets (i_VpcCidrs i);
         AList (AStr <$> i_SecurityGroupIds i)].

Section tool.
Context {X : Type} `{!Host X}.

(** A flushed table. *)
Definition flush (rows : list (string * list earg)) : M X () :=
  range_fold rows tt (fun row _ => Printf row.1 row.2).
Definition Println (a : earg) : M X () := Printf "%v" [a].

Definition actionNewInterface (c : Context) : M X (option error) :=
  LockfileRun (
    match filterBuild (c_String c "subnet_filter") with
    | Err err => _ ← Printf "Invalid filter specification %v" [AErr (Some err)]; mret (Some err)
    | Ok filters =>
        match c_Args c with
        | [] => _ ← Println (AStr "please specify security groups"); mret (Some (Errorf "need security groups" []))
        | secGrps =>
            newIf ← NewInterface secGrps (default ∅ filters) (c_Int64 c "ip_batch_size");
            match newIf with
            | Err err => _ ← Println (AErr (Some err)); mret (Some err)
            | Ok newIf => _ ← Println (arg_interface newIf); mret None
            end
        end
    end).

Definition actionBugs (c : Context) : M X (option error) :=
  LockfileRun (
    rows ← range_fold (ListBugs (X := X)) [("bug\tafflicted\t"%string, [])] (fun bug rows =>
      b ← bug.2; mret (rows ++ [("%s\t%v\t\n"%string, [AStr bug.1; ABool b])]));
    _ ← flush rows; mret None).

Definition actionRemoveInterface (c : Context) : M X (option error) :=
  LockfileRun (
    match c_Args c with
    | [] => _ ← Println (AStr "please specify an interface"); mret (Some (Errorf "Insufficient Arguments" []))
    | interfaces =>
        err ← RemoveInterface interfaces;
        match err with
        | Some err => _ ← Println (AErr (Some err)); mret (Some err)
        | None => mret None
        end
    end).

(** One address of the arguments of [deallocate]. *)
Definition deallocate_one (toRelease : string) : M X (option error) :=
  if (length (chars toRelease) <? 6)%nat then
    _ ← Println (AStr "please specify an IP"); mret (Some (Errorf "Invalid IP" []))
  else
    match ParseIP toRelease with
    | None => _ ← Println (AStr "please specify a valid IP"); mret (Some (Errorf "IP parse error" []))
    | Some ip =>
        err ← DeallocateIP ip;
        match err with
        | Some err => _ ← Printf "deallocation failed: %v\n" [AErr (Some err)]; mret (Some err)
        | None => mret None
        end
    end.
Definition actionDeallocate (c : Context) : M X (option error) :=
  LockfileRun (
    r ← range_loop (c_Args c) tt (fun toRelease _ =>
      err ← deallocate_one toRelease;
      mret (match err with Some err => inr err | None => inl tt end));
    mret (match r with inl _ => None | inr err => Some err end)).

Definition actionAllocate (c : Context) : M X (option error) :=
  LockfileRun (
    res ← AllocateIPsFirstAvailableAtIndex (c_Int c "index") (c_Int64 c "ip_batch_size");
    _ ← range_fold res.1 tt (fun alloc _ =>
      Printf "allocated %v on %v\n" [ABytes (ar_IP alloc); AStr (LocalName (ar_Interface alloc))]);
    mret res.2).

Definition actionFreeIps (c : Context) : M X (option error) :=
  ips ← FindFreeIPsAtIndex 0 false;
  _ ← (match ips.2 with Some err => Println (AErr (Some err)) | None => mret tt end);
  _ ← flush (("adapter\tip\t"%string, []) ::
        ((fun ip => ("%v\t%v\t\n"%string, [AStr (LocalName (ar_Interface ip)); ABytes (ar_IP ip)])) <$> ips.1));
  mret ips.2.

Definition actionLimits (c : Context) : M X (option error) :=
  limit ← ENILimits;
  match limit.2 with
  | Some err => mret (Some err)
  | None =>
      _ ← flush [("adapters\tipv4\tipv6\t"%string, []);
                 ("%v\t%v\t%v\t\n"%string, [AInt (Adapters limit.1); AInt (l_IPv4 limit.1); AInt (l_IPv6 limit.1)])];
      mret None
  end.

(** The number [maxpods] prints for limits and a [--max] flag. *)
Definition max_pods (limit : ENILimit) (specifiedMax : Z) : Z :=
  let max := wrap64 (wrap64 (Adapters limit - 1) * l_IPv4 limit) in
  if (0 <? specifiedMax) && (specifiedMax <? max) then specifiedMax else max.

Definition actionMaxPods (c : Context) : M X (option error) :=
  limit ← ENILimits;
  match limit.2 with
  | Some err =>
      if c_Bool c "return-error" then mret (Some err)
      else _ ← Printf "%d\n" [AInt 110]; mret None
  | None => _ ← Printf "%d\n" [AInt (max_pods limit.1 (c_Int c "max"))]; mret None
  end.

Definition actionAddr (c : Context) : M X (option error) :=
  ips ← GetIPs;
  match ips with
  | Err err => _ ← Println (AErr (Some err)); mret (Some err)
  | Ok ips =>
      _ ← flush (("iface\tip\t"%string, []) ::
            ((fun ip => ("%v\t%v\t\n"%string, [AStr (bi_Label ip); ABytes (net_IP (bi_IPNet ip))])) <$> ips));
      mret None
  end.

Definition actionEniIf (c : Context) : M X (option error) :=
  interfaces ← GetInterfaces;
  match interfaces with
  | Err err => _ ← Println (AErr (Some err)); mret (Some err)
  | Ok interfaces =>
      _ ← flush (("iface\tmac\tid\tsubnet\tsubnet_cidr\tsecgrps\tvpc\tips\t"%string, []) ::
            ((fun iface => ("%v\t%v\t%v\t%v\t%v\t%v\t%v\t%v\t\n"%string,
               [AStr (LocalName iface); AStr (i_Mac iface); AStr (i_ID iface); AStr (i_SubnetID iface);
                arg_net (i_SubnetCidr iface); AList (AStr <$> i_SecurityGroupIds iface); AStr (i_VpcID iface);
                arg_ips (i_IPv4s iface)])) <$> interfaces));
      mret None
  end.

Definition actionVpcCidr (c : Context) : M X (option error) :=
  interfaces ← GetInterfaces;
  match interfaces with
  | Err err => _ ← Println (AErr (Some err)); mret (Some err)
  | Ok interfaces =>
      rows ← range_fold interfaces [("iface\tmetadata cidr\taws api cidr\t"%string, [])] (fun iface rows =>
        apiCidrs ← DescribeVPCCIDRs (i_VpcID iface);
        mret (rows ++ [("%s\t%v\t%v\t\n"%string,
          [AStr (LocalName iface); arg_nets (i_VpcCidrs iface); arg_nets (result_value [] apiCidrs)])]));
      _ ← flush rows; mret None
  end.

Definition actionVpcPeerCidr (c : Context) : M X (option error) :=
  interfaces ← GetInterfaces;
  match interfaces with
  | Err err => _ ← Println (AErr (Some err)); mret (Some err)
  | Ok interfaces =>
      rows ← range_fold interfaces [("iface\tpeer_dcidr\t"%string, [])] (fun iface rows =>
        apiCidrs ← DescribeVPCPeerCIDRs (i_VpcID iface);
        mret (rows ++ [("%s\t%v\t\n"%string, [AStr (LocalName iface); arg_nets (result_value [] apiCidrs)])]));
      _ ← flush rows; mret None
  end.

Definition actionSubnets (c : Context) : M X (option error) :=
  subnets ← GetSubnetsForInstance;
  match subnets with
  | Err err => _ ← Println (AErr (Some err)); mret (Some err)
  | Ok subnets =>
      _ ← flush (("id\tcidr\tdefault\taddresses_available\ttags\t"%string, []) ::
            ((fun subnet => ("%v\t%v\t%v\t%v\t%v\t\n"%string,
               [AStr (s_ID subnet); AStr (s_Cidr subnet); ABool (s_IsDefault subnet);
                AInt (s_AvailableAddressCount subnet); arg_tags (s_Tags subnet)])) <$> subnets));
      mret None
  end.

Definition actionRegistryList (c : Context) : M X (option error) :=
  LockfileRun (
    ips ←! List newRegistry;
    _ ← flush (("ip\t"%string, []) :: ((fun ip => ("%v\t\n"%string, [ABytes ip])) <$> ips));
    mret None).

(** One round of the loop of [registry-gc]; it ends when [maxReap] reaches 0.
    A failure to forget an address is reported on stderr only. *)
Definition gc_ip (assigned : list BoundIP) (ip : IP) (maxReap : Z) : M X (Z + ()) :=
  if in_use assigned ip then _ ← ForgetIP newRegistry ip; mret (inl maxReap)
  else
    err ← DeallocateIP ip;
    maxReap ← match err with
              | None => _ ← ForgetIP newRegistry ip; mret (wrap64 (maxReap - 1))
              | Some _ => mret maxReap
              end;
    mret (if maxReap =? 0 then inr tt else inl maxReap).

Definition registry_gc (freeAfter maxReap : Z) : M X (option error) :=
  if freeAfter <=? 0 then mret (Some (Errorf "invalid duration" []))
  else
    freeAfter ← Jitter freeAfter (float64_lit 15 100);
    let freeAfter := wrap64 (freeAfter * -1) in
    now ← time_Now;
    ips ←! TrackedBefore newRegistry (time_Add now freeAfter);
    assigned ←! GetIPs;
    _ ← range_loop ips maxReap (gc_ip assigned);
    mret None.

Definition actionRegistryGc (c : Context) : M X (option error) :=
  LockfileRun (registry_gc (c_Duration c "free-after") (c_Int c "max-reap")).

(** The table of commands of [main]: names, declared flags, actions. *)
Record Command := mkCommand {
  cmd_Name : string; cmd_Flags : list string; cmd_Action : Context -> M X (option error) }.
Definition commands : list Command := [
  mkCommand "new-interface" ["subnet_filter"; "ip_batch_size"]%string actionNewInterface;
  mkCommand "remove-interface" [] actionRemoveInterface;
  mkCommand "deallocate" [] actionDeallocate;
  mkCommand "allocate-first-available" ["index"; "ip_batch_size"]%string actionAllocate;
  mkCommand "free-ips" [] actionFreeIps;
  mkCommand "eniif" [] actionEniIf;
  mkCommand "addr" [] actionAddr;
  mkCommand "subnets" [] actionSubnets;
  mkCommand "limits" [] actionLimits;
  mkCommand "maxpods" ["max"]%string actionMaxPods;
  mkCommand "bugs" [] actionBugs;
  mkCommand "vpccidr" [] actionVpcCidr;
  mkCommand "vpcpeercidr" [] actionVpcPeerCidr;
  mkCommand "registry-list" [] actionRegistryList;
  mkCommand "registry-gc" ["free-after"; "max-reap"]%string actionRegistryGc].

(** [main], around the run of the [cli] application: its exit status. *)
Definition tool_main (run : M X (option error)) : M X Z :=
  available ← Available;
  if negb available then mret 1
  else if negb (getuid (X := X) =? 0) then mret 1
  else
    err ← run;
    mret (match err with Some _ => 1 | None => 0 end).
End tool.
Arguments commands X {Host0}.

(** The library's contexts: a flag that a command does not declare reads as
    the zero value. *)
Definition declared (flags : list string) (c : Context) : Prop :=
  forall name, (name ∉ flags) -> c_Bool c name = false /\ c_String c name = EmptyString /\ c_Int c name = 0.

(** ** What [registry-gc] does to the registry *)
Section gc.
Context {X : Type} `{!Host X} `{!ReliableOS X}.
Implicit Types w : World X.

Definition ready w (m : gmap string Time) : Prop := dir_usable (registry_dir X newRegistry) w /\ holds newRegistry w m.
Lemma ready_same_disk w w' m : same_disk w w' -> ready w m -> ready w' m.
Proof. intros D [Hu Hm]. split; [by eapply usable_same_disk|by eapply holds_same_disk]. Qed.
Lemma ready_done {A} (f : M X A) w r w' m : frame same_disk f -> f w = (Done r, w') -> ready w m -> ready w' m.
Proof. intros Hf E. apply ready_same_disk. exact (frame_done same_disk _ _ _ _ Hf E). Qed.

(** [m'] is [m] without the addresses [used], bound on the host, and
    [released], which [DeallocateIP] gave back. *)
Record reaped (assigned : list BoundIP) (m : gmap string Time) (used released : list IP) (m' : gmap string Time) : Prop := {
  rp_entries k : m' !! k = if decide (k ∈ ip_String <$> used ++ released) then None else m !! k;
  rp_used ip : ip ∈ used -> in_use assigned ip = true;
  rp_released ip : ip ∈ released -> in_use assigned ip = false /\
                                    exists wa wb : World X, DeallocateIP ip wa = (Done None, wb) }.

Lemma reaped_used assigned m used released m' ip :
  in_use assigned ip = true -> reaped assigned m used released m' ->
  reaped assigned m (used ++ [ip]) released (delete (ip_String ip) m').
Proof.
  intros Hip [He Hu Hr]. split; [|set_solver|done]. intros k. destruct (decide (k = ip_String ip)) as [->|Hk].
  - rewrite lookup_delete_eq. rewrite decide_True; [done|]. rewrite !fmap_app. set_solver.
  - rewrite lookup_delete_ne, He by done.
    destruct (decide (k ∈ _)) as [H|H]; [rewrite decide_True|rewrite decide_False]; try done;
      rewrite !fmap_app in *; set_solver.
Qed.
Lemma reaped_released assigned m used released m' ip wa wb :
  in_use assigned ip = false -> DeallocateIP ip wa = (Done None, wb) -> reaped assigned m used released m' ->
  reaped assigned m used (released ++ [ip]) (delete (ip_String ip) m').
Proof.
  intros Hip Hd [He Hu Hr]. split; [|done|].
  - intros k. destruct (decide (k = ip_String ip)) as [->|Hk].
    + rewrite lookup_delete_eq. rewrite decide_True; [done|]. rewrite !fmap_app. set_solver.
    + rewrite lookup_delete_ne, He by done.
      destruct (decide (k ∈ _)) as [H|H]; [rewrite decide_True|rewrite decide_False]; try done;
        rewrite !fmap_app in *; set_solver.
  - intros j [Hj| ->%list_elem_of_singleton]%elem_of_app; [by apply Hr|]. split; [done|by exists wa, wb].
Qed.

Lemma ForgetIP_ready ip m w r w' :
  ready w m -> ForgetIP newRegistry ip w = (Done r, w') -> ready w' (delete (ip_String ip) m).
Proof.
  intros [Hu Hm] E. refine (wp_done _ (fun _ w' => ready w' (delete (ip_String ip) m)) _ _ _ _ E).
  apply (wp_ForgetIP newRegistry ip m); [done..|]. intros w1 H1 Hh. by eapply reg_writes_ready.
Qed.

(** The bound on what may still be released. *)
Definition budget (maxReap left : Z) (released : list IP) : Prop :=
  0 < maxReap -> 0 < left /\ left + Z.of_nat (length released) = maxReap.

Lemma gc_ip_reaps assigned maxReap m ip left used released m' w r w' :
  int64_min < left <= int64_max -> ready w m' -> reaped assigned m used released m' -> budget maxReap left released ->
  gc_ip assigned ip left w = (Done r, w') ->
  exists used' released' m'', ready w' m'' /\ reaped assigned m used' released' m'' /\
    (forall j, j ∈ used' ++ released' -> j ∈ used ++ released \/ j = ip) /\
    match r with
    | inl left' => budget maxReap left' released' /\ int64_min <= left' <= int64_max /\ left - 1 <= left'
    | inr _ => 0 < maxReap -> Z.of_nat (length released') = maxReap
    end.
Proof.
  intros Hl Hw Hr Hb E. unfold gc_ip in E. destruct (in_use assigned ip) eqn:Ei.
  - apply bind_done_inv in E as (u & w1 & E1 & E). injection E as <- <-.
    exists (used ++ [ip]), released, (delete (ip_String ip) m').
    split; [by eapply ForgetIP_ready|]. split; [by apply reaped_used|]. split; [set_solver|]. split; [done|lia].
  - apply bind_done_inv in E as (err & w1 & E1 & E).
    pose proof (ready_done _ _ _ _ _ (frame_DeallocateIP same_disk ip) E1 Hw) as Hw1.
    apply bind_done_inv in E as (left' & w2 & E2 & E). destruct err as [err|].
    + injection E2 as <- <-. exists used, released, m'.
      destruct (Z.eqb_spec left 0) as [->|]; injection E as <- <-.
      * split_and!; [done|done|set_solver|]. intros H. destruct (Hb H). lia.
      * split_and!; [done|done|set_solver|done|lia|lia|lia].
    + apply bind_done_inv in E2 as (u & w3 & E3 & E2). injection E2 as <- <-.
      rewrite wrap64_id in E by lia.
      exists used, (released ++ [ip]), (delete (ip_String ip) m').
      assert (forall z, Z.of_nat (length (released ++ [ip])) + z = Z.of_nat (length released) + 1 + z) as Hlen
        by (intros z; rewrite length_app; cbn; lia).
      destruct (Z.eqb_spec (left - 1) 0) as [H0|H0]; injection E as <- <-;
        (split; [by eapply ForgetIP_ready|]; split; [by eapply reaped_released|]; split; [set_solver|]).
      * intros H. destruct (Hb H). specialize (Hlen 0). lia.
      * split; [|lia]. intros H. destruct (Hb H). specialize (Hlen (left - 1)). lia.
Qed.

Lemma gc_loop_reaps assigned maxReap m ips left used released m' w r w' :
  int64_min + Z.of_nat (length ips) < left <= int64_max -> ready w m' -> reaped assigned m used released m' ->
  budget maxReap left released ->
  range_loop ips left (gc_ip assigned) w = (Done r, w') ->
  exists used' released' m'', ready w' m'' /\ reaped assigned m used' released' m'' /\
    (forall j, j ∈ used' ++ released' -> j ∈ used ++ released ++ ips) /\
    (0 < maxReap -> Z.of_nat (length released') <= maxReap).
Proof.
  revert left used released m' w. induction ips as [|ip ips IH]; intros left used released m' w Hl Hw Hr Hb E.
  { injection E as _ <-. exists used, released, m'. split_and!; [done|done|set_solver|]. intros H. destruct (Hb H). lia. }
  cbn [range_loop] in E. apply bind_done_inv in E as (r1 & w1 & E1 & E).
  cbn [length] in Hl. apply gc_ip_reaps with (maxReap := maxReap) (m := m) (used := used) (released := released) (m' := m')
    in E1 as (used1 & rel1 & m1 & Hw1 & Hr1 & Hsub & H1); [|lia|done..].
  destruct r1 as [left1|].
  - destruct H1 as (Hb1 & Hl1 & Hstep). apply IH with (used := used1) (released := rel1) (m' := m1)
      in E as (used2 & rel2 & m2 & Hw2 & Hr2 & Hsub2 & Hmax); [|lia|done..].
    exists used2, rel2, m2. split_and!; [done|done| |done]. intros j Hj. specialize (Hsub2 j Hj).
    rewrite app_assoc, elem_of_app in Hsub2. destruct Hsub2 as [Hj'|Hj']; [apply Hsub in Hj'|]; set_solver.
  - injection E as _ <-. exists used1, rel1, m1. split_and!; [done|done| |].
    + intros j Hj. apply Hsub in Hj. set_solver.
    + intros H. specialize (H1 H). lia.
Qed.

Lemma length_omap_le {A B} (f : A -> option B) l : (length (omap f l) <= length l)%nat.
Proof. induction l as [|a l IH]; [done|]. cbn. destruct (f a); cbn; lia. Qed.

(** An address listed as released before an instant is that of an entry. *)
Lemma released_before_entry t m ip :
  canonical m -> ip ∈ released_before t m -> exists u, m !! ip_String ip = Some u /\ t_ns u < t_ns t.
Proof.
  intros Hcan Hip. apply list_elem_of_omap in Hip as ([k u] & Hk & Hb). cbn [fst snd] in Hb.
  destruct (Before u t) eqn:Eb; [|done]. apply elem_of_map_to_list in Hk. exists u. apply Z.ltb_lt in Eb.
  split; [|done]. destruct (Hcan k) as (j & (q & Hq & Lq & Bq) & ->); [by eexists|].
  rewrite (ParseIP_String_v4 _ _ Hq Bq) in Hb. injection Hb as <-.
  assert (ip_String (IPv4 q) = ip_String j) as ->; [|done].
  unfold ip_String. by rewrite To4_IPv4, Hq.
Qed.

Lemma TrackedBefore_ready t m w r w' :
  ready w m -> TrackedBefore newRegistry t w = (Done r, w') ->
  ready w' m /\ exists ips, r = Ok ips /\ ips ≡ₚ released_before t m.
Proof.
  intros [Hu Hm] E. refine (wp_done _ (fun r w' => ready w' m /\ exists ips, r = Ok ips /\ ips ≡ₚ released_before t m) _ _ _ _ E).
  apply (wp_TrackedBefore newRegistry t m); [done..|]. intros w1 l H1 Hh Hl.
  split; [by eapply reg_writes_ready|by exists l].
Qed.
Lemma Jitter_range d pct w r w' :
  0 <= d -> d + int64_of_float (float64_mul (float64_of_Z d) pct) <= int64_max ->
  Jitter d pct w = (Done r, w') -> d <= r <= int64_max.
Proof.
  unfold Jitter. cbv zeta. generalize (int64_of_float (float64_mul (float64_of_Z d) pct)). intros b Hd Hmax E.
  destruct (Z.leb_spec b 0); [done|]. apply bind_done_inv in E as (j & w2 & E2 & E). injection E as <- _.
  assert (0 <= j < b) by (injection E2 as <- _; by apply rand_intn_range).
  rewrite wrap64_id; unfold int64_min; lia.
Qed.
Lemma frame_Jitter (R : relation (World X)) `{!PreOrder R} `{!ExtClosed R} d pct : frame R (Jitter d pct).
Proof. unfold Jitter. solve_frame. Qed.
Lemma frame_gc_loop assigned ips left : frame clock_le (range_loop ips left (gc_ip assigned)).
Proof. unfold gc_ip. solve_frame. Qed.
Lemma reaped_nil assigned m : reaped assigned m [] [] m.
Proof. split; [|set_solver..]. intros k. rewrite decide_False; [done|]. cbn. set_solver. Qed.
End gc.

(** ** Subnet filters *)
Definition filter_tuple (kv : string * string) : string := str (chars kv.1 ++ equals_ :: chars kv.2).
Definition filter_text (kvs : list (string * string)) : string :=
  str (join_with [comma_] ((fun kv => chars (filter_tuple kv)) <$> kvs)).
Definition filter_map (kvs : list (string * string)) (m : gmap string string) : gmap string string :=
  foldl (fun m kv => <[kv.1 := kv.2]> m) m kvs.
(** A key or a value that can be written in a filter. *)
Definition plain_part (s : string) : Prop := s <> EmptyString /\ (comma_ ∉ chars s) /\ (equals_ ∉ chars s).
Definition plain_pair (kv : string * string) : Prop := plain_part kv.1 /\ plain_part kv.2.

Lemma split_tuple kv :
  (equals_ ∉ chars kv.1) -> (equals_ ∉ chars kv.2) -> strings_Split (filter_tuple kv) equals_ = [kv.1; kv.2].
Proof.
  intros H1 H2. unfold strings_Split, filter_tuple. rewrite chars_str, split_on_app, split_on_nosep by done.
  cbn. by rewrite !str_chars.
Qed.
Lemma split_tuple_inv t k v :
  strings_Split t equals_ = [k; v] -> t = filter_tuple (k, v) /\ (equals_ ∉ chars k) /\ (equals_ ∉ chars v).
Proof.
  intros E. pose proof (join_split_on equals_ (chars t)) as Hj. pose proof (split_on_nosep_all equals_ (chars t)) as Hn.
  unfold strings_Split in E. destruct (split_on equals_ (chars t)) as [|a [|b [|? ?]]]; try done.
  injection E as <- <-. rewrite !chars_str. apply Forall_cons in Hn as [Ha [Hb _]%Forall_cons]. split; [|done].
  unfold filter_tuple. cbn [fst snd]. rewrite !chars_str. rewrite <- (str_chars t), <- Hj. done.
Qed.

Lemma chars_str_fmap (l : list (list Ascii.ascii)) : chars <$> (str <$> l) = l.
Proof. induction l as [|a l IH]; [done|]. cbn. by rewrite chars_str, IH. Qed.

Lemma filter_tuples_ok tuples ret m :
  Forall (fun t => comma_ ∉ chars t) tuples ->
  (filter_tuples tuples ret = Ok m <->
   exists kvs, Forall plain_pair kvs /\ tuples = filter_tuple <$> kvs /\ m = filter_map kvs ret).
Proof.
  intros Hc. revert ret. induction Hc as [|t tuples Ht _ IH]; intros ret.
  { cbn. split; [intros [= <-]; by exists []|]. intros (kvs & _ & Hk & ->). by destruct kvs. }
  cbn [filter_tuples]. split.
  - destruct (strings_Split t equals_) as [|k [|v [|? ?]]] eqn:Es; try done.
    case_bool_decide as Hk; [done|]. case_bool_decide as Hv; [done|]. cbn [orb].
    intros (kvs & Hp & -> & ->)%IH. apply split_tuple_inv in Es as (-> & Hek & Hev).
    unfold filter_tuple in Ht. rewrite chars_str in Ht. cbn [fst snd] in Ht. rewrite elem_of_app, elem_of_cons in Ht.
    exists ((k, v) :: kvs). split; [|done]. constructor; [|done]. split; (split; [done|]; split; [|done]); tauto.
  - intros (kvs & Hp & Hk & ->). destruct kvs as [|[k v] kvs]; [done|]. injection Hk as -> ->.
    apply Forall_cons in Hp as [[(Hk1 & _ & Hk2) (Hv1 & _ & Hv2)] Hp]. rewrite split_tuple by done. cbn [fst snd] in *.
    rewrite !bool_decide_false by done. cbn [orb]. apply IH. by exists kvs.
Qed.

(** ** Properties *)

(** C6: [registry-gc] forgets an address only if its last release lies more than
    [free-after] before the end of the run, and if the address is bound on the
    host or AWS has taken it back; every other entry stays as it was, and with a
    positive [max-reap] no more than that many addresses go back to AWS. *)
Theorem registry_gc_reaps {X} `{!Host X} `{!ReliableOS X} freeAfter maxReap m (w w' : World X) :
  dir_usable (registry_dir X newRegistry) w -> holds newRegistry w m -> canonical m ->
  freeAfter + int64_of_float (float64_mul (float64_of_Z freeAfter) (float64_lit 15 100)) <= int64_max ->
  int64_min + Z.of_nat (size m) < maxReap <= int64_max ->
  registry_gc freeAfter maxReap w = (Done None, w') ->
  exists assigned used released m',
    (exists wa wb : World X, GetIPs wa = (Done (Ok assigned), wb)) /\
    holds newRegistry w' m' /\ reaped (X := X) assigned m used released m' /\
    (forall ip, ip ∈ used ++ released -> exists t, m !! ip_String ip = Some t /\ t_ns t + freeAfter < w_clock w') /\
    (0 < maxReap -> Z.of_nat (length released) <= maxReap).
Proof.
  intros Hu Hm Hcan Hmax Hreap E. unfold registry_gc in E. destruct (Z.leb_spec freeAfter 0); [done|].
  apply bind_done_inv in E as (d & w1 & E1 & E).
  assert (freeAfter <= d <= int64_max) as Hd by (eapply Jitter_range; [|exact Hmax|exact E1]; lia).
  assert (ready w m) as Hw by done. apply (ready_done _ _ _ _ m (frame_Jitter same_disk _ _) E1) in Hw.
  cbv zeta in E. rewrite bind_now in E. apply bind_done_inv in E as (ips & w2 & E2 & E).
  pose proof (frame_done clock_le _ _ _ _ (dframe_TrackedBefore clock_le newRegistry _) E2) as C2.
  apply (TrackedBefore_ready _ m) in E2 as (Hw2 & l & -> & Hl); [|done].
  apply bind_done_inv in E as (ga & w3 & E3 & E). destruct ga as [assigned|]; [|done].
  pose proof (frame_done clock_le _ _ _ _ (frame_GetIPs clock_le) E3) as C3.
  apply (ready_done _ _ _ _ m (frame_GetIPs same_disk) E3) in Hw2.
  apply bind_done_inv in E as (r & w4 & E4 & E). injection E as <-.
  pose proof (frame_done clock_le _ _ _ _ (frame_gc_loop assigned l maxReap) E4) as C4. unfold clock_le in *.
  assert (length l <= size m)%nat as Hlen.
  { rewrite Hl. unfold released_before. rewrite <- length_map_to_list. apply length_omap_le. }
  apply gc_loop_reaps with (maxReap := maxReap) (m := m) (used := []) (released := []) (m' := m)
    in E4 as (used & rel & m' & [_ Hm'] & Hr & Hsub & Hcount); [|lia|done|apply reaped_nil|by intros ?; cbn; lia].
  exists assigned, used, rel, m'. split; [by exists w2, w3|]. split; [done|]. split; [done|]. split; [|done].
  intros ip Hip. apply Hsub in Hip. cbn [app] in Hip. rewrite Hl in Hip.
  apply released_before_entry in Hip as (u & Hu' & Ht); [|done]. exists u. split; [done|].
  unfold time_Add in Ht. cbn [t_ns] in Ht. rewrite wrap64_id in Ht; unfold int64_min, int64_max in *; lia.
Qed.

(** C34: a subnet filter that is not empty is accepted exactly when it is a list
    of pairs key=value separated by commas, keys and values not empty and
    free of both separators; it then means the map of these pairs, of which
    the last counts when a key is repeated. *)
Theorem filterBuild_exact input m :
  input <> EmptyString ->
  (filterBuild input = Ok (Some m) <->
   exists kvs, kvs <> [] /\ Forall plain_pair kvs /\ input = filter_text kvs /\ m = filter_map kvs ∅).
Proof.
  intros Hne. unfold filterBuild. rewrite bool_decide_false by done.
  assert (Forall (fun t => comma_ ∉ chars t) (strings_Split input comma_)) as Hc.
  { unfold strings_Split. apply Forall_fmap. eapply Forall_impl; [apply split_on_nosep_all|].
    intros l Hl. cbn. by rewrite chars_str. }
  assert (forall kvs, Forall plain_pair kvs -> Forall (fun l => comma_ ∉ l) ((fun kv => chars (filter_tuple kv)) <$> kvs)) as Hp.
  { intros kvs H. apply Forall_fmap. eapply Forall_impl; [exact H|]. intros [k v] [(_ & Hk & _) (_ & Hv & _)].
    unfold compose, filter_tuple. cbn [fst snd] in *. rewrite chars_str, elem_of_app, elem_of_cons. intros [?|[?|?]]; done. }
  split.
  - destruct (filter_tuples _ _) as [ret|] eqn:E; [|done]. intros [= <-].
    apply filter_tuples_ok in E as (kvs & Hk & Hs & ->); [|done]. exists kvs.
    assert (input = filter_text kvs) as Hi.
    { unfold filter_text. rewrite <- (str_chars input), <- (join_split_on comma_ (chars input)). do 2 f_equal.
      rewrite <- (chars_str_fmap (split_on _ _)). unfold strings_Split in Hs. rewrite Hs. by rewrite <- list_fmap_compose. }
    split; [|done]. intros ->. by apply Hne.
  - intros (kvs & Hn & Hk & -> & ->).
    assert (strings_Split (filter_text kvs) comma_ = filter_tuple <$> kvs) as Hs.
    { unfold strings_Split, filter_text. rewrite chars_str, split_on_join; [|by destruct kvs|by apply Hp].
      rewrite <- list_fmap_compose. apply list_fmap_ext. intros i kv _. cbn. by rewrite str_chars. }
    assert (filter_tuples (strings_Split (filter_text kvs) comma_) ∅ = Ok (filter_map kvs ∅)) as ->; [|done].
    apply filter_tuples_ok; [done|]. by exists kvs.
Qed.

(** For limits a machine can have, the number of Pods is what the adapters
    beside the first one can hold together, or the maximum asked for when that
    is positive and less; nothing wraps. *)
Lemma max_pods_bounds limit specifiedMax :
  1 <= Adapters limit <= int64_max -> 0 <= l_IPv4 limit -> (Adapters limit - 1) * l_IPv4 limit <= int64_max ->
  max_pods limit specifiedMax =
    (if 0 <? specifiedMax then Z.min specifiedMax ((Adapters limit - 1) * l_IPv4 limit) else (Adapters limit - 1) * l_IPv4 limit) /\
  0 <= max_pods limit specifiedMax <= (Adapters limit - 1) * l_IPv4 limit.
Proof.
  intros [Ha Hb] Hi Hm. unfold max_pods. rewrite (wrap64_id (Adapters limit - 1)) by (unfold int64_min; lia).
  rewrite wrap64_id by (unfold int64_min; nia).
  destruct (Z.ltb_spec 0 specifiedMax), (Z.ltb_spec specifiedMax ((Adapters limit - 1) * l_IPv4 limit)); cbn [andb]; nia.
Qed.

(** C35: [maxpods] never reports an error.  It prints one number: what the limits
    of the instance allow beside the boot interface, or 110 when the limits
    cannot be had: the flag [return-error] it looks at is not one of the flags
    the command declares, so it is never set.  For the limits a machine can have
    nothing wraps: the number is what the adapters beside the first one can hold
    together, cut down to [--max] when that is positive. *)
Theorem maxpods_answers {X} `{!Host X} cmd c (w : World X) e w' :
  cmd ∈ commands X -> cmd_Name cmd = "maxpods"%string -> declared (cmd_Flags cmd) c ->
  cmd_Action cmd c w = (Done e, w') ->
  e = None /\ exists limit lerr w1 n, ENILimits w = (Done (limit, lerr), w1) /\
    w_out w' = w_out w ++ [OutLine "%d\n" [AInt n]] /\
    n = match lerr with Some _ => 110 | None => max_pods limit (c_Int c "max") end /\
    (lerr = None -> 1 <= Adapters limit <= int64_max -> 0 <= l_IPv4 limit -> (Adapters limit - 1) * l_IPv4 limit <= int64_max ->
     n = (if 0 <? c_Int c "max" then Z.min (c_Int c "max") ((Adapters limit - 1) * l_IPv4 limit)
          else (Adapters limit - 1) * l_IPv4 limit)).
Proof.
  intros Hin Hn Hd E. assert (cmd = mkCommand "maxpods" ["max"]%string actionMaxPods) as ->.
  { unfold commands in Hin. repeat (apply elem_of_cons in Hin as [->|Hin]; [done|]). by apply elem_of_nil in Hin. }
  destruct (Hd "return-error"%string) as [Hr _]; [cbn; set_solver|].
  cbn [cmd_Action] in E. apply bind_done_inv in E as ([limit lerr] & w1 & E1 & E). cbn [fst snd] in E.
  pose proof (same_out_done _ _ _ _ (dframe_ENILimits same_out) E1) as O1.
  destruct lerr as [err|]; [rewrite Hr in E|]; apply bind_done_inv in E as (u & w2 & E2 & E);
    injection E as <- <-; injection E2 as _ <-; (split; [done|]); do 4 eexists;
    (split; [done|]); (split; [cbn; by rewrite O1|]); (split; [done|]); [done|]; intros _ Ha Hi Hm;
    by apply max_pods_bounds.
Qed.

(** ** Every command ends *)
Section tool_terminates.
Context {X : Type} `{!Host X}.
Lemma terminates_flush rows : terminates (X := X) (flush rows).
Proof. unfold flush, Printf. solve_terminates. Qed.
Lemma terminates_deallocate_one ip : terminates (X := X) (deallocate_one ip).
Proof. unfold deallocate_one, Println, Printf. solve_terminates. Qed.
Lemma terminates_registry_gc freeAfter maxReap : terminates (X := X) (registry_gc freeAfter maxReap).
Proof. unfold registry_gc, gc_ip, time_Now, Jitter. solve_terminates. Qed.
Lemma terminates_actionBugs c : terminates (X := X) (actionBugs c).
Proof.
  apply terminates_LockfileRun. pose proof terminates_flush.
  unfold ListBugs, HasBugBrokenVPCCidrs. cbn [range_fold fst snd]. solve_terminates.
Qed.
#[local] Hint Resolve terminates_flush terminates_deallocate_one terminates_registry_gc terminates_actionBugs : terminates.
Lemma terminates_command cmd c : cmd ∈ commands X -> terminates (cmd_Action cmd c).
Proof.
  intros Hin. unfold commands in Hin.
  repeat (apply elem_of_cons in Hin as [->|Hin]; [cbn [cmd_Action]|]); [..|by apply elem_of_nil in Hin].
  all: unfold actionNewInterface, actionRemoveInterface, actionDeallocate, actionAllocate, actionFreeIps, actionEniIf,
    actionAddr, actionSubnets, actionLimits, actionMaxPods, actionVpcCidr, actionVpcPeerCidr, actionRegistryList,
    actionRegistryGc, Println, Printf; lazymatch goal with |- terminates (LockfileRun _) => apply terminates_LockfileRun | _ => idtac end.
  all: solve_terminates.
Qed.
End tool_terminates.

(** C40: every command of the tool comes to an end, whatever its flags and arguments
    and whatever the services answer; so does [main] around it. *)
Theorem tool_terminates {X} `{!Host X} cmd c (w : World X) :
  cmd ∈ commands X -> (cmd_Action cmd c w).1 <> OutOfFuel /\ (tool_main (cmd_Action cmd c) w).1 <> OutOfFuel.
Proof.
  intros Hin. assert (terminates (cmd_Action cmd c)) as Ha by by apply terminates_command.
  split; [apply Ha|]. assert (terminates (tool_main (cmd_Action cmd c))) as Hm by (unfold tool_main, Available; solve_terminates).
  apply Hm.
Qed.

(** ** The theorems at concrete inputs *)
#[local] Existing Instance good_host.

Definition demo_gc_world : World Sim := Eval vm_compute in (registry_gc Minute 1 demo_reg_world).2.
Lemma demo_gc : registry_gc Minute 1 demo_reg_world = (Done None, demo_gc_world).
Proof. vm_cast_no_check (eq_refl (@Done (option error) None, demo_gc_world)). Qed.
Example demo_gc_log : sim_log (w_ext demo_gc_world) = ["unassign"%string].
Proof. reflexivity. Qed.
Lemma registry_gc_reaps_witness :
  exists assigned used released m',
    (exists wa wb : World Sim, GetIPs wa = (Done (Ok assigned), wb)) /\
    holds newRegistry demo_gc_world m' /\ reaped (X := Sim) assigned demo_registry used released m' /\
    (forall ip, ip ∈ used ++ released ->
       exists t, demo_registry !! ip_String ip = Some t /\ t_ns t + Minute < w_clock demo_gc_world) /\
    (0 < 1 -> Z.of_nat (length released) <= 1).
Proof.
  apply (@registry_gc_reaps Sim good_host _ Minute 1 demo_registry demo_reg_world demo_gc_world (demo_usable _) demo_holds
    demo_canonical); [vm_compute; discriminate|split; [vm_compute; reflexivity|vm_compute; discriminate]|exact demo_gc].
Defined.

Lemma filterBuild_exact_witness :
  filterBuild "kubernetes_kubelet=true,Name=pods"
  = Ok (Some (filter_map [("kubernetes_kubelet", "true"); ("Name", "pods")]%string ∅)).
Proof.
  apply (filterBuild_exact "kubernetes_kubelet=true,Name=pods"
    (filter_map [("kubernetes_kubelet", "true"); ("Name", "pods")]%string ∅) ltac:(discriminate)).
  exists [("kubernetes_kubelet", "true"); ("Name", "pods")]%string.
  split; [discriminate|]. split; [|split; reflexivity].
  repeat constructor; try discriminate; by apply (bool_decide_unpack _).
Defined.

Definition demo_context : Context :=
  mkContext (fun _ => EmptyString) (fun name => if bool_decide (name = "max"%string) then 20 else 0)
    (fun _ => 0) (fun _ => false) (fun _ => 0) [].
Lemma demo_declared : declared ["max"%string] demo_context.
Proof.
  intros name Hn. split; [done|]. split; [done|]. cbn. by rewrite bool_decide_false by set_solver.
Qed.
Definition demo_maxpods : Command (X := Sim) := mkCommand "maxpods" ["max"%string] actionMaxPods.
Lemma maxpods_answers_witness :
  @None error = None /\ exists limit lerr w1 n, ENILimits demo_world = (Done (limit, lerr), w1) /\
    w_out (actionMaxPods demo_context demo_world).2 = w_out demo_world ++ [OutLine "%d\n" [AInt n]] /\
    n = match lerr with Some _ => 110 | None => max_pods limit (c_Int demo_context "max") end /\
    (lerr = None -> 1 <= Adapters limit <= int64_max -> 0 <= l_IPv4 limit -> (Adapters limit - 1) * l_IPv4 limit <= int64_max ->
     n = (if 0 <? c_Int demo_context "max" then Z.min (c_Int demo_context "max") ((Adapters limit - 1) * l_IPv4 limit)
          else (Adapters limit - 1) * l_IPv4 limit)).
Proof.
  apply (@maxpods_answers Sim good_host demo_maxpods demo_context demo_world None (actionMaxPods demo_context demo_world).2);
    [|reflexivity|exact demo_declared|vm_compute; reflexivity].
  unfold commands, demo_maxpods. do 9 apply list_elem_of_further. apply list_elem_of_here.
Defined.

Lemma tool_terminates_witness :
  (cmd_Action demo_maxpods demo_context demo_world).1 <> OutOfFuel /\
  (tool_main (cmd_Action demo_maxpods demo_context) demo_world).1 <> OutOfFuel.
Proof.
  apply (@tool_terminates Sim good_host demo_maxpods demo_context demo_world).
  unfold commands, demo_maxpods. do 9 apply list_elem_of_further. apply list_elem_of_here.
Defined.
